(* ===== verification/_CoqProject ===== *)
-Q . S2P
Prelude.v
Runtime.v
Base64.v
Sha256.v
ReplayCache.v
Connections.v
Schema.v
RefreshToken.v
RefreshStore.v
FlowStore.v
OtpStore.v
GrantStore.v
RefreshSpec.v
FamilySafety.v
StoreSafety.v
FlowSafety.v
OtpSafety.v
RefreshProperties.v
FlowProperties.v
Json.v
Config.v
Upstream.v
Credentials.v
Tokens.v
Services.v
RefreshService.v
ExchangeSafety.v
ExchangeProperties.v
TokenProperties.v
TrustPolicy.v
SchemaSafety.v
TrustConfig.v
TrustProperties.v
PolicySchema.v
Lru.v
AuthPolicy.v
Resolver.v
AuthSafety.v
AuthProperties.v
Durations.v
Rounding.v
ConfigDecode.v
LoaderFields.v
Loader.v
LoaderSafety.v
LoaderProperties.v
Providers.v
ProviderProperties.v
Dpop.v
DpopProperties.v
Trust.v
TrustServiceProperties.v
Dial.v
DialProperties.v
Http.v
Oidc.v
OidcToken.v
OidcResource.v
OidcFlow.v
OidcAuthorize.v
Server.v
ServerHistory.v
OidcAnswers.v
OidcSafety.v
OidcSample.v
OidcComplete.v
OidcProperties.v
Replicas.v
DpopClient.v
ServerAnswers.v
Secrets.v
Mail.v
MailProperties.v
Databases.v
Pages.v
Startup.v
StartupProperties.v
Commands.v
DevServer.v
Program.v
