(* ===== verification/Prelude.v ===== *)
(** * Truster: a verification library

    Truster is an OpenID provider: it lets users log in through upstream providers or by
    mail, issues authorization codes, access, ID and refresh tokens, binds them to DPoP
    keys, and exchanges identity tokens of external issuers under trust policies.  This
    development translates the Go code of [src/internal] and [src/trustpolicy] into Rocq,
    component by component, and proves what makes it correct.

    ** Parts and files

    The foundations:
    - Prelude.v: record update, instants and durations, strings, and the lemmas and
      tactics all files share;
    - Runtime.v: Go errors with [errors.Is], the clock, randomness and Unicode tables
      ([Env]), the state monad with early return the code is written in ([run],
      [return_], [return_if], [call]), and its rules;
    - Base64.v, Sha256.v, Json.v: the encodings, hashes and JSON values the program
      computes with.

    The state database (internal/statedb):
    - Connections.v: the wrapper of database/sql: the schema, the deadline and the context of
      each statement (database.go);
    - Schema.v: tables, rows, statements, transactions with faults (sqlite.go and the
      migrations);
    - RefreshToken.v, RefreshStore.v, Credentials.v: refresh families, claims, rotation,
      revocation and encrypted credentials (refresh.go, revocation.go);
    - FlowStore.v: states, codes, pushed requests, credentials of a login, cleanup
      (statedb.go, par.go); OtpStore.v: one-time codes (otp.go); GrantStore.v: grants
      managed by their owner (grants.go);
    - Databases.v: opening SQLite and PostgreSQL, the version of the
      schema and its migrations, and the TLS policy of a connection (sqlite.go,
      postgresql.go, postgresql_migrate.go and internal/authpolicy/postgresql.go);
    - RefreshSpec.v and OtpSafety.v: the contract of each transaction and the proof that
      it is implemented atomically; FamilySafety.v, StoreSafety.v, FlowSafety.v: families
      and single-use rows as step relations, their invariants and irreversible facts, for
      every history of store operations; RefreshProperties.v and
      FlowProperties.v: the resulting promises, and what the cleanup deletes.

    The services:
    - Services.v: a process is the database, its peers (resolver, providers, HTTP, mail,
      the DPoP replay cache, the cache of issuers) and what it slept; relations between
      the states before and after a body ([calls], [steps]), what the results of a body
      satisfy ([produces]), and what a body has established when it goes on ([gate]);
    - ReplayCache.v, Dpop.v, DpopProperties.v: DPoP proofs, their window in float64 time and
      their single use (internal/dpop); Rounding.v: what the float64 operations of
      Durations.v compute;
    - Upstream.v, Tokens.v, TokenProperties.v: provider credentials (internal/upstream:
      connector.go, error.go) and the claims of tokens (internal/tokens);
    - Providers.v: the connectors for Google, GitHub and generic providers (google.go,
      github.go, generic.go); ProviderProperties.v: what the services rely on of them, as
      a class, and its instance;
    - Config.v, Durations.v, ConfigDecode.v, LoaderFields.v, Loader.v: the configuration
      (internal/config): its structs, [time.ParseDuration], its decoding from JSON, the
      checks on the document, defaults and validation; LoaderSafety.v, LoaderProperties.v:
      what a configuration the program starts with satisfies;
    - TrustConfig.v, TrustPolicy.v, SchemaSafety.v, TrustProperties.v: trust issuers and
      bindings (internal/config/trust.go) and the schemas of trust policies
      (src/trustpolicy);
    - Lru.v, AuthPolicy.v, Resolver.v, AuthSafety.v, AuthProperties.v: policy, static or
      from a database (internal/authpolicy);
    - Trust.v, TrustServiceProperties.v: external identity tokens
      (internal/trust); Dial.v, DialProperties.v: the addresses to which the keys of dynamic
      issuers are asked for (its publicDialContext and redirects);
    - PolicySchema.v: the published JSON Schema of trust policies and what its keywords
      accept (src/trustpolicy/schema.go), and the program that writes it (src/scripts);
    - RefreshService.v, ExchangeSafety.v, ExchangeProperties.v: the exchange of a refresh
      token (internal/refresh).

    The server (internal/oidc, and the routes of internal/cmd/serve.go):
    - Http.v: requests and answers; Oidc.v: what the handlers share; OidcToken.v: the
      token endpoint; OidcResource.v: revocation and user information; OidcFlow.v: the
      pages of a login; OidcAuthorize.v: authorization and pushed requests; Server.v: the
      remaining endpoints, the middleware and the routes;
    - ServerHistory.v: whatever requests are served, the database goes through a history
      of store operations; OidcAnswers.v: the answers of the token endpoint; OidcSafety.v:
      what each handler has established when it issues something; OidcComplete.v: what
      makes the exchange of a code succeed;
    - OidcSample.v: a concrete site on which the handlers evaluate, from the
      authorization request to the tokens; OidcProperties.v: the promises;
    - ServerAnswers.v: every handler, on every request, answers one of the statuses it may;
    - Replicas.v: servers with peers of their own over one database, and the proxy that
      alternates between them (src/scripts/test-rr-proxy);
    - DpopClient.v: the client of the end-to-end tests, the proofs it makes and what it
      checks of a deployment (src/scripts/e2e/dpop-client).

    What surrounds the server:
    - Secrets.v: secret sources and their stores (internal/secrets), signing keys and the
      key set (internal/tokens);
    - Mail.v, MailProperties.v: rendering mails and the SMTP session that sends them, with a
      record of what was put on the wire, and the bot challenge (internal/email,
      internal/challenge);
    - Pages.v: the templates of pages and mails and the public directory
      (internal/templates);
    - Startup.v, StartupProperties.v: building the server from its configuration, TLS
      certificates and the demo configuration (serve.go, servertls, demo.go);
    - Commands.v: the commands migrate and check, and the version;
    - DevServer.v: the previews of the templates (internal/dev);
    - Program.v: the server that starts and the services it starts with, together.

    A definition keeps the name of the Go function it translates; a method of a type that
    another type also has is inside a Module of that type's name, and a piece of a long
    function has a name of its own.  The class of a service ([PolicyResolver],
    [TrustResolver], [Connectors], [Contexts], [HTTPClient], [Mailer], ...) is the Go
    interface the code is written against; Resolver.v, Trust.v and Providers.v instantiate
    those whose code is in the repository.

    ** What the theorems show

    - Codes and tokens are issued only when everything is in order: a code for a flow the
      policy admits with the user's consent, tokens for a code whose verifier, client,
      redirect URI and key are proved, a new pair for an unconsumed token of a family in
      force, an external token under a key of its issuer and exactly one binding.  Proofs are
      verified and reserved at readings of the clock made during the request, and the policy
      is asked in the states the request passes through.
    - An authorization code of a flow without a refresh grant that is presented in order is
      exchanged for the tokens signed for its grant, when neither the database nor the
      entropy fails: the conditions of its refusals are complete.
    - A proof of possession that the client makes is accepted by the server while it is
      fresh; a proof that was accepted is refused from then on, except within 512
      nanoseconds of both ends of its window, which its float64 arithmetic leaves open.
    - What the database promises it promises to every replica: the invariants hold after
      any requests to any of them, and a code is exchanged by one of them at most.
    - A configuration the program starts with is sound, and so is every client the policy
      resolver resolves under it.
    - An identity is what the provider asserted in answer to the user's token, and a
      refreshed credential the answer to the refresh token alone, which is never lost.
    - A server that starts has everything its handlers rely on: keys of the right size,
      a mailer and templates when a provider sends mail, and a database of its version.
      A one-time code is handed to a mail server only inside TLS.  Of a PostgreSQL state
      database what is shown is what is checked: the host written in the URL of the
      configured secret is local, or its mode is one of TLS.
    - A started server, its resolver, providers, mailer and pages being those its
      configuration chose, answers every request with one of the program's statuses, and
      the pages it renders, that of a path that names nothing included, are never to be
      stored.
    - The keys of a dynamic issuer are asked for only at public addresses, after every
      redirect and whatever the name resolves to, in at most three requests to the origin of
      the issuer and three to the origin its document names; the published schema of trust policies
      accepts what the running program accepts, byte lengths of texts aside.
    - No operation of the database leaves its context open, and each is bounded in time.
    - A refusal issues nothing and changes nothing but the claim and the revocation of the
      family, and a credential that the provider may have consumed is never used again, by
      any replica after any requests (Replicas.v).
    - Codes, pushed requests, one-time codes, actions and refresh tokens are used at most
      once, a replay revokes its family, and nothing revives a revoked family.  Guesses are
      bounded for each one-time code that is issued, and the codes issued to an address in
      an hour, by ledgers kept along a history of the store (OtpSafety.v).
    - The transactions implement their contracts atomically under any pattern of database
      failures; families stay well formed and their terms never widen, over all store
      histories and so over all sequences of requests.
    - The token endpoint answers every request in one of the documented ways; waits end;
      caches stay bounded, sound and fresh; parsers accept exactly the canonical texts;
      verifiers accept exactly the proofs of a relational description; failures of a
      policy lookup are retryable and never denials.
    - Places where the code and its intent differ: a resend revives a challenge its
      guesses had used up, a lifetime of centuries wraps around, a proof accepted in the
      first instant of its window is accepted again in the last, a directory that
      migrate creates for SQLite is one that serve refuses, and on SQLite times written in
      the local zone are compared as texts with times in UTC.

    ** Modelling decisions

    - A [time.Time] is an instant in nanoseconds; monotonic readings play no part.  The
      location of a value matters only where a statement compares a stored time in the local
      zone with one in UTC: go-sqlite3 writes a time with its zone and SQLite compares the
      texts ([written_before], Runtime.v), PostgreSQL compares instants.  [Env] says which
      database it is and how far the local zone is from UTC; the offset is a fixed one, so
      that the change to summer time is not modelled.  Columns that are written and compared
      in one zone compare as instants ([written_before_same]).  Each reading of the clock
      and each random draw is an arbitrary value given by [Env], indexed by a counter of the
      world, so that a theorem holds for every clock; hypotheses of monotonicity are stated
      where a theorem needs them.
    - A statement of the database is atomic, and fails when [Env] says so or when it
      violates a constraint of the schema.  A commit that fails is not applied.  The order
      in which a cleanup batch meets the rows is not determined by the code and is given
      by the environment.
    - A request is answered by one replica, and its operations are not interleaved with
      those of other requests except where the store theorems quantify over all histories of
      operations: there any interleaving of transactions is a history.  In the cluster of
      Replicas.v the cleanup does not run between the requests.  A mutex or a singleflight
      group is a call that runs alone.
    - Third-party libraries (JWT, JOSE, JSON Schema, hujson, AES-GCM), the parsers of
      the standard library that turn text into a value the program then inspects (JSON
      text, url.Parse, mail.ParseAddress, HTML templates), and what lies outside the
      process (the SMTP server, the file system, SQL drivers, secret stores) are classes
      whose laws are stated where a theorem relies on them and which the witnesses
      instantiate with concrete functions.
    - Answers are values: a redirect is a target with the parameters set on it, a page the
      data of its template with the text it was rendered to.  Logging is left out.  The multiplexer's cleaning
      of paths is not modelled.  A handler that would dereference nil answers [panicked].
    - In the callback a provider that returns neither a credential nor an error makes the
      code panic; the connectors of Providers.v never do ([LawfulConnectors]).

    ** Bounds and fuel

    - [claim_fuel] (21) bounds the polls for a refresh claim: one every 50 ms during the
      second of [refreshBusyWait] and the first, so the fuel is not reached when the clock
      does not go back, which [claim_wait_terminates] proves.
    - [otp_draws] (4096) bounds the rejection sampling of one-time codes; one draw
      in four is rejected and exhaustion is reported as a failure to read randomness.
    - Three attempts to insert fresh refresh material are the code's own bound.
    - [redirect_fuel] (10) bounds the redirects of a request; the rule of redirects ends
      them after three requests, so that more fuel changes nothing
      ([redirect_fuel_enough]).
    - The machine-width arithmetic that can overflow (durations in [NormalizeCredential],
      instants in SQL columns) is written out with its wrap-around.

    ** Not modelled

    - The SQL drivers and the wire protocols of the databases; statements and their
      failures stand for them.
    - The oauth2 library, net/http and net/smtp below the calls the code makes.
    - The parsing of flags and the help texts, the raw mode of a terminal, and what only
      logs.
    - Tickers: the cleanup, the reload of certificates and that of previews are functions
      of the sequence of their ticks. *)

From Stdlib Require Export Ascii.
From stdpp Require Export prelude strings list gmap sorting.
From Stdlib Require Export ZArith Lia.

Open Scope Z_scope.

(** ** Record update

    [r <| field := v |>] is the Go assignment [r.field = v] on a value copy.  A
    record declares its eta expansion once ([Eta]); setters are then found by
    instance resolution. *)

Class Eta (R : Type) := eta_expand : R -> R.
Class Setter {R E : Type} (proj : R -> E) := upd : E -> R -> R.

Ltac build_setter :=
  lazymatch goal with
  | |- @Setter ?R ?E ?p =>
      let e := constr:(_ : Eta R) in
      let e := lazymatch e with
               | ?i : _ => eval unfold i in i
               | ?i => eval unfold i in i
               end in
      let t := eval pattern p in e in
      lazymatch t with
      | ?g _ => let b := eval cbv beta in (fun (v : E) => g (fun _ => v)) in exact b
      end
  end.

#[global] Hint Extern 1 (Setter _) => build_setter : typeclass_instances.
#[global] Arguments upd {R E} proj {_} v r /.

Declare Scope go_scope.
Delimit Scope go_scope with go.
Open Scope go_scope.

Notation "r <| f := v |>" := (upd f v r)
  (at level 1, f at next level, v at level 200, left associativity,
   format "r  <| f  :=  v |>") : go_scope.

(** ** Time

    A [time.Time] is an instant: nanoseconds since the Unix epoch.  The zero
    [time.Time] is 0001-01-01T00:00:00Z, the value [IsZero] recognises.  A
    [time.Duration] is an int64 count of nanoseconds. *)

Abbreviation time := Z (only parsing).
Abbreviation duration := Z (only parsing).

Definition nanosecond : duration := 1.
Definition second : duration := 1000000000.
Definition minute : duration := 60 * second.
Definition hour : duration := 60 * minute.

Definition zero_time : time := -62135596800 * second.
Definition is_zero (t : time) : bool := t =? zero_time.
Definition before (t u : time) : bool := t <? u.
Definition after (t u : time) : bool := u <? t.
Definition add (t : time) (d : duration) : time := t + d.

Definition min_int64 : Z := - 2 ^ 63.
Definition max_int64 : Z := 2 ^ 63 - 1.

(** [t.Sub(u)] saturates at the bounds of [time.Duration]. *)
Definition sub (t u : time) : duration := Z.max min_int64 (Z.min max_int64 (t - u)).

(** An int64 operation wraps around. *)
Definition wrap64 (z : Z) : Z := (z + 2 ^ 63) mod 2 ^ 64 - 2 ^ 63.

Lemma wrap64_small z : min_int64 <= z <= max_int64 -> wrap64 z = z.
Proof. unfold wrap64, min_int64, max_int64. intros ?. rewrite Z.mod_small; lia. Qed.

Lemma wrap64_range z : min_int64 <= wrap64 z <= max_int64.
Proof.
  unfold wrap64, min_int64, max_int64.
  pose proof (Z.mod_pos_bound (z + 2 ^ 63) (2 ^ 64)). lia.
Qed.

(** [cap t u] is the code's [if t.After(u) { t = u }]. *)
Definition cap (t u : time) : time := if after t u then u else t.

Lemma cap_min t u : cap t u = Z.min t u.
Proof. unfold cap, after. destruct (Z.ltb_spec u t); lia. Qed.

(** ** Strings

    A Go string is a sequence of bytes. *)

Definition len (s : string) : Z := Z.of_nat (String.length s).
Definition is_empty (s : string) : bool := (s =? "")%string.

Definition byte_z (c : ascii) : Z := Z.of_N (N_of_ascii c).
Definition z_byte (z : Z) : ascii := ascii_of_N (Z.to_N (z mod 256)).

Definition is_ascii_byte (c : ascii) : bool := byte_z c <? 128.

Fixpoint string_forallb (f : ascii -> bool) (s : string) : bool :=
  match s with
  | EmptyString => true
  | String c s' => f c && string_forallb f s'
  end.

Definition is_ascii (s : string) : bool := string_forallb is_ascii_byte s.

Definition lower_byte (c : ascii) : ascii :=
  let z := byte_z c in
  if (65 <=? z) && (z <=? 90) then z_byte (z + 32) else c.

Fixpoint string_map (f : ascii -> ascii) (s : string) : string :=
  match s with
  | EmptyString => EmptyString
  | String c s' => String (f c) (string_map f s')
  end.

(** The ASCII space characters of [strings.Fields] and [strings.TrimSpace]. *)
Definition is_space_byte (c : ascii) : bool :=
  let z := byte_z c in (z =? 32) || ((9 <=? z) && (z <=? 13)).

Fixpoint trim_left (s : string) : string :=
  match s with
  | String c s' => if is_space_byte c then trim_left s' else s
  | EmptyString => EmptyString
  end.

Fixpoint trim_right (s : string) : string :=
  match s with
  | EmptyString => EmptyString
  | String c s' =>
      match trim_right s' with
      | EmptyString => if is_space_byte c then EmptyString else String c EmptyString
      | t => String c t
      end
  end.

(** [strings.Fields] on ASCII input: maximal runs of non-space bytes. *)
Fixpoint fields_go (s cur : string) : list string :=
  match s with
  | EmptyString => if is_empty cur then [] else [cur]
  | String c s' =>
      if is_space_byte c
      then (if is_empty cur then [] else [cur]) ++ fields_go s' ""
      else fields_go s' (cur +:+ String c "")
  end.
Definition ascii_fields (s : string) : list string := fields_go s "".

(** [strings.Split(s, sep)] for a one-byte separator. *)
Fixpoint split_on (sep : ascii) (s : string) : list string :=
  match s with
  | EmptyString => [""]
  | String c s' =>
      if Ascii.eqb c sep then "" :: split_on sep s'
      else match split_on sep s' with
           | [] => [String c ""]
           | p :: ps => String c p :: ps
           end
  end.

Fixpoint has_prefix (s prefix : string) : bool :=
  match prefix, s with
  | EmptyString, _ => true
  | String p ps, String c cs => Ascii.eqb p c && has_prefix cs ps
  | String _ _, EmptyString => false
  end.

Fixpoint drop_bytes (n : nat) (s : string) : string :=
  match n, s with
  | O, _ => s
  | S n', String _ s' => drop_bytes n' s'
  | S _, EmptyString => EmptyString
  end.

Fixpoint take_bytes (n : nat) (s : string) : string :=
  match n, s with
  | S n', String c s' => String c (take_bytes n' s')
  | _, _ => EmptyString
  end.

Definition trim_prefix (s prefix : string) : string :=
  if has_prefix s prefix then drop_bytes (String.length prefix) s else s.

Fixpoint contains (s sub : string) : bool :=
  has_prefix s sub ||
  match s with
  | EmptyString => false
  | String _ s' => contains s' sub
  end.

Definition contains_byte (s : string) (b : ascii) : bool :=
  negb (string_forallb (fun c => negb (Ascii.eqb c b)) s).

(** [strings.Join(l, sep)]. *)
Fixpoint join (sep : string) (l : list string) : string :=
  match l with
  | [] => ""
  | [x] => x
  | x :: l' => x +:+ sep +:+ join sep l'
  end.

Definition mem (x : string) (l : list string) : bool := existsb (String.eqb x) l.

Lemma mem_true x l : mem x l = true <-> x ∈ l.
Proof.
  unfold mem. rewrite existsb_exists. setoid_rewrite <- list_elem_of_In. split.
  - by intros (y & Hy & ->%String.eqb_eq).
  - intros Hx. exists x. by rewrite String.eqb_refl.
Qed.

Lemma mem_false x l : mem x l = false <-> x ∉ l.
Proof. rewrite <- mem_true. by destruct (mem x l). Qed.

(** [sort.Strings]: bytewise lexicographic order. *)
Definition sort_strings (l : list string) : list string := merge_sort String.le l.

(** ** Numbers

    [strconv.ParseInt(s, 10, 64)]: an optional sign and at least one decimal digit,
    within the range of int64; [None] is its error. *)
Definition digit (c : ascii) : option Z :=
  let z := byte_z c in if (48 <=? z) && (z <=? 57) then Some (z - 48) else None.

Fixpoint digits (s : string) (acc : Z) : option Z :=
  match s with
  | EmptyString => Some acc
  | String c s' => d ← digit c; digits s' (10 * acc + d)
  end.

Definition parse_int64 (s : string) : option Z :=
  let unsigned (negative : bool) (t : string) :=
    if is_empty t then None
    else n ← digits t 0;
         let z := if negative then - n else n in
         if (min_int64 <=? z) && (z <=? max_int64) then Some z else None in
  match s with
  | String c t =>
      if Ascii.eqb c "+"%char then unsigned false t
      else if Ascii.eqb c "-"%char then unsigned true t
      else unsigned false s
  | EmptyString => None
  end.

Example parse_int64_examples :
  map parse_int64 ["3600"; "-1"; "+7"; ""; "-"; "1_0"; "9223372036854775807"; "9223372036854775808"]
  = [Some 3600; Some (-1); Some 7; None; None; None; Some max_int64; None].
Proof. vm_compute. reflexivity. Qed.

(** ** Lemmas on bytes and strings *)

Lemma byte_z_bound c : 0 <= byte_z c < 256.
Proof. unfold byte_z. pose proof (N_ascii_bounded c). lia. Qed.

Lemma z_byte_z c : z_byte (byte_z c) = c.
Proof.
  pose proof (byte_z_bound c). unfold z_byte. rewrite Z.mod_small by lia.
  unfold byte_z. rewrite N2Z.id. apply ascii_N_embedding.
Qed.

Lemma byte_z_byte z : 0 <= z < 256 -> byte_z (z_byte z) = z.
Proof.
  intros Hz. unfold byte_z, z_byte. rewrite Z.mod_small by lia.
  rewrite N_ascii_embedding by lia. lia.
Qed.

Lemma z_byte_eq c z : z = byte_z c -> z_byte z = c.
Proof. intros ->. apply z_byte_z. Qed.

Lemma string_forallb_impl (f g : ascii -> bool) s :
  (forall c, f c = true -> g c = true) -> string_forallb f s = true -> string_forallb g s = true.
Proof.
  intros Hfg. induction s as [|c s IH]; cbn; [done|].
  rewrite !andb_true_iff. intros [Hc Hs]. auto.
Qed.

Lemma append_assoc (a b c : string) : (a +:+ b) +:+ c = a +:+ (b +:+ c).
Proof. induction a as [|x a IH]; [done|]. exact (f_equal (String x) IH). Qed.

Lemma append_inv_length (a b c d : string) :
  String.length a = String.length c -> a +:+ b = c +:+ d -> a = c /\ b = d.
Proof.
  revert c. induction a as [|x a IH]; intros [|y c]; cbn; try done.
  intros [= Hl] [= -> E]. destruct (IH c Hl E) as [-> ->]. done.
Qed.

Lemma length_append (a b : string) : String.length (a +:+ b) = (String.length a + String.length b)%nat.
Proof. induction a as [|c a IH]; [done|]. exact (f_equal S IH). Qed.

Lemma append_inv_suffix (a b c d : string) :
  String.length b = String.length d -> a +:+ b = c +:+ d -> b = d.
Proof.
  intros Hl E. assert (String.length a = String.length c) as Ha.
  { apply (f_equal String.length) in E. rewrite !length_append in E. lia. }
  by destruct (append_inv_length a b c d Ha E).
Qed.

Lemma string_forallb_app p s t : string_forallb p (s +:+ t) = string_forallb p s && string_forallb p t.
Proof.
  induction s as [|c s IH]; [done|]. change (p c && string_forallb p (s +:+ t) = p c && string_forallb p s && string_forallb p t).
  by rewrite IH, andb_assoc.
Qed.

Lemma take_bytes_all n s : (String.length s <= n)%nat -> take_bytes n s = s.
Proof.
  revert s. induction n as [|n IH]; intros [|c s] Hl; cbn in *; try done; [lia|]. f_equal. apply IH. lia.
Qed.
Lemma length_take_bytes n s : String.length (take_bytes n s) = Nat.min n (String.length s).
Proof. revert s. induction n as [|n IH]; intros [|c s]; cbn; [done..|]. by rewrite IH. Qed.

Lemma has_prefix_append h p : has_prefix (h +:+ p) h = true.
Proof.
  induction h as [|c h IH]; [by destruct p|].
  change (Ascii.eqb c c && has_prefix (h +:+ p) h = true). by rewrite Ascii.eqb_refl.
Qed.

Lemma drop_bytes_append h p : drop_bytes (String.length h) (h +:+ p) = p.
Proof. induction h as [|c h IH]; [done | exact IH]. Qed.

Lemma has_prefix_split c h : has_prefix c h = true -> c = h +:+ drop_bytes (String.length h) c.
Proof.
  revert c. induction h as [|x h IH]; intros [|y c]; try done.
  change (Ascii.eqb x y && has_prefix c h = true -> String y c = String x (h +:+ drop_bytes (String.length h) c)).
  destruct (Ascii.eqb_spec x y) as [->|]; [|done]. intros Hp. f_equal. auto.
Qed.

Lemma split_on_nodot sep s :
  string_forallb (fun c => negb (Ascii.eqb c sep)) s = true -> split_on sep s = [s].
Proof.
  induction s as [|c s IH]; cbn [split_on string_forallb]; [done|]. intros [Hc Hs]%andb_true_iff.
  apply negb_true_iff in Hc. rewrite Hc. by rewrite IH.
Qed.

Lemma split_on_app sep a b :
  string_forallb (fun c => negb (Ascii.eqb c sep)) a = true ->
  split_on sep (a +:+ String sep b) = a :: split_on sep b.
Proof.
  induction a as [|c a IH]; cbn [string_forallb].
  - intros _. change ("" +:+ String sep b) with (String sep b). cbn [split_on]. by rewrite Ascii.eqb_refl.
  - intros [Hc Ha]%andb_true_iff. apply negb_true_iff in Hc.
    change (String c a +:+ String sep b) with (String c (a +:+ String sep b)).
    cbn [split_on]. rewrite Hc. by rewrite (IH Ha).
Qed.

Lemma split_on_join sep s : join (String sep "") (split_on sep s) = s.
Proof.
  induction s as [|c s IH]; cbn [split_on]; [done|].
  destruct (Ascii.eqb_spec c sep) as [->|Hc].
  - destruct (split_on sep s) as [|p ps] eqn:E.
    + destruct s as [|c' s']; cbn in E; [done|]. case_match; [done|]. by destruct (split_on sep s').
    + change (join (String sep "") ("" :: p :: ps))
        with (String sep "" +:+ join (String sep "") (p :: ps)). rewrite IH. done.
  - destruct (split_on sep s) as [|p ps] eqn:E.
    + destruct s as [|c' s']; cbn in E; [done|]. case_match; [done|]. by destruct (split_on sep s').
    + rewrite <- IH. by destruct ps.
Qed.

Lemma contains_one s (b : ascii) :
  string_forallb (fun c => negb (Ascii.eqb b c)) s = true -> contains s (String b "") = false.
Proof.
  induction s as [|c s IH]; cbn [contains string_forallb has_prefix]; [done|].
  intros [Hc Hs]%andb_true_iff. apply negb_true_iff in Hc. rewrite Hc. cbn [andb orb]. auto.
Qed.

(** [autorewrite with strings] normalises concatenations and prefixes. *)
Create Rewrite HintDb strings.
#[export] Hint Rewrite append_assoc length_append has_prefix_append drop_bytes_append : strings.

(** ** Lemmas on checks in sequence *)

Lemma guard_none {A} (b : bool) (e : A) r : (if b then Some e else r) = None <-> b = false /\ r = None.
Proof. destruct b; naive_solver. Qed.

Lemma match_none {A} (o r : option A) :
  match o with Some e => Some e | None => r end = None <-> o = None /\ r = None.
Proof. destruct o; naive_solver. Qed.
