(* ===== verification/Runtime.v ===== *)
(** * The Go runtime the program runs on

    Errors with [errors.Is], the readings of the environment (clock, randomness,
    Unicode tables) and a state monad with early return in which the code of
    [src/internal] is written, with its weakest-precondition rules. *)

From S2P Require Import Prelude.

(** ** Errors

    The sentinel errors of the packages, the typed errors, and the opaque errors
    made by [fmt.Errorf]; [Wrapped] is [fmt.Errorf("...: %w", err)].  A
    [RetrieveError] of the oauth2 library carries its error code and, when there is a
    response, the status and the Retry-After header. *)

Inductive error :=
  | ErrInvalidGrant
  | ErrRefreshReplay
  | ErrRefreshBusy
  | ErrRefreshCollision
  | ErrCredentialIndeterminate
  | ErrInvalidOTPChallenge
  | ErrInvalidOTPCode
  | ErrOTPSendLimit
  | OTPResendError (RetryAfter : duration)
  | ErrReplay
  | ErrReplayCacheFull
  | ErrDenied
  | IndeterminateError (Err : error)
  | ConnectorError (Kind RetryAfter Operation : string)
  | RetrieveError (ErrorCode : string) (Response : option (Z * string))
  | ErrNoRows
  | ErrSQL
  | Errorf (msg : string)
  | Wrapped (msg : string) (err : error).

#[export] Instance error_eq_dec : EqDecision error.
Proof. solve_decision. Defined.

(** [errors.Is(err, target)] for a sentinel target: the chain of wrapped errors is
    searched; an [IndeterminateError] unwraps to its cause. *)
Fixpoint errors_is (err target : error) : bool :=
  bool_decide (err = target) ||
  match err with
  | Wrapped _ e | IndeterminateError e => errors_is e target
  | _ => false
  end.

(** The same on the [error] interface value, [nil] being [None]. *)
Definition is_err (err : option error) (target : error) : bool :=
  match err with Some e => errors_is e target | None => false end.

Definition is_nil {A} (o : option A) : bool := match o with None => true | Some _ => false end.
Definition is_some {A} (o : option A) : bool := negb (is_nil o).

(** ** Checks *)

(** The first error of a loop over a list. *)
Fixpoint first_error {A} (check : A -> option error) (l : list A) : option error :=
  match l with
  | [] => None
  | x :: l => match check x with Some err => Some err | None => first_error check l end
  end.

(** [if c { return fmt.Errorf(...) }] *)
Definition guard_err (c : bool) (msg : string) : option error := if c then Some (Errorf msg) else None.

(** Checks in sequence. *)
Definition and_then (a b : option error) : option error :=
  match a with Some err => Some err | None => b end.

Lemma and_then_none a b : and_then a b = None <-> a = None /\ b = None.
Proof. destruct a; naive_solver. Qed.

Lemma guard_err_none c msg : guard_err c msg = None <-> c = false.
Proof. destruct c; naive_solver. Qed.

Lemma first_error_none {A} (check : A -> option error) l :
  first_error check l = None <-> Forall (fun x => check x = None) l.
Proof.
  induction l as [|x l IH]; cbn [first_error]; [by split; [constructor|]|].
  by rewrite match_none, IH, Forall_cons.
Qed.

(** ** The environment

    What the program reads from outside: the outcome of each database statement,
    the clock, the random source, the Unicode tables for non-ASCII text, whether the
    state database is SQLite, and the time zone of the host (a fixed one: a change of its
    offset while rows are stored is not modelled). *)

Class Env := {
  stmt_fault : nat -> bool;      (** the n-th database statement reports an infrastructure error *)
  clock : nat -> time;           (** the n-th reading of [time.Now] *)
  entropy : nat -> ascii;        (** the bytes of [crypto/rand] *)
  entropy_fault : nat -> bool;   (** [rand.Read] fails at this position *)
  unicode_lower : string -> string;
  unicode_trim : string -> string;
  unicode_fields : string -> list string;
  sqlite : bool;                 (** the state database is SQLite, not PostgreSQL *)
  local_offset : Z               (** seconds east of UTC of the local time zone *)
}.

(** [strings.ToLower], [strings.TrimSpace] and [strings.Fields] take an ASCII fast
    path; other text goes through the Unicode tables. *)
Definition to_lower `{Env} (s : string) : string :=
  if is_ascii s then string_map lower_byte s else unicode_lower s.
Definition trim_space `{Env} (s : string) : string :=
  if is_ascii s then trim_left (trim_right s) else unicode_trim s.
Definition fields `{Env} (s : string) : list string :=
  if is_ascii s then ascii_fields s else unicode_fields s.

(** ** Times in the database

    A PostgreSQL column holds an instant.  go-sqlite3 writes a time as the text
    [2006-01-02 15:04:05.999999999-07:00] in the zone of the value, and SQLite
    compares the texts: first the clock of the wall, then the text of the zone, in which
    [+] comes before [-].  [time.Now] is in the local zone, [time.Now().UTC()] is not. *)
Inductive zone := UTC | Local.

#[export] Instance zone_eq_dec : EqDecision zone.
Proof. solve_decision. Defined.

Definition offset_of `{Env} (l : zone) : Z := match l with UTC => 0 | Local => local_offset end.
(** The minutes of a zone, in the order of their texts [+hh:mm] and [-hh:mm]. *)
Definition zone_rank (offset : Z) : Z :=
  let m := Z.quot offset 60 in if m <? 0 then 100 * 60 - m else m.

(** [a < b] of two stored or bound times, with the zones they were written in. *)
Definition written_before `{Env} (la : zone) (a : time) (lb : zone) (b : time) : bool :=
  if sqlite then
    let wall_a := a + offset_of la * second in
    let wall_b := b + offset_of lb * second in
    (wall_a <? wall_b)
    || ((wall_a =? wall_b) && (zone_rank (offset_of la) <? zone_rank (offset_of lb)))
  else a <? b.

(** How much later than the instant a text in the local zone may compare than one in UTC. *)
Definition text_lead `{Env} : duration := if sqlite then Z.max 0 (local_offset * second) else 0.

Lemma written_before_same `{Env} l a b : written_before l a l b = (a <? b).
Proof.
  unfold written_before. destruct sqlite; [|done].
  rewrite Z.ltb_irrefl, andb_false_r, orb_false_r. lia.
Qed.

(** Off by at most the distance of the zones. *)
Lemma written_before_bound `{Env} la a lb b :
  written_before la a lb b = false ->
  b <= a + (if sqlite then (offset_of la - offset_of lb) * second else 0).
Proof. unfold written_before. destruct sqlite; [|lia]. cbv zeta. lia. Qed.

(** How much of the environment has been read. *)
Record Counters := { c_stmt : nat; c_tick : nat; c_draw : nat }.

#[export] Instance eta_Counters : Eta Counters :=
  fun c => {| c_stmt := c_stmt c; c_tick := c_tick c; c_draw := c_draw c |}.

Fixpoint entropy_bytes `{Env} (pos n : nat) : string :=
  match n with
  | O => ""
  | S n' => String (entropy pos) (entropy_bytes (S pos) n')
  end.

Lemma length_entropy_bytes `{Env} n pos : String.length (entropy_bytes pos n) = n.
Proof. revert pos; induction n as [|n IH]; intros pos; cbn; [done | by rewrite IH]. Qed.

(** ** A state monad with early return

    [go W R A] runs on a world [W]; [inl r] means that the enclosing function has
    already returned [r], [inr a] that it continues with [a]. *)

Definition go (W R A : Type) : Type := W -> (R + A) * W.

Section Monad.
Context {W R : Type}.

#[global] Instance go_ret : MRet (go W R) := fun A a w => (inr a, w).
#[global] Instance go_bind : MBind (go W R) := fun A B f m w =>
  match m w with
  | (inl r, w') => (inl r, w')
  | (inr a, w') => f a w'
  end.

(** [return r] *)
Definition return_ {A} (r : R) : go W R A := fun w => (inl r, w).
(** [if c { return r }] *)
Definition return_if (c : bool) (r : R) : go W R unit :=
  if c then return_ r else mret tt.
(** [if c { m }] *)
Definition when (c : bool) (m : go W R unit) : go W R unit :=
  if c then m else mret tt.
(** A call of another function of the program. *)
Definition call {B} (f : W -> B * W) : go W R B := fun w => let (b, w') := f w in (inr b, w').
Definition get : go W R W := fun w => (inr w, w).

(** The body of a function whose last expression is its result. *)
Definition run (m : go W R R) : W -> R * W := fun w =>
  match m w with
  | (inl r, w') => (r, w')
  | (inr r, w') => (r, w')
  end.
End Monad.
#[global] Arguments return_ {W R A} r _ /.

(** ** Reasoning

    [ends f w P]: the call [f w] ends in a result and a world satisfying [P];
    [wp m w Q]: the same for a statement. *)

Definition ends {W B} (f : W -> B * W) (w : W) (P : B -> W -> Prop) : Prop :=
  P (f w).1 (f w).2.
Definition wp {W R A} (m : go W R A) (w : W) (Q : (R + A) -> W -> Prop) : Prop :=
  Q (m w).1 (m w).2.
Definition merge {R} (x : R + R) : R := match x with inl r => r | inr r => r end.

Section Rules.
Context {W R : Type}.
Implicit Type w : W.

Lemma ends_eq {B} (f : W -> B * W) w P :
  ends f w P <-> forall b w', f w = (b, w') -> P b w'.
Proof.
  unfold ends. destruct (f w) as [b w'] eqn:E; cbn. split.
  - by intros HP b' w'' [= <- <-].
  - eauto.
Qed.

Lemma ends_run (m : go W R R) w (P : R -> W -> Prop) :
  wp m w (fun x => P (merge x)) -> ends (run m) w P.
Proof. unfold wp, ends, run. destruct (m w) as [[r|r] w']; done. Qed.

Lemma run_call {B} (f : W -> B * W) w : run (call f) w = f w.
Proof. unfold run, call. by destruct (f w). Qed.

Lemma ends_mono {B} (f : W -> B * W) w (P Q : B -> W -> Prop) :
  ends f w P -> (forall b w', P b w' -> Q b w') -> ends f w Q.
Proof. unfold ends. auto. Qed.

Lemma wp_mono {A} (m : go W R A) w (P Q : (R + A) -> W -> Prop) :
  wp m w P -> (forall x w', P x w' -> Q x w') -> wp m w Q.
Proof. unfold wp. auto. Qed.

Lemma wp_ret {A} (a : A) w (Q : (R + A) -> W -> Prop) :
  Q (inr a) w -> wp (mret a) w Q.
Proof. done. Qed.

Lemma wp_return {A} (r : R) w (Q : (R + A) -> W -> Prop) :
  Q (inl r) w -> wp (return_ r) w Q.
Proof. done. Qed.

Lemma wp_bind {A B} (f : A -> go W R B) (m : go W R A) w Q :
  wp m w (fun x w' => match x with inl r => Q (inl r) w' | inr a => wp (f a) w' Q end) ->
  wp (m ≫= f) w Q.
Proof. unfold wp, mbind, go_bind. by destruct (m w) as [[r|a] w']. Qed.

Lemma wp_call {B} (f : W -> B * W) w (Q : (R + B) -> W -> Prop) :
  ends f w (fun b => Q (inr b)) -> wp (call f) w Q.
Proof. unfold ends, wp, call. by destruct (f w). Qed.

Lemma wp_get w (Q : (R + W) -> W -> Prop) : Q (inr w) w -> wp get w Q.
Proof. done. Qed.

Lemma wp_return_if c (r : R) w (Q : (R + unit) -> W -> Prop) :
  (c = true -> Q (inl r) w) -> (c = false -> Q (inr tt) w) -> wp (return_if c r) w Q.
Proof. unfold return_if. destruct c; intros H1 H2; [by apply H1 | by apply H2]. Qed.

Lemma wp_when c (m : go W R unit) w (Q : (R + unit) -> W -> Prop) :
  (c = true -> wp m w Q) -> (c = false -> Q (inr tt) w) -> wp (when c m) w Q.
Proof. unfold when. destruct c; intros H1 H2; [by apply H1 | by apply H2]. Qed.
End Rules.

(** [go_step] performs one step of symbolic execution; it branches on conditions
    and keeps the equation of the branch taken. *)
Ltac go_step :=
  cbn beta iota zeta;
  lazymatch goal with
  | |- ends (run _) _ _ => apply ends_run
  | |- wp (mret _) _ _ => apply wp_ret
  | |- wp (return_ _) _ _ => apply wp_return
  | |- wp (mbind _ _) _ _ => apply wp_bind
  | |- wp get _ _ => apply wp_get
  | |- wp (call _) _ _ => apply wp_call
  | |- wp (return_if _ _) _ _ => apply wp_return_if; intros ?
  | |- wp (when _ _) _ _ => apply wp_when; intros ?
  | |- wp (if ?c then _ else _) _ _ => destruct c eqn:?
  | |- wp (match ?x with _ => _ end) _ _ => destruct x eqn:?
  | |- wp (let _ := _ in _) _ _ => cbv zeta
  end.
