(* ===== verification/Base64.v ===== *)
(** * encoding/base64: [RawURLEncoding]

    The unpadded URL-safe alphabet the tokens of the program are written in, with
    Go's decoder: line breaks are skipped, and [Strict] also refuses trailing bits
    that are not zero. *)

From S2P Require Import Prelude.

(** ** Texts three bytes at a time *)

(** Induction three bytes at a time. *)
Lemma string_ind3 (P : string -> Prop) :
  P "" -> (forall a, P (String a "")) -> (forall a b, P (String a (String b ""))) ->
  (forall a b c s, P s -> P (String a (String b (String c s)))) -> forall s, P s.
Proof.
  intros H0 H1 H2 H3. fix IH 1. intros [|a [|b [|c s]]]; [apply H0 | apply H1 | apply H2 | apply H3, IH].
Qed.

(** ** The alphabet *)

Definition sextet_char (z : Z) : ascii :=
  if z <? 26 then z_byte (65 + z)
  else if z <? 52 then z_byte (97 + (z - 26))
  else if z <? 62 then z_byte (48 + (z - 52))
  else if z =? 62 then "-" else "_".

Definition char_sextet (c : ascii) : option Z :=
  let z := byte_z c in
  if (65 <=? z) && (z <=? 90) then Some (z - 65)
  else if (97 <=? z) && (z <=? 122) then Some (z - 97 + 26)
  else if (48 <=? z) && (z <=? 57) then Some (z - 48 + 52)
  else if z =? 45 then Some 62
  else if z =? 95 then Some 63
  else None.

Definition is_newline (c : ascii) : bool := (byte_z c =? 10) || (byte_z c =? 13).

(** ** Encoder *)

Fixpoint encode (s : string) : string :=
  match s with
  | EmptyString => ""
  | String a EmptyString =>
      let a := byte_z a in
      String (sextet_char (a / 4)) (String (sextet_char (a mod 4 * 16)) "")
  | String a (String b EmptyString) =>
      let a := byte_z a in let b := byte_z b in
      String (sextet_char (a / 4)) (String (sextet_char (a mod 4 * 16 + b / 16))
        (String (sextet_char (b mod 16 * 4)) ""))
  | String a (String b (String c s')) =>
      let a := byte_z a in let b := byte_z b in let c := byte_z c in
      String (sextet_char (a / 4)) (String (sextet_char (a mod 4 * 16 + b / 16))
        (String (sextet_char (b mod 16 * 4 + c / 64)) (String (sextet_char (c mod 64))
          (encode s'))))
  end.

(** ** Decoder *)

Fixpoint sextets (s : string) : option (list Z) :=
  match s with
  | EmptyString => Some []
  | String c s' =>
      if is_newline c then sextets s'
      else match char_sextet c, sextets s' with
           | Some z, Some zs => Some (z :: zs)
           | _, _ => None
           end
  end.

Fixpoint join_sextets (strict : bool) (l : list Z) : option string :=
  match l with
  | [] => Some ""
  | [_] => None
  | [p; q] =>
      if strict && negb (q mod 16 =? 0) then None
      else Some (String (z_byte (p * 4 + q / 16)) "")
  | [p; q; r] =>
      if strict && negb (r mod 4 =? 0) then None
      else Some (String (z_byte (p * 4 + q / 16)) (String (z_byte (q mod 16 * 16 + r / 4)) ""))
  | p :: q :: r :: t :: l' =>
      match join_sextets strict l' with
      | Some s => Some (String (z_byte (p * 4 + q / 16))
                    (String (z_byte (q mod 16 * 16 + r / 4))
                      (String (z_byte (r mod 4 * 64 + t)) s)))
      | None => None
      end
  end.

Definition decode (strict : bool) (s : string) : option string :=
  match sextets s with
  | Some l => join_sextets strict l
  | None => None
  end.

(** ** Round trip *)

Lemma sextet_ind (P : Z -> Prop) :
  Forall (fun n => P (Z.of_nat n)) (seq 0 64) -> forall z, 0 <= z < 64 -> P z.
Proof.
  intros H z Hz. rewrite Forall_forall in H.
  replace z with (Z.of_nat (Z.to_nat z)) by lia. apply H, elem_of_seq. lia.
Qed.

Lemma char_sextet_char z : 0 <= z < 64 -> char_sextet (sextet_char z) = Some z.
Proof. revert z. apply sextet_ind. by repeat constructor. Qed.

Lemma sextet_char_newline z : 0 <= z < 64 -> is_newline (sextet_char z) = false.
Proof. revert z. apply sextet_ind. by repeat constructor. Qed.

Lemma sextets_cons z s :
  0 <= z < 64 -> sextets (String (sextet_char z) s) = (fun l => z :: l) <$> sextets s.
Proof.
  intros Hz. cbn [sextets]. rewrite sextet_char_newline, char_sextet_char by done.
  by destruct (sextets s).
Qed.

Ltac byte_bounds :=
  repeat match goal with
  | |- context [byte_z ?c] =>
      lazymatch goal with
      | _ : 0 <= byte_z c < 256 |- _ => fail
      | _ => pose proof (byte_z_bound c)
      end
  end.

Ltac divmod := Z.div_mod_to_equations; lia.

Lemma decode_encode strict s : decode strict (encode s) = Some s.
Proof.
  unfold decode. enough (exists l, sextets (encode s) = Some l /\ join_sextets strict l = Some s)
    as (l & -> & ->) by done.
  induction s as [|a|a b|a b c s (l & El & IH)] using string_ind3;
    [by exists [] | | |]; cbn [encode]; byte_bounds;
    repeat (rewrite sextets_cons by divmod).
  - exists [byte_z a / 4; byte_z a mod 4 * 16]. split; [done|]. cbn.
    assert ((byte_z a mod 4 * 16) mod 16 = 0) as -> by divmod. rewrite andb_false_r.
    do 2 f_equal. apply z_byte_eq. divmod.
  - eexists [_; _; _]. split; [done|]. cbn.
    assert ((byte_z b mod 16 * 4) mod 4 = 0) as -> by divmod. rewrite andb_false_r.
    do 2 f_equal; [|f_equal]; apply z_byte_eq; divmod.
  - rewrite El. eexists (_ :: _ :: _ :: _ :: l). split; [done|]. cbn. rewrite IH.
    do 2 f_equal; [|f_equal; [|f_equal]]; apply z_byte_eq; divmod.
Qed.

#[export] Instance encode_inj : Inj (=) (=) encode.
Proof.
  intros s t E. pose proof (decode_encode false s) as H. rewrite E, decode_encode in H. congruence.
Qed.

(** Every character of an encoding belongs to the alphabet. *)
Definition is_url_char (c : ascii) : bool := match char_sextet c with Some _ => true | None => false end.

Lemma url_char_sextet z : 0 <= z < 64 -> is_url_char (sextet_char z) = true.
Proof. intros Hz. unfold is_url_char. by rewrite char_sextet_char. Qed.

Lemma encode_alphabet s : string_forallb is_url_char (encode s) = true.
Proof.
  induction s as [|a|a b|a b c s IH] using string_ind3; [done| | |];
    cbn [encode string_forallb]; byte_bounds;
    rewrite ?url_char_sextet by divmod; [done | done | exact IH].
Qed.

Lemma encode_length_32 s : String.length s = 32%nat -> String.length (encode s) = 43%nat.
Proof.
  do 33 (destruct s as [|? s]; [done|]). done.
Qed.
