(* ===== verification/Sha256.v ===== *)
(** * crypto/sha256, crypto/hmac and crypto/hkdf

    The hash that names refresh handles, PKCE challenges, grant actions and DPoP
    proofs, and the MAC of one-time codes, executable on 32-bit words. *)

From S2P Require Import Prelude.

(** ** Words of 32 bits *)

Definition mask32 (z : Z) : Z := Z.land z 0xffffffff.
Definition add32 (x y : Z) : Z := mask32 (x + y).
Definition rotr (x n : Z) : Z := Z.lor (Z.shiftr x n) (mask32 (Z.shiftl x (32 - n))).
Definition not32 (x : Z) : Z := Z.lxor x 0xffffffff.

Definition ch (x y z : Z) : Z := Z.lxor (Z.land x y) (Z.land (not32 x) z).
Definition maj (x y z : Z) : Z := Z.lxor (Z.lxor (Z.land x y) (Z.land x z)) (Z.land y z).
Definition big_sigma0 (x : Z) : Z := Z.lxor (Z.lxor (rotr x 2) (rotr x 13)) (rotr x 22).
Definition big_sigma1 (x : Z) : Z := Z.lxor (Z.lxor (rotr x 6) (rotr x 11)) (rotr x 25).
Definition small_sigma0 (x : Z) : Z := Z.lxor (Z.lxor (rotr x 7) (rotr x 18)) (Z.shiftr x 3).
Definition small_sigma1 (x : Z) : Z := Z.lxor (Z.lxor (rotr x 17) (rotr x 19)) (Z.shiftr x 10).

(** The constants of the standard are the first 32 bits of the fractional parts of the
    square and cube roots of the first primes; they are computed, not listed. *)
Definition is_prime (n : nat) : bool :=
  forallb (fun d => negb (Nat.modulo n d =? 0)%nat) (seq 2 (n - 2)).
Definition first_primes : list Z := Z.of_nat <$> filter (fun n => Is_true (is_prime n)) (seq 2 310).

(** The integer cube root below [2 ^ k], bit by bit. *)
Fixpoint cube_root (k : nat) (acc n : Z) : Z :=
  match k with
  | O => acc
  | S k' =>
      let acc' := acc + 2 ^ Z.of_nat k' in
      cube_root k' (if acc' * acc' * acc' <=? n then acc' else acc) n
  end.

Definition round_constants : list Z := Eval vm_compute in
  (fun p => cube_root 40 0 (p * 2 ^ 96) mod 2 ^ 32) <$> take 64 first_primes.
Definition initial_hash : list Z := Eval vm_compute in
  (fun p => Z.sqrt (p * 2 ^ 64) mod 2 ^ 32) <$> take 8 first_primes.

(** ** Bytes *)

Fixpoint string_bytes (s : string) : list Z :=
  match s with
  | EmptyString => []
  | String c s' => byte_z c :: string_bytes s'
  end.

Fixpoint bytes_string (l : list Z) : string :=
  match l with
  | [] => ""
  | b :: l' => String (z_byte b) (bytes_string l')
  end.

(** Big-endian encoding on [n] bytes. *)
Fixpoint be_bytes (n : nat) (z : Z) : list Z :=
  match n with
  | O => []
  | S n' => (z / 256 ^ Z.of_nat n') mod 256 :: be_bytes n' z
  end.

Fixpoint be_word (l : list Z) (acc : Z) : Z :=
  match l with [] => acc | b :: l' => be_word l' (acc * 256 + b) end.

Fixpoint chunks (fuel k : nat) (l : list Z) : list (list Z) :=
  match fuel, l with
  | O, _ | _, [] => []
  | S f, _ => take k l :: chunks f k (drop k l)
  end.

(** ** The compression function *)

(** The message schedule, latest word first. *)
Fixpoint extend (n : nat) (w : list Z) : list Z :=
  match n with
  | O => w
  | S n' =>
      let at_ i := nth i w 0 in
      let x := add32 (add32 (small_sigma1 (at_ 1%nat)) (at_ 6%nat))
                     (add32 (small_sigma0 (at_ 14%nat)) (at_ 15%nat)) in
      extend n' (x :: w)
  end.

Definition round (st : list Z) (kw : Z * Z) : list Z :=
  match st with
  | [a; b; c; d; e; f; g; h] =>
      let t1 := add32 (add32 (add32 h (big_sigma1 e)) (add32 (ch e f g) kw.1)) kw.2 in
      let t2 := add32 (big_sigma0 a) (maj a b c) in
      [add32 t1 t2; a; b; c; add32 d t1; e; f; g]
  | _ => st
  end.

Definition compress (h : list Z) (block : list Z) : list Z :=
  let words := (fun l => be_word l 0) <$> chunks 16 4 block in
  let w := rev (extend 48 (rev words)) in
  zip_with add32 h (fold_left round (combine round_constants w) h).

Definition pad (l : list Z) : list Z :=
  let n := Z.of_nat (length l) in
  l ++ [128] ++ repeat 0 (Z.to_nat ((55 - n) mod 64)) ++ be_bytes 8 (n * 8).

Definition sha256_bytes (l : list Z) : list Z :=
  let p := pad l in
  flat_map (be_bytes 4) (fold_left compress (chunks (length p) 64 p) initial_hash).

Definition sha256 (s : string) : string := bytes_string (sha256_bytes (string_bytes s)).

(** ** HMAC-SHA-256 and HKDF *)

Definition hmac_bytes (key msg : list Z) : list Z :=
  let k := if (64 <? Z.of_nat (length key)) then sha256_bytes key else key in
  let k := k ++ repeat 0 (64 - length k) in
  sha256_bytes ((Z.lxor 0x5c <$> k) ++ sha256_bytes ((Z.lxor 0x36 <$> k) ++ msg)).

Definition hmac_sha256 (key msg : string) : string :=
  bytes_string (hmac_bytes (string_bytes key) (string_bytes msg)).

(** [hkdf.Key(sha256.New, secret, nil, info, 32)]: one block of output. *)
Definition hkdf_sha256_32 (secret info : string) : string :=
  let prk := hmac_bytes (repeat 0 32) (string_bytes secret) in
  bytes_string (hmac_bytes prk (string_bytes info ++ [1])).

#[global] Arguments sha256 : simpl never.
#[global] Arguments hmac_sha256 : simpl never.
#[global] Arguments hkdf_sha256_32 : simpl never.

(** ** Shape of the output *)

Lemma length_be_bytes n z : length (be_bytes n z) = n.
Proof. revert z; induction n as [|n IH]; intros z; cbn; auto. Qed.

Lemma length_round st kw : length (round st kw) = length st.
Proof. by destruct st as [|? [|? [|? [|? [|? [|? [|? [|? [|? ?]]]]]]]]]. Qed.

Lemma length_rounds l st : length (fold_left round l st) = length st.
Proof. revert st; induction l as [|x l IH]; intros st; cbn; [done|]. by rewrite IH, length_round. Qed.

Lemma length_compress h b : length (compress h b) = length h.
Proof. unfold compress. rewrite length_zip_with, length_rounds. apply Nat.min_id. Qed.

Lemma length_flat_be l : length (flat_map (be_bytes 4) l) = (4 * length l)%nat.
Proof.
  induction l as [|z l IH]; [done|]. cbn [flat_map].
  rewrite length_app, length_be_bytes, IH. cbn. lia.
Qed.

Lemma length_sha256_bytes l : length (sha256_bytes l) = 32%nat.
Proof.
  unfold sha256_bytes. rewrite length_flat_be.
  enough (forall bs h, length h = 8%nat -> length (fold_left compress bs h) = 8%nat) as H
    by (rewrite H; done).
  induction bs as [|b bs IH]; intros h Hh; cbn; [done|]. apply IH. by rewrite length_compress.
Qed.

Lemma length_bytes_string l : String.length (bytes_string l) = length l.
Proof. induction l; cbn; congruence. Qed.

Lemma length_sha256 s : String.length (sha256 s) = 32%nat.
Proof. unfold sha256. by rewrite length_bytes_string, length_sha256_bytes. Qed.

(** The FIPS 180-4 example, and test case 2 of RFC 4231. *)
Example sha256_abc :
  sha256_bytes (string_bytes "abc") =
  flat_map (be_bytes 4) ([0xba7816bf; 0x8f01cfea; 0x414140de; 0x5dae2223;
                         0xb00361a3; 0x96177a9c; 0xb410ff61; 0xf20015ad]).
Proof. vm_compute. reflexivity. Qed.

Example hmac_jefe :
  hmac_bytes (string_bytes "Jefe") (string_bytes "what do ya want for nothing?") =
  flat_map (be_bytes 4) ([0x5bdcc146; 0xbf60754e; 0x6a042426; 0x089575c7;
                         0x5a003f08; 0x9d273983; 0x9dec58b9; 0x64ec3843]).
Proof. vm_compute. reflexivity. Qed.
