(* ===== verification/ReplayCache.v ===== *)
(** * internal/dpop/replay.go: the DPoP replay cache

    A capacity-bounded map from replay hashes to expirations, and a binary heap
    ([container/heap]) that orders the expirations.  The heap is the slice the code
    keeps, updated by the sift operations of the standard library.  [Reserve]
    refines the abstract cache of [ReserveSpec], a finite map without a heap. *)

From S2P Require Import Prelude Runtime.

Definition replayRetention : duration := 15 * second.

Record replayExpiry := { hash : string; expiresAt : time }.

#[export] Instance replayExpiry_eq_dec : EqDecision replayExpiry.
Proof. solve_decision. Defined.

(** ** container/heap on the slice [replayExpiryHeap] *)

Module Heap.

Definition default_entry : replayExpiry := {| hash := ""; expiresAt := 0 |}.
Definition at_ (h : list replayExpiry) (i : nat) : replayExpiry := nth i h default_entry.

Definition Len (h : list replayExpiry) : nat := length h.
Definition Less (h : list replayExpiry) (i j : nat) : bool :=
  before (expiresAt (at_ h i)) (expiresAt (at_ h j)).
Definition Swap (h : list replayExpiry) (i j : nat) : list replayExpiry :=
  <[i := at_ h j]> (<[j := at_ h i]> h).
Definition push_slice (h : list replayExpiry) (value : replayExpiry) : list replayExpiry :=
  h ++ [value].
Definition pop_slice (h : list replayExpiry) : replayExpiry * list replayExpiry :=
  (at_ h (length h - 1), take (length h - 1) h).

(** [heap.up]: the element at [j] rises; each turn halves [j], so [fuel = j] is enough. *)
Fixpoint up (fuel : nat) (h : list replayExpiry) (j : nat) : list replayExpiry :=
  match fuel with
  | O => h
  | S f =>
      let i := ((j - 1) / 2)%nat in
      if (i =? j)%nat || negb (Less h j i) then h else up f (Swap h i j) i
  end.

(** [heap.down] on the first [n] elements: the element at [i] sinks; [i] grows, so
    [fuel = n] is enough. *)
Fixpoint down (fuel : nat) (h : list replayExpiry) (i n : nat) : list replayExpiry :=
  match fuel with
  | O => h
  | S f =>
      let j1 := (2 * i + 1)%nat in
      if (n <=? j1)%nat then h
      else
        let j2 := (j1 + 1)%nat in
        let j := if (j2 <? n)%nat && Less h j2 j1 then j2 else j1 in
        if negb (Less h j i) then h else down f (Swap h i j) j n
  end.

Definition Push (h : list replayExpiry) (x : replayExpiry) : list replayExpiry :=
  let h := push_slice h x in up (Len h - 1) h (Len h - 1).

Definition Pop (h : list replayExpiry) : replayExpiry * list replayExpiry :=
  let n := (Len h - 1)%nat in
  pop_slice (down n (Swap h 0 n) 0 n).

(** *** Correctness of the heap operations *)

Definition key (h : list replayExpiry) (i : nat) : Z := expiresAt (at_ h i).
Definition parent (j : nat) : nat := ((j - 1) / 2)%nat.

(** The heap order among the first [n] elements. *)
Definition ordered (n : nat) (h : list replayExpiry) : Prop :=
  forall j, (0 < j < n)%nat -> key h (parent j) <= key h j.

Lemma parent_spec j : (0 < j)%nat -> (j = 2 * parent j + 1 \/ j = 2 * parent j + 2)%nat.
Proof.
  intros Hj. unfold parent. pose proof (Nat.div_mod_eq (j - 1) 2).
  pose proof (Nat.mod_upper_bound (j - 1) 2). lia.
Qed.

Lemma parent_child i : parent (2 * i + 1) = i /\ parent (2 * i + 2) = i.
Proof.
  split; [pose proof (parent_spec (2 * i + 1)) | pose proof (parent_spec (2 * i + 2))]; lia.
Qed.

Lemma length_Swap h i j : length (Swap h i j) = length h.
Proof. unfold Swap. by rewrite !length_insert. Qed.

Lemma at_lookup h i : (i < length h)%nat -> h !! i = Some (at_ h i).
Proof.
  intros Hi. unfold at_. destruct (lookup_lt_is_Some_2 h i Hi) as [x Hx].
  by rewrite Hx, (nth_lookup_Some _ _ _ _ Hx).
Qed.

Lemma at_Swap h i j k :
  (i < length h)%nat -> (j < length h)%nat ->
  at_ (Swap h i j) k =
  if decide (k = i) then at_ h j else if decide (k = j) then at_ h i else at_ h k.
Proof.
  intros Hi Hj. unfold at_ at 1. rewrite nth_lookup. unfold Swap.
  destruct (decide (k = i)) as [->|Hki].
  - by rewrite list_lookup_insert_eq by (rewrite length_insert; lia).
  - rewrite list_lookup_insert_ne by done. destruct (decide (k = j)) as [->|Hkj].
    + by rewrite list_lookup_insert_eq by lia.
    + rewrite list_lookup_insert_ne by done. unfold at_. by rewrite nth_lookup.
Qed.

Lemma key_Swap h i j k :
  (i < length h)%nat -> (j < length h)%nat ->
  key (Swap h i j) k =
  if decide (k = i) then key h j else if decide (k = j) then key h i else key h k.
Proof.
  intros Hi Hj. unfold key. rewrite at_Swap by done. by repeat case_decide.
Qed.

Lemma Swap_perm h i j : (i < length h)%nat -> (j < length h)%nat -> Swap h i j ≡ₚ h.
Proof.
  intros Hi Hj. apply Permutation_inj. split; [apply length_Swap|].
  exists (fun k => if decide (k = i) then j else if decide (k = j) then i else k). split.
  - intros x y. repeat case_decide; congruence.
  - intros k. destruct (decide (k < length h)%nat) as [Hk|Hk].
    + rewrite at_lookup by (rewrite length_Swap; lia). rewrite at_Swap by done.
      repeat case_decide; rewrite at_lookup; done.
    + rewrite lookup_ge_None_2 by (rewrite length_Swap; lia).
      repeat case_decide; subst; try lia. by rewrite lookup_ge_None_2 by lia.
Qed.

Lemma Less_key h i j : Less h i j = true <-> key h i < key h j.
Proof. unfold Less, before, key. apply Z.ltb_lt. Qed.

Lemma Less_key_false h i j : Less h i j = false <-> key h j <= key h i.
Proof. unfold Less, before, key. apply Z.ltb_ge. Qed.

(** Splits a goal over swapped keys into its cases. *)
Ltac swap_cases := rewrite !key_Swap by lia; repeat case_decide; subst; try lia.

(** [up] restores the order broken only between [j] and its parent. *)
Lemma up_ordered fuel h j :
  (j < length h)%nat -> (j <= fuel)%nat ->
  (forall k, (0 < k < length h)%nat -> k <> j -> key h (parent k) <= key h k) ->
  (forall k, (0 < k < length h)%nat -> (0 < j)%nat -> parent k = j -> key h (parent j) <= key h k) ->
  ordered (length h) (up fuel h j) /\ up fuel h j ≡ₚ h.
Proof.
  revert h j. induction fuel as [|f IH]; intros h j Hj Hf Hord Hgp.
  - split; [|done]. cbn. intros k Hk. apply Hord; lia.
  - cbn [up]. fold (parent j). destruct (Nat.eqb_spec (parent j) j) as [Hpj|Hpj]; cbn [orb].
    { split; [|done]. intros k Hk. destruct (decide (k = j)) as [->|]; [rewrite Hpj; lia | auto]. }
    destruct (Less h j (parent j)) eqn:Hl; cbn [negb].
    2:{ apply Less_key_false in Hl. split; [|done]. intros k Hk.
        destruct (decide (k = j)) as [->|]; [done | auto]. }
    apply Less_key in Hl.
    assert (0 < j)%nat as Hj0 by (destruct j; [done | lia]).
    pose proof (parent_spec j Hj0) as Hpar.
    destruct (IH (Swap h (parent j) j) (parent j)) as [IHo IHp];
      rewrite ?length_Swap in *; try lia.
    + intros k Hk Hkp. rewrite !key_Swap by (pose proof (parent_spec k); lia).
      rewrite (decide_False (P := k = parent j)) by done.
      destruct (decide (k = j)) as [->|Hkj]; [rewrite decide_True by done; lia|].
      pose proof (Hord k Hk Hkj) as Hok. pose proof (Hgp k Hk Hj0) as Hgk.
      destruct (decide (parent k = parent j)) as [E|_]; [rewrite E in Hok; lia|].
      destruct (decide (parent k = j)) as [E|_]; [by apply Hgk | done].
    + intros k Hk Hp0 Hpk. pose proof (parent_spec (parent j) Hp0) as Hpp.
      pose proof (Hord (parent j)) as Hopj.
      destruct (decide (k = j)) as [->|Hkj]; swap_cases.
      pose proof (Hord k Hk Hkj) as Hok. rewrite Hpk in Hok. lia.
    + split; [done|]. rewrite IHp. apply Swap_perm; lia.
Qed.

(** [down] restores the order broken only between [i] and its children. *)
Lemma down_ordered fuel n h i :
  (n <= length h)%nat -> (i < length h)%nat -> (n - i <= fuel)%nat ->
  (forall k, (0 < k < n)%nat -> parent k <> i -> key h (parent k) <= key h k) ->
  (forall k, (0 < k < n)%nat -> (0 < i)%nat -> parent k = i -> key h (parent i) <= key h k) ->
  ordered n (down fuel h i n) /\ down fuel h i n ≡ₚ h /\
  (forall k, (n <= k)%nat -> k <> i -> at_ (down fuel h i n) k = at_ h k).
Proof.
  revert h i. induction fuel as [|f IH]; intros h i Hn Hi Hf Hord Hgp.
  - split; [|done]. cbn. intros k Hk. apply Hord; [done|]. pose proof (parent_spec k). lia.
  - cbn [down]. destruct (Nat.leb_spec n (2 * i + 1)) as [Hnj|Hnj].
    { split; [|done]. intros k Hk. apply Hord; [done|]. pose proof (parent_spec k). lia. }
    set (j := if _ && _ then _ else _).
    assert ((j = 2 * i + 1 \/ j = 2 * i + 2) /\ j < n)%nat as [Hj Hjn].
    { unfold j. destruct (Nat.ltb_spec (2 * i + 1 + 1) n); cbn; [case_match|]; lia. }
    assert (parent j = i) as Hpj by (destruct (parent_child i), Hj; by subst j; congruence).
    assert (forall k, (0 < k < n)%nat -> parent k = i -> key h j <= key h k) as Hmin.
    { intros k Hk Hpk. pose proof (parent_spec k) as Hks. unfold j.
      destruct (Nat.ltb_spec (2 * i + 1 + 1) n); cbn [andb];
        [destruct (Less h (2 * i + 1 + 1) (2 * i + 1)) eqn:HL;
         [apply Less_key in HL | apply Less_key_false in HL] |];
        (assert (k = 2 * i + 1 \/ k = 2 * i + 1 + 1)%nat as [-> | ->] by lia); lia. }
    destruct (Less h j i) eqn:Hl; cbn [negb].
    2:{ apply Less_key_false in Hl. split; [|done]. intros k Hk.
        destruct (decide (parent k = i)) as [E|]; [rewrite E; specialize (Hmin k Hk E); lia | auto]. }
    apply Less_key in Hl.
    destruct (IH (Swap h i j) j) as (IHo & IHp & IHr); rewrite ?length_Swap in *; try lia.
    + intros k Hk Hpk. pose proof (parent_spec k) as Hks. rewrite !key_Swap by lia.
      rewrite (decide_False (P := parent k = j)) by done.
      destruct (decide (k = i)) as [->|Hki].
      { rewrite decide_False by lia. apply Hgp; lia. }
      destruct (decide (k = j)) as [->|Hkj]; [rewrite decide_True by done; lia|].
      destruct (decide (parent k = i)) as [E|E]; auto.
    + intros k Hk Hj0 Hpk. pose proof (parent_spec k) as Hks. rewrite Hpj, !key_Swap by lia.
      rewrite decide_True by done. rewrite !decide_False by lia.
      rewrite <- Hpk. apply Hord; lia.
    + split; [done|]. split; [rewrite IHp; apply Swap_perm; lia|].
      intros k Hk Hki. rewrite IHr, at_Swap by lia. by rewrite !decide_False by lia.
Qed.

Lemma length_up fuel h j : length (up fuel h j) = length h.
Proof.
  revert h j. induction fuel as [|f IH]; intros h j; cbn; [done|].
  case_match; [done|]. by rewrite IH, length_Swap.
Qed.

(** The heap order on the whole slice. *)
Definition heap_ok (h : list replayExpiry) : Prop := ordered (length h) h.

Lemma Push_ok h x : heap_ok h -> heap_ok (Push h x) /\ Push h x ≡ₚ x :: h.
Proof.
  intros Hh. unfold Push, push_slice, Len. rewrite length_app. cbn [length].
  replace (length h + 1 - 1)%nat with (length h) by lia.
  assert (forall k, (k < length h)%nat -> key (h ++ [x]) k = key h k) as Hk.
  { intros k Hk. unfold key, at_. by rewrite app_nth1. }
  destruct (up_ordered (length h) (h ++ [x]) (length h)) as [Ho Hp].
  - rewrite length_app; cbn; lia.
  - done.
  - intros k Hks Hne. rewrite length_app in Hks. cbn in Hks. pose proof (parent_spec k).
    rewrite !Hk by lia. apply Hh. lia.
  - intros k Hks Hl E. rewrite length_app in Hks. cbn in Hks. pose proof (parent_spec k). lia.
  - split.
    + unfold heap_ok. by rewrite length_up.
    + rewrite Hp. apply Permutation_app_comm.
Qed.

Lemma heap_min h : heap_ok h -> forall j, (j < length h)%nat -> key h 0 <= key h j.
Proof.
  intros Hh j. induction j as [j IH] using lt_wf_ind. intros Hj.
  destruct (decide (j = 0)%nat) as [->|]; [lia|].
  pose proof (parent_spec j). specialize (Hh j). specialize (IH (parent j)). lia.
Qed.

Lemma Pop_ok h :
  heap_ok h -> h <> [] ->
  exists h', Pop h = (at_ h 0, h') /\ heap_ok h' /\ at_ h 0 :: h' ≡ₚ h.
Proof.
  intros Hh Hne. assert (0 < length h)%nat as Hl by (destruct h; [done | cbn; lia]).
  unfold Pop, Len. set (n := (length h - 1)%nat).
  destruct (down_ordered n n (Swap h 0 n) 0) as (Ho & Hp & Hr);
    rewrite ?length_Swap; try (unfold n; lia).
  - intros k Hk Hpk. pose proof (parent_spec k). unfold n in *.
    rewrite !key_Swap, !decide_False by lia. apply Hh. lia.
  - set (d := down n (Swap h 0 n) 0 n) in *.
    assert (length d = length h) as Hd by (rewrite Hp; apply length_Swap).
    unfold pop_slice. rewrite Hd. fold n.
    assert (at_ d n = at_ h 0) as Hlast.
    { destruct (decide (n = 0)%nat) as [E|E].
      - subst d. rewrite E. cbn [down]. rewrite at_Swap by lia. by rewrite decide_True.
      - rewrite Hr by lia. rewrite at_Swap by lia.
        destruct (decide (n = 0)%nat); [done|]. by rewrite decide_True. }
    exists (take n d). split; [by rewrite Hlast|]. split.
    + intros k Hk. rewrite length_take in Hk. pose proof (parent_spec k) as Hks.
      assert (forall q, (q < n)%nat -> key (take n d) q = key d q) as Ht.
      { intros q Hq. unfold key, at_. rewrite !nth_lookup. by rewrite lookup_take_lt. }
      rewrite !Ht by lia. apply Ho. lia.
    + rewrite <- Hlast. rewrite <- (take_drop n d) in Hp at 1.
      rewrite <- (Swap_perm h 0 n) by lia. rewrite <- Hp.
      rewrite (drop_S d (at_ d n) n) by (apply at_lookup; lia).
      rewrite drop_ge by lia. apply Permutation_cons_append.
Qed.

End Heap.

(** ** The cache *)

Record ReplayCache := {
  maxEntries : Z;
  entries : gmap string time;
  expiries : list replayExpiry
}.

#[export] Instance eta_ReplayCache : Eta ReplayCache := fun c =>
  {| maxEntries := maxEntries c; entries := entries c; expiries := expiries c |}.

(** [None] is the panic on a capacity that is not positive. *)
Definition NewReplayCache (max : Z) : option ReplayCache :=
  if max <? 1 then None else Some {| maxEntries := max; entries := ∅; expiries := [] |}.

(** A popped expiration deletes the map entry it belongs to. *)
Definition forget (c : ReplayCache) (expired : replayExpiry) : ReplayCache :=
  match entries c !! hash expired with
  | Some current =>
      if current =? expiresAt expired
      then c <| entries := delete (hash expired) (entries c) |> else c
  | None => c
  end.

(** The loop of [removeExpired]: each turn pops one entry of the heap. *)
Fixpoint removeExpired_loop (fuel : nat) (c : ReplayCache) (now : time) : ReplayCache :=
  match fuel with
  | O => c
  | S f =>
      if negb (Heap.Len (expiries c) =? 0)%nat
         && negb (after (expiresAt (Heap.at_ (expiries c) 0)) now)
      then
        let (expired, rest) := Heap.Pop (expiries c) in
        removeExpired_loop f (forget (c <| expiries := rest |>) expired) now
      else c
  end.

Definition removeExpired (c : ReplayCache) (now : time) : ReplayCache :=
  removeExpired_loop (Heap.Len (expiries c)) c now.

Definition Reserve (h : string) (now : time) (c : ReplayCache) : option error * ReplayCache :=
  let c := removeExpired c now in
  match entries c !! h with
  | Some _ => (Some ErrReplay, c)
  | None =>
      if maxEntries c <=? Z.of_nat (size (entries c)) then (Some ErrReplayCacheFull, c)
      else
        let expires := add now replayRetention in
        let c := c <| entries := <[h := expires]> (entries c) |> in
        (None, c <| expiries := Heap.Push (expiries c) {| hash := h; expiresAt := expires |} |>)
  end.

(** ** The abstract cache: a map from hashes to expirations *)

Definition live (now : time) (m : gmap string time) : gmap string time :=
  filter (fun kv => now < kv.2) m.

Definition ReserveSpec (max : Z) (h : string) (now : time) (m : gmap string time)
  : option error * gmap string time :=
  let m := live now m in
  if decide (is_Some (m !! h)) then (Some ErrReplay, m)
  else if max <=? Z.of_nat (size m) then (Some ErrReplayCacheFull, m)
  else (None, <[h := now + replayRetention]> m).

(** The heap holds exactly the entries of the map, in heap order. *)
Definition entry_of (kv : string * time) : replayExpiry := {| hash := kv.1; expiresAt := kv.2 |}.
Definition cache_ok (c : ReplayCache) : Prop :=
  Heap.heap_ok (expiries c) /\ expiries c ≡ₚ entry_of <$> map_to_list (entries c).

#[export] Instance entry_of_inj : Inj (=) (=) entry_of.
Proof. intros [h e] [h' e']. unfold entry_of; cbn. congruence. Qed.

Lemma cache_ok_lookup c x :
  cache_ok c -> x ∈ expiries c -> entries c !! hash x = Some (expiresAt x).
Proof.
  intros [_ Hp] Hx. rewrite Hp in Hx. apply list_elem_of_fmap in Hx as ([h e] & -> & Hin).
  by apply elem_of_map_to_list in Hin.
Qed.

Lemma cache_ok_member c h e :
  cache_ok c -> entries c !! h = Some e -> entry_of (h, e) ∈ expiries c.
Proof.
  intros [_ Hp] Hl. rewrite Hp. by apply list_elem_of_fmap_2, elem_of_map_to_list.
Qed.

Lemma live_all now m : (forall h e, m !! h = Some e -> now < e) -> live now m = m.
Proof.
  intros H. unfold live. apply map_filter_id. intros h e Hl. cbn. eauto.
Qed.

Lemma removeExpired_loop_spec fuel c now :
  cache_ok c -> (length (expiries c) <= fuel)%nat ->
  let c' := removeExpired_loop fuel c now in
  cache_ok c' /\ entries c' = live now (entries c) /\ maxEntries c' = maxEntries c.
Proof.
  revert c. induction fuel as [|f IH]; intros c Hok Hf; cbn [removeExpired_loop].
  - split; [done|]. split; [|done]. symmetry. apply live_all. intros h e Hl.
    apply cache_ok_member in Hl; [|done]. assert (expiries c = []) as E by (apply nil_length_inv; lia).
    rewrite E in Hl. by apply not_elem_of_nil in Hl.
  - destruct (Nat.eqb_spec (length (expiries c)) 0) as [E|E]; unfold Heap.Len; cbv zeta.
    { rewrite (proj2 (Nat.eqb_eq _ _) E). cbn [negb andb].
      apply nil_length_inv in E. split; [done|]. split; [|done]. symmetry. apply live_all.
      intros h e Hl. apply cache_ok_member in Hl; [|done]. rewrite E in Hl.
      by apply not_elem_of_nil in Hl. }
    rewrite (proj2 (Nat.eqb_neq _ _) E). cbn [negb andb].
    assert (expiries c <> []) as Hne by (intros E'; by rewrite E' in E).
    unfold after. destruct (Z.ltb_spec now (expiresAt (Heap.at_ (expiries c) 0))) as [Hlt|Hle];
      cbn [negb].
    { split; [done|]. split; [|done]. symmetry. apply live_all. intros h e Hl.
      apply cache_ok_member in Hl; [|done]. destruct Hok as [Hh Hp].
      apply list_elem_of_lookup in Hl as [j Hj].
      pose proof (lookup_lt_Some _ _ _ Hj) as Hjl.
      pose proof (Heap.heap_min _ Hh j Hjl) as Hm. rewrite Heap.at_lookup in Hj by done.
      injection Hj as Hj. unfold Heap.key in Hm. rewrite Hj in Hm. cbn in Hm. lia. }
    destruct (Heap.Pop_ok _ (proj1 Hok) Hne) as (h' & -> & Hh' & Hp').
    set (x := Heap.at_ (expiries c) 0) in *.
    assert (entries c !! hash x = Some (expiresAt x)) as Hx.
    { apply cache_ok_lookup; [done|]. rewrite <- Hp'. apply list_elem_of_here. }
    set (c1' := forget _ _).
    assert (c1' = {| maxEntries := maxEntries c; entries := delete (hash x) (entries c);
                     expiries := h' |}) as ->.
    { subst c1'. unfold forget. cbn. rewrite Hx, Z.eqb_refl. done. }
    set (c1' := {| maxEntries := _ |}).
    destruct (IH c1') as (H1 & H2 & H3).
    + split; [done|]. cbn. destruct Hok as [_ Hp]. rewrite <- Hp' in Hp.
      rewrite <- (insert_delete_id (entries c) _ _ Hx) in Hp at 1.
      rewrite map_to_list_insert in Hp by apply lookup_delete_eq. cbn in Hp.
      apply (Permutation_cons_inv (a := x)). rewrite Hp. by destruct x.
    + cbn. apply Permutation_length in Hp'. cbn in Hp'. lia.
    + split; [done|]. split; [|done]. rewrite H2. cbn. unfold live.
      apply map_filter_delete_not. cbn. intros e He. rewrite Hx in He. injection He as <-. lia.
Qed.

Lemma removeExpired_spec c now :
  cache_ok c ->
  cache_ok (removeExpired c now) /\ entries (removeExpired c now) = live now (entries c) /\
  maxEntries (removeExpired c now) = maxEntries c.
Proof. intros H. by apply removeExpired_loop_spec. Qed.

Lemma Reserve_spec h now c :
  cache_ok c ->
  let '(err, c') := Reserve h now c in
  cache_ok c' /\ maxEntries c' = maxEntries c /\
  ReserveSpec (maxEntries c) h now (entries c) = (err, entries c').
Proof.
  intros Hok. unfold Reserve, ReserveSpec.
  destruct (removeExpired_spec c now Hok) as (Hok' & <- & <-).
  set (c1 := removeExpired c now) in *.
  destruct (entries c1 !! h) as [e|] eqn:E; [by rewrite decide_True by eauto|].
  rewrite decide_False by (intros [? ?]; congruence).
  destruct (Z.leb_spec (maxEntries c1) (Z.of_nat (size (entries c1)))) as [Hf|Hf]; [done|].
  cbn. split; [|done]. destruct Hok' as [Hh Hp].
  destruct (Heap.Push_ok _ {| hash := h; expiresAt := add now replayRetention |} Hh) as [H1 H2].
  split; [done|]. cbn. rewrite H2, Hp, map_to_list_insert by done. done.
Qed.

(** ** Sequences of reservations *)

Lemma NewReplayCache_ok max c : NewReplayCache max = Some c -> cache_ok c /\ maxEntries c = max.
Proof.
  unfold NewReplayCache. case_match; [done|]. intros [= <-]. split; [|done]. split.
  - intros j Hj. cbn in Hj. lia.
  - cbn. by rewrite map_to_list_empty.
Qed.

(** The cache after the reservations of other requests. *)
Fixpoint reserve_all (l : list (string * time)) (c : ReplayCache) : ReplayCache :=
  match l with
  | [] => c
  | (h, now) :: l' => reserve_all l' (Reserve h now c).2
  end.

Lemma Reserve_ok h now c : cache_ok c -> cache_ok (Reserve h now c).2.
Proof. intros Hok. pose proof (Reserve_spec h now c Hok). destruct (Reserve h now c). tauto. Qed.

Lemma live_lookup now m h e : live now m !! h = Some e <-> m !! h = Some e /\ now < e.
Proof. unfold live. by rewrite map_lookup_filter_Some. Qed.

Lemma ReserveSpec_inv max h now m err m' :
  ReserveSpec max h now m = (err, m') ->
  err <> None /\ m' = live now m \/
  err = None /\ live now m !! h = None /\ m' = <[h := now + replayRetention]> (live now m).
Proof.
  unfold ReserveSpec. case_decide as Hd; [|case_match]; intros [= <- <-]; [by left|by left|].
  right. by apply eq_None_not_Some in Hd.
Qed.

Lemma Reserve_keeps h now c h0 e :
  cache_ok c -> entries c !! h0 = Some e -> now < e ->
  entries (Reserve h now c).2 !! h0 = Some e.
Proof.
  intros Hok Hl Hlt. pose proof (Reserve_spec h now c Hok) as Hs.
  destruct (Reserve h now c) as [err c'] eqn:E. cbn. destruct Hs as (_ & _ & Hs).
  assert (live now (entries c) !! h0 = Some e) as Hlive by by apply live_lookup.
  apply ReserveSpec_inv in Hs as [[_ ->]|(-> & Hn & ->)]; [done|].
  rewrite lookup_insert_ne by congruence. done.
Qed.

Lemma reserve_all_keeps l c h0 e :
  cache_ok c -> entries c !! h0 = Some e -> Forall (fun x => x.2 < e) l ->
  cache_ok (reserve_all l c) /\ entries (reserve_all l c) !! h0 = Some e.
Proof.
  revert c. induction l as [|[h now] l IH]; intros c Hok Hl HF; [done|].
  apply Forall_cons in HF as [Hlt HF]. cbn.
  apply IH; [by apply Reserve_ok | by apply Reserve_keeps | done].
Qed.

Lemma ReserveSpec_bound max h now m :
  0 < max -> Z.of_nat (size m) <= max ->
  Z.of_nat (size (ReserveSpec max h now m).2) <= max.
Proof.
  intros Hm Hs. assert (size (live now m) <= size m)%nat as Hl.
  { apply map_subseteq_size, map_filter_subseteq. }
  unfold ReserveSpec. case_decide as Hd; cbn; [lia|].
  destruct (Z.leb_spec max (Z.of_nat (size (live now m)))); cbn; [lia|].
  rewrite map_size_insert_None; [lia|]. by apply eq_None_not_Some.
Qed.

(** ** The properties of the cache *)

(** C21: [Reserve] refines the abstract cache: on a cache whose heap mirrors its map
    the sift operations keep the mirror, the capacity is untouched, and both the
    verdict and the resulting map are those of [ReserveSpec], which drops every
    entry that has expired and then refuses a known hash, refuses a full cache, or
    records the hash for [replayRetention]. *)
Theorem Reserve_refines_spec h now c :
  cache_ok c ->
  cache_ok (Reserve h now c).2 /\
  maxEntries (Reserve h now c).2 = maxEntries c /\
  ReserveSpec (maxEntries c) h now (entries c) =
    ((Reserve h now c).1, entries (Reserve h now c).2).
Proof. intros Hok. pose proof (Reserve_spec h now c Hok). by destruct (Reserve h now c). Qed.

Lemma Reserve_refines_spec_witness :
  exists c, NewReplayCache 2 = Some c /\
    ReserveSpec 2 "h" 5 (entries c) = (None, {[ "h" := 15000000005 ]}) /\
    cache_ok (Reserve "h" 5 c).2.
Proof.
  eexists. split; [reflexivity|]. split; [vm_compute; reflexivity|].
  apply (Reserve_refines_spec "h" 5 _). apply (NewReplayCache_ok 2). reflexivity.
Defined.

(** Replay protection: once a proof hash has been accepted at [t], every
    reservation of the same hash at a reading of the clock before [t + 15s] is
    refused as a replay, whatever other reservations (at readings before that
    bound, in any order) reach the cache in between. *)
Theorem accepted_proof_not_accepted_again h t c c1 l t' :
  cache_ok c -> Reserve h t c = (None, c1) ->
  Forall (fun x => x.2 < t + replayRetention) l -> t' < t + replayRetention ->
  (Reserve h t' (reserve_all l c1)).1 = Some ErrReplay.
Proof.
  intros Hok HR Hl Ht'. pose proof (Reserve_spec h t c Hok) as Hs. rewrite HR in Hs.
  destruct Hs as (Hok1 & _ & [[? _]|(_ & _ & Hm)]%ReserveSpec_inv); [done|].
  assert (entries c1 !! h = Some (t + replayRetention)) as Hh by (rewrite Hm; apply lookup_insert_eq).
  destruct (reserve_all_keeps l c1 h _ Hok1 Hh Hl) as [Hok2 Hh2].
  pose proof (Reserve_spec h t' _ Hok2) as Hs2.
  destruct (Reserve h t' (reserve_all l c1)) as [err c2]. destruct Hs2 as (_ & _ & Hs2).
  unfold ReserveSpec in Hs2. rewrite decide_True in Hs2; [by injection Hs2 as <-|].
  eexists. by apply live_lookup.
Qed.

Lemma accepted_proof_not_accepted_again_witness :
  exists c c1, NewReplayCache 3 = Some c /\ Reserve "p" 100 c = (None, c1) /\
    (Reserve "p" 15000000099 (reserve_all [("q", 90); ("r", 15000000001)] c1)).1 = Some ErrReplay.
Proof.
  eexists _, _. split; [reflexivity|]. split; [vm_compute; reflexivity|].
  eapply (accepted_proof_not_accepted_again "p" 100 _ _ [("q", 90); ("r", 15000000001)]).
  - apply (NewReplayCache_ok 3). reflexivity.
  - vm_compute; reflexivity.
  - repeat constructor.
  - reflexivity.
Defined.

(** The cache is bounded: from a fresh cache of capacity [max], no sequence of
    reservations makes the map, or the heap that mirrors it, larger than [max]. *)
Theorem replay_cache_bounded max c l :
  NewReplayCache max = Some c ->
  Z.of_nat (size (entries (reserve_all l c))) <= max /\
  length (expiries (reserve_all l c)) = size (entries (reserve_all l c)).
Proof.
  intros HN. assert (0 < max) as Hmax by (unfold NewReplayCache in HN; case_match; [done|]; lia).
  destruct (NewReplayCache_ok _ _ HN) as [Hok Hm].
  assert (Z.of_nat (size (entries c)) <= max) as Hsz.
  { unfold NewReplayCache in HN. case_match; [done|]. injection HN as <-. cbn.
    rewrite map_size_empty. lia. }
  clear HN. revert c Hok Hm Hsz. induction l as [|[h now] l IH]; intros c Hok Hm Hsz; cbn.
  - split; [done|]. destruct Hok as [_ ->]. by rewrite length_fmap, length_map_to_list.
  - pose proof (Reserve_spec h now c Hok) as Hs. destruct (Reserve h now c) as [err c'].
    destruct Hs as (Hok' & Hm' & Hs). cbn [snd]. apply IH; [done | by rewrite Hm' |].
    pose proof (ReserveSpec_bound max h now (entries c) Hmax Hsz) as Hb.
    rewrite <- Hm, Hs in Hb. cbn in Hb. lia.
Qed.

Lemma replay_cache_bounded_witness :
  exists c, NewReplayCache 1 = Some c /\
    Z.of_nat (size (entries (reserve_all [("a", 1); ("b", 2); ("c", 15000000001)] c))) <= 1.
Proof.
  eexists. split; [reflexivity|].
  eapply (replay_cache_bounded 1 _ [("a", 1); ("b", 2); ("c", 15000000001)]). reflexivity.
Defined.
