(* ===== verification/Connections.v ===== *)
(** * internal/statedb/database.go: statements, their schema and their time

    The wrapper around [database/sql]: each statement is resolved for the kind of database
    and runs in a context that bounds its time and is released when its result is.  The
    driver is a class; the pool records which contexts are open and which statements were
    sent with which deadline.  The store's own model (Schema.v) starts above this file. *)

From S2P Require Import Prelude Runtime.

(** ** Contexts *)

(** A context: what its cancel function releases, when it has one, and its deadline. *)
Record Ctx := { ctx_id : option nat; deadline : option time }.
Definition Background : Ctx := {| ctx_id := None; deadline := None |}.

(** The driver of [database/sql]: every call is given the context it runs in. *)
Class Driver (D : Type) := {
  args : Type; result : Type; row_handle : Type; rows_handle : Type; tx_handle : Type;
  driver_now : D -> time * D;
  exec_context : Ctx -> string -> args -> D -> (result + error) * D;
  query_context : Ctx -> string -> args -> D -> (rows_handle + error) * D;
  query_row_context : Ctx -> string -> args -> D -> row_handle * D;
  begin_tx : Ctx -> D -> (tx_handle + error) * D;
  tx_exec : tx_handle -> Ctx -> string -> args -> D -> (result + error) * D;
  tx_query_row : tx_handle -> Ctx -> string -> args -> D -> row_handle * D;
  tx_commit : tx_handle -> D -> option error * D;
  tx_rollback : tx_handle -> D -> option error * D;
  scan_row : row_handle -> D -> option error * D;
  close_rows : rows_handle -> D -> option error * D;
  err_rows : rows_handle -> D -> option error * D;
  ping_context : Ctx -> D -> option error * D
}.

(** The pool: the contexts opened and not yet released, the next identifier, and the
    statements sent with their deadlines. *)
Record Pool (D : Type) := {
  driver : D;
  next_ctx : nat;
  open_ctxs : gset nat;
  statements : list (string * option time)
}.
#[global] Arguments driver {D} _.
#[global] Arguments next_ctx {D} _.
#[global] Arguments open_ctxs {D} _.
#[global] Arguments statements {D} _.
#[global] Arguments Build_Pool {D} _ _ _ _.

Definition with_driver {D} (p : Pool D) (x : D) : Pool D :=
  {| driver := x; next_ctx := next_ctx p; open_ctxs := open_ctxs p; statements := statements p |}.
Definition with_open {D} (p : Pool D) (next : nat) (open : gset nat) : Pool D :=
  {| driver := driver p; next_ctx := next; open_ctxs := open; statements := statements p |}.
Definition with_statement {D} (p : Pool D) (query : string) (limit : option time) : Pool D :=
  {| driver := driver p; next_ctx := next_ctx p; open_ctxs := open_ctxs p;
     statements := statements p ++ [(query, limit)] |}.

(** [statedb.database] *)
Record database := { timeout : duration; postgresql : bool }.

Definition stateSchemaToken : string := "{{state}}".

(** [strings.ReplaceAll(s, old, new)] for an [old] that is not empty. *)
Fixpoint replace_all (fuel : nat) (s old new : string) : string :=
  match fuel with
  | O => s
  | S fuel =>
      if has_prefix s old then new +:+ replace_all fuel (drop_bytes (String.length old) s) old new
      else match s with
           | EmptyString => ""
           | String c s => String c (replace_all fuel s old new)
           end
  end.
Definition ReplaceAll (s old new : string) : string := replace_all (S (String.length s)) s old new.

Example ReplaceAll_examples :
  ReplaceAll "SELECT a FROM {{state}}t, {{state}}u" stateSchemaToken "public." = "SELECT a FROM public.t, public.u" /\
  ReplaceAll "aaa" "aa" "b" = "ba" /\ ReplaceAll "" "x" "y" = "".
Proof. by vm_compute. Qed.

Section Connections.
Context {D : Type} `{!Driver D} (d : database).

Abbreviation pool := (Pool D).
Abbreviation op R A := (go pool R A).

Definition on_driver {B} (f : D -> B * D) (p : pool) : B * pool := let (b, x) := f (driver p) in (b, with_driver p x).
(** A statement is sent to the driver. *)
Definition send (ctx : Ctx) (query : string) (p : pool) : unit * pool :=
  (tt, with_statement p query (deadline ctx)).

Definition stateSQL (query : string) : string :=
  ReplaceAll query stateSchemaToken (if postgresql d then "public." else "").

(** [context.WithTimeout]: the earlier of the two deadlines. *)
Definition earlier (a b : option time) : option time :=
  match a, b with
  | Some a, Some b => Some (if before a b then a else b)
  | Some a, None => Some a
  | None, _ => b
  end.
Definition WithTimeout (parent : Ctx) (limit : duration) : pool -> Ctx * pool := run (
  now ← call (on_driver driver_now);
  p ← get;
  let id := next_ctx p in
  call (fun p => (tt, with_open p (S id) ({[id]} ∪ open_ctxs p))) ;;
  mret {| ctx_id := Some id; deadline := earlier (deadline parent) (Some (add now limit)) |}).

(** [operationContext]: the context and whether its cancel function does something. *)
Definition operationContext (parent : Ctx) : pool -> (Ctx * option nat) * pool := run (
  if timeout d <=? 0 then mret (parent, None)
  else ctx ← call (WithTimeout parent (timeout d)); mret (ctx, ctx_id ctx)).
Definition queryContext : pool -> (Ctx * option nat) * pool := operationContext Background.
Definition cancel (c : option nat) (p : pool) : unit * pool :=
  (tt, match c with Some id => with_open p (next_ctx p) (open_ctxs p ∖ {[id]}) | None => p end).

(** ** Statements *)

Record row := { row_of : row_handle; row_cancel : option nat }.
Record rows := { rows_of : rows_handle; rows_cancel : option nat }.
Record transaction := { tx_of : tx_handle; tx_ctx : Ctx; tx_cancel : option nat }.

Definition ExecContext (parent : Ctx) (query : string) (a : args) : pool -> (result + error) * pool := run (
  '(ctx, c) ← call (operationContext parent);
  call (send ctx (stateSQL query)) ;;
  answer ← call (on_driver (exec_context ctx (stateSQL query) a));
  call (cancel c) ;;
  mret answer).
Definition Exec (query : string) (a : args) : pool -> (result + error) * pool := ExecContext Background query a.

Definition Query (query : string) (a : args) : pool -> (rows + error) * pool := run (
  '(ctx, c) ← call queryContext;
  call (send ctx (stateSQL query)) ;;
  answer ← call (on_driver (query_context ctx (stateSQL query) a));
  match answer with
  | inr err => call (cancel c) ;; mret (inr err)
  | inl r => mret (inl {| rows_of := r; rows_cancel := c |})
  end).

Definition QueryRow (query : string) (a : args) : pool -> row * pool := run (
  '(ctx, c) ← call queryContext;
  call (send ctx (stateSQL query)) ;;
  r ← call (on_driver (query_row_context ctx (stateSQL query) a));
  mret {| row_of := r; row_cancel := c |}).

Definition QueryRowContext (ctx : Ctx) (query : string) (a : args) : pool -> row_handle * pool := run (
  call (send ctx (stateSQL query)) ;;
  call (on_driver (query_row_context ctx (stateSQL query) a))).

Definition Begin : pool -> (transaction + error) * pool := run (
  '(ctx, c) ← call queryContext;
  answer ← call (on_driver (begin_tx ctx));
  match answer with
  | inr err => call (cancel c) ;; mret (inr err)
  | inl t => mret (inl {| tx_of := t; tx_ctx := ctx; tx_cancel := c |})
  end).

Definition PingContext (ctx : Ctx) : pool -> option error * pool := on_driver (ping_context ctx).

(** ** Results *)

Definition Scan (r : row) : pool -> option error * pool := run (
  err ← call (on_driver (scan_row (row_of r))); call (cancel (row_cancel r)) ;; mret err).
Definition Close (r : rows) : pool -> option error * pool := run (
  err ← call (on_driver (close_rows (rows_of r))); call (cancel (rows_cancel r)) ;; mret err).
Definition Err (r : rows) : pool -> option error * pool := run (
  err ← call (on_driver (err_rows (rows_of r))); call (cancel (rows_cancel r)) ;; mret err).

Definition TxExec (t : transaction) (query : string) (a : args) : pool -> (result + error) * pool := run (
  call (send (tx_ctx t) (stateSQL query)) ;;
  call (on_driver (tx_exec (tx_of t) (tx_ctx t) (stateSQL query) a))).
Definition TxQueryRow (t : transaction) (query : string) (a : args) : pool -> row_handle * pool := run (
  call (send (tx_ctx t) (stateSQL query)) ;;
  call (on_driver (tx_query_row (tx_of t) (tx_ctx t) (stateSQL query) a))).
Definition Commit (t : transaction) : pool -> option error * pool := run (
  err ← call (on_driver (tx_commit (tx_of t))); call (cancel (tx_cancel t)) ;; mret err).
Definition Rollback (t : transaction) : pool -> option error * pool := run (
  err ← call (on_driver (tx_rollback (tx_of t))); call (cancel (tx_cancel t)) ;; mret err).

(** [Store.Ready]; on PostgreSQL the schema and the privileges are checked too
    ([CheckRuntime], Databases.v, run here in the context of the call). *)
Definition Ready (check_runtime : Ctx -> pool -> option error * pool) (parent : Ctx) : pool -> option error * pool := run (
  '(ctx, c) ← call (operationContext parent);
  err ← call (if postgresql d then check_runtime ctx else PingContext ctx);
  call (cancel c) ;;
  mret (Wrapped "state database unavailable" <$> err)).

(** [lockRows] and [lockJoinedRows] *)
Definition lockRows : string := if postgresql d then " FOR UPDATE" else "".
Definition lockJoinedRows : string := if postgresql d then " FOR UPDATE OF g,t" else "".
End Connections.

(** * What the wrapper of the database guarantees (Connections.v)

    No operation leaves its context open: a statement releases it before it returns, a
    query when its rows are closed, a transaction when it is committed or rolled back,
    whatever the driver answers.  When the configuration bounds statements, every statement
    is sent with a deadline that keeps the bound. *)

(** ** The schema of a statement *)

(** A part of a statement without the schema's token. *)
Definition plain (s : string) : Prop := string_forallb (fun c => negb (Ascii.eqb c "{")) s = true.

Lemma plain_cons c s : plain (String c s) -> (forall rest, has_prefix (String c rest) stateSchemaToken = false) /\ plain s.
Proof.
  unfold plain. cbn [string_forallb]. intros [Hc Hp]%andb_true_iff. split; [|done]. intros rest.
  change (Ascii.eqb "{" c && has_prefix rest "{state}}" = false). rewrite Ascii.eqb_sym.
  apply negb_true_iff in Hc. by rewrite Hc.
Qed.

Lemma replace_all_skip fuel s rest new :
  plain s -> replace_all (String.length s + fuel) (s +:+ rest) stateSchemaToken new
             = s +:+ replace_all fuel rest stateSchemaToken new.
Proof.
  induction s as [|c s IH]; [done|]. intros [Hc Hp]%plain_cons.
  change (String.length (String c s) + fuel)%nat with (S (String.length s + fuel)).
  change (String c s +:+ rest) with (String c (s +:+ rest)). cbn [replace_all]. rewrite Hc, (IH Hp). done.
Qed.

Lemma append_nil_r (s : string) : s +:+ "" = s.
Proof. induction s as [|c s IH]; [done|]. change (String c (s +:+ "") = String c s). by rewrite IH. Qed.

Lemma replace_all_join new parts fuel :
  Forall plain parts -> (String.length (join stateSchemaToken parts) < fuel)%nat ->
  replace_all fuel (join stateSchemaToken parts) stateSchemaToken new = join new parts.
Proof.
  intros Hp. revert fuel. induction Hp as [|part parts Hpart Hp IH]; intros fuel Hf.
  { by destruct fuel. }
  assert (exists rest, join stateSchemaToken (part :: parts) = part +:+ rest /\
    forall fuel, (String.length rest < fuel)%nat ->
      part +:+ replace_all fuel rest stateSchemaToken new = join new (part :: parts)) as (rest & E & Hrest).
  { destruct parts as [|next parts].
    - exists "". cbn [join]. rewrite append_nil_r. split; [done|]. intros [|f] _; cbn; by rewrite append_nil_r.
    - exists (stateSchemaToken +:+ join stateSchemaToken (next :: parts)). split; [done|].
      intros [|f] Hl; [lia|]. rewrite length_append in Hl. cbn [replace_all].
      rewrite has_prefix_append, drop_bytes_append, IH; [done|].
      change (String.length stateSchemaToken) with 9%nat in Hl. lia. }
  rewrite E in Hf |- *. rewrite length_append in Hf.
  replace fuel with (String.length part + (fuel - String.length part))%nat by lia.
  rewrite replace_all_skip by done. apply Hrest. lia.
Qed.

(** Every token of a statement is resolved, and nothing else of it changes. *)
Lemma stateSQL_resolves d parts :
  Forall plain parts ->
  stateSQL d (join stateSchemaToken parts) = join (if postgresql d then "public." else "") parts.
Proof. intros Hp. apply replace_all_join; [done|lia]. Qed.

(** ** Contexts *)

Section Lifetimes.
Context {D : Type} `{!Driver D} (d : database).
Abbreviation pool := (Pool D).
Implicit Types p q : pool.

(** The next identifier is new. *)
Definition numbered p : Prop := forall id, id ∈ open_ctxs p -> (id < next_ctx p)%nat.
(** The context an operation holds. *)
Definition held (c : option nat) : gset nat := match c with Some id => {[id]} | None => ∅ end.

(** From [p] to [q] the contexts of [c] were opened, and every other one that was opened was
    also released. *)
Record holds (c : option nat) p q : Prop := {
  holds_open : open_ctxs q = held c ∪ open_ctxs p;
  holds_new : held c ## open_ctxs p;
  holds_next : (next_ctx p <= next_ctx q)%nat;
  holds_numbered : numbered q
}.

(** An operation that leaves the open contexts as they were. *)
Definition releases {B} (f : pool -> B * pool) : Prop := forall p, numbered p -> ends f p (fun _ => holds None p).
(** An operation whose result holds its context. *)
Definition opens {B} (ctx : B -> option nat) (f : pool -> B * pool) : Prop :=
  forall p, numbered p -> ends f p (fun b => holds (ctx b) p).

Lemma releases_on_driver {B} (f : D -> B * D) : releases (on_driver f).
Proof. intros p Hp. unfold ends, on_driver. destruct (f (driver p)). by split; cbn; [set_solver|set_solver|lia|]. Qed.

Lemma releases_send ctx query : releases (send ctx query).
Proof. intros p Hp. by split; cbn; [set_solver|set_solver|lia|]. Qed.

Lemma WithTimeout_eq parent limit p :
  WithTimeout parent limit p =
    let (now, x) := driver_now (driver p) in
    ({| ctx_id := Some (next_ctx p); deadline := earlier (deadline parent) (Some (add now limit)) |},
     with_open (with_driver p x) (S (next_ctx p)) ({[next_ctx p]} ∪ open_ctxs p)).
Proof.
  unfold WithTimeout, run, mbind, go_bind, call, on_driver, get, mret, go_ret.
  by destruct (driver_now (driver p)).
Qed.

Lemma WithTimeout_opens parent limit : opens ctx_id (WithTimeout parent limit).
Proof.
  intros p Hp. unfold ends. rewrite WithTimeout_eq. destruct (driver_now (driver p)) as [now x].
  split; cbn; [done| |lia|].
  - intros id Hid%elem_of_singleton Ho%Hp. lia.
  - intros id Hid. cbn in Hid. apply elem_of_union in Hid as [->%elem_of_singleton|Ho%Hp]; cbn; lia.
Qed.

Lemma operationContext_opens parent : opens snd (operationContext d parent).
Proof.
  intros p Hp. unfold ends, operationContext, run. destruct (timeout d <=? 0).
  { split; cbn; [set_solver|set_solver|lia|done]. }
  pose proof (WithTimeout_opens parent (timeout d) p Hp) as Ho. unfold ends in Ho.
  unfold mbind, go_bind, call, mret, go_ret. by destruct (WithTimeout parent (timeout d) p).
Qed.

(** *** Through the body of an operation *)

Section Steps.
Context {R : Type}.

Lemma wp_opens {B} (ctx : B -> option nat) (f : pool -> B * pool) p (Q : R + B -> pool -> Prop) :
  opens ctx f -> numbered p -> (forall b q, holds (ctx b) p q -> Q (inr b) q) -> wp (call f) p Q.
Proof. intros Hf Hp HQ. apply wp_call. apply HQ, Hf, Hp. Qed.

Lemma wp_releases {B} (f : pool -> B * pool) c p q (Q : R + B -> pool -> Prop) :
  holds c p q -> releases f -> (forall b q', holds c p q' -> Q (inr b) q') -> wp (call f) q Q.
Proof.
  intros [Ho Hn Hx Hq] Hf HQ. apply wp_call. apply HQ. destruct (Hf q Hq) as [Ho' _ Hx' Hq'].
  cbn [held] in Ho'. split; [set_solver|done|lia|done].
Qed.

(** Cancelling what was held restores the contexts, whatever happened in between. *)
Lemma wp_cancel c p q (Q : R + unit -> pool -> Prop) :
  holds c p q -> (forall q', holds None p q' -> Q (inr tt) q') -> wp (call (cancel c)) q Q.
Proof.
  intros [Ho Hn Hx Hq] HQ. apply wp_call. apply HQ. destruct c as [id|]; cbn in *.
  - split; cbn; [set_solver|set_solver|done|]. intros i Hi. apply Hq. cbn in Hi. set_solver.
  - by split; cbn; [set_solver|set_solver|lia|].
Qed.
End Steps.

(** Inside a call made in [p], [c] being held. *)
Ltac lifetime_step :=
  progress cbn [merge sum_rect row_cancel rows_cancel tx_cancel] ||
  lazymatch goal with
  | |- wp (mret _) _ _ => apply wp_ret
  | |- wp (_ ≫= _) _ _ => apply wp_bind
  | |- wp (let (_, _) := ?x in _) _ _ => destruct x
  | |- wp (match ?x with inl _ => _ | inr _ => _ end) _ _ => destruct x
  | |- wp (call (operationContext _ _)) _ _ => eapply wp_opens; [apply operationContext_opens|eassumption|intros ? ? ?]
  | |- wp (call (queryContext _)) _ _ => eapply wp_opens; [apply operationContext_opens|eassumption|intros ? ? ?]
  | |- wp (call (cancel _)) _ _ => eapply wp_cancel; [eassumption|intros ? ?]
  | |- wp (call _) _ _ =>
      eapply wp_releases; [eassumption|solve [apply releases_on_driver|apply releases_send|eauto]|intros ? ? ?]
  end.
Ltac by_lifetimes := repeat lifetime_step.

Lemma ExecContext_releases parent query a : releases (ExecContext d parent query a).
Proof. intros p Hp. apply ends_run. by_lifetimes. done. Qed.
Lemma Exec_releases query a : releases (Exec d query a).
Proof. apply ExecContext_releases. Qed.

(** A query holds its context until its rows are closed or their error is read. *)
Lemma Query_opens query a : opens (sum_rect (fun _ => option nat) rows_cancel (fun _ => None)) (Query d query a).
Proof. intros p Hp. apply ends_run. by_lifetimes; done. Qed.
Lemma QueryRow_opens query a : opens row_cancel (QueryRow d query a).
Proof. intros p Hp. apply ends_run. by_lifetimes; done. Qed.
Lemma Begin_opens : opens (sum_rect (fun _ => option nat) tx_cancel (fun _ => None)) (Begin d).
Proof. intros p Hp. apply ends_run. by_lifetimes; done. Qed.

(** [f] releases the context [c] that its caller holds. *)
Definition closes {B} (c : option nat) (f : pool -> B * pool) : Prop :=
  forall p q, holds c p q -> ends f q (fun _ => holds None p).

Lemma Scan_closes r : closes (row_cancel r) (Scan r).
Proof. intros p q Hq. apply ends_run. by_lifetimes. done. Qed.
Lemma Close_closes r : closes (rows_cancel r) (Close r).
Proof. intros p q Hq. apply ends_run. by_lifetimes. done. Qed.
Lemma Err_closes r : closes (rows_cancel r) (Err r).
Proof. intros p q Hq. apply ends_run. by_lifetimes. done. Qed.
Lemma Commit_closes t : closes (tx_cancel t) (Commit t).
Proof. intros p q Hq. apply ends_run. by_lifetimes. done. Qed.
Lemma Rollback_closes t : closes (tx_cancel t) (Rollback t).
Proof. intros p q Hq. apply ends_run. by_lifetimes. done. Qed.

(** What the code does between the two releases the contexts it opens. *)
Lemma holds_none p : numbered p -> holds None p p.
Proof. intros Hp. by split; cbn; [set_solver|set_solver|lia|]. Qed.
Lemma QueryRowContext_releases ctx query a : releases (QueryRowContext d ctx query a).
Proof. intros p Hp%holds_none. apply ends_run. by_lifetimes. done. Qed.
Lemma TxExec_releases t query a : releases (TxExec d t query a).
Proof. intros p Hp%holds_none. apply ends_run. by_lifetimes. done. Qed.
Lemma TxQueryRow_releases t query a : releases (TxQueryRow d t query a).
Proof. intros p Hp%holds_none. apply ends_run. by_lifetimes. done. Qed.
Lemma PingContext_releases ctx : releases (PingContext ctx).
Proof. apply releases_on_driver. Qed.
Lemma Ready_releases check parent : (forall ctx, releases (check ctx)) -> releases (Ready d check parent).
Proof.
  intros Hcheck p Hp. apply ends_run.
  assert (forall ctx, releases (if postgresql d then check ctx else PingContext ctx)) as Hprobe.
  { intros ctx. destruct (postgresql d); [apply Hcheck|apply PingContext_releases]. }
  by_lifetimes. done.
Qed.

(** ** The whole of a query and of a transaction *)

(** [q, err := open(); if err != nil { return err }; ...; close(q)] *)
Definition bracket {X Y} (open : pool -> (X + error) * pool) (body : X -> pool -> Y * pool)
    (close : X -> pool -> option error * pool) : pool -> (Y * option error + error) * pool := run (
  answer ← call open;
  match answer with
  | inr err => mret (inr err)
  | inl x => y ← call (body x); err ← call (close x); mret (inl (y, err))
  end).

Lemma bracket_releases {X Y} ctx (open : pool -> (X + error) * pool) (body : X -> pool -> Y * pool) close :
  opens (sum_rect (fun _ => option nat) ctx (fun _ => None)) open ->
  (forall x, releases (body x)) -> (forall x, closes (ctx x) (close x)) ->
  releases (bracket open body close).
Proof.
  intros Hopen Hbody Hclose p Hp. apply ends_run, wp_bind. eapply wp_opens; [done|done|].
  intros [x|err] q Hq; cbn [sum_rect] in Hq; [|by apply wp_ret].
  apply wp_bind. eapply wp_releases; [done|apply Hbody|]. intros y q' Hq'.
  apply wp_bind, wp_call. eapply ends_mono; [by apply Hclose|]. intros err q'' Hq''. by apply wp_ret.
Qed.

(** Rows are read and closed, a transaction is run and committed or rolled back: whatever
    the driver answers, no context stays open. *)
Lemma rows_release {Y} query a (body : rows -> pool -> Y * pool) :
  (forall r, releases (body r)) -> releases (bracket (Query d query a) body Close).
Proof. intros Hbody. apply (bracket_releases rows_cancel); [apply Query_opens|done|apply Close_closes]. Qed.
Lemma transaction_releases {Y} (body : transaction -> pool -> Y * pool) (commit : bool) :
  (forall t, releases (body t)) -> releases (bracket (Begin d) body (if commit then Commit else Rollback)).
Proof.
  intros Hbody. apply (bracket_releases tx_cancel); [apply Begin_opens|done|]. intros t.
  destruct commit; [apply Commit_closes|apply Rollback_closes].
Qed.

(** ** Time *)

Lemma operationContext_eq parent p :
  0 < timeout d ->
  operationContext d parent p =
    let (now, x) := driver_now (driver p) in
    ({| ctx_id := Some (next_ctx p); deadline := earlier (deadline parent) (Some (add now (timeout d))) |},
     Some (next_ctx p),
     with_open (with_driver p x) (S (next_ctx p)) ({[next_ctx p]} ∪ open_ctxs p)).
Proof.
  intros Ht. unfold operationContext, run. rewrite (proj2 (Z.leb_gt _ _) Ht).
  unfold mbind, go_bind, call at 1, mret, go_ret. rewrite WithTimeout_eq. by destruct (driver_now (driver p)).
Qed.

Lemma earlier_spec parent t :
  exists limit, earlier parent (Some t) = Some limit /\ limit <= t /\ (forall u, parent = Some u -> limit <= u).
Proof.
  destruct parent as [u|]; cbn; eexists; (split; [done|]).
  - unfold before. destruct (Z.ltb_spec u t); split; intros; simplify_eq; lia.
  - by split; [lia|].
Qed.

(** From [p] to [q] one statement was sent, with its tokens resolved, and with a deadline no
    later than the bound of the configuration after the time read in [p]. *)
Definition timely query p q : Prop :=
  exists limit, statements q = statements p ++ [(stateSQL d query, Some limit)] /\
    limit <= (driver_now (driver p)).1 + timeout d.

Ltac by_timely :=
  intros Ht; unfold timely, ExecContext, Exec, Query, QueryRow, queryContext, run;
  match goal with |- context [call (operationContext d ?parent)] =>
    match goal with |- context [driver_now (driver ?p)] =>
      destruct (earlier_spec (deadline parent) (add (driver_now (driver p)).1 (timeout d))) as (limit & El & ? & _);
      unfold mbind, go_bind, call at 1; rewrite (operationContext_eq parent p Ht);
      destruct (driver_now (driver p)) as [now x]; cbn [fst] in *; rewrite El;
      exists limit; split; [|done]
    end
  end;
  unfold call, send, on_driver, cancel, mret, go_ret; cbn [deadline driver with_statement with_open with_driver];
  repeat match goal with |- context [let (_, _) := ?f ?ctx ?q ?a ?x in _] => destruct (f ctx q a x) as [[]?] || destruct (f ctx q a x) end;
  done.

(** Statements outside a transaction are bounded. *)
Lemma ExecContext_timely parent query a p : 0 < timeout d -> timely query p (ExecContext d parent query a p).2.
Proof. by_timely. Qed.
Lemma Query_timely query a p : 0 < timeout d -> timely query p (Query d query a p).2.
Proof. by_timely. Qed.
Lemma QueryRow_timely query a p : 0 < timeout d -> timely query p (QueryRow d query a p).2.
Proof. by_timely. Qed.

(** A transaction's statements run in its context, bounded when it began. *)
Lemma Begin_bounds p t q :
  0 < timeout d -> Begin d p = (inl t, q) ->
  exists limit, deadline (tx_ctx t) = Some limit /\ limit <= (driver_now (driver p)).1 + timeout d.
Proof.
  intros Ht E. destruct (earlier_spec None (add (driver_now (driver p)).1 (timeout d))) as (limit & El & ? & _).
  revert E. unfold Begin, queryContext, run, mbind, go_bind, call at 1. rewrite (operationContext_eq _ p Ht).
  destruct (driver_now (driver p)) as [now x]. cbn [fst] in *. cbn [deadline Background]. rewrite El.
  unfold call, on_driver, cancel, mret, go_ret. cbn [driver with_open with_driver].
  match goal with |- context [begin_tx ?c x] => destruct (begin_tx c x) as [[handle|err] x'] end; intros [= <- <-].
  by exists limit.
Qed.
Lemma TxExec_sent t query a p :
  statements (TxExec d t query a p).2 = statements p ++ [(stateSQL d query, deadline (tx_ctx t))].
Proof.
  unfold TxExec, run, mbind, go_bind, call, send, on_driver. cbn [driver with_statement].
  by destruct (tx_exec _ _ _ _ _).
Qed.

(** The caller's own deadline is kept. *)
Lemma operationContext_keeps_parent parent p t :
  deadline parent = Some t ->
  exists limit, deadline ((operationContext d parent p).1).1 = Some limit /\ limit <= t.
Proof.
  intros Et. destruct (Z.ltb_spec 0 (timeout d)) as [Ht|Ht].
  - rewrite (operationContext_eq _ p Ht). destruct (driver_now (driver p)) as [now x].
    destruct (earlier_spec (deadline parent) (add now (timeout d))) as (limit & El & _ & Hl).
    cbn [fst deadline]. rewrite El. eauto.
  - unfold operationContext, run. rewrite (proj2 (Z.leb_le _ _) Ht). cbn [fst mret go_ret]. exists t. by split.
Qed.
End Lifetimes.
