(* ===== verification/Schema.v ===== *)
(** * internal/statedb: tables, rows and statements

    The eleven tables of the state database (internal/statedb/migrations and
    [initSQLiteSchema]), the Go records whose fields are their columns, and the
    statements a store operation is made of.

    A table with a primary key is a finite map from the key; [otp_sends] has no key
    and is a list.  Times that are written in the same zone compare as instants; where
    a statement compares a time in the local zone with one in UTC, it does so with
    [written_before].  The SQLite and PostgreSQL texts of a statement have otherwise the
    same meaning on the rows and are not distinguished.  A
    statement fails when the environment says so or when it violates a constraint of
    the schema; it then has no effect.  [begin_tx] opens a private copy of the
    tables, [commit_tx] installs it; a transaction that is left without a commit is
    rolled back by forgetting the copy. *)

From S2P Require Import Prelude Runtime ReplayCache.

(** ** Records of the Go code *)

Module State.

(** [statedb.OAuthState] *)
Record OAuthState := {
  StateToken : string;
  ClientID : string;
  RedirectURI : string;
  CodeChallenge : string;
  Nonce : string;
  OIDCState : string;
  CreatedAt : time;
  ExpiresAt : time;
  ConnectorID : string;
  Scopes : string;
  RefreshMode : string;
  AuthTime : time;
  OfflineConsent : bool;
  Purpose : string;
  DPoPJKT : string;
  PushedAuthorization : bool
}.

#[global] Instance eta_OAuthState : Eta OAuthState := fun x =>
  {|
     StateToken := StateToken x; ClientID := ClientID x; RedirectURI := RedirectURI x;
     CodeChallenge := CodeChallenge x; Nonce := Nonce x; OIDCState := OIDCState x;
     CreatedAt := CreatedAt x; ExpiresAt := ExpiresAt x; ConnectorID := ConnectorID x;
     Scopes := Scopes x; RefreshMode := RefreshMode x; AuthTime := AuthTime x;
     OfflineConsent := OfflineConsent x; Purpose := Purpose x; DPoPJKT := DPoPJKT x;
     PushedAuthorization := PushedAuthorization x
  |}.

End State.

Module Code.

(** [statedb.AuthCode] *)
Record AuthCode := {
  Code : string;
  ClientID : string;
  RedirectURI : string;
  CodeChallenge : string;
  Email : string;
  EmailVerified : bool;
  Nonce : string;
  CreatedAt : time;
  ExpiresAt : time;
  Scopes : string;
  RefreshMode : string;
  AuthTime : time;
  ConnectorID : string;
  UpstreamSubject : string;
  OfflineConsent : bool;
  DPoPJKT : string;
  PushedAuthorization : bool
}.

#[global] Instance eta_AuthCode : Eta AuthCode := fun x =>
  {|
     Code := Code x; ClientID := ClientID x; RedirectURI := RedirectURI x; CodeChallenge
     := CodeChallenge x; Email := Email x; EmailVerified := EmailVerified x; Nonce :=
     Nonce x; CreatedAt := CreatedAt x; ExpiresAt := ExpiresAt x; Scopes := Scopes x;
     RefreshMode := RefreshMode x; AuthTime := AuthTime x; ConnectorID := ConnectorID x;
     UpstreamSubject := UpstreamSubject x; OfflineConsent := OfflineConsent x; DPoPJKT
     := DPoPJKT x; PushedAuthorization := PushedAuthorization x
  |}.

#[global] Instance AuthCode_eq_dec : EqDecision AuthCode.
Proof. solve_decision. Defined.

End Code.

Module Pushed.

(** [statedb.PushedRequest] *)
Record PushedRequest := {
  RequestURI : string;
  ClientID : string;
  RedirectURI : string;
  ResponseType : string;
  Scopes : string;
  State : string;
  Nonce : string;
  CodeChallenge : string;
  CodeChallengeMethod : string;
  Prompt : string;
  DPoPJKT : string;
  CreatedAt : time;
  ExpiresAt : time
}.

#[global] Instance eta_PushedRequest : Eta PushedRequest := fun x =>
  {|
     RequestURI := RequestURI x; ClientID := ClientID x; RedirectURI := RedirectURI x;
     ResponseType := ResponseType x; Scopes := Scopes x; State := State x; Nonce :=
     Nonce x; CodeChallenge := CodeChallenge x; CodeChallengeMethod :=
     CodeChallengeMethod x; Prompt := Prompt x; DPoPJKT := DPoPJKT x; CreatedAt :=
     CreatedAt x; ExpiresAt := ExpiresAt x
  |}.

End Pushed.

Module Flow.

(** [statedb.OTPFlow] *)
Record OTPFlow := {
  FlowID : string;
  ConnectorID : string;
  Subject : string;
  Email : string;
  ClientID : string;
  RedirectURI : string;
  CodeChallenge : string;
  Nonce : string;
  OIDCState : string;
  Scopes : string;
  RefreshMode : string;
  AuthTime : time;
  OfflineConsent : bool;
  Purpose : string;
  DPoPJKT : string;
  PushedAuthorization : bool
}.

#[global] Instance eta_OTPFlow : Eta OTPFlow := fun x =>
  {|
     FlowID := FlowID x; ConnectorID := ConnectorID x; Subject := Subject x; Email :=
     Email x; ClientID := ClientID x; RedirectURI := RedirectURI x; CodeChallenge :=
     CodeChallenge x; Nonce := Nonce x; OIDCState := OIDCState x; Scopes := Scopes x;
     RefreshMode := RefreshMode x; AuthTime := AuthTime x; OfflineConsent :=
     OfflineConsent x; Purpose := Purpose x; DPoPJKT := DPoPJKT x; PushedAuthorization
     := PushedAuthorization x
  |}.

#[global] Instance OTPFlow_eq_dec : EqDecision OTPFlow.
Proof. solve_decision. Defined.

End Flow.

Module Material.

(** [statedb.RefreshMaterial]: a parsed refresh token *)
Record RefreshMaterial := {
  Token : string;
  Handle : string;
  Secret : string;
  HandleHash : string;
  TokenHash : string
}.

#[global] Instance eta_RefreshMaterial : Eta RefreshMaterial := fun x =>
  {|
     Token := Token x; Handle := Handle x; Secret := Secret x; HandleHash := HandleHash
     x; TokenHash := TokenHash x
  |}.

End Material.

Module Grant.

(** [statedb.RefreshGrant] *)
Record RefreshGrant := {
  SID : string;
  ClientID : string;
  Email : string;
  EmailVerified : bool;
  Scopes : string;
  ConnectorID : string;
  UpstreamSubject : string;
  Mode : string;
  AuthTime : time;
  IdleTTL : duration;
  AbsoluteExpiry : time;
  CredentialNonce : string;
  CredentialCiphertext : string;
  UpstreamAccessExpiry : time;
  UpstreamRefreshExpiry : time;
  UpstreamAccessNonExpiring : bool;
  DPoPJKT : string
}.

#[global] Instance eta_RefreshGrant : Eta RefreshGrant := fun x =>
  {|
     SID := SID x; ClientID := ClientID x; Email := Email x; EmailVerified :=
     EmailVerified x; Scopes := Scopes x; ConnectorID := ConnectorID x; UpstreamSubject
     := UpstreamSubject x; Mode := Mode x; AuthTime := AuthTime x; IdleTTL := IdleTTL x;
     AbsoluteExpiry := AbsoluteExpiry x; CredentialNonce := CredentialNonce x;
     CredentialCiphertext := CredentialCiphertext x; UpstreamAccessExpiry :=
     UpstreamAccessExpiry x; UpstreamRefreshExpiry := UpstreamRefreshExpiry x;
     UpstreamAccessNonExpiring := UpstreamAccessNonExpiring x; DPoPJKT := DPoPJKT x
  |}.

End Grant.

(** [statedb.RefreshClaim] *)
Record RefreshClaim := {
  ClaimID : string;
  ClaimExpiresAt : time
}.

#[global] Instance eta_RefreshClaim : Eta RefreshClaim := fun x =>
  {|
     ClaimID := ClaimID x; ClaimExpiresAt := ClaimExpiresAt x
  |}.

(** [statedb.AuthCodeBinding] *)
Record AuthCodeBinding := {
  bind_ClientID : string;
  bind_RedirectURI : string;
  bind_CodeChallenge : string
}.

#[global] Instance eta_AuthCodeBinding : Eta AuthCodeBinding := fun x =>
  {|
     bind_ClientID := bind_ClientID x; bind_RedirectURI := bind_RedirectURI x;
     bind_CodeChallenge := bind_CodeChallenge x
  |}.

(** [upstream.Email] *)
Record EmailAssertion := {
  Address : string;
  Verified : bool;
  Primary : bool
}.

#[global] Instance eta_EmailAssertion : Eta EmailAssertion := fun x =>
  {|
     Address := Address x; Verified := Verified x; Primary := Primary x
  |}.

(** The zero values of the Go types. *)
Definition zero_grant : Grant.RefreshGrant :=
  {| Grant.SID := ""; Grant.ClientID := ""; Grant.Email := ""; Grant.EmailVerified := false;
     Grant.Scopes := ""; Grant.ConnectorID := ""; Grant.UpstreamSubject := ""; Grant.Mode := "";
     Grant.AuthTime := zero_time; Grant.IdleTTL := 0; Grant.AbsoluteExpiry := zero_time;
     Grant.CredentialNonce := ""; Grant.CredentialCiphertext := "";
     Grant.UpstreamAccessExpiry := zero_time; Grant.UpstreamRefreshExpiry := zero_time;
     Grant.UpstreamAccessNonExpiring := false; Grant.DPoPJKT := "" |}.
Definition zero_claim : RefreshClaim := {| ClaimID := ""; ClaimExpiresAt := zero_time |}.
Definition zero_material : Material.RefreshMaterial :=
  {| Material.Token := ""; Material.Handle := ""; Material.Secret := "";
     Material.HandleHash := ""; Material.TokenHash := "" |}.
Definition zero_flow : Flow.OTPFlow :=
  {| Flow.FlowID := ""; Flow.ConnectorID := ""; Flow.Subject := ""; Flow.Email := "";
     Flow.ClientID := ""; Flow.RedirectURI := ""; Flow.CodeChallenge := ""; Flow.Nonce := "";
     Flow.OIDCState := ""; Flow.Scopes := ""; Flow.RefreshMode := ""; Flow.AuthTime := zero_time;
     Flow.OfflineConsent := false; Flow.Purpose := ""; Flow.DPoPJKT := "";
     Flow.PushedAuthorization := false |}.

(** ** Nullable columns *)

(** [nullable] and [nullableTime] store an absent value as SQL NULL; reads undo them
    with [COALESCE] and with the zero time of [sql.NullTime]. *)
Definition nullable (value : string) : option string :=
  if is_empty value then None else Some value.
Definition coalesce (column : option string) : string := default "" column.
Definition nullableTime (value : time) : option time := if is_zero value then None else Some value.
Definition null_time (column : option time) : time := default zero_time column.

Lemma coalesce_nullable s : coalesce (nullable s) = s.
Proof. unfold nullable, is_empty. by destruct (String.eqb_spec s ""). Qed.

Lemma null_time_nullable t : null_time (nullableTime t) = t.
Proof. unfold nullableTime, is_zero. by destruct (Z.eqb_spec t zero_time). Qed.

(** ** Rows of the tables whose columns differ from a Go record *)

(** [refresh_grants], keyed by [sid] *)
Record GrantRow := {
  g_client_id : string;
  g_email : string;
  g_email_verified : bool;
  g_scopes : string;
  g_connector_id : string;
  g_upstream_subject : string;
  g_credential_nonce : string;
  g_credential_ciphertext : string;
  g_mode : string;
  g_auth_time : time;
  g_created_at : time;
  g_last_used_at : time;
  g_idle_ttl_ns : Z;
  g_idle_expires_at : time;
  g_absolute_expires_at : time;
  g_revoked_at : option time;
  g_revoke_reason : option string;
  g_upstream_access_expires_at : option time;
  g_upstream_refresh_expires_at : option time;
  g_upstream_access_nonexpiring : bool;
  g_claim_id : option string;
  g_claim_expires_at : option time;
  g_upstream_refresh_started : bool;
  g_dpop_jkt : option string
}.

#[global] Instance eta_GrantRow : Eta GrantRow := fun x =>
  {|
     g_client_id := g_client_id x; g_email := g_email x; g_email_verified :=
     g_email_verified x; g_scopes := g_scopes x; g_connector_id := g_connector_id x;
     g_upstream_subject := g_upstream_subject x; g_credential_nonce :=
     g_credential_nonce x; g_credential_ciphertext := g_credential_ciphertext x; g_mode
     := g_mode x; g_auth_time := g_auth_time x; g_created_at := g_created_at x;
     g_last_used_at := g_last_used_at x; g_idle_ttl_ns := g_idle_ttl_ns x;
     g_idle_expires_at := g_idle_expires_at x; g_absolute_expires_at :=
     g_absolute_expires_at x; g_revoked_at := g_revoked_at x; g_revoke_reason :=
     g_revoke_reason x; g_upstream_access_expires_at := g_upstream_access_expires_at x;
     g_upstream_refresh_expires_at := g_upstream_refresh_expires_at x;
     g_upstream_access_nonexpiring := g_upstream_access_nonexpiring x; g_claim_id :=
     g_claim_id x; g_claim_expires_at := g_claim_expires_at x;
     g_upstream_refresh_started := g_upstream_refresh_started x; g_dpop_jkt :=
     g_dpop_jkt x
  |}.

(** [refresh_tokens], keyed by [handle_hash] *)
Record TokenRow := {
  t_token_hash : string;
  t_sid : string;
  t_issued_at : time;
  t_expires_at : time;
  t_consumed_at : option time;
  t_replacement_hash : option string
}.

#[global] Instance eta_TokenRow : Eta TokenRow := fun x =>
  {|
     t_token_hash := t_token_hash x; t_sid := t_sid x; t_issued_at := t_issued_at x;
     t_expires_at := t_expires_at x; t_consumed_at := t_consumed_at x;
     t_replacement_hash := t_replacement_hash x
  |}.

(** [flow_credentials], keyed by [flow_id] *)
Record FlowCredentialRow := {
  f_client_id : string;
  f_connector_id : string;
  f_nonce : string;
  f_ciphertext : string;
  f_expires_at : time;
  f_zone : zone   (** in which [f_expires_at] was written *)
}.

#[global] Instance eta_FlowCredentialRow : Eta FlowCredentialRow := fun x =>
  {|
     f_client_id := f_client_id x; f_connector_id := f_connector_id x; f_nonce :=
     f_nonce x; f_ciphertext := f_ciphertext x; f_expires_at := f_expires_at x;
     f_zone := f_zone x
  |}.

(** [upstream_credentials], keyed by connector, subject and email *)
Record UpstreamRow := {
  u_verified_at : time;
  u_local_verified : bool
}.

#[global] Instance eta_UpstreamRow : Eta UpstreamRow := fun x =>
  {|
     u_verified_at := u_verified_at x; u_local_verified := u_local_verified x
  |}.

(** [otp_challenges], keyed by [challenge_id] *)
Record OTPRow := {
  o_email : string;
  o_code_hmac : string;
  o_context : string;
  o_attempts : Z;
  o_sends : Z;
  o_created_at : time;
  o_sent_at : time;
  o_expires_at : time
}.

#[global] Instance eta_OTPRow : Eta OTPRow := fun x =>
  {|
     o_email := o_email x; o_code_hmac := o_code_hmac x; o_context := o_context x;
     o_attempts := o_attempts x; o_sends := o_sends x; o_created_at := o_created_at x;
     o_sent_at := o_sent_at x; o_expires_at := o_expires_at x
  |}.

(** [grant_actions], keyed by [action_hash] *)
Record ActionRow := {
  a_email : string;
  a_sid : string;
  a_action : string;
  a_created_at : time;
  a_expires_at : time
}.

#[global] Instance eta_ActionRow : Eta ActionRow := fun x =>
  {|
     a_email := a_email x; a_sid := a_sid x; a_action := a_action x; a_created_at :=
     a_created_at x; a_expires_at := a_expires_at x
  |}.

(** [identity_selections], keyed by [token_hash] *)
Record SelectionRow := {
  s_state_token : string;
  s_connector_id : string;
  s_subject : string;
  s_emails_json : string;
  s_expires_at : time
}.

#[global] Instance eta_SelectionRow : Eta SelectionRow := fun x =>
  {|
     s_state_token := s_state_token x; s_connector_id := s_connector_id x; s_subject :=
     s_subject x; s_emails_json := s_emails_json x; s_expires_at := s_expires_at x
  |}.

(** The tables of the state database *)
Record Tables := {
  oauth_states : gmap string State.OAuthState;
  auth_codes : gmap string Code.AuthCode;
  flow_credentials : gmap string FlowCredentialRow;
  upstream_credentials : gmap (string * string * string) UpstreamRow;
  otp_challenges : gmap string OTPRow;
  otp_sends : list (string * time);
  refresh_grants : gmap string GrantRow;
  refresh_tokens : gmap string TokenRow;
  grant_actions : gmap string ActionRow;
  identity_selections : gmap string SelectionRow;
  pushed_requests : gmap string Pushed.PushedRequest
}.

#[global] Instance eta_Tables : Eta Tables := fun x =>
  {|
     oauth_states := oauth_states x; auth_codes := auth_codes x; flow_credentials :=
     flow_credentials x; upstream_credentials := upstream_credentials x; otp_challenges
     := otp_challenges x; otp_sends := otp_sends x; refresh_grants := refresh_grants x;
     refresh_tokens := refresh_tokens x; grant_actions := grant_actions x;
     identity_selections := identity_selections x; pushed_requests := pushed_requests x
  |}.

Definition empty_tables : Tables :=
  {| oauth_states := ∅; auth_codes := ∅; flow_credentials := ∅; upstream_credentials := ∅;
     otp_challenges := ∅; otp_sends := []; refresh_grants := ∅; refresh_tokens := ∅;
     grant_actions := ∅; identity_selections := ∅; pushed_requests := ∅ |}.

(** ** The world of the process *)

(** The database, the copy of the open transaction, how much of the environment has
    been read, and the time the process has spent in timers, by which its readings of
    the clock are later. *)
Record World := {
  w_db : Tables;
  w_tx : Tables;
  w_cnt : Counters;
  w_slept : duration
}.

#[global] Instance eta_World : Eta World := fun x =>
  {|
     w_db := w_db x; w_tx := w_tx x; w_cnt := w_cnt x; w_slept := w_slept x
  |}.

(** ** Statements *)

(** A statement reads and changes the tables; [None] is a violated constraint. *)
Definition stmt (A : Type) : Type := Tables -> option (A * Tables).

Definition select {A} (f : Tables -> A) : stmt A := fun s => Some (f s, s).
Definition update (f : Tables -> Tables) : stmt unit := fun s => Some (tt, f s).

Section Statements.
Context `{Env} {R : Type}.

Definition with_cnt (w : World) (c : Counters) : World :=
  {| w_db := w_db w; w_tx := w_tx w; w_cnt := c; w_slept := w_slept w |}.
Definition with_tx (w : World) (s : Tables) : World :=
  {| w_db := w_db w; w_tx := s; w_cnt := w_cnt w; w_slept := w_slept w |}.
Definition with_db (w : World) (s : Tables) : World :=
  {| w_db := s; w_tx := w_tx w; w_cnt := w_cnt w; w_slept := w_slept w |}.

Definition count_stmt (w : World) : World :=
  with_cnt w {| c_stmt := S (c_stmt (w_cnt w)); c_tick := c_tick (w_cnt w);
                c_draw := c_draw (w_cnt w) |}.
Definition count_tick (w : World) : World :=
  with_cnt w {| c_stmt := c_stmt (w_cnt w); c_tick := S (c_tick (w_cnt w));
                c_draw := c_draw (w_cnt w) |}.
Definition count_draw (n : nat) (w : World) : World :=
  with_cnt w {| c_stmt := c_stmt (w_cnt w); c_tick := c_tick (w_cnt w);
                c_draw := (c_draw (w_cnt w) + n)%nat |}.
Definition faulty (w : World) : bool := stmt_fault (c_stmt (w_cnt w)).

(** [s.db.Begin()]: a private copy of the tables; an error returns [onerr]. *)
Definition begin_tx (onerr : R) : go World R unit := fun w =>
  if faulty w then (inl onerr, count_stmt w)
  else (inr tt, with_tx (count_stmt w) (w_db w)).

(** [tx.Commit()]. *)
Definition commit_tx (onerr : R) : go World R unit := fun w =>
  if faulty w then (inl onerr, count_stmt w)
  else (inr tt, with_db (count_stmt w) (w_tx w)).

(** [tx.Exec] and [tx.QueryRow(...).Scan]. *)
Definition sql_tx {A} (q : stmt A) (onerr : R) : go World R A := fun w =>
  if faulty w then (inl onerr, count_stmt w)
  else match q (w_tx w) with
       | Some (a, s) => (inr a, with_tx (count_stmt w) s)
       | None => (inl onerr, count_stmt w)
       end.

(** [s.db.Exec] and [s.db.QueryRow(...).Scan]: a statement on its own. *)
Definition sql_db {A} (q : stmt A) (onerr : R) : go World R A := fun w =>
  if faulty w then (inl onerr, count_stmt w)
  else match q (w_db w) with
       | Some (a, s) => (inr a, with_db (count_stmt w) s)
       | None => (inl onerr, count_stmt w)
       end.

(** [time.Now()]. *)
Definition now_ : go World R time := fun w =>
  (inr (clock (c_tick (w_cnt w)) + w_slept w), count_tick w).

(** Waiting for a timer of duration [d]. *)
Definition sleep (d : duration) : go World R unit := fun w =>
  (inr tt, {| w_db := w_db w; w_tx := w_tx w; w_cnt := w_cnt w; w_slept := w_slept w + d |}).

(** [rand.Read] of [n] bytes; an error returns [onerr]. *)
Definition rand_read (n : nat) (onerr : R) : go World R string := fun w =>
  let pos := c_draw (w_cnt w) in
  if entropy_fault pos then (inl onerr, w)
  else (inr (entropy_bytes pos n), count_draw n w).
End Statements.

(** ** Rules

    A failed statement leaves the world as it was but for the count of statements. *)
Section StatementRules.
Context `{Env} {R : Type}.
Implicit Type w : World.

Lemma wp_begin_tx (onerr : R) w (Q : (R + unit) -> World -> Prop) :
  (faulty w = true -> Q (inl onerr) (count_stmt w)) ->
  (faulty w = false -> Q (inr tt) (with_tx (count_stmt w) (w_db w))) ->
  wp (begin_tx onerr) w Q.
Proof. unfold wp, begin_tx. destruct (faulty w); auto. Qed.

Lemma wp_commit_tx (onerr : R) w (Q : (R + unit) -> World -> Prop) :
  (faulty w = true -> Q (inl onerr) (count_stmt w)) ->
  (faulty w = false -> Q (inr tt) (with_db (count_stmt w) (w_tx w))) ->
  wp (commit_tx onerr) w Q.
Proof. unfold wp, commit_tx. destruct (faulty w); auto. Qed.

Lemma wp_sql_tx {A} (q : stmt A) (onerr : R) w (Q : (R + A) -> World -> Prop) :
  (faulty w = true \/ q (w_tx w) = None -> Q (inl onerr) (count_stmt w)) ->
  (forall a s, faulty w = false -> q (w_tx w) = Some (a, s) ->
               Q (inr a) (with_tx (count_stmt w) s)) ->
  wp (sql_tx q onerr) w Q.
Proof.
  unfold wp, sql_tx. destruct (faulty w) eqn:?; intros H1 H2; [by apply H1; left|].
  destruct (q (w_tx w)) as [[a s]|] eqn:?; [by apply H2 | by apply H1; right].
Qed.

Lemma wp_sql_db {A} (q : stmt A) (onerr : R) w (Q : (R + A) -> World -> Prop) :
  (faulty w = true \/ q (w_db w) = None -> Q (inl onerr) (count_stmt w)) ->
  (forall a s, faulty w = false -> q (w_db w) = Some (a, s) ->
               Q (inr a) (with_db (count_stmt w) s)) ->
  wp (sql_db q onerr) w Q.
Proof.
  unfold wp, sql_db. destruct (faulty w) eqn:?; intros H1 H2; [by apply H1; left|].
  destruct (q (w_db w)) as [[a s]|] eqn:?; [by apply H2 | by apply H1; right].
Qed.

Lemma wp_now w (Q : (R + time) -> World -> Prop) :
  Q (inr (clock (c_tick (w_cnt w)) + w_slept w)) (count_tick w) ->
  wp now_ w Q.
Proof. done. Qed.

Lemma wp_rand_read n (onerr : R) w (Q : (R + string) -> World -> Prop) :
  (entropy_fault (c_draw (w_cnt w)) = true -> Q (inl onerr) w) ->
  (forall b, entropy_fault (c_draw (w_cnt w)) = false ->
     b = entropy_bytes (c_draw (w_cnt w)) n -> String.length b = n ->
     Q (inr b) (count_draw n w)) ->
  wp (rand_read n onerr) w Q.
Proof.
  unfold wp, rand_read. destruct (entropy_fault _) eqn:?; [auto|].
  intros _ HQ. apply HQ; [done | done | apply length_entropy_bytes].
Qed.
End StatementRules.

(** ** A concrete environment

    No faults; the n-th reading of the clock is [start + n]; ASCII text only. *)
Definition quiet_env (start : time) : Env := {|
  stmt_fault := fun _ => false;
  clock := fun n => start + Z.of_nat n;
  entropy := fun n => z_byte (Z.of_nat n);
  entropy_fault := fun _ => false;
  unicode_lower := id;
  unicode_trim := id;
  unicode_fields := fun s => [s];
  sqlite := false;
  local_offset := 0
|}.

(** The same on a host with a SQLite database and the given local zone. *)
Definition zoned_env (offset start : time) : Env := {|
  stmt_fault := fun _ => false;
  clock := fun n => start + Z.of_nat n;
  entropy := fun n => z_byte (Z.of_nat n);
  entropy_fault := fun _ => false;
  unicode_lower := id;
  unicode_trim := id;
  unicode_fields := fun s => [s];
  sqlite := true;
  local_offset := offset
|}.

(** A process over the tables [db] whose [n] first readings are used up. *)
Definition World_at (n : nat) (db : Tables) : World :=
  {| w_db := db; w_tx := db; w_cnt := {| c_stmt := n; c_tick := n; c_draw := n |};
     w_slept := 0 |}.

(** Symbolic execution of a store operation. *)
Ltac store_step :=
  first
    [ lazymatch goal with
      | |- wp (begin_tx _) _ _ => apply wp_begin_tx; intros ?
      | |- wp (commit_tx _) _ _ => apply wp_commit_tx; intros ?
      | |- wp (sql_tx _ _) _ _ => apply wp_sql_tx; [intros ? | intros ? ? ? ?]
      | |- wp (sql_db _ _) _ _ => apply wp_sql_db; [intros ? | intros ? ? ? ?]
      | |- wp now_ _ _ => apply wp_now
      | |- wp (rand_read _ _) _ _ => apply wp_rand_read; [intros ? | intros ? ? ? ?]
      end
    | go_step ].
