(* ===== verification/RefreshToken.v ===== *)
(** * internal/statedb/refresh.go: refresh token material

    The canonical [ert1] split-secret token: its generation, its parser, and the
    unambiguous context the credential cipher authenticates. *)

From S2P Require Import Prelude Runtime Base64 Sha256 ReplayCache Schema.

Section Material.
Context `{Env}.

(** [GenerateStateToken] and [GenerateAuthCode]: 32 random bytes. *)
Definition GenerateStateToken : World -> (string * option error) * World := run (
  b ← rand_read 32 ("", Some (Wrapped "failed to generate random token" (Errorf "rand")));
  mret (Base64.encode b, None)).

Definition GenerateAuthCode : World -> (string * option error) * World := run (
  b ← rand_read 32 ("", Some (Wrapped "failed to generate random code" (Errorf "rand")));
  mret (Base64.encode b, None)).

(** The token text of a handle and a secret. *)
Definition token_text (handle secret : string) : string :=
  "ert1." +:+ Base64.encode handle +:+ "." +:+ Base64.encode secret.

Definition material_of (handle secret token : string) : Material.RefreshMaterial :=
  {| Material.Token := token; Material.Handle := handle; Material.Secret := secret;
     Material.HandleHash := sha256 handle; Material.TokenHash := sha256 token |}.

Definition GenerateRefreshMaterial : World -> (Material.RefreshMaterial * option error) * World := run (
  handle ← rand_read 16 (zero_material, Some (Wrapped "generate refresh handle" (Errorf "rand")));
  secret ← rand_read 32 (zero_material <| Material.Handle := handle |>,
                         Some (Wrapped "generate refresh secret" (Errorf "rand")));
  mret (material_of handle secret (token_text handle secret), None)).
End Material.

Definition ParseRefreshToken (token : string) : Material.RefreshMaterial * option error :=
  let invalid := (zero_material, Some ErrInvalidGrant) in
  match split_on "." token with
  | [p0; p1; p2] =>
      if negb (p0 =? "ert1")%string || contains p1 "=" || contains p2 "=" then invalid
      else match Base64.decode true p1 with
           | None => invalid
           | Some handle =>
               if negb (String.length handle =? 16)%nat then invalid
               else match Base64.decode true p2 with
                    | None => invalid
                    | Some secret =>
                        if negb (String.length secret =? 32)%nat then invalid
                        else if negb (Base64.encode handle =? p1)%string
                                || negb (Base64.encode secret =? p2)%string then invalid
                        else (material_of handle secret token, None)
                    end
           end
  | _ => invalid
  end.

(** [credentialAAD]: a version byte, then each value behind its 32-bit length. *)
Definition be32 (z : Z) : string := bytes_string (be_bytes 4 z).
Definition delimited (value : string) : string := be32 (len value mod 2 ^ 32) +:+ value.
Definition credentialAAD (sid clientID connectorID : string) : string :=
  String "001" (delimited sid +:+ delimited clientID +:+ delimited connectorID).

(** ** Splitting the token text *)

Lemma url_char_not_dot c : is_url_char c = true -> negb (Ascii.eqb c ".") = true.
Proof. destruct (Ascii.eqb_spec c "."); [by subst|done]. Qed.

Lemma url_char_not_eq c : is_url_char c = true -> negb (Ascii.eqb "=" c) = true.
Proof. destruct (Ascii.eqb_spec "=" c); [by subst|done]. Qed.

Lemma encode_no_dot s : string_forallb (fun c => negb (Ascii.eqb c ".")) (Base64.encode s) = true.
Proof. eapply string_forallb_impl; [apply url_char_not_dot | apply encode_alphabet]. Qed.

Lemma encode_no_eq s : contains (Base64.encode s) "=" = false.
Proof.
  apply contains_one. eapply string_forallb_impl; [apply url_char_not_eq | apply encode_alphabet].
Qed.

Lemma split_token_text handle secret :
  split_on "." (token_text handle secret) = ["ert1"; Base64.encode handle; Base64.encode secret].
Proof.
  unfold token_text.
  change ("ert1." +:+ ?x) with ("ert1" +:+ String "." x)%string.
  rewrite split_on_app by done. f_equal.
  change ("." +:+ ?x) with (String "." x)%string.
  rewrite split_on_app by apply encode_no_dot. f_equal.
  by rewrite split_on_nodot by apply encode_no_dot.
Qed.

Lemma ParseRefreshToken_text handle secret :
  String.length handle = 16%nat -> String.length secret = 32%nat ->
  ParseRefreshToken (token_text handle secret) =
    (material_of handle secret (token_text handle secret), None).
Proof.
  intros Hh Hs. unfold ParseRefreshToken. rewrite split_token_text.
  rewrite !encode_no_eq. cbn [String.eqb Ascii.eqb negb orb].
  rewrite !decode_encode, Hh, Hs, !String.eqb_refl. done.
Qed.

(** ** Length-delimited encodings are unambiguous *)

Lemma bytes_string_inj l l' :
  Forall (fun b => 0 <= b < 256) l -> Forall (fun b => 0 <= b < 256) l' ->
  bytes_string l = bytes_string l' -> l = l'.
Proof.
  intros Hl. revert l'. induction Hl as [|b l Hb Hl IH]; intros [|b' l']; cbn; try done.
  intros [Hb' Hl']%Forall_cons [= E Es]. f_equal; [|auto].
  by rewrite <- (byte_z_byte b), <- (byte_z_byte b'), E.
Qed.

Lemma be_bytes_bound n z : Forall (fun b => 0 <= b < 256) (be_bytes n z).
Proof. induction n; cbn; constructor; [apply Z.mod_pos_bound; lia | done]. Qed.

Lemma be32_inj x y : 0 <= x < 2 ^ 32 -> 0 <= y < 2 ^ 32 -> be32 x = be32 y -> x = y.
Proof.
  intros Hx Hy E. apply bytes_string_inj in E; [|apply be_bytes_bound..].
  cbn in E. injection E as E1 E2 E3 E4.
  change (256 ^ 3) with 16777216 in *. change (256 ^ 2) with 65536 in *.
  change (256 ^ 1) with 256 in *. change (256 ^ 0) with 1 in *.
  change (2 ^ 32) with 4294967296 in *. Z.div_mod_to_equations. lia.
Qed.

Lemma delimited_inj s s' r r' :
  len s < 2 ^ 32 -> len s' < 2 ^ 32 ->
  delimited s +:+ r = delimited s' +:+ r' -> s = s' /\ r = r'.
Proof.
  unfold delimited, len. intros Hs Hs'.
  rewrite !Z.mod_small by lia. rewrite !append_assoc.
  intros E. apply append_inv_length in E as [E1 E2]; [|done].
  apply be32_inj in E1; [|lia..]. by apply append_inv_length in E2; [|lia].
Qed.

(** ** Properties *)

(** C22: A parsed token is canonical, and only canonical tokens parse: the parser
    accepts exactly the text of a 16-byte handle and a 32-byte secret, so one
    credential has one spelling (no padding, line breaks or stray trailing bits),
    and it returns the hashes of that handle and of that very text. *)
Theorem ParseRefreshToken_canonical token m :
  ParseRefreshToken token = (m, None) <->
  exists handle secret,
    String.length handle = 16%nat /\ String.length secret = 32%nat /\
    token = token_text handle secret /\ m = material_of handle secret token.
Proof.
  split; [|by intros (h & s & Hh & Hs & -> & ->); apply ParseRefreshToken_text].
  unfold ParseRefreshToken. intros HP. repeat case_match; try done. injection HP as <-.
  repeat match goal with
  | H : (_ || _) = false |- _ => apply orb_false_iff in H as [? ?]
  | H : negb _ = false |- _ => apply negb_false_iff in H
  | H : String.eqb _ _ = true |- _ => apply String.eqb_eq in H
  | H : Nat.eqb _ _ = true |- _ => apply Nat.eqb_eq in H
  end. subst.
  match goal with H : split_on "." token = _ |- _ => pose proof (split_on_join "." token) as J; rewrite H in J end.
  eexists _, _. split; [eassumption|]. split; [eassumption|]. split; [by rewrite <- J | done].
Qed.

(** Round trip of issuance: every token [GenerateRefreshMaterial] hands out is
    accepted by [ParseRefreshToken], which recovers exactly the generated material. *)
Theorem generated_material_parses `{Env} w m w' :
  GenerateRefreshMaterial w = ((m, None), w') ->
  ParseRefreshToken (Material.Token m) = (m, None).
Proof.
  enough (ends GenerateRefreshMaterial w (fun r _ =>
    r.2 = None -> ParseRefreshToken (Material.Token r.1) = r)) as HE.
  { intros E. apply ends_eq with (1 := HE) in E. by apply E. }
  unfold GenerateRefreshMaterial. repeat store_step; cbn; try done.
  intros _. by apply ParseRefreshToken_text.
Qed.

Lemma generated_material_parses_witness :
  let w := World_at 0 empty_tables in
  exists m w', @GenerateRefreshMaterial (quiet_env 0) w = ((m, None), w') /\
    ParseRefreshToken (Material.Token m) = (m, None).
Proof.
  cbv zeta. eexists _, _. split; [reflexivity|].
  eapply (@generated_material_parses (quiet_env 0) (World_at 0 empty_tables)). reflexivity.
Defined.

(** The authenticated context of an encrypted credential is unambiguous: two
    contexts agree only when session, client and connector all agree, so a
    ciphertext cannot be replayed under another grant (for the lengths Go can
    encode on 32 bits). *)
Theorem credentialAAD_injective s c k s' c' k' :
  len s < 2 ^ 32 -> len c < 2 ^ 32 -> len k < 2 ^ 32 ->
  len s' < 2 ^ 32 -> len c' < 2 ^ 32 -> len k' < 2 ^ 32 ->
  credentialAAD s c k = credentialAAD s' c' k' -> s = s' /\ c = c' /\ k = k'.
Proof.
  intros Hs Hc Hk Hs' Hc' Hk'. unfold credentialAAD. intros E.
  apply (f_equal (drop_bytes 1)) in E. cbn [drop_bytes] in E.
  apply delimited_inj in E as [-> E]; [|done..].
  apply delimited_inj in E as [-> E]; [|done..].
  assert (delimited k +:+ "" = delimited k' +:+ "") as E' by by rewrite E.
  by apply delimited_inj in E' as [-> _].
Qed.

Lemma credentialAAD_injective_witness :
  len "sid" < 2 ^ 32 /\ ("sid" = "sid" /\ "client" = "client" /\ "google" = "google").
Proof.
  split; [reflexivity|].
  apply (credentialAAD_injective "sid" "client" "google" "sid" "client" "google"); reflexivity.
Defined.
