(* ===== verification/RefreshStore.v ===== *)
(** * internal/statedb/refresh.go and revocation.go: refresh families

    A refresh family is a row of [refresh_grants] with the tokens that name it.  The
    operations are the transactions of the store: creation, preparation, claims,
    rotation and revocation. *)

From S2P Require Import Prelude Runtime ReplayCache Schema RefreshToken.
Import Grant Material.

(** ** Queries *)

(** The join of a token with its grant by handle. *)
Definition token_and_grant (handleHash : string) (s : Tables) : option (TokenRow * GrantRow) :=
  t ← refresh_tokens s !! handleHash;
  g ← refresh_grants s !! t_sid t;
  Some (t, g).

(** [lockRefreshParent]: the family of a token; row locks only order concurrent
    transactions. *)
Definition lockRefreshParent (handleHash : string) (s : Tables) : option string :=
  (fun tg => t_sid tg.1) <$> token_and_grant handleHash s.


(** The columns RotateRefreshToken reads. *)
Definition grant_base (sid : string) (g : GrantRow) : RefreshGrant :=
  zero_grant <| SID := sid |> <| ClientID := g_client_id g |> <| Email := g_email g |>
    <| EmailVerified := g_email_verified g |> <| Scopes := g_scopes g |>
    <| ConnectorID := g_connector_id g |> <| UpstreamSubject := g_upstream_subject g |>
    <| Mode := g_mode g |> <| AuthTime := g_auth_time g |> <| IdleTTL := g_idle_ttl_ns g |>
    <| AbsoluteExpiry := g_absolute_expires_at g |>.

(** The columns ClaimRefresh and PrepareRefresh read. *)
Definition grant_full (sid : string) (g : GrantRow) : RefreshGrant :=
  (grant_base sid g)
    <| CredentialNonce := g_credential_nonce g |>
    <| CredentialCiphertext := g_credential_ciphertext g |>
    <| UpstreamAccessExpiry := null_time (g_upstream_access_expires_at g) |>
    <| UpstreamRefreshExpiry := null_time (g_upstream_refresh_expires_at g) |>
    <| UpstreamAccessNonExpiring := g_upstream_access_nonexpiring g |>
    <| DPoPJKT := coalesce (g_dpop_jkt g) |>.

(** ** Row updates *)

Definition revoke_row (now : time) (reason : string) (g : GrantRow) : GrantRow :=
  g <| g_revoked_at := Some now |> <| g_revoke_reason := Some reason |>.
Definition unclaim_row (g : GrantRow) : GrantRow :=
  g <| g_claim_id := None |> <| g_claim_expires_at := None |> <| g_upstream_refresh_started := false |>.
Definition claim_row (claim : RefreshClaim) (g : GrantRow) : GrantRow :=
  g <| g_claim_id := Some (ClaimID claim) |> <| g_claim_expires_at := Some (ClaimExpiresAt claim) |>
    <| g_upstream_refresh_started := false |>.

Definition not_revoked (g : GrantRow) : bool := is_nil (g_revoked_at g).
Definition claimed_by (id : string) (g : GrantRow) : bool := bool_decide (g_claim_id g = Some id).
(** [claim_expires_at > now], false on NULL. *)
Definition claim_alive (now : time) (g : GrantRow) : bool :=
  match g_claim_expires_at g with Some e => now <? e | None => false end.

(** [UPDATE refresh_grants SET ... WHERE sid = sid AND p]: the rows affected. *)
Definition update_grant (sid : string) (p : GrantRow -> bool) (f : GrantRow -> GrantRow) : stmt Z :=
  fun s => match refresh_grants s !! sid with
           | Some g => if p g
                       then Some (1, s <| refresh_grants := <[sid := f g]> (refresh_grants s) |>)
                       else Some (0, s)
           | None => Some (0, s)
           end.

(** [UPDATE refresh_tokens SET consumed_at, replacement_hash WHERE handle_hash AND p]. *)
Definition consume_token (handleHash : string) (p : TokenRow -> bool) (now : time)
    (replacement : string) : stmt Z :=
  fun s => match refresh_tokens s !! handleHash with
           | Some t =>
               if p t && is_nil (t_consumed_at t)
               then Some (1, s <| refresh_tokens :=
                     <[handleHash := t <| t_consumed_at := Some now |>
                                       <| t_replacement_hash := Some replacement |>]>
                       (refresh_tokens s) |>)
               else Some (0, s)
           | None => Some (0, s)
           end.

(** [INSERT INTO refresh_tokens ... ON CONFLICT(handle_hash) DO NOTHING], with the
    foreign key on [refresh_grants]. *)
Definition insert_token (m : RefreshMaterial) (sid : string) (issued expires : time) : stmt Z :=
  fun s => match refresh_tokens s !! HandleHash m with
           | Some _ => Some (0, s)
           | None =>
               match refresh_grants s !! sid with
               | None => None
               | Some _ => Some (1, s <| refresh_tokens :=
                   <[HandleHash m := {| t_token_hash := TokenHash m; t_sid := sid;
                                        t_issued_at := issued; t_expires_at := expires;
                                        t_consumed_at := None; t_replacement_hash := None |}]>
                     (refresh_tokens s) |>)
               end
           end.

(** [INSERT INTO refresh_grants]: primary key and the check on the mode. *)
Definition insert_grant (sid : string) (g : GrantRow) : stmt unit :=
  fun s => if is_some (refresh_grants s !! sid)
              || negb (mem (g_mode g) ["session"; "offline"]) then None
           else Some (tt, s <| refresh_grants := <[sid := g]> (refresh_grants s) |>).

(** [DELETE FROM auth_codes WHERE code]: the rows affected. *)
Definition drop_code (code : string) (s : Tables) : Tables :=
  s <| auth_codes := delete code (auth_codes s) |>.
Definition delete_code (code : string) : stmt Z :=
  fun s => Some (if is_some (auth_codes s !! code) then 1 else 0, drop_code code s).

(** [DELETE FROM flow_credentials WHERE flow_id]. *)
Definition drop_flow_credential (flowID : string) (s : Tables) : Tables :=
  s <| flow_credentials := delete flowID (flow_credentials s) |>.

Section Operations.
Context `{Env}.

(** The row an initial grant is stored as. *)
Definition new_grant_row (grant : RefreshGrant) (nonce ciphertext : string) (now expires : time)
  : GrantRow :=
  {| g_client_id := ClientID grant; g_email := to_lower (Email grant);
     g_email_verified := EmailVerified grant; g_scopes := Scopes grant;
     g_connector_id := ConnectorID grant; g_upstream_subject := UpstreamSubject grant;
     g_credential_nonce := nonce; g_credential_ciphertext := ciphertext;
     g_mode := Mode grant; g_auth_time := AuthTime grant; g_created_at := now;
     g_last_used_at := now; g_idle_ttl_ns := IdleTTL grant; g_idle_expires_at := expires;
     g_absolute_expires_at := AbsoluteExpiry grant; g_revoked_at := None;
     g_revoke_reason := None;
     g_upstream_access_expires_at := nullableTime (UpstreamAccessExpiry grant);
     g_upstream_refresh_expires_at := nullableTime (UpstreamRefreshExpiry grant);
     g_upstream_access_nonexpiring := UpstreamAccessNonExpiring grant;
     g_claim_id := None; g_claim_expires_at := None; g_upstream_refresh_started := false;
     g_dpop_jkt := nullable (DPoPJKT grant) |}.

(** [insertRefreshToken], inside the transaction of its caller. *)
Definition insertRefreshToken (m : RefreshMaterial) (sid : string) (issued expires : time)
  : World -> option error * World := run (
  affected ← sql_tx (insert_token m sid issued expires) (Some (Wrapped "insert refresh token" ErrSQL));
  return_if (negb (affected =? 1)) (Some ErrRefreshCollision) ;;
  mret None).

Definition ClaimRefresh (current : RefreshMaterial) (clientID : string) (now : time) (ttl : duration)
  : World -> (RefreshGrant * RefreshClaim * time * option error) * World :=
  let fail e := (zero_grant, zero_claim, zero_time, Some e) in
  let broken op := fail (Wrapped op ErrSQL) in
  run (
  begin_tx (broken "begin refresh claim") ;;
  parent ← sql_tx (select (lockRefreshParent (HandleHash current))) (broken "lock refresh grant");
  return_if (is_nil parent) (fail ErrInvalidGrant) ;;
  row ← sql_tx (select (token_and_grant (HandleHash current))) (broken "load refresh claim");
  match row with
  | None => return_ (fail ErrInvalidGrant)
  | Some (t, g) =>
      let grant := grant_full (t_sid t) g in
      return_if (negb (t_token_hash t =? TokenHash current)%string
                 || negb (ClientID grant =? clientID)%string
                 || is_some (g_revoked_at g)) (fail ErrInvalidGrant) ;;
      when (is_some (t_consumed_at t)) (
        sql_tx (update_grant (SID grant) not_revoked (fun g => unclaim_row (revoke_row now "replay" g)))
          (broken "revoke claimed replay") ;;
        commit_tx (broken "commit claimed replay") ;;
        return_ (grant, zero_claim, zero_time, Some ErrRefreshReplay)) ;;
      return_if (negb (before now (t_expires_at t)) || negb (before now (g_idle_expires_at g))
                 || negb (before now (AbsoluteExpiry grant))) (fail ErrInvalidGrant) ;;
      return_if (claim_alive now g) (fail ErrRefreshBusy) ;;
      when (is_some (g_claim_expires_at g) && g_upstream_refresh_started g) (
        sql_tx (update_grant (SID grant) not_revoked (fun g =>
                  (revoke_row now "indeterminate_upstream_credential" g)
                    <| g_claim_id := None |> <| g_claim_expires_at := None |>))
          (broken "fence indeterminate credential") ;;
        commit_tx (broken "commit indeterminate credential") ;;
        return_ (fail ErrCredentialIndeterminate)) ;;
      '(id, err) ← call GenerateStateToken;
      match err with
      | Some e => return_ (fail e)
      | None =>
          let claim := {| ClaimID := id; ClaimExpiresAt := add now ttl |} in
          sql_tx (update_grant (SID grant) (fun _ => true) (claim_row claim))
            (broken "save refresh claim") ;;
          commit_tx (broken "commit refresh claim") ;;
          mret (grant, claim, cap (add now (IdleTTL grant)) (AbsoluteExpiry grant), None)
      end
  end).

Definition MarkUpstreamRefreshStarted (sid : string) (claim : RefreshClaim) (now : time)
  : World -> option error * World := run (
  n ← sql_db (update_grant sid
                (fun g => claimed_by (ClaimID claim) g && claim_alive now g && not_revoked g)
                (fun g => g <| g_upstream_refresh_started := true |>))
             (Some (Wrapped "mark upstream refresh started" ErrSQL));
  return_if (negb (n =? 1)) (Some ErrCredentialIndeterminate) ;;
  mret None).

Definition ReleaseRefreshClaim (sid : string) (claim : RefreshClaim)
  : World -> option error * World := run (
  sql_db (update_grant sid
            (fun g => claimed_by (ClaimID claim) g && negb (g_upstream_refresh_started g))
            unclaim_row)
         (Some (Wrapped "release refresh claim" ErrSQL)) ;;
  mret None).

Definition AbortUpstreamRefresh (sid : string) (claim : RefreshClaim)
  : World -> option error * World := run (
  n ← sql_db (update_grant sid (fun g => claimed_by (ClaimID claim) g && not_revoked g) unclaim_row)
             (Some (Wrapped "abort upstream refresh" ErrSQL));
  return_if (negb (n =? 1)) (Some ErrCredentialIndeterminate) ;;
  mret None).

(** The conditions CompleteClaimedRefresh rechecks on the joined row. *)
Definition claimed_token (current : RefreshMaterial) (sid claimID : string) (s : Tables)
  : option (TokenRow * GrantRow) :=
  '(t, g) ← token_and_grant (HandleHash current) s;
  if (t_token_hash t =? TokenHash current)%string && is_nil (t_consumed_at t)
     && (t_sid t =? sid)%string && claimed_by claimID g && not_revoked g
  then Some (t, g) else None.

Definition CompleteClaimedRefresh (current replacement : RefreshMaterial) (grant : RefreshGrant)
    (claim : RefreshClaim) (nonce ciphertext : string) (absoluteExpiry now : time)
  : World -> (time * option error) * World :=
  let fail e := (zero_time, Some e) in
  let broken op := fail (Wrapped op ErrSQL) in
  run (
  begin_tx (broken "begin claimed refresh") ;;
  parent ← sql_tx (select (lockRefreshParent (HandleHash current)))
             (broken "lock claimed refresh grant");
  return_if (is_nil parent) (fail ErrInvalidGrant) ;;
  row ← sql_tx (select (claimed_token current (SID grant) (ClaimID claim)))
          (broken "recheck claimed refresh");
  match row with
  | None => return_ (fail ErrInvalidGrant)
  | Some (t, g) =>
      let storedAbsolute := g_absolute_expires_at g in
      return_if (negb (before now (t_expires_at t)) || negb (before now (g_idle_expires_at g))
                 || negb (before now storedAbsolute)) (fail ErrInvalidGrant) ;;
      let absoluteExpiry := cap absoluteExpiry storedAbsolute in
      let newExpiry := cap (add now (IdleTTL grant)) absoluteExpiry in
      n ← sql_tx (consume_token (HandleHash current)
                    (fun t => (t_token_hash t =? TokenHash current)%string
                              && (t_sid t =? SID grant)%string) now (TokenHash replacement))
            (broken "consume claimed token");
      return_if (negb (n =? 1)) (fail ErrInvalidGrant) ;;
      n ← sql_tx (update_grant (SID grant)
                    (fun g => claimed_by (ClaimID claim) g && claim_alive now g && not_revoked g)
                    (fun g => (unclaim_row g)
                       <| g_credential_nonce := nonce |> <| g_credential_ciphertext := ciphertext |>
                       <| g_absolute_expires_at := absoluteExpiry |>
                       <| g_upstream_access_expires_at := nullableTime (UpstreamAccessExpiry grant) |>
                       <| g_upstream_refresh_expires_at := nullableTime (UpstreamRefreshExpiry grant) |>
                       <| g_upstream_access_nonexpiring := UpstreamAccessNonExpiring grant |>
                       <| g_last_used_at := now |> <| g_idle_expires_at := newExpiry |>))
            (broken "update claimed grant");
      return_if (negb (n =? 1)) (fail ErrCredentialIndeterminate) ;;
      err ← call (insertRefreshToken replacement (SID grant) now newExpiry);
      match err with
      | Some e => return_ (fail e)
      | None =>
          commit_tx (broken "commit claimed refresh") ;;
          mret (newExpiry, None)
      end
  end).

(** The insertion of a grant and its first token, shared by ConsumeAuthCode and
    CreateRefreshGrant: [None], the collision, or the wrapped error. *)
Definition insert_family (op : string) (grant : RefreshGrant) (nonce ciphertext : string)
    (material : RefreshMaterial) (now expires : time) : World -> option error * World := run (
  sql_tx (insert_grant (SID grant) (new_grant_row grant nonce ciphertext now expires))
    (Some (Wrapped op ErrSQL)) ;;
  err ← call (insertRefreshToken material (SID grant) now expires);
  match err with
  | None => mret None
  | Some e => if errors_is e ErrRefreshCollision then return_ (Some e)
              else return_ (Some (Wrapped op e))
  end).

Definition ConsumeAuthCode (expected : Code.AuthCode) (binding : AuthCodeBinding)
    (grant : option RefreshGrant) (material : RefreshMaterial) (now : time)
  : World -> option error * World :=
  let broken op := Some (Wrapped op ErrSQL) in
  run (
  begin_tx (broken "begin code exchange") ;;
  row ← sql_tx (select (fun s => auth_codes s !! Code.Code expected))
          (broken "reread authorization code");
  match row with
  | None => return_ (Some ErrInvalidGrant)
  | Some actual =>
      return_if (negb (bool_decide (actual = expected))
                 || negb (Code.ClientID actual =? bind_ClientID binding)%string
                 || negb (Code.RedirectURI actual =? bind_RedirectURI binding)%string
                 || negb (Code.CodeChallenge actual =? bind_CodeChallenge binding)%string
                 || negb (before now (Code.ExpiresAt actual))) (Some ErrInvalidGrant) ;;
      affected ← sql_tx (delete_code (Code.Code expected)) (broken "consume authorization code");
      return_if (negb (affected =? 1)) (Some ErrInvalidGrant) ;;
      match grant with
      | None => mret tt
      | Some grant =>
          let expires := cap (add now (IdleTTL grant)) (AbsoluteExpiry grant) in
          err ← call (insert_family "create initial refresh grant" grant (CredentialNonce grant)
                        (CredentialCiphertext grant) material now expires);
          match err with
          | Some e => return_ (Some e)
          | None =>
              when (negb (is_empty (ConnectorID grant)) && negb (is_empty (CredentialCiphertext grant)))
                (sql_tx (update (drop_flow_credential (Code.Code expected)))
                   (broken "delete temporary credential"))
          end
      end ;;
      commit_tx (broken "commit code exchange") ;;
      mret None
  end).

Definition PrepareRefresh (current : RefreshMaterial) (clientID : string) (now : time)
  : World -> (RefreshGrant * time * option error) * World :=
  let fail e := (zero_grant, zero_time, Some e) in
  run (
  row ← sql_db (select (token_and_grant (HandleHash current)))
          (fail (Wrapped "prepare refresh" ErrSQL));
  match row with
  | None => return_ (fail ErrInvalidGrant)
  | Some (t, g) =>
      let grant := grant_full (t_sid t) g in
      return_if (negb (t_token_hash t =? TokenHash current)%string
                 || negb (ClientID grant =? clientID)%string
                 || is_some (g_revoked_at g)) (fail ErrInvalidGrant) ;;
      return_if (is_some (t_consumed_at t)) (grant, zero_time, Some ErrRefreshReplay) ;;
      return_if (negb (before now (t_expires_at t)) || negb (before now (g_idle_expires_at g))
                 || negb (before now (AbsoluteExpiry grant))) (fail ErrInvalidGrant) ;;
      mret (grant, cap (add now (IdleTTL grant)) (AbsoluteExpiry grant), None)
  end).

Definition CreateRefreshGrant (grant : RefreshGrant) (material : RefreshMaterial)
    (nonce ciphertext : string) (now : time) : World -> option error * World :=
  let expires := cap (add now (IdleTTL grant)) (AbsoluteExpiry grant) in
  let broken op := Some (Wrapped op ErrSQL) in
  run (
  begin_tx (broken "begin grant creation") ;;
  err ← call (insert_family "create refresh grant" grant nonce ciphertext material now expires);
  match err with
  | Some e => return_ (Some e)
  | None =>
      commit_tx (broken "commit refresh grant") ;;
      mret None
  end).

Definition RotateRefreshToken (current replacement : RefreshMaterial) (clientID : string) (now : time)
  : World -> (RefreshGrant * time * option error) * World :=
  let fail e := (zero_grant, zero_time, Some e) in
  let broken op := fail (Wrapped op ErrSQL) in
  run (
  begin_tx (broken "begin refresh rotation") ;;
  parent ← sql_tx (select (lockRefreshParent (HandleHash current))) (broken "lock refresh grant");
  return_if (is_nil parent) (fail ErrInvalidGrant) ;;
  row ← sql_tx (select (token_and_grant (HandleHash current))) (broken "lookup refresh token");
  match row with
  | None => return_ (fail ErrInvalidGrant)
  | Some (t, g) =>
      let grant := grant_base (t_sid t) g in
      return_if (negb (t_token_hash t =? TokenHash current)%string
                 || negb (ClientID grant =? clientID)%string
                 || is_some (g_revoked_at g)) (fail ErrInvalidGrant) ;;
      when (is_some (t_consumed_at t)) (
        sql_tx (update_grant (SID grant) not_revoked (revoke_row now "replay"))
          (broken "revoke replayed grant") ;;
        commit_tx (broken "commit replay revocation") ;;
        return_ (fail ErrRefreshReplay)) ;;
      return_if (negb (before now (t_expires_at t)) || negb (before now (g_idle_expires_at g))
                 || negb (before now (AbsoluteExpiry grant))) (fail ErrInvalidGrant) ;;
      let newExpiry := cap (add now (IdleTTL grant)) (AbsoluteExpiry grant) in
      affected ← sql_tx (consume_token (HandleHash current) (fun _ => true) now (TokenHash replacement))
                   (broken "consume refresh token");
      when (negb (affected =? 1)) (
        sql_tx (update_grant (SID grant) not_revoked (revoke_row now "replay"))
          (broken "revoke raced replay") ;;
        commit_tx (broken "commit raced replay revocation") ;;
        return_ (fail ErrRefreshReplay)) ;;
      err ← call (insertRefreshToken replacement (SID grant) now newExpiry);
      match err with
      | Some e => return_ (fail e)
      | None =>
          sql_tx (update_grant (SID grant) (fun _ => true)
                    (fun g => g <| g_last_used_at := now |> <| g_idle_expires_at := newExpiry |>))
            (broken "update refresh grant") ;;
          commit_tx (broken "commit refresh rotation") ;;
          mret (grant, newExpiry, None)
      end
  end).

Definition RevokeGrant (sid clientID reason : string) (now : time)
  : World -> option error * World := run (
  sql_db (update_grant sid (fun g => (g_client_id g =? clientID)%string && not_revoked g)
            (revoke_row now reason))
         (Some (Wrapped "revoke refresh grant" ErrSQL)) ;;
  mret None).

(** The family named by a token whose hash also matches. *)
Definition sid_of_token (m : RefreshMaterial) (s : Tables) : option string :=
  match refresh_tokens s !! HandleHash m with
  | Some t => if (t_token_hash t =? TokenHash m)%string then Some (t_sid t) else None
  | None => None
  end.

Definition RevokeRefreshToken (m : RefreshMaterial) (clientID reason : string) (now : time)
  : World -> option error * World := run (
  sql_db (fun s => match sid_of_token m s with
                   | Some sid => update_grant sid
                       (fun g => (g_client_id g =? clientID)%string && not_revoked g)
                       (revoke_row now reason) s
                   | None => Some (0, s)
                   end)
         (Some (Wrapped "revoke refresh grant" ErrSQL)) ;;
  mret None).
End Operations.

(** ** internal/statedb/revocation.go *)

Record RevocationCredential := {
  rc_Refresh : option RefreshMaterial;
  rc_SID : string;
  rc_TokenJKT : string;
  rc_RequireTokenBinding : bool
}.

Section Revocation.
Context `{Env}.

(** What the inspection of a credential finds. *)
Definition inspect_credential (credential : RevocationCredential) (clientID : string) (s : Tables)
  : option (string * GrantRow * option TokenRow) :=
  match rc_Refresh credential with
  | Some m =>
      '(t, g) ← token_and_grant (HandleHash m) s;
      if (t_token_hash t =? TokenHash m)%string && (g_client_id g =? clientID)%string
      then Some (t_sid t, g, Some t) else None
  | None =>
      if is_empty (rc_SID credential) then None
      else g ← refresh_grants s !! rc_SID credential;
           if (g_client_id g =? clientID)%string then Some (rc_SID credential, g, None) else None
  end.

Definition credential_usable (now : time) (g : GrantRow) (t : option TokenRow) : bool :=
  negb (is_some (g_revoked_at g))
  && negb (match t with Some t => is_some (t_consumed_at t) | None => false end)
  && before now (g_idle_expires_at g) && before now (g_absolute_expires_at g)
  && (match t with Some t => before now (t_expires_at t) | None => true end).

(** The DPoP conditions of a revocation. *)
Definition revocation_matches (credential : RevocationCredential) (proofJKT grantJKT : string) : bool :=
  if is_empty proofJKT then is_empty grantJKT && is_empty (rc_TokenJKT credential)
  else if negb (is_empty grantJKT) && (proofJKT =? grantJKT)%string
       then is_some (rc_Refresh credential) || negb (rc_RequireTokenBinding credential)
            || (rc_TokenJKT credential =? grantJKT)%string
       else false.

Definition RevokeCredential (credential : RevocationCredential) (clientID proofJKT reason : string)
    (now : time) : World -> option error * World :=
  let broken op := Some (Wrapped op ErrSQL) in
  run (
  begin_tx (broken "begin credential revocation") ;;
  found ← (if is_nil (rc_Refresh credential) && is_empty (rc_SID credential) then mret None
           else sql_tx (select (inspect_credential credential clientID))
                  (broken "inspect revocation credential"));
  match found with
  | Some (sid, g, t) =>
      when (credential_usable now g t
            && revocation_matches credential proofJKT (coalesce (g_dpop_jkt g)))
        (sql_tx (update_grant sid not_revoked (revoke_row now reason))
           (broken "revoke credential grant") ;; mret tt)
  | None => mret tt
  end ;;
  commit_tx (broken "commit credential revocation") ;;
  mret None).
End Revocation.
