(* ===== verification/FlowStore.v ===== *)
(** * internal/statedb/statedb.go and par.go: single-use protocol state

    OAuth states, authorization codes, pushed requests, flow credentials, verified
    upstream credentials, and the cleanup of expired rows. *)

From S2P Require Import Prelude Runtime ReplayCache Schema RefreshToken RefreshStore.

Section Flows.
Context `{Env}.

Definition SaveState (state : State.OAuthState) : World -> option error * World := run (
  sql_db (fun s => if is_some (oauth_states s !! State.StateToken state) then None
                   else Some (tt, s <| oauth_states :=
                          <[State.StateToken state := state]> (oauth_states s) |>))
         (Some (Wrapped "failed to save state" ErrSQL)) ;;
  mret None).

(** [DELETE ... WHERE key AND p RETURNING ...] *)
Definition delete_returning {A} (table : Tables -> gmap string A)
    (put : gmap string A -> Tables -> Tables) (k : string) (p : A -> bool) : stmt (option A) :=
  fun s => match table s !! k with
           | Some a => if p a then Some (Some a, put (delete k (table s)) s) else Some (None, s)
           | None => Some (None, s)
           end.

Definition GetAndDeleteState (stateToken : string)
  : World -> (option State.OAuthState * option error) * World := run (
  now ← now_;
  row ← sql_db (delete_returning oauth_states (fun m s => s <| oauth_states := m |>) stateToken
                  (fun st => now <=? State.ExpiresAt st))
          (None, Some (Wrapped "consume state" ErrSQL));
  match row with
  | None => return_ (None, Some (Errorf "state token not found, expired, or already used"))
  | Some st =>
      now ← now_;
      return_if (after now (State.ExpiresAt st)) (None, Some (Errorf "state token has expired")) ;;
      mret (Some st, None)
  end).

Definition PeekState (stateToken : string)
  : World -> (option State.OAuthState * option error) * World := run (
  row ← sql_db (select (fun s => oauth_states s !! stateToken))
          (None, Some (Wrapped "failed to retrieve state" ErrSQL));
  match row with
  | None => return_ (None, Some (Errorf "state token not found or already used"))
  | Some st =>
      now ← now_;
      return_if (after now (State.ExpiresAt st)) (None, Some (Errorf "state token has expired")) ;;
      mret (Some st, None)
  end).

(** The upsert keeps a local verification: [MAX] on SQLite, [OR] on PostgreSQL. *)
Definition SaveCredential (connectorID subject email : string) (local : bool) (verifiedAt : time)
  : World -> option error * World := run (
  sql_db (update (fun s =>
            let k := (connectorID, subject, email) in
            let kept := match upstream_credentials s !! k with
                        | Some u => u_local_verified u
                        | None => false
                        end in
            s <| upstream_credentials :=
                   <[k := {| u_verified_at := verifiedAt; u_local_verified := kept || local |}]>
                     (upstream_credentials s) |>))
         (Some (Wrapped "failed to save upstream credential" ErrSQL)) ;;
  mret None).

(** [(exists, local, err)]. *)
Definition CredentialVerified (connectorID subject email : string)
  : World -> (bool * bool * option error) * World := run (
  row ← sql_db (select (fun s => upstream_credentials s !! (connectorID, subject, email)))
          (false, false, Some ErrSQL);
  match row with
  | None => mret (false, false, None)
  | Some u => mret (true, u_local_verified u, None)
  end).

Definition SaveAuthCode (code : Code.AuthCode) : World -> option error * World := run (
  sql_db (fun s => if is_some (auth_codes s !! Code.Code code) then None
                   else Some (tt, s <| auth_codes := <[Code.Code code := code]> (auth_codes s) |>))
         (Some (Wrapped "failed to save auth code" ErrSQL)) ;;
  mret None).

Definition PeekAuthCode (codeStr : string) (now : time)
  : World -> (option Code.AuthCode * option error) * World := run (
  row ← sql_db (select (fun s => auth_codes s !! codeStr))
          (None, Some (Wrapped "peek authorization code" ErrSQL));
  match row with
  | None => return_ (None, Some ErrInvalidGrant)
  | Some code =>
      return_if (negb (before now (Code.ExpiresAt code))) (None, Some ErrInvalidGrant) ;;
      mret (Some code, None)
  end).

Definition GetAndDeleteAuthCode (codeStr : string)
  : World -> (option Code.AuthCode * option error) * World := run (
  now ← now_;
  row ← sql_db (delete_returning auth_codes (fun m s => s <| auth_codes := m |>) codeStr
                  (fun c => now <=? Code.ExpiresAt c))
          (None, Some (Wrapped "consume authorization code" ErrSQL));
  match row with
  | None => return_ (None, Some (Errorf "authorization code not found, expired, or already used"))
  | Some code =>
      now ← now_;
      return_if (after now (Code.ExpiresAt code))
        (None, Some (Errorf "authorization code has expired")) ;;
      mret (Some code, None)
  end).

(** ** Flow credentials (refresh.go) *)

(** Stores a credential, or relabels it: the predecessor goes in the same transaction.
    The expiry is written in [zone]. *)
Definition SaveFlowCredential (from to clientID connectorID nonce ciphertext : string) (expires : time)
    (zone : zone)
  : World -> option error * World :=
  let broken op := Some (Wrapped op ErrSQL) in
  run (
  begin_tx (broken "begin flow credential") ;;
  when (negb (is_empty from))
    (sql_tx (update (fun s => s <| flow_credentials := delete from (flow_credentials s) |>))
       (broken "delete predecessor credential")) ;;
  sql_tx (update (fun s => s <| flow_credentials :=
            <[to := {| f_client_id := clientID; f_connector_id := connectorID; f_nonce := nonce;
                       f_ciphertext := ciphertext; f_expires_at := expires; f_zone := zone |}]>
              (flow_credentials s) |>))
    (broken "save flow credential") ;;
  commit_tx (broken "commit flow credential") ;;
  mret None).

(** [now] is in UTC. *)
Definition LoadFlowCredential (flowID clientID connectorID : string) (now : time)
  : World -> (string * string * option error) * World := run (
  row ← sql_db (select (fun s => flow_credentials s !! flowID))
          ("", "", Some (Wrapped "load flow credential" ErrSQL));
  match row with
  | Some f =>
      if (f_client_id f =? clientID)%string && (f_connector_id f =? connectorID)%string
         && written_before UTC now (f_zone f) (f_expires_at f)
      then mret (f_nonce f, f_ciphertext f, None)
      else return_ ("", "", Some ErrInvalidGrant)
  | None => return_ ("", "", Some ErrInvalidGrant)
  end).

(** ** Pushed authorization requests (par.go) *)

Definition SavePushedRequest (p : Pushed.PushedRequest) : World -> option error * World := run (
  sql_db (fun s => if is_some (pushed_requests s !! Pushed.RequestURI p) then None
                   else Some (tt, s <| pushed_requests :=
                          <[Pushed.RequestURI p := p]> (pushed_requests s) |>))
         (Some (Wrapped "save pushed request" ErrSQL)) ;;
  mret None).

Definition ConsumePushedRequest (requestURI clientID : string) (now : time)
  : World -> (option Pushed.PushedRequest * option error) * World := run (
  row ← sql_db (delete_returning pushed_requests (fun m s => s <| pushed_requests := m |>) requestURI
                  (fun p => (Pushed.ClientID p =? clientID)%string && (now <? Pushed.ExpiresAt p)))
          (None, Some (Wrapped "consume pushed request" ErrSQL));
  match row with
  | None => return_ (None, Some ErrInvalidGrant)
  | Some p => mret (Some (p <| Pushed.RequestURI := requestURI |>), None)
  end).
End Flows.

(** ** Cleanup

    Each statement deletes at most 500 rows that satisfy its predicate.  SQL leaves
    open which; the model takes them in the order of [map_to_list], and the theorems
    use only that they satisfy the predicate. *)
Section Cleanup.
Context `{Env}.

Definition batch_size : nat := 500.

(** The keys of an eligible batch. *)
Definition eligible {A} (p : A -> bool) (m : gmap string A) : list string :=
  take batch_size ((filter (fun kv => Is_true (p kv.2)) (map_to_list m)).*1).

Definition delete_batch {A} (p : A -> bool) (m : gmap string A) : gmap string A :=
  foldr delete m (eligible p m).

Definition deleteExpiredBatch (f : Tables -> Tables) : World -> option error * World := run (
  sql_db (update f) (Some ErrSQL) ;;
  mret None).

(** Deleting a grant cascades to its tokens and actions. *)
Definition delete_grants (p : GrantRow -> bool) (s : Tables) : Tables :=
  let gone := eligible p (refresh_grants s) in
  s <| refresh_grants := foldr delete (refresh_grants s) gone |>
    <| refresh_tokens := filter (fun kv => t_sid kv.2 ∉ gone) (refresh_tokens s) |>
    <| grant_actions := filter (fun kv => a_sid kv.2 ∉ gone) (grant_actions s) |>.

(** The first [k] entries satisfying [p] go. *)
Fixpoint delete_first {A} (k : nat) (p : A -> bool) (l : list A) : list A :=
  match l with
  | [] => []
  | x :: l' => if p x
               then match k with O => x :: l' | S k' => delete_first k' p l' end
               else x :: delete_first k p l'
  end.

Definition cleanupPARRequests (now : time) : World -> option error * World := run (
  sql_db (update (fun s => s <| pushed_requests :=
            delete_batch (fun p => Pushed.ExpiresAt p <? now) (pushed_requests s) |>))
    (Some (Wrapped "clean PAR requests" ErrSQL)) ;;
  mret None).

(** Errors are only logged. *)
Definition cleanupProtocolState (now : time) : World -> unit * World := run (
  call (cleanupPARRequests now) ;; mret tt).

(** [now] is in the local zone, as are the expiries it is compared with, but for those of
    the actions, which are in UTC, and of the credentials, which are in either.  The
    absolute expiry of a family is in the local zone: it is counted from [AuthTime], the
    local [time.Now] of the authorization request. *)
Definition cleanupExpiredAtContext (now : time) : World -> unit * World := run (
  call (deleteExpiredBatch (fun s => s <| oauth_states :=
          delete_batch (fun st => State.ExpiresAt st <? now) (oauth_states s) |>)) ;;
  call (deleteExpiredBatch (fun s => s <| auth_codes :=
          delete_batch (fun c => Code.ExpiresAt c <? now) (auth_codes s) |>)) ;;
  call (deleteExpiredBatch (fun s => s <| otp_challenges :=
          delete_batch (fun o => o_expires_at o <? now) (otp_challenges s) |>)) ;;
  call (deleteExpiredBatch (fun s => s <| otp_sends :=
          delete_first batch_size (fun x => x.2 <? add now (- hour)) (otp_sends s) |>)) ;;
  call (deleteExpiredBatch (fun s => s <| grant_actions :=
          delete_batch (fun a => negb (written_before Local now UTC (a_expires_at a)))
            (grant_actions s) |>)) ;;
  call (deleteExpiredBatch (fun s => s <| identity_selections :=
          delete_batch (fun x => s_expires_at x <=? now) (identity_selections s) |>)) ;;
  call (deleteExpiredBatch (fun s => s <| flow_credentials :=
          delete_batch (fun f => negb (written_before Local now (f_zone f) (f_expires_at f)))
            (flow_credentials s) |>)) ;;
  call (deleteExpiredBatch (delete_grants (fun g => g_absolute_expires_at g <=? now))) ;;
  mret tt).

Definition cleanupExpiredAt (now : time) : World -> unit * World := run (
  call (cleanupProtocolState now) ;;
  call (cleanupExpiredAtContext now) ;;
  mret tt).

(** The goroutine of a store, until it is cancelled: its ticks in their order, each with the
    time read. *)
Inductive cleanup_tick := Ordinary (now : time) | Protocol (now : time).
Fixpoint cleanupExpired (ticks : list cleanup_tick) : World -> unit * World := run (
  match ticks with
  | [] => mret tt
  | Ordinary now :: ticks => call (cleanupExpiredAtContext now) ;; call (cleanupExpired ticks)
  | Protocol now :: ticks => call (cleanupProtocolState now) ;; call (cleanupExpired ticks)
  end).
End Cleanup.
