(* ===== verification/OtpStore.v ===== *)
(** * internal/statedb/otp.go: one-time email codes *)

From S2P Require Import Prelude Runtime Sha256 ReplayCache Schema RefreshStore.

(** The hourly quota of an address and the attempts a challenge survives. *)
Definition send_limit : Z := 5.
Definition attempt_limit : Z := 5.

(** [otpMAC]: the code is bound to its challenge. *)
Definition otpMAC (secret challengeID code : string) : string :=
  hmac_sha256 secret (challengeID +:+ String "000" code).

(** [SELECT count( * ) FROM otp_sends WHERE email AND sent_at > since]. *)
Definition recent_sends (email : string) (since : time) (s : Tables) : list (string * time) :=
  filter (fun x => x.1 = email /\ since < x.2) (otp_sends s).
Definition count_sends (email : string) (since : time) (s : Tables) : Z :=
  Z.of_nat (length (recent_sends email since s)).

(** [... ORDER BY sent_at LIMIT 1]. *)
Definition oldest_send (email : string) (since : time) (s : Tables) : option time :=
  match recent_sends email since s with
  | [] => None
  | x :: l => Some (fold_right (fun y acc => Z.min y.2 acc) x.2 l)
  end.

Definition log_send (email : string) (now : time) : stmt unit :=
  update (fun s => s <| otp_sends := otp_sends s ++ [(email, now)] |>).

(** The statements on a challenge, each guarded by the values read before it. *)
Definition put_challenge (id : string) (o : OTPRow) (s : Tables) : Tables :=
  s <| otp_challenges := <[id := o]> (otp_challenges s) |>.
Definition drop_challenge (id : string) (s : Tables) : Tables :=
  s <| otp_challenges := delete id (otp_challenges s) |>.

Definition insert_challenge (id : string) (o : OTPRow) : stmt unit :=
  fun s => if is_some (otp_challenges s !! id) then None else Some (tt, put_challenge id o s).

(** [UPDATE ... SET attempts=attempts+1 WHERE challenge_id AND attempts]. *)
Definition count_attempt (id : string) (attempts : Z) : stmt Z :=
  fun s => match otp_challenges s !! id with
           | Some c => if o_attempts c =? attempts
                       then Some (1, put_challenge id (c <| o_attempts := o_attempts c + 1 |>) s)
                       else Some (0, s)
           | None => Some (0, s)
           end.

(** [DELETE ... WHERE challenge_id AND attempts]. *)
Definition delete_challenge (id : string) (attempts : Z) : stmt Z :=
  fun s => match otp_challenges s !! id with
           | Some c => if o_attempts c =? attempts then Some (1, drop_challenge id s) else Some (0, s)
           | None => Some (0, s)
           end.

(** The row a resend leaves. *)
Definition renewed (mac : string) (now expires : time) (c : OTPRow) : OTPRow :=
  c <| o_code_hmac := mac |> <| o_attempts := 0 |> <| o_sends := o_sends c + 1 |>
    <| o_sent_at := now |> <| o_expires_at := expires |>.

(** [UPDATE ... WHERE challenge_id AND sent_at AND expires_at > now]. *)
Definition renew_challenge (id mac : string) (sentAt now expires : time) : stmt Z :=
  fun s => match otp_challenges s !! id with
           | Some c => if (o_sent_at c =? sentAt) && (now <? o_expires_at c)
                       then Some (1, put_challenge id (renewed mac now expires c) s)
                       else Some (0, s)
           | None => Some (0, s)
           end.

(** The JSON of a flow is written by [json.Marshal] and read by [json.Unmarshal]:
    the two functions of encoding/json on [OTPFlow]. *)
Class FlowJSON := {
  flow_marshal : Flow.OTPFlow -> option string;
  flow_unmarshal : string -> option Flow.OTPFlow
}.

Section OTP.
Context `{Env} `{FlowJSON}.

Definition CreateOTP (challengeID email code : string) (flow : Flow.OTPFlow) (secret : string)
    (now : time) (ttl : duration) : World -> (time * option error) * World :=
  let email := to_lower email in
  let expiresAt := add now ttl in
  run (
  match flow_marshal flow with
  | None => return_ (zero_time, Some (Wrapped "encode OTP flow" (Errorf "json")))
  | Some context =>
      begin_tx (zero_time, Some ErrSQL) ;;
      count ← sql_tx (select (count_sends email (add now (- hour)))) (zero_time, Some ErrSQL);
      return_if (send_limit <=? count) (zero_time, Some ErrOTPSendLimit) ;;
      sql_tx (insert_challenge challengeID
                {| o_email := email; o_code_hmac := otpMAC secret challengeID code;
                   o_context := context; o_attempts := 0; o_sends := 1; o_created_at := now;
                   o_sent_at := now; o_expires_at := expiresAt |}) (zero_time, Some ErrSQL) ;;
      sql_tx (log_send email now) (zero_time, Some ErrSQL) ;;
      commit_tx (expiresAt, Some ErrSQL) ;;
      mret (expiresAt, None)
  end).

Definition ResendOTP (challengeID code secret : string) (now : time) (ttl : duration)
  : World -> (Flow.OTPFlow * time * option error) * World :=
  let broken := (zero_flow, zero_time, Some ErrSQL) in
  run (
  begin_tx broken ;;
  row ← sql_tx (select (fun s => otp_challenges s !! challengeID)) broken;
  match row with
  | None => return_ (zero_flow, zero_time, Some (OTPResendError 0))
  | Some o =>
      match flow_unmarshal (o_context o) with
      | None => return_ (zero_flow, zero_time, Some (Wrapped "decode OTP flow" (Errorf "json")))
      | Some flow =>
          return_if (negb (before now (o_expires_at o))) (flow, zero_time, Some (OTPResendError 0)) ;;
          let retryAfter := sub (add (o_sent_at o) minute) now in
          return_if (0 <? retryAfter) (flow, zero_time, Some (OTPResendError retryAfter)) ;;
          count ← sql_tx (select (count_sends (o_email o) (add now (- hour)))) broken;
          when (send_limit <=? count) (
            oldest ← sql_tx (select (oldest_send (o_email o) (add now (- hour)))) broken;
            match oldest with
            | None => return_ broken
            | Some oldest =>
                return_ (flow, zero_time, Some (OTPResendError (sub (add oldest hour) now)))
            end) ;;
          let newExpiresAt := add now ttl in
          affected ← sql_tx (renew_challenge challengeID (otpMAC secret challengeID code)
                               (o_sent_at o) now newExpiresAt) broken;
          return_if (negb (affected =? 1)) (flow, zero_time, Some (OTPResendError minute)) ;;
          sql_tx (log_send (o_email o) now) broken ;;
          commit_tx broken ;;
          mret (flow, newExpiresAt, None)
      end
  end).

(** [Store.OTPFlow]: the context of an active challenge. *)
Definition LookupOTPFlow (challengeID : string) (now : time)
  : World -> (Flow.OTPFlow * time * option error) * World := run (
  row ← sql_db (select (fun s => otp_challenges s !! challengeID))
          (zero_flow, zero_time, Some (Wrapped "load OTP flow" ErrSQL));
  match row with
  | Some o =>
      if (now <? o_expires_at o) && (o_attempts o <? attempt_limit)
      then match flow_unmarshal (o_context o) with
           | Some flow => mret (flow, o_expires_at o, None)
           | None => return_ (zero_flow, zero_time, Some (Wrapped "decode OTP flow" (Errorf "json")))
           end
      else return_ (zero_flow, zero_time, Some ErrInvalidOTPChallenge)
  | None => return_ (zero_flow, zero_time, Some ErrInvalidOTPChallenge)
  end).

Definition ConsumeOTP (challengeID code secret : string) (now : time)
  : World -> (Flow.OTPFlow * option error) * World :=
  let fail e := (zero_flow, Some e) in
  run (
  begin_tx (fail ErrSQL) ;;
  row ← sql_tx (select (fun s => otp_challenges s !! challengeID))
          (fail (Wrapped "load OTP challenge" ErrSQL));
  match row with
  | None => return_ (fail ErrInvalidOTPChallenge)
  | Some o =>
      let attempts := o_attempts o in
      return_if (negb (before now (o_expires_at o)) || (attempt_limit <=? attempts))
        (fail ErrInvalidOTPChallenge) ;;
      when (negb (o_code_hmac o =? otpMAC secret challengeID code)%string) (
        affected ← sql_tx (count_attempt challengeID attempts) (fail ErrSQL);
        return_if (negb (affected =? 1)) (fail ErrInvalidOTPChallenge) ;;
        commit_tx (fail ErrSQL) ;;
        return_if (attempt_limit <=? attempts + 1) (fail ErrInvalidOTPChallenge) ;;
        return_ (fail ErrInvalidOTPCode)) ;;
      match flow_unmarshal (o_context o) with
      | None => return_ (fail (Wrapped "decode OTP flow" (Errorf "json")))
      | Some flow =>
          affected ← sql_tx (delete_challenge challengeID attempts) (fail ErrSQL);
          return_if (negb (affected =? 1)) (fail ErrInvalidOTPChallenge) ;;
          commit_tx (fail ErrSQL) ;;
          mret (flow, None)
      end
  end).
End OTP.
