(* ===== verification/GrantStore.v ===== *)
(** * internal/statedb/grants.go: grants managed by their owner

    The listing of a user's active grants, the single-use actions that revoke one
    of them, and the single-use identity selections. *)

From S2P Require Import Prelude Runtime Sha256 ReplayCache Schema RefreshStore FlowStore.

Definition grantActionBatchSize : nat := 5000.

(** [ManagedGrant]: what an owner sees of a grant. *)
Record ManagedGrant := {
  mg_SID : string;
  mg_ClientID : string;
  mg_Mode : string;
  mg_CreatedAt : time;
  mg_LastUsedAt : time;
  mg_ExpiresAt : time
}.

(** [GrantAction] *)
Record GrantAction := { ga_Token : string; ga_SID : string }.

(** The encoding/json functions on a list of email assertions. *)
Class EmailsJSON := {
  emails_marshal : list EmailAssertion -> option string;
  emails_unmarshal : string -> option (list EmailAssertion)
}.

(** The [WHERE] clause of the listing: owned by [email], neither revoked nor expired.
    [now] and the idle expiry are in UTC, the absolute expiry is in the local zone, and so
    is the idle expiry that was capped to it, which is known by its being the same instant. *)
Definition idle_zone (g : GrantRow) : zone :=
  if g_idle_expires_at g =? g_absolute_expires_at g then Local else UTC.
Definition active_for `{Env} (email : string) (now : time) (g : GrantRow) : bool :=
  (g_email g =? email)%string && not_revoked g
  && written_before UTC now (idle_zone g) (g_idle_expires_at g)
  && written_before UTC now Local (g_absolute_expires_at g).

Definition managed (sid : string) (g : GrantRow) : ManagedGrant :=
  {| mg_SID := sid; mg_ClientID := g_client_id g; mg_Mode := g_mode g;
     mg_CreatedAt := g_created_at g; mg_LastUsedAt := g_last_used_at g;
     mg_ExpiresAt := cap (g_idle_expires_at g) (g_absolute_expires_at g) |}.

Definition later_used (x y : string * GrantRow) : Prop := g_last_used_at y.2 <= g_last_used_at x.2.
#[global] Instance later_used_dec x y : Decision (later_used x y).
Proof. unfold later_used. apply _. Defined.

(** The rows of the listing, most recently used first. *)
Definition active_grants `{Env} (email : string) (now : time) (s : Tables) : list ManagedGrant :=
  (fun x => managed x.1 x.2) <$>
    merge_sort later_used (filter (fun x => Is_true (active_for email now x.2))
                             (map_to_list (refresh_grants s))).

(** One row of the multi-row insertion: primary key and foreign key. *)
Definition insert_action (email action : string) (now expiry : time) (a : GrantAction)
    (s : option Tables) : option Tables :=
  s ← s;
  if is_some (grant_actions s !! sha256 (ga_Token a)) || is_nil (refresh_grants s !! ga_SID a)
  then None
  else Some (s <| grant_actions :=
         <[sha256 (ga_Token a) := {| a_email := email; a_sid := ga_SID a; a_action := action;
                                     a_created_at := now; a_expires_at := expiry |}]>
           (grant_actions s) |>).

Definition insert_actions (batch : list GrantAction) (email action : string) (now expiry : time)
  : stmt unit :=
  fun s => s ← foldl (fun s a => insert_action email action now expiry a s) (Some s) batch;
           Some (tt, s).

(** The action that authorises the revocation of [sid]. *)
Definition action_matches (email sid action : string) (now : time) (a : ActionRow) : bool :=
  (a_email a =? email)%string && (a_sid a =? sid)%string && (a_action a =? action)%string
  && (now <? a_expires_at a).

(** The [UPDATE] of a managed grant, subject to the [EXISTS] on its action. *)
Definition action_exists (h email sid action : string) (now : time) (s : Tables) : bool :=
  match grant_actions s !! h with
  | Some a => action_matches email sid action now a
  | None => false
  end.
Definition revoke_managed `{Env} (h email sid action : string) (now : time) : stmt Z :=
  fun s => if action_exists h email sid action now s
           then update_grant sid (active_for email now) (revoke_row now "self_service") s
           else Some (0, s).

(** [DELETE FROM grant_actions WHERE action_hash]: the rows affected. *)
Definition drop_action (h : string) (s : Tables) : Tables :=
  s <| grant_actions := delete h (grant_actions s) |>.
Definition delete_action (h : string) : stmt Z :=
  fun s => Some (if is_some (grant_actions s !! h) then 1 else 0, drop_action h s).

Section Grants.
Context `{Env}.

Definition ListActiveGrants (email : string) (now : time)
  : World -> (list ManagedGrant * option error) * World := run (
  result ← sql_db (select (active_grants (to_lower email) now))
             ([], Some (Wrapped "list active grants" ErrSQL));
  mret (result, None)).

(** The loop over batches; the fuel bounds the number of batches, and a list of
    [n] actions needs at most [n]. *)
Fixpoint create_actions (fuel : nat) (actions : list GrantAction) (email action : string)
    (now expiry : time) : go World (option error) unit :=
  match fuel, actions with
  | _, [] => mret tt
  | O, _ => mret tt
  | S fuel', _ =>
      sql_db (insert_actions (take grantActionBatchSize actions) email action now expiry)
        (Some (Wrapped "create grant actions" ErrSQL)) ;;
      create_actions fuel' (drop grantActionBatchSize actions) email action now expiry
  end.

Definition CreateGrantActions (actions : list GrantAction) (email action : string) (now expiry : time)
  : World -> option error * World := run (
  create_actions (length actions) actions (to_lower email) action now expiry ;;
  mret None).

Definition CreateGrantAction (token email sid action : string) (now expiry : time)
  : World -> option error * World :=
  CreateGrantActions [{| ga_Token := token; ga_SID := sid |}] email action now expiry.

Definition ConsumeGrantActionAndRevoke (token email sid action : string) (now : time)
  : World -> option error * World :=
  let h := sha256 token in
  let email := to_lower email in
  run (
  begin_tx (Some (Wrapped "begin grant action" ErrSQL)) ;;
  affected ← sql_tx (revoke_managed h email sid action now)
               (Some (Wrapped "revoke managed grant" ErrSQL));
  return_if (negb (affected =? 1)) (Some ErrInvalidGrant) ;;
  affected ← sql_tx (delete_action h) (Some (Wrapped "consume grant action" ErrSQL));
  return_if (negb (affected =? 1)) (Some ErrInvalidGrant) ;;
  commit_tx (Some (Wrapped "commit grant action" ErrSQL)) ;;
  mret None).

Section Selections.
Context `{EmailsJSON}.

Definition CreateIdentitySelection (token state connector subject : string)
    (emails : list EmailAssertion) (stateTTL selectionTTL : duration)
  : World -> option error * World :=
  let h := sha256 token in
  run (
  return_if ((stateTTL <=? 0) || (selectionTTL <=? 0)) (Some ErrInvalidGrant) ;;
  match emails_marshal emails with
  | None => return_ (Some (Wrapped "encode identity selection" (Errorf "json")))
  | Some data =>
      begin_tx (Some (Wrapped "begin identity selection" ErrSQL)) ;;
      row ← sql_tx (select (fun s => oauth_states s !! state))
              (Some (Wrapped "lock identity selection state" ErrSQL));
      match row with
      | None => return_ (Some ErrInvalidGrant)
      | Some st =>
          now ← now_;
          return_if (negb (after (State.ExpiresAt st) now)
                     || negb (after (add (State.CreatedAt st) stateTTL) now))
            (Some ErrInvalidGrant) ;;
          let expiry := add now selectionTTL in
          affected ← sql_tx (fun s =>
              match oauth_states s !! state with
              | Some st => Some (1, s <| oauth_states :=
                  <[state := st <| State.ExpiresAt := expiry |>]> (oauth_states s) |>)
              | None => Some (0, s)
              end) (Some (Wrapped "extend identity selection state" ErrSQL));
          return_if (negb (affected =? 1)) (Some ErrInvalidGrant) ;;
          sql_tx (fun s =>
              if is_some (identity_selections s !! h) then None
              else Some (tt, s <| identity_selections :=
                     <[h := {| s_state_token := state; s_connector_id := connector;
                               s_subject := subject; s_emails_json := data;
                               s_expires_at := expiry |}]> (identity_selections s) |>))
            (Some (Wrapped "create identity selection" ErrSQL)) ;;
          commit_tx (Some (Wrapped "commit identity selection" ErrSQL)) ;;
          mret None
      end
  end).

Definition ConsumeIdentitySelection (token : string) (now : time)
  : World -> (string * string * string * list EmailAssertion * option error) * World :=
  let h := sha256 token in
  run (
  row ← sql_db (delete_returning identity_selections
                  (fun m s => s <| identity_selections := m |>) h
                  (fun x => now <? s_expires_at x))
          ("", "", "", [], Some (Wrapped "consume identity selection" ErrSQL));
  match row with
  | None => return_ ("", "", "", [], Some ErrInvalidGrant)
  | Some x =>
      match emails_unmarshal (s_emails_json x) with
      | None => return_ ("", "", "", [], Some ErrInvalidGrant)
      | Some emails => mret (s_state_token x, s_connector_id x, s_subject x, emails, None)
      end
  end).
End Selections.
End Grants.
