(* ===== verification/RefreshSpec.v ===== *)
(** * The contract of the refresh family operations

    What each transaction of RefreshStore.v does to the tables, as one function from
    the tables to the result and the new tables, and the theorems that the
    transactions implement it atomically: under any pattern of database failures an
    operation either returns the specified result and leaves the specified tables,
    or reports the failure and leaves the tables untouched. *)

From S2P Require Import Prelude Runtime Base64 ReplayCache Schema RefreshToken RefreshStore.
Import Grant Material.

(** ** Row changes *)

Definition put_grant (sid : string) (g : GrantRow) (s : Tables) : Tables :=
  s <| refresh_grants := <[sid := g]> (refresh_grants s) |>.
Definition put_token (h : string) (t : TokenRow) (s : Tables) : Tables :=
  s <| refresh_tokens := <[h := t]> (refresh_tokens s) |>.
Definition consumed (now : time) (replacement : string) (t : TokenRow) : TokenRow :=
  t <| t_consumed_at := Some now |> <| t_replacement_hash := Some replacement |>.

Lemma grants_put_grant sid g s : refresh_grants (put_grant sid g s) = <[sid := g]> (refresh_grants s).
Proof. done. Qed.
Lemma tokens_put_grant sid g s : refresh_tokens (put_grant sid g s) = refresh_tokens s.
Proof. done. Qed.
Lemma grants_put_token h t s : refresh_grants (put_token h t s) = refresh_grants s.
Proof. done. Qed.
Lemma tokens_put_token h t s : refresh_tokens (put_token h t s) = <[h := t]> (refresh_tokens s).
Proof. done. Qed.
Lemma put_grant_id sid g s : refresh_grants s !! sid = Some g -> put_grant sid g s = s.
Proof. intros Hg. unfold put_grant. cbn. rewrite insert_id by done. by destruct s. Qed.
Lemma put_grant_put_token sid g h t s :
  put_grant sid g (put_token h t s) = put_token h t (put_grant sid g s).
Proof. done. Qed.

Lemma grants_drop_code k s : refresh_grants (drop_code k s) = refresh_grants s.
Proof. done. Qed.
Lemma tokens_drop_code k s : refresh_tokens (drop_code k s) = refresh_tokens s.
Proof. done. Qed.
Lemma codes_put_grant sid g s : auth_codes (put_grant sid g s) = auth_codes s.
Proof. done. Qed.
Lemma codes_put_token h t s : auth_codes (put_token h t s) = auth_codes s.
Proof. done. Qed.

Create Rewrite HintDb tables.
#[export] Hint Rewrite grants_put_grant tokens_put_grant grants_put_token tokens_put_token
  grants_drop_code tokens_drop_code codes_put_grant codes_put_token @lookup_insert_eq : tables.
#[export] Hint Rewrite @lookup_insert_ne using congruence : tables.

(** ** Inversion of the statements *)

Lemma select_inv {A} (f : Tables -> A) s a s' : select f s = Some (a, s') -> a = f s /\ s' = s.
Proof. by intros [= <- <-]. Qed.

Lemma update_inv (f : Tables -> Tables) s a s' : update f s = Some (a, s') -> s' = f s.
Proof. by intros [= _ <-]. Qed.

Lemma update_grant_inv sid p f s n s' :
  update_grant sid p f s = Some (n, s') ->
  (n = 1 /\ exists g, refresh_grants s !! sid = Some g /\ p g = true /\
                      s' = put_grant sid (f g) s)
  \/ (n = 0 /\ s' = s /\ forall g, refresh_grants s !! sid = Some g -> p g = false).
Proof.
  unfold update_grant. destruct (refresh_grants s !! sid) as [g|]; [destruct (p g) eqn:Hp|];
    intros [= <- <-]; [left; eauto | right | right; done].
  split_and!; [done..|]. by intros ? [= <-].
Qed.

Lemma update_grant_total sid p f s : update_grant sid p f s <> None.
Proof. unfold update_grant. repeat case_match; done. Qed.

Lemma consume_token_inv h p now r s n s' :
  consume_token h p now r s = Some (n, s') ->
  (n = 1 /\ exists t, refresh_tokens s !! h = Some t /\ p t = true /\ t_consumed_at t = None /\
     s' = put_token h (consumed now r t) s)
  \/ (n = 0 /\ s' = s /\
      forall t, refresh_tokens s !! h = Some t -> p t = false \/ is_some (t_consumed_at t) = true).
Proof.
  unfold consume_token. destruct (refresh_tokens s !! h) as [t|]; [|intros [= <- <-]; by right].
  destruct (p t) eqn:Hp; cbn [andb]; [destruct (t_consumed_at t) eqn:Hc; cbn [is_nil]|];
    intros [= <- <-].
  - right. split_and!; [done..|]. intros ? [= <-]. right. by rewrite Hc.
  - left. eauto 10.
  - right. split_and!; [done..|]. intros ? [= <-]. by left.
Qed.

Lemma consume_token_total h p now r s : consume_token h p now r s <> None.
Proof. unfold consume_token. repeat case_match; done. Qed.

(** The row a token is stored as. *)
Definition new_token_row (m : RefreshMaterial) (sid : string) (issued expires : time) : TokenRow :=
  {| t_token_hash := TokenHash m; t_sid := sid; t_issued_at := issued; t_expires_at := expires;
     t_consumed_at := None; t_replacement_hash := None |}.

Lemma insert_token_inv m sid issued expires s n s' :
  insert_token m sid issued expires s = Some (n, s') ->
  (n = 1 /\ is_some (refresh_tokens s !! HandleHash m) = false /\
     s' = put_token (HandleHash m) (new_token_row m sid issued expires) s)
  \/ (n = 0 /\ s' = s /\ is_some (refresh_tokens s !! HandleHash m) = true).
Proof.
  unfold insert_token. destruct (refresh_tokens s !! HandleHash m) eqn:?.
  - intros [= <- <-]. by right.
  - destruct (refresh_grants s !! sid); [|done]. intros [= <- <-]. by left.
Qed.

Lemma insert_token_none m sid issued expires s :
  insert_token m sid issued expires s = None ->
  refresh_tokens s !! HandleHash m = None /\ refresh_grants s !! sid = None.
Proof. unfold insert_token. repeat case_match; done. Qed.

Lemma delete_code_inv k s n s' :
  delete_code k s = Some (n, s') ->
  s' = drop_code k s /\ (is_some (auth_codes s !! k) = true /\ n = 1 \/
                         is_some (auth_codes s !! k) = false /\ n = 0).
Proof. unfold delete_code. destruct (is_some _); intros [= <- <-]; auto. Qed.

Lemma insert_grant_none sid g s :
  insert_grant sid g s = None ->
  is_some (refresh_grants s !! sid) || negb (mem (g_mode g) ["session"; "offline"]) = true.
Proof. unfold insert_grant. by case_match. Qed.

Lemma insert_grant_inv sid g s a s' :
  insert_grant sid g s = Some (a, s') ->
  is_some (refresh_grants s !! sid) || negb (mem (g_mode g) ["session"; "offline"]) = false /\
  s' = put_grant sid g s.
Proof. unfold insert_grant. case_match; [done|]. by intros [= _ <-]. Qed.

Lemma token_and_grant_Some h s t g :
  token_and_grant h s = Some (t, g) <->
  refresh_tokens s !! h = Some t /\ refresh_grants s !! t_sid t = Some g.
Proof.
  unfold token_and_grant. cbn. destruct (refresh_tokens s !! h) as [t'|]; cbn; [|naive_solver].
  destruct (refresh_grants s !! t_sid t') as [g'|] eqn:?; cbn; naive_solver.
Qed.

Lemma lockRefreshParent_nil h s :
  is_nil (lockRefreshParent h s) = is_nil (token_and_grant h s).
Proof. unfold lockRefreshParent. by destruct (token_and_grant h s). Qed.

Lemma is_some_true {A} (o : option A) : is_some o = true <-> is_Some o.
Proof. rewrite <- not_eq_None_Some. destruct o; cbn; naive_solver. Qed.

Lemma is_some_false {A} (o : option A) : is_some o = false <-> o = None.
Proof. destruct o; cbn; split; done. Qed.

(** ** The specifications *)

(** The presented token is the stored one, its client is the caller and its family
    has not been revoked. *)
Definition genuine (current : RefreshMaterial) (clientID : string) (t : TokenRow) (g : GrantRow) : bool :=
  (t_token_hash t =? TokenHash current)%string && (g_client_id g =? clientID)%string && not_revoked g.

(** None of the three expiries has been reached. *)
Definition unexpired (now : time) (t : TokenRow) (g : GrantRow) : bool :=
  (now <? t_expires_at t) && (now <? g_idle_expires_at g) && (now <? g_absolute_expires_at g).

Definition rotate_spec (current replacement : RefreshMaterial) (clientID : string) (now : time)
    (s : Tables) : (RefreshGrant * time * option error) * Tables :=
  let fail e s := ((zero_grant, zero_time, Some e), s) in
  match token_and_grant (HandleHash current) s with
  | None => fail ErrInvalidGrant s
  | Some (t, g) =>
      if negb (genuine current clientID t g) then fail ErrInvalidGrant s
      else if is_some (t_consumed_at t)
           then fail ErrRefreshReplay (put_grant (t_sid t) (revoke_row now "replay" g) s)
      else if negb (unexpired now t g) then fail ErrInvalidGrant s
      else if is_some (refresh_tokens s !! HandleHash replacement) then fail ErrRefreshCollision s
      else let expiry := Z.min (now + g_idle_ttl_ns g) (g_absolute_expires_at g) in
           ((grant_base (t_sid t) g, expiry, None),
            put_grant (t_sid t) (g <| g_last_used_at := now |> <| g_idle_expires_at := expiry |>)
              (put_token (HandleHash replacement) (new_token_row replacement (t_sid t) now expiry)
                 (put_token (HandleHash current) (consumed now (TokenHash replacement) t) s)))
  end.

Definition claim_spec (current : RefreshMaterial) (clientID : string) (now : time) (ttl : duration)
    (fresh : string * option error) (s : Tables)
  : (RefreshGrant * RefreshClaim * time * option error) * Tables :=
  let fail e s := ((zero_grant, zero_claim, zero_time, Some e), s) in
  match token_and_grant (HandleHash current) s with
  | None => fail ErrInvalidGrant s
  | Some (t, g) =>
      if negb (genuine current clientID t g) then fail ErrInvalidGrant s
      else if is_some (t_consumed_at t)
           then ((grant_full (t_sid t) g, zero_claim, zero_time, Some ErrRefreshReplay),
                 put_grant (t_sid t) (unclaim_row (revoke_row now "replay" g)) s)
      else if negb (unexpired now t g) then fail ErrInvalidGrant s
      else if claim_alive now g then fail ErrRefreshBusy s
      else if is_some (g_claim_expires_at g) && g_upstream_refresh_started g
           then fail ErrCredentialIndeterminate
                  (put_grant (t_sid t) ((revoke_row now "indeterminate_upstream_credential" g)
                                          <| g_claim_id := None |> <| g_claim_expires_at := None |>) s)
      else match fresh with
           | (_, Some e) => fail e s
           | (id, None) =>
               let claim := {| ClaimID := id; ClaimExpiresAt := now + ttl |} in
               ((grant_full (t_sid t) g, claim,
                 Z.min (now + g_idle_ttl_ns g) (g_absolute_expires_at g), None),
                put_grant (t_sid t) (claim_row claim g) s)
           end
  end.

(** The claim holder presents the unconsumed token of its own family. *)
Definition holds_claim (current : RefreshMaterial) (sid claimID : string) (t : TokenRow) (g : GrantRow)
  : bool :=
  (t_token_hash t =? TokenHash current)%string && is_nil (t_consumed_at t)
  && (t_sid t =? sid)%string && claimed_by claimID g && not_revoked g.

(** The family row after an upstream refresh: the claim is dropped, the credential
    and the expiries replaced. *)
Definition completed_row (grant : RefreshGrant) (nonce ciphertext : string)
    (absolute now expiry : time) (g : GrantRow) : GrantRow :=
  (unclaim_row g)
    <| g_credential_nonce := nonce |> <| g_credential_ciphertext := ciphertext |>
    <| g_absolute_expires_at := absolute |>
    <| g_upstream_access_expires_at := nullableTime (UpstreamAccessExpiry grant) |>
    <| g_upstream_refresh_expires_at := nullableTime (UpstreamRefreshExpiry grant) |>
    <| g_upstream_access_nonexpiring := UpstreamAccessNonExpiring grant |>
    <| g_last_used_at := now |> <| g_idle_expires_at := expiry |>.

Definition complete_spec (current replacement : RefreshMaterial) (grant : RefreshGrant)
    (claim : RefreshClaim) (nonce ciphertext : string) (absoluteExpiry now : time) (s : Tables)
  : (time * option error) * Tables :=
  let fail e := ((zero_time, Some e), s) in
  match token_and_grant (HandleHash current) s with
  | None => fail ErrInvalidGrant
  | Some (t, g) =>
      if negb (holds_claim current (SID grant) (ClaimID claim) t g) then fail ErrInvalidGrant
      else if negb (unexpired now t g) then fail ErrInvalidGrant
      else if negb (claim_alive now g) then fail ErrCredentialIndeterminate
      else if is_some (refresh_tokens s !! HandleHash replacement) then fail ErrRefreshCollision
      else let absolute := Z.min absoluteExpiry (g_absolute_expires_at g) in
           let expiry := Z.min (now + IdleTTL grant) absolute in
           ((expiry, None),
            put_token (HandleHash replacement) (new_token_row replacement (SID grant) now expiry)
              (put_grant (SID grant) (completed_row grant nonce ciphertext absolute now expiry g)
                 (put_token (HandleHash current) (consumed now (TokenHash replacement) t) s)))
  end.

(** The storage of a new family: constraints, collision, or the two rows. *)
Definition new_family `{Env} (op : string) (grant : RefreshGrant) (nonce ciphertext : string)
    (material : RefreshMaterial) (now : time) (s : Tables) : option error * Tables :=
  let expires := Z.min (now + IdleTTL grant) (AbsoluteExpiry grant) in
  if is_some (refresh_grants s !! SID grant) || negb (mem (Mode grant) ["session"; "offline"])
  then (Some (Wrapped op ErrSQL), s)
  else if is_some (refresh_tokens s !! HandleHash material) then (Some ErrRefreshCollision, s)
  else (None, put_token (HandleHash material) (new_token_row material (SID grant) now expires)
                (put_grant (SID grant) (new_grant_row grant nonce ciphertext now expires) s)).

Definition consume_code_spec `{Env} (expected : Code.AuthCode) (binding : AuthCodeBinding)
    (grant : option RefreshGrant) (material : RefreshMaterial) (now : time) (s : Tables)
  : option error * Tables :=
  match auth_codes s !! Code.Code expected with
  | None => (Some ErrInvalidGrant, s)
  | Some actual =>
      if negb (bool_decide (actual = expected))
         || negb (Code.ClientID actual =? bind_ClientID binding)%string
         || negb (Code.RedirectURI actual =? bind_RedirectURI binding)%string
         || negb (Code.CodeChallenge actual =? bind_CodeChallenge binding)%string
         || negb (before now (Code.ExpiresAt actual))
      then (Some ErrInvalidGrant, s)
      else match grant with
           | None => (None, drop_code (Code.Code expected) s)
           | Some grant =>
               match new_family "create initial refresh grant" grant (CredentialNonce grant)
                       (CredentialCiphertext grant) material now (drop_code (Code.Code expected) s) with
               | (Some e, _) => (Some e, s)
               | (None, s') =>
                   (None, if negb (is_empty (ConnectorID grant)) && negb (is_empty (CredentialCiphertext grant))
                          then drop_flow_credential (Code.Code expected) s' else s')
               end
           end
  end.

Definition revoke_credential_spec (credential : RevocationCredential) (clientID proofJKT reason : string)
    (now : time) (s : Tables) : option error * Tables :=
  (None,
   match inspect_credential credential clientID s with
   | Some (sid, g, t) =>
       if credential_usable now g t && revocation_matches credential proofJKT (coalesce (g_dpop_jkt g))
       then put_grant sid (revoke_row now reason g) s else s
   | None => s
   end).

(** One row updated when it satisfies a condition, and whether it did. *)
Definition touch (sid : string) (p : GrantRow -> bool) (f : GrantRow -> GrantRow) (s : Tables) : Tables :=
  match refresh_grants s !! sid with
  | Some g => if p g then put_grant sid (f g) s else s
  | None => s
  end.
Definition touched (sid : string) (p : GrantRow -> bool) (s : Tables) : bool :=
  match refresh_grants s !! sid with Some g => p g | None => false end.

Definition mark_spec (sid : string) (claim : RefreshClaim) (now : time) (s : Tables)
  : option error * Tables :=
  let p g := claimed_by (ClaimID claim) g && claim_alive now g && not_revoked g in
  (if touched sid p s then None else Some ErrCredentialIndeterminate,
   touch sid p (fun g => g <| g_upstream_refresh_started := true |>) s).

Definition release_spec (sid : string) (claim : RefreshClaim) (s : Tables) : option error * Tables :=
  (None, touch sid (fun g => claimed_by (ClaimID claim) g && negb (g_upstream_refresh_started g))
           unclaim_row s).

Definition abort_spec (sid : string) (claim : RefreshClaim) (s : Tables) : option error * Tables :=
  let p g := claimed_by (ClaimID claim) g && not_revoked g in
  (if touched sid p s then None else Some ErrCredentialIndeterminate, touch sid p unclaim_row s).

Definition revoke_grant_spec (sid clientID reason : string) (now : time) (s : Tables)
  : option error * Tables :=
  (None, touch sid (fun g => (g_client_id g =? clientID)%string && not_revoked g)
           (revoke_row now reason) s).

Definition revoke_token_spec (m : RefreshMaterial) (clientID reason : string) (now : time) (s : Tables)
  : option error * Tables :=
  match sid_of_token m s with
  | Some sid => revoke_grant_spec sid clientID reason now s
  | None => (None, s)
  end.

Definition prepare_spec (current : RefreshMaterial) (clientID : string) (now : time) (s : Tables)
  : (RefreshGrant * time * option error) * Tables :=
  let fail e := ((zero_grant, zero_time, Some e), s) in
  match token_and_grant (HandleHash current) s with
  | None => fail ErrInvalidGrant
  | Some (t, g) =>
      if negb (genuine current clientID t g) then fail ErrInvalidGrant
      else if is_some (t_consumed_at t)
           then ((grant_full (t_sid t) g, zero_time, Some ErrRefreshReplay), s)
      else if negb (unexpired now t g) then fail ErrInvalidGrant
      else ((grant_full (t_sid t) g, Z.min (now + g_idle_ttl_ns g) (g_absolute_expires_at g), None), s)
  end.

Lemma claimed_token_eq current sid claimID s :
  claimed_token current sid claimID s =
  match token_and_grant (HandleHash current) s with
  | Some (t, g) => if holds_claim current sid claimID t g then Some (t, g) else None
  | None => None
  end.
Proof. unfold claimed_token, holds_claim. by destruct (token_and_grant _ s) as [[t g]|]; cbn. Qed.

Lemma inspect_credential_row credential clientID s sid g t :
  inspect_credential credential clientID s = Some (sid, g, t) ->
  refresh_grants s !! sid = Some g.
Proof.
  unfold inspect_credential. destruct (rc_Refresh credential) as [m|].
  - destruct (token_and_grant _ s) as [[t' g']|] eqn:E; cbn; [|discriminate].
    case_match; [|done]. intros [= <- <- <-]. by apply token_and_grant_Some in E as [_ ?].
  - case_match; [done|]. destruct (refresh_grants s !! _) eqn:E; cbn; [|discriminate].
    case_match; [|done]. by intros [= <- <- <-].
Qed.

Lemma claimed_token_Some current sid claimID s t g :
  claimed_token current sid claimID s = Some (t, g) ->
  token_and_grant (HandleHash current) s = Some (t, g) /\ holds_claim current sid claimID t g = true.
Proof. rewrite claimed_token_eq. repeat case_match; try done. by intros [= <- <-]. Qed.

Lemma claimed_token_None current sid claimID s :
  claimed_token current sid claimID s = None ->
  forall r, token_and_grant (HandleHash current) s = Some r ->
  let '(t, g) := r in holds_claim current sid claimID t g = false.
Proof. rewrite claimed_token_eq. intros HN [t g] E. rewrite E in HN. by case_match. Qed.

Lemma holds_claim_sid current sid claimID t g :
  holds_claim current sid claimID t g = true -> t_sid t = sid.
Proof. unfold holds_claim. rewrite !andb_true_iff, !String.eqb_eq. tauto. Qed.

Lemma not_nil_row h s :
  is_nil (token_and_grant h s) = false -> exists t g, token_and_grant h s = Some (t, g).
Proof. destruct (token_and_grant h s) as [[t g]|]; [eauto | done]. Qed.

(** ** Atomic implementation *)

(** [op] from [w] either reports a failed statement, which the environment really
    produced, with the tables untouched, or behaves as [spec]. *)
Definition atomically `{Env} {R} (op : World -> R * World) (err_of : R -> option error)
    (spec : Tables -> R * Tables) (w : World) : Prop :=
  ends op w (fun r w' =>
    ((exists n, stmt_fault n = true) /\ is_err (err_of r) ErrSQL = true /\ w_db w' = w_db w)
    \/ spec (w_db w) = (r, w_db w')).

Lemma atomically_fault `{Env} {R} (op : World -> R * World) err_of spec w :
  atomically op err_of spec w -> (forall n, stmt_fault n = false) ->
  spec (w_db w) = ((op w).1, w_db (op w).2).
Proof. unfold atomically, ends. intros [[[n Hn] _]|HS] Hq; [by rewrite Hq in Hn | done]. Qed.

(** What is known of a statement that ran, with the equations of its result put to use. *)
Ltac inv_stmt :=
  repeat match goal with
  | H : select _ _ = Some (_, _) |- _ =>
      let E := fresh "E" in
      apply select_inv in H as [E ->]; symmetry in E; subst
  | H : select _ _ = None |- _ => discriminate H
  | H : update _ _ = Some (_, _) |- _ => apply update_inv in H as ->
  | H : update _ _ = None |- _ => discriminate H
  | H : update_grant _ _ _ _ = None |- _ => by destruct (update_grant_total _ _ _ _ H)
  | H : consume_token _ _ _ _ _ = None |- _ => by destruct (consume_token_total _ _ _ _ _ H)
  | H : update_grant _ _ _ _ = Some (_, _) |- _ =>
      apply update_grant_inv in H as [(-> & ? & ? & ? & ->)|(-> & -> & ?)]
  | H : consume_token _ _ _ _ _ = Some (_, _) |- _ =>
      apply consume_token_inv in H as [(-> & ? & ? & ? & ? & ->)|(-> & -> & ?)]
  | H : insert_token _ _ _ _ _ = Some (_, _) |- _ =>
      apply insert_token_inv in H as [(-> & ? & ->)|(-> & -> & ?)]
  | H : insert_grant _ _ _ = Some (_, _) |- _ => apply insert_grant_inv in H as (? & ->)
  | H : delete_code _ _ = Some (_, _) |- _ => apply delete_code_inv in H as (-> & [[? ->]|[? ->]])
  | H : claimed_token _ _ _ _ = Some (_, _) |- _ => apply claimed_token_Some in H as [? ?]
  | H : claimed_token _ _ _ _ = None |- _ =>
      let H' := fresh in pose proof (claimed_token_None _ _ _ _ H) as H'; clear H
  | H : delete_code _ _ = None |- _ => discriminate H
  | H : _ \/ delete_code _ _ = None |- _ => destruct H as [H|H]
  | H : _ \/ insert_grant _ _ _ = None |- _ => destruct H as [H|H%insert_grant_none]
  | H : _ \/ select _ _ = None |- _ => destruct H as [H|H]
  | H : _ \/ update _ _ = None |- _ => destruct H as [H|H]
  | H : _ \/ update_grant _ _ _ _ = None |- _ => destruct H as [H|H]
  | H : _ \/ consume_token _ _ _ _ _ = None |- _ => destruct H as [H|H]
  | H : _ \/ insert_token _ _ _ _ _ = None |- _ =>
      destruct H as [H|[? ?]%insert_token_none]
  end.

(** The same conditions as the code writes them, as a chain of refusals. *)
Lemma negb_genuine current clientID t g :
  negb (genuine current clientID t g) =
  negb (t_token_hash t =? TokenHash current)%string || negb (g_client_id g =? clientID)%string
  || is_some (g_revoked_at g).
Proof. unfold genuine, not_revoked, is_some. by rewrite !negb_andb. Qed.

Lemma negb_unexpired now t g :
  negb (unexpired now t g) =
  negb (before now (t_expires_at t)) || negb (before now (g_idle_expires_at g))
  || negb (before now (g_absolute_expires_at g)).
Proof. unfold unexpired, before. by rewrite !negb_andb. Qed.

Create Rewrite HintDb refresh.
Lemma SID_grant_base sid g : SID (grant_base sid g) = sid.
Proof. done. Qed.
Lemma SID_grant_full sid g : SID (grant_full sid g) = sid.
Proof. done. Qed.
Lemma ClientID_grant_base sid g : ClientID (grant_base sid g) = g_client_id g.
Proof. done. Qed.
Lemma ClientID_grant_full sid g : ClientID (grant_full sid g) = g_client_id g.
Proof. done. Qed.
Lemma IdleTTL_grant_base sid g : IdleTTL (grant_base sid g) = g_idle_ttl_ns g.
Proof. done. Qed.
Lemma IdleTTL_grant_full sid g : IdleTTL (grant_full sid g) = g_idle_ttl_ns g.
Proof. done. Qed.
Lemma AbsoluteExpiry_grant_base sid g : AbsoluteExpiry (grant_base sid g) = g_absolute_expires_at g.
Proof. done. Qed.
Lemma AbsoluteExpiry_grant_full sid g : AbsoluteExpiry (grant_full sid g) = g_absolute_expires_at g.
Proof. done. Qed.

Lemma g_mode_new_grant `{Env} grant nonce ciphertext now expires :
  g_mode (new_grant_row grant nonce ciphertext now expires) = Mode grant.
Proof. done. Qed.

#[export] Hint Rewrite lockRefreshParent_nil cap_min @g_mode_new_grant SID_grant_base SID_grant_full
  ClientID_grant_base ClientID_grant_full IdleTTL_grant_base IdleTTL_grant_full
  AbsoluteExpiry_grant_base AbsoluteExpiry_grant_full : refresh.

Lemma is_nil_true {A} (o : option A) : is_nil o = true <-> o = None.
Proof. destruct o; cbn; naive_solver. Qed.

Lemma is_some_insert {A} (m : gmap string A) h k x y :
  m !! h = Some x -> is_some (<[h := y]> m !! k) = is_some (m !! k).
Proof. intros Hh. destruct (decide (h = k)) as [->|]; [by rewrite lookup_insert_eq, Hh | by rewrite lookup_insert_ne]. Qed.

(** A row that is known is not looked up again. *)
Ltac known_rows :=
  repeat match goal with
  | H : token_and_grant ?h ?s = Some (?t, ?g) |- _ =>
      lazymatch goal with
      | _ : refresh_tokens s !! h = Some t |- _ => fail
      | _ => destruct (proj1 (token_and_grant_Some h s t g) H) as [? ?]
      end
  | H1 : ?m !! ?k = Some _, H2 : ?m !! ?k = Some _ |- _ =>
      rewrite H1 in H2; injection H2 as <-
  | H1 : token_and_grant ?h ?s = Some _, H2 : token_and_grant ?h ?s = Some _ |- _ =>
      rewrite H1 in H2; injection H2 as <- <-
  | H1 : token_and_grant ?h ?s = Some _, H2 : token_and_grant ?h ?s = None |- _ => by rewrite H1 in H2
  | H1 : ?m !! ?k = Some _, H2 : ?m !! ?k = None |- _ => by rewrite H1 in H2
  | H1 : ?m !! ?k = Some ?r, H2 : forall x, ?m !! ?k = Some x -> _ |- _ => specialize (H2 r H1)
  | H1 : ?m !! ?h = Some _, H2 : context [is_some (<[?h := _]> ?m !! _)] |- _ =>
      rewrite (is_some_insert m h _ _ _ H1) in H2
  | H1 : token_and_grant ?h ?s = Some ?r,
    H2 : forall x, token_and_grant ?h ?s = Some x -> _ |- _ => specialize (H2 r H1)
  | H1 : holds_claim _ _ _ ?t _ = true, H2 : context [t_sid ?t] |- _ =>
      rewrite (holds_claim_sid _ _ _ _ _ H1) in H2
  | H1 : holds_claim _ _ _ ?t _ = true |- context [t_sid ?t] =>
      rewrite (holds_claim_sid _ _ _ _ _ H1)
  | H : is_nil (token_and_grant _ _) = false |- _ => apply not_nil_row in H as (? & ? & ?)
  | H : is_nil _ = true |- _ => apply is_nil_true in H
  | H : is_nil (Some _) = false |- _ => clear H
  | H : true = true |- _ => clear H
  | H : w_db ?w = _ |- _ => is_var w; rewrite H in *; clear H
  | H : w_tx ?w = _ |- _ => is_var w; rewrite H in *; clear H
  | H : true = false |- _ => discriminate H
  | H : _ = false \/ _ = true |- _ => destruct H as [H|H]
  | H : _ || _ = false |- _ => apply orb_false_iff in H as [? ?]
  | H : _ && _ = true |- _ => apply andb_true_iff in H as [? ?]
  | H : <[?k := _]> _ !! ?k = None |- _ => by rewrite lookup_insert_eq in H
  | H : context [(_ =? _)%string] |- _ => rewrite String.eqb_refl in H
  | H1 : ?b = true, H2 : ?b = false |- _ => by rewrite H1 in H2
  | H1 : ?x = None, H2 : is_some ?x = true |- _ => by rewrite H1 in H2
  | H1 : ?x = Some _, H2 : is_some ?x = false |- _ => by rewrite H1 in H2
  | H : inspect_credential _ _ ?s = Some (?sid, ?g, _) |- _ =>
      lazymatch goal with
      | _ : refresh_grants s !! sid = Some g |- _ => fail
      | _ => pose proof (inspect_credential_row _ _ _ _ _ _ H)
      end
  | H : is_nil ?x = false, E : ?x = Some _ |- _ => clear H
  | H : faulty _ = false |- _ => clear H
  | H : negb (1 =? 1) = false |- _ => clear H
  | H : negb (0 =? 1) = true |- _ => clear H
  | H : negb (1 =? 1) = true |- _ => discriminate H
  | H : negb (0 =? 1) = false |- _ => discriminate H
  end.

(** The token generated at a position of the random source. *)
Definition state_token `{Env} (pos : nat) : string * option error :=
  if entropy_fault pos
  then ("", Some (Wrapped "failed to generate random token" (Errorf "rand")))
  else (Base64.encode (entropy_bytes pos 32), None).

Lemma GenerateStateToken_spec `{Env} w (P : string * option error -> World -> Prop) :
  (forall w', w_db w' = w_db w -> w_tx w' = w_tx w -> P (state_token (c_draw (w_cnt w))) w') ->
  ends GenerateStateToken w P.
Proof.
  intros HP. unfold GenerateStateToken, state_token in *.
  repeat store_step; cbn; subst; repeat case_match; try done; by apply HP.
Qed.

Ltac token_step :=
  lazymatch goal with
  | |- ends GenerateStateToken _ _ => apply GenerateStateToken_spec; intros ? ? ?
  end.

(** Symbolic execution of a transaction, down to what it did to the tables. *)
Ltac settle :=
  inv_stmt;
  cbn [w_db w_tx w_cnt c_stmt c_tick c_draw count_stmt count_tick count_draw with_cnt with_tx with_db merge] in *;
  autorewrite with tables refresh in *;
  known_rows.
Ltac run_store := repeat (first [store_step | token_step]; settle).

(** Two facts about the same conditions cannot disagree. *)
Ltac by_conflict :=
  exfalso; unfold credential_usable, holds_claim, not_revoked, is_some in *;
  repeat match goal with
  | H : _ || _ = false |- _ => apply orb_false_iff in H as [? ?]
  | H : _ && _ = true |- _ => apply andb_true_iff in H as [? ?]
  | H : _ && _ = false |- _ => apply andb_false_iff in H as [?|?]
  | H : _ = _ \/ _ = _ |- _ => destruct H as [?|?]
  | H : negb _ = false |- _ => apply negb_false_iff in H
  | H : negb _ = true |- _ => apply negb_true_iff in H
  end; congruence.

(** Decides the branches of a specification by the branches the code took. *)
Ltac follow_branches :=
  rewrite ?negb_genuine, ?negb_unexpired;
  repeat match goal with
  | H : ?c = true |- context [?c] => rewrite H; cbn [negb andb orb]
  | H : ?c = false |- context [?c] => rewrite H; cbn [negb andb orb]
  | H : ?x = _ |- context [match ?x with _ => _ end] =>
      rewrite H; rewrite ?negb_genuine, ?negb_unexpired
  end.

(** Closes the branch of a failed statement. *)
Ltac by_fault :=
  left; split_and!;
  [ match goal with H : faulty _ = true |- _ => eexists; exact H end | reflexivity | reflexivity ].

(** A transaction implements its specification. *)
Tactic Notation "by_atomic" reference(spec) :=
  unfold atomically; run_store;
  try by_fault; right; unfold spec; follow_branches; try first [done | by_conflict].

(** A conditional update of one row. *)
Ltac by_touch :=
  unfold touch, touched; follow_branches; try done;
  repeat match goal with
  | H : forall g, ?x = Some g -> _ |- context [?x] =>
      destruct x eqn:?; [rewrite (H _ eq_refl) | clear H]
  end; done.

(** ** The transactions implement their specifications *)

Section Implementation.
Context `{Env}.

Lemma RotateRefreshToken_atomic current replacement clientID now w :
  atomically (RotateRefreshToken current replacement clientID now) snd
    (rotate_spec current replacement clientID now) w.
Proof. unfold RotateRefreshToken, insertRefreshToken. by_atomic rotate_spec. Qed.

Lemma ClaimRefresh_atomic current clientID now ttl w :
  atomically (ClaimRefresh current clientID now ttl) snd
    (claim_spec current clientID now ttl (state_token (c_draw (w_cnt w)))) w.
Proof. unfold ClaimRefresh. by_atomic claim_spec. Qed.

Lemma CompleteClaimedRefresh_atomic current replacement grant claim nonce ciphertext abs now w :
  atomically (CompleteClaimedRefresh current replacement grant claim nonce ciphertext abs now) snd
    (complete_spec current replacement grant claim nonce ciphertext abs now) w.
Proof.
  unfold CompleteClaimedRefresh, insertRefreshToken. by_atomic complete_spec.
  destruct (claim_alive now x0) eqn:?; [by_conflict | done].
Qed.

Lemma CreateRefreshGrant_atomic grant material nonce ciphertext now w :
  atomically (CreateRefreshGrant grant material nonce ciphertext now) id
    (new_family "create refresh grant" grant nonce ciphertext material now) w.
Proof. unfold CreateRefreshGrant, insert_family, insertRefreshToken. by_atomic new_family. Qed.

Lemma ConsumeAuthCode_atomic expected binding grant material now w :
  atomically (ConsumeAuthCode expected binding grant material now) id
    (consume_code_spec expected binding grant material now) w.
Proof.
  unfold ConsumeAuthCode, insert_family, insertRefreshToken. by_atomic consume_code_spec.
  all: unfold new_family; autorewrite with tables; follow_branches; done.
Qed.

Lemma RevokeCredential_atomic credential clientID proofJKT reason now w :
  atomically (RevokeCredential credential clientID proofJKT reason now) id
    (revoke_credential_spec credential clientID proofJKT reason now) w.
Proof.
  unfold RevokeCredential. by_atomic revoke_credential_spec.
  unfold inspect_credential. by follow_branches.
Qed.

Lemma PrepareRefresh_atomic current clientID now w :
  atomically (PrepareRefresh current clientID now) snd (prepare_spec current clientID now) w.
Proof. unfold PrepareRefresh. by_atomic prepare_spec. Qed.

Lemma MarkUpstreamRefreshStarted_atomic sid claim now w :
  atomically (MarkUpstreamRefreshStarted sid claim now) id (mark_spec sid claim now) w.
Proof. unfold MarkUpstreamRefreshStarted. by_atomic mark_spec. all: by_touch. Qed.

Lemma ReleaseRefreshClaim_atomic sid claim w :
  atomically (ReleaseRefreshClaim sid claim) id (release_spec sid claim) w.
Proof. unfold ReleaseRefreshClaim. by_atomic release_spec. all: by_touch. Qed.

Lemma AbortUpstreamRefresh_atomic sid claim w :
  atomically (AbortUpstreamRefresh sid claim) id (abort_spec sid claim) w.
Proof. unfold AbortUpstreamRefresh. by_atomic abort_spec. all: by_touch. Qed.

Lemma RevokeGrant_atomic sid clientID reason now w :
  atomically (RevokeGrant sid clientID reason now) id (revoke_grant_spec sid clientID reason now) w.
Proof. unfold RevokeGrant. by_atomic revoke_grant_spec. all: by_touch. Qed.

Lemma RevokeRefreshToken_atomic m clientID reason now w :
  atomically (RevokeRefreshToken m clientID reason now) id
    (revoke_token_spec m clientID reason now) w.
Proof.
  unfold atomically, RevokeRefreshToken. run_store.
  all: repeat match goal with
  | H : _ \/ match ?x with _ => _ end = None |- _ => destruct H as [H|H]; [|destruct x eqn:?]
  | H : match ?x with _ => _ end = Some _ |- _ => destruct x eqn:?
  end; inv_stmt; simplify_eq; known_rows; try by_fault; right.
  all: unfold revoke_token_spec, revoke_grant_spec; follow_branches; try by_touch.
Qed.
End Implementation.
