(* ===== verification/FamilySafety.v ===== *)
(** * Safety of refresh families

    The abstract behaviour of a family as a step relation on the tables, the
    invariant its steps preserve, and what no sequence of steps can undo. *)

From S2P Require Import Prelude Runtime ReplayCache Schema RefreshToken RefreshStore RefreshSpec.
Import Grant Material.

(** ** The step relation *)

(** What a family is bound to at its creation: owner, client, scopes, upstream
    identity, mode, authentication time, lifetime and proof-of-possession key. *)
Definition same_terms (g g' : GrantRow) : Prop :=
  g_client_id g' = g_client_id g /\ g_email g' = g_email g /\
  g_email_verified g' = g_email_verified g /\ g_scopes g' = g_scopes g /\
  g_connector_id g' = g_connector_id g /\ g_upstream_subject g' = g_upstream_subject g /\
  g_mode g' = g_mode g /\ g_auth_time g' = g_auth_time g /\
  g_created_at g' = g_created_at g /\ g_idle_ttl_ns g' = g_idle_ttl_ns g /\
  g_dpop_jkt g' = g_dpop_jkt g.

#[export] Instance same_terms_preorder : PreOrder same_terms.
Proof. split; [by intros g | unfold same_terms; intros g1 g2 g3; naive_solver congruence]. Qed.

(** A revocation is final, with its time and its reason. *)
Definition revocation_kept (g g' : GrantRow) : Prop :=
  g_revoked_at g = None \/
  g_revoked_at g' = g_revoked_at g /\ g_revoke_reason g' = g_revoke_reason g.

Definition refresh_view (s : Tables) : gmap string GrantRow * gmap string TokenRow :=
  (refresh_grants s, refresh_tokens s).

Inductive family_step (s s' : Tables) : Prop :=
  | step_quiet :
      refresh_view s' = refresh_view s -> family_step s s'
  | step_issue sid g h t :
      refresh_grants s !! sid = None -> refresh_tokens s !! h = None ->
      g_revoked_at g = None -> g_idle_expires_at g <= g_absolute_expires_at g ->
      t_sid t = sid -> t_consumed_at t = None -> t_replacement_hash t = None ->
      t_expires_at t = g_idle_expires_at g ->
      refresh_view s' = (<[sid := g]> (refresh_grants s), <[h := t]> (refresh_tokens s)) ->
      family_step s s'
  | step_touch sid g g' :
      refresh_grants s !! sid = Some g -> same_terms g g' -> revocation_kept g g' ->
      g_idle_expires_at g' = g_idle_expires_at g ->
      g_absolute_expires_at g' = g_absolute_expires_at g ->
      refresh_view s' = (<[sid := g']> (refresh_grants s), refresh_tokens s) ->
      family_step s s'
  | step_rotate sid g g' h t h' t' now :
      refresh_grants s !! sid = Some g -> g_revoked_at g = None ->
      refresh_tokens s !! h = Some t -> t_sid t = sid -> t_consumed_at t = None ->
      refresh_tokens s !! h' = None ->
      same_terms g g' -> g_revoked_at g' = None ->
      g_absolute_expires_at g' <= g_absolute_expires_at g ->
      g_idle_expires_at g' <= g_absolute_expires_at g' ->
      t_sid t' = sid -> t_consumed_at t' = None -> t_replacement_hash t' = None ->
      t_expires_at t' = g_idle_expires_at g' ->
      refresh_view s' = (<[sid := g']> (refresh_grants s),
                         <[h' := t']> (<[h := consumed now (t_token_hash t') t]> (refresh_tokens s))) ->
      family_step s s'
  | step_expire gone now :
      (forall sid, sid ∈ gone ->
         exists g, refresh_grants s !! sid = Some g /\ g_absolute_expires_at g <= now) ->
      refresh_view s' = (foldr delete (refresh_grants s) gone,
                         filter (fun kv => t_sid kv.2 ∉ gone) (refresh_tokens s)) ->
      family_step s s'.

(** ** The invariant *)

(** A token is unconsumed, or replaced by another one of its family. *)
Definition chained (m : gmap string TokenRow) (t : TokenRow) : Prop :=
  t_consumed_at t = None /\ t_replacement_hash t = None \/
  exists now h' t', t_consumed_at t = Some now /\ m !! h' = Some t' /\ t_sid t' = t_sid t /\
    t_replacement_hash t = Some (t_token_hash t').

(** The unconsumed token of a family is unique and dies with the idle expiry of the
    family, which never exceeds its absolute expiry; every token belongs to a
    stored family, and a consumed token names its replacement there. *)
Record refresh_ok (s : Tables) : Prop := {
  ok_parent : forall h t, refresh_tokens s !! h = Some t -> is_Some (refresh_grants s !! t_sid t);
  ok_single : forall h1 h2 t1 t2,
    refresh_tokens s !! h1 = Some t1 -> refresh_tokens s !! h2 = Some t2 ->
    t_sid t1 = t_sid t2 -> t_consumed_at t1 = None -> t_consumed_at t2 = None -> h1 = h2;
  ok_expiry : forall h t g,
    refresh_tokens s !! h = Some t -> refresh_grants s !! t_sid t = Some g ->
    t_consumed_at t = None -> t_expires_at t = g_idle_expires_at g;
  ok_bound : forall sid g, refresh_grants s !! sid = Some g ->
    g_idle_expires_at g <= g_absolute_expires_at g;
  ok_chain : forall h t, refresh_tokens s !! h = Some t -> chained (refresh_tokens s) t
}.

Lemma refresh_ok_view s s' : refresh_view s' = refresh_view s -> refresh_ok s -> refresh_ok s'.
Proof.
  intros [= E1 E2] []. split; rewrite ?E1, ?E2; assumption.
Qed.

Lemma refresh_ok_empty : refresh_ok empty_tables.
Proof. split; intros *; cbn; rewrite !lookup_empty; done. Qed.

Lemma foldr_delete_lookup {A} (m : gmap string A) gone k :
  foldr delete m gone !! k = if decide (k ∈ gone) then None else m !! k.
Proof.
  induction gone as [|x gone IH]; cbn.
  - by rewrite decide_False by apply not_elem_of_nil.
  - destruct (decide (k = x)) as [->|Hne].
    + rewrite lookup_delete_eq. by rewrite decide_True by left.
    + rewrite lookup_delete_ne by done. rewrite IH.
      destruct (decide (k ∈ gone)); [rewrite decide_True by (by right) | rewrite decide_False]; try done.
      by rewrite elem_of_cons; intros [|].
Qed.

Lemma kept_token s (gone : list string) h t :
  filter (fun kv : string * TokenRow => t_sid kv.2 ∉ gone) (refresh_tokens s) !! h = Some t <->
  refresh_tokens s !! h = Some t /\ t_sid t ∉ gone.
Proof. by rewrite map_lookup_filter_Some. Qed.

(** The rows of the new tables in terms of the old ones. *)
Ltac step_rows Hs :=
  destruct Hs as [Hv | sid g h t Hng Hnt Hrev Hle Hsid Hcons Hrepl Hexp Hv
                 | sid g g' Hg Hterms Hrev Hidle Habs Hv
                 | sid g g' h t h' t' now Hg Hrev Ht Hsid Hcons Hnt' Hterms Hrev' Habs Hle Hsid' Hcons' Hrepl' Hexp Hv
                 | gone now Hgone Hv];
  injection Hv as Eg Et.

(** Cases on whether an updated key is the one looked up. *)
Ltac row_cases :=
  repeat match goal with
  | H : <[_ := _]> _ !! _ = Some _ |- _ =>
      apply lookup_insert_Some in H as [[? ?]|[? H]]; simplify_eq
  end.

Section Step.
Context (s s' : Tables) (Hok : refresh_ok s) (Hs : family_step s s').

(** A family of the new tables is new, or was there under the same terms. *)
Lemma step_grant sid0 g0 g0' :
  refresh_grants s !! sid0 = Some g0 -> refresh_grants s' !! sid0 = Some g0' ->
  same_terms g0 g0' /\ revocation_kept g0 g0' /\
  g_absolute_expires_at g0' <= g_absolute_expires_at g0.
Proof.
  intros Hg0 Hg0'. assert (g0 = g0' -> same_terms g0 g0' /\ revocation_kept g0 g0' /\
    g_absolute_expires_at g0' <= g_absolute_expires_at g0) as Hsame.
  { intros <-. split; [reflexivity|]. split; [|lia]. unfold revocation_kept. auto. }
  step_rows Hs; rewrite Eg in Hg0'; row_cases; eauto; simplify_eq; auto with lia.
  - split_and!; [done | by left | done].
  - rewrite foldr_delete_lookup in Hg0'. case_decide; simplify_eq. auto.
Qed.

Lemma step_token h0 t0 t0' :
  refresh_tokens s !! h0 = Some t0 -> refresh_tokens s' !! h0 = Some t0' ->
  t0' = t0 \/
  (t_consumed_at t0 = None /\ exists now r, t0' = consumed now r t0).
Proof.
  intros Ht0 Ht0'. step_rows Hs; rewrite Et in Ht0'; row_cases; eauto; simplify_eq; eauto.
  apply kept_token in Ht0' as [? _]. simplify_eq. auto.
Qed.
End Step.

(** ** Every step keeps the invariant *)

Section Preservation.
Context (s s' : Tables) (Hok : refresh_ok s) (Hs : family_step s s').

Lemma keep_parent h0 t0 :
  refresh_tokens s' !! h0 = Some t0 -> is_Some (refresh_grants s' !! t_sid t0).
Proof.
  intros Ht0. step_rows Hs; rewrite Et in Ht0; rewrite Eg; row_cases.
  all: rewrite ?lookup_insert_is_Some'.
  all: try (left; done); try (right; eapply ok_parent; eauto; fail).
  - by eapply ok_parent.
  - apply kept_token in Ht0 as [Ht0 Hn]. rewrite foldr_delete_lookup, decide_False by done.
    by eapply ok_parent.
Qed.

Lemma new_family_unused sid h0 t0 :
  refresh_grants s !! sid = None -> refresh_tokens s !! h0 = Some t0 -> t_sid t0 <> sid.
Proof. intros Hn Ht <-. apply (ok_parent s Hok) in Ht as [? Hg]. congruence. Qed.

(** Two unconsumed tokens of a family are one. *)
Ltac by_single :=
  match goal with
  | Ha : refresh_tokens s !! ?a = Some ?x, Hb : refresh_tokens s !! ?b = Some ?y, Hne : ?a <> ?b |- _ =>
      destruct Hne; eapply (ok_single s Hok a b x y); eauto; congruence
  end.
Ltac by_new := exfalso; eapply new_family_unused; eauto; fail.

Lemma keep_single h1 h2 t1 t2 :
  refresh_tokens s' !! h1 = Some t1 -> refresh_tokens s' !! h2 = Some t2 ->
  t_sid t1 = t_sid t2 -> t_consumed_at t1 = None -> t_consumed_at t2 = None -> h1 = h2.
Proof.
  intros H1 H2 He Hc1 Hc2. step_rows Hs; rewrite Et in H1, H2; row_cases; try done.
  all: try (eapply (ok_single s Hok); eauto; fail).
  all: try first [by_new | by_single].
  apply kept_token in H1 as [? _], H2 as [? _]. eapply (ok_single s Hok); eauto.
Qed.

Lemma keep_bound sid0 g0 :
  refresh_grants s' !! sid0 = Some g0 -> g_idle_expires_at g0 <= g_absolute_expires_at g0.
Proof.
  intros Hg0. step_rows Hs; rewrite Eg in Hg0; row_cases; try (by eapply ok_bound); try done.
  - rewrite Hidle, Habs. by eapply ok_bound.
  - rewrite foldr_delete_lookup in Hg0. case_decide; [done|]. by eapply ok_bound.
Qed.

Lemma keep_expiry h0 t0 g0 :
  refresh_tokens s' !! h0 = Some t0 -> refresh_grants s' !! t_sid t0 = Some g0 ->
  t_consumed_at t0 = None -> t_expires_at t0 = g_idle_expires_at g0.
Proof.
  intros Ht0 Hg0 Hc0. step_rows Hs; rewrite Et in Ht0; rewrite Eg in Hg0; row_cases; try done.
  all: try (eapply (ok_expiry s Hok); eauto; fail).
  all: try first [by_new | exfalso; by_single].
  - rewrite Hidle. eapply (ok_expiry s Hok); eauto; congruence.
  - apply kept_token in Ht0 as [? ?]. rewrite foldr_delete_lookup, decide_False in Hg0 by done.
    eapply (ok_expiry s Hok); eauto.
Qed.

Lemma keep_chain h0 t0 :
  refresh_tokens s' !! h0 = Some t0 -> chained (refresh_tokens s') t0.
Proof.
  intros Ht0.
  assert (forall t, chained (refresh_tokens s) t ->
    (forall h x, refresh_tokens s !! h = Some x -> t_sid x = t_sid t ->
       exists y, refresh_tokens s' !! h = Some y /\ t_sid y = t_sid x /\ t_token_hash y = t_token_hash x) ->
    chained (refresh_tokens s') t) as Hmono.
  { intros t [?|(now & h' & t' & ? & Hl & Hsid' & Hr)] HE; [by left|right].
    destruct (HE _ _ Hl Hsid') as (y & ? & ? & Hy). exists now, h', y.
    split_and!; try done; [congruence | by rewrite Hy]. }
  step_rows Hs; rewrite Et in Ht0; row_cases; try (by left).
  - rewrite Et. by apply (ok_chain s Hok) in Ht0.
  - apply Hmono; [by eapply ok_chain|]. intros h1 x Hx _. exists x. rewrite Et.
    rewrite lookup_insert_ne by congruence. done.
  - rewrite Et. by apply (ok_chain s Hok) in Ht0.
  - right. exists now, h', t'. rewrite Et, lookup_insert_eq. done.
  - apply Hmono; [by eapply ok_chain|]. intros h1 x Hx _. rewrite Et.
    rewrite lookup_insert_ne by congruence. destruct (decide (h = h1)) as [->|].
    + simplify_eq. rewrite lookup_insert_eq. by eexists.
    + rewrite lookup_insert_ne by done. by exists x.
  - apply kept_token in Ht0 as [Ht0 Hn]. apply Hmono; [by eapply ok_chain|].
    intros h1 x Hx Hsx. exists x. rewrite Et. split; [|done]. apply kept_token. by rewrite Hsx.
Qed.

Lemma family_step_ok : refresh_ok s'.
Proof.
  split; [exact keep_parent | exact keep_single | exact keep_expiry | exact keep_bound | exact keep_chain].
Qed.
End Preservation.

(** ** The operations take only such steps *)

Lemma step_touch_put sid f (p : GrantRow -> bool) s :
  (forall g, p g = true -> same_terms g (f g) /\ revocation_kept g (f g) /\
     g_idle_expires_at (f g) = g_idle_expires_at g /\
     g_absolute_expires_at (f g) = g_absolute_expires_at g) ->
  family_step s (touch sid p f s).
Proof.
  intros Hf. unfold touch. destruct (refresh_grants s !! sid) as [g|] eqn:Hg; [|by apply step_quiet].
  destruct (p g) eqn:Hp; [|by apply step_quiet].
  destruct (Hf g Hp) as (? & ? & ? & ?). by eapply (step_touch s _ sid g (f g)).
Qed.

Lemma step_put_grant sid g g' s :
  refresh_grants s !! sid = Some g -> same_terms g g' -> revocation_kept g g' ->
  g_idle_expires_at g' = g_idle_expires_at g ->
  g_absolute_expires_at g' = g_absolute_expires_at g ->
  family_step s (put_grant sid g' s).
Proof. intros. by eapply (step_touch s _ sid g g'). Qed.

Lemma terms_revoke now reason g : same_terms g (revoke_row now reason g).
Proof. by repeat split. Qed.
Lemma terms_unclaim g : same_terms g (unclaim_row g).
Proof. by repeat split. Qed.
Lemma terms_claim c g : same_terms g (claim_row c g).
Proof. by repeat split. Qed.

Create HintDb family.
#[export] Hint Resolve terms_revoke terms_unclaim terms_claim : family.

Lemma not_revoked_None g : not_revoked g = true -> g_revoked_at g = None.
Proof. unfold not_revoked. by rewrite is_nil_true. Qed.

Ltac open_spec :=
  repeat match goal with
  | |- context [match ?x with _ => _ end] => destruct x eqn:?
  end; cbn [snd fst]; try (by apply step_quiet);
  repeat match goal with
  | H : negb (genuine _ _ _ _) = false |- _ => apply negb_false_iff in H
  | H : genuine _ _ _ _ = true |- _ => unfold genuine in H; apply andb_true_iff in H as [? ?]
  | H : not_revoked _ = true |- _ => apply not_revoked_None in H
  | H : is_some _ = false |- _ => apply is_some_false in H
  | H : token_and_grant _ _ = Some (_, _) |- _ => apply token_and_grant_Some in H as [? ?]
  | H : negb (holds_claim _ _ _ _ _) = false |- _ => apply negb_false_iff in H
  end.

(** The constructors for rows that are put. *)
Lemma step_rotate_put s s' sid g g' h t h' t' now r :
  refresh_view s' = (<[sid := g']> (refresh_grants s),
                     <[h' := t']> (<[h := consumed now r t]> (refresh_tokens s))) ->
  (refresh_grants s !! sid = Some g /\ g_revoked_at g = None /\
   refresh_tokens s !! h = Some t /\ t_sid t = sid /\ t_consumed_at t = None /\
   refresh_tokens s !! h' = None) ->
  (same_terms g g' /\ g_revoked_at g' = None) ->
  (g_absolute_expires_at g' <= g_absolute_expires_at g /\
   g_idle_expires_at g' <= g_absolute_expires_at g') ->
  (t_sid t' = sid /\ t_consumed_at t' = None /\ t_replacement_hash t' = None /\
   t_expires_at t' = g_idle_expires_at g' /\ r = t_token_hash t') ->
  family_step s s'.
Proof.
  intros Hv (?&?&?&?&?&?) (?&?) (?&?) (?&?&?&?&->).
  by eapply (step_rotate s s' sid g g' h t h' t' now).
Qed.

Ltac by_view :=
  unfold refresh_view;
  rewrite ?grants_put_grant, ?tokens_put_grant, ?grants_put_token, ?tokens_put_token,
    ?tokens_put_grant, ?grants_put_grant; reflexivity.

Lemma rotate_step current replacement clientID now s :
  family_step s (rotate_spec current replacement clientID now s).2.
Proof.
  unfold rotate_spec. open_spec.
  - eapply step_put_grant; eauto with family. by left.
  - eapply step_rotate_put; [by_view | split_and!; eauto | | cbn; lia | done].
    split; [by repeat split | done].
Qed.

Lemma claim_step current clientID now ttl fresh s :
  family_step s (claim_spec current clientID now ttl fresh s).2.
Proof.
  unfold claim_spec. open_spec; (eapply step_put_grant; [eassumption | by repeat split | by left | done..]).
Qed.

Lemma holds_claim_inv current sid claimID t g :
  holds_claim current sid claimID t g = true ->
  t_consumed_at t = None /\ t_sid t = sid /\ g_revoked_at g = None.
Proof.
  unfold holds_claim. rewrite !andb_true_iff, !String.eqb_eq. intros [[[[_ Hc] Hs] _] Hr].
  apply is_nil_true in Hc. by apply not_revoked_None in Hr.
Qed.

Lemma complete_step current replacement grant claim nonce ciphertext abs now s :
  family_step s (complete_spec current replacement grant claim nonce ciphertext abs now s).2.
Proof.
  unfold complete_spec. open_spec.
  match goal with H : holds_claim _ _ _ _ _ = true |- _ =>
    apply holds_claim_inv in H as (? & Hsid & ?) end. rewrite Hsid in *.
  eapply step_rotate_put; [by_view | split_and!; eauto | | cbn; lia | done].
  split; [by repeat split | done].
Qed.

Lemma new_family_step `{Env} op grant nonce ciphertext material now s :
  family_step s (new_family op grant nonce ciphertext material now s).2.
Proof.
  unfold new_family. cbv zeta. open_spec.
  match goal with H : _ || _ = false |- _ => apply orb_false_iff in H as [?%is_some_false _] end.
  set (e := Z.min (now + IdleTTL grant) (AbsoluteExpiry grant)).
  apply (step_issue s _ (SID grant) (new_grant_row grant nonce ciphertext now e) (HandleHash material)
           (new_token_row material (SID grant) now e)); try done. cbn; lia.
Qed.

Lemma family_step_view s s1 s2 :
  refresh_view s2 = refresh_view s1 -> family_step s s1 -> family_step s s2.
Proof.
  intros E []; [eapply step_quiet | eapply step_issue | eapply step_touch | eapply step_rotate | eapply step_expire];
    eauto; by rewrite E.
Qed.

Lemma family_step_view_l s0 s s1 :
  refresh_view s0 = refresh_view s -> family_step s s1 -> family_step s0 s1.
Proof.
  intros E. pose proof E as [= E1 E2]. intros [].
  - eapply step_quiet. congruence.
  - eapply step_issue; rewrite ?E1, ?E2; eauto.
  - eapply step_touch; rewrite ?E1, ?E2; eauto.
  - eapply step_rotate; rewrite ?E1, ?E2; eauto.
  - eapply step_expire; rewrite ?E1, ?E2; eauto.
Qed.

Lemma consume_code_step `{Env} expected binding grant material now s :
  family_step s (consume_code_spec expected binding grant material now s).2.
Proof.
  unfold consume_code_spec. repeat case_match; try (by apply step_quiet); cbn [snd].
  all: match goal with H : new_family ?o ?g ?n ?c ?m ?t ?s0 = _ |- _ =>
     pose proof (new_family_step o g n c m t s0) as Hs; rewrite H in Hs; cbn [snd] in Hs end.
  all: (eapply family_step_view_l; [|eapply family_step_view; [|exact Hs]]); done.
Qed.

Lemma revoke_credential_step credential clientID proofJKT reason now s :
  family_step s (revoke_credential_spec credential clientID proofJKT reason now s).2.
Proof.
  unfold revoke_credential_spec. cbn [snd].
  destruct (inspect_credential credential clientID s) as [[[sid g] t]|] eqn:E; [|by apply step_quiet].
  case_match; [|by apply step_quiet].
  apply inspect_credential_row in E. eapply step_put_grant; eauto with family.
  left. match goal with H : _ && _ = true |- _ => apply andb_true_iff in H as [Hu _] end.
  unfold credential_usable in Hu. rewrite !andb_true_iff in Hu. destruct Hu as [[[[Hn _] _] _] _].
  by apply negb_true_iff, is_some_false in Hn.
Qed.

(** A token stays as long as its family. *)
Lemma step_token_kept s s' (Hs : family_step s s') h0 t0 :
  refresh_tokens s !! h0 = Some t0 -> is_Some (refresh_grants s' !! t_sid t0) ->
  is_Some (refresh_tokens s' !! h0).
Proof.
  intros Ht0 Hg0. step_rows Hs; rewrite Et; rewrite Eg in Hg0; try by eexists.
  - apply lookup_insert_is_Some'. by right; eexists.
  - apply lookup_insert_is_Some'. right. apply lookup_insert_is_Some'. by right; eexists.
  - exists t0. apply kept_token. split; [done|]. rewrite foldr_delete_lookup in Hg0.
    by case_decide; [destruct Hg0|].
Qed.
