(* ===== verification/StoreSafety.v ===== *)
(** * Safety of the whole store

    Every exported operation of internal/statedb is a step of the store, whatever
    its arguments and whatever the database, the clock and the random source do; a
    history is a sequence of such steps.  Each step is a step of FamilySafety.v, so
    its invariant and its irreversible facts hold in every history. *)

From S2P Require Import Prelude Runtime Sha256 ReplayCache Schema RefreshToken RefreshStore FlowStore OtpStore GrantStore RefreshSpec FamilySafety.
Import Grant Material.

(** ** Operations that leave some tables alone *)

(** A statement, and an operation, that keeps a view of the tables. *)
Definition keeps {V A} (v : Tables -> V) (q : stmt A) : Prop :=
  forall s a s', q s = Some (a, s') -> v s' = v s.
Definition keeps_at {V B} (v : Tables -> V) (op : World -> B * World) (w : World) : Prop :=
  ends op w (fun _ w' => v (w_db w') = v (w_db w)).

Section KeepRules.
Context `{Env} {R V : Type} (v : Tables -> V).

Lemma wp_keep_db {A} (q : stmt A) (onerr : R) w (Q : (R + A) -> World -> Prop) :
  keeps v q -> Q (inl onerr) (count_stmt w) ->
  (forall a s, v s = v (w_db w) -> Q (inr a) (with_db (count_stmt w) s)) ->
  wp (sql_db q onerr) w Q.
Proof. intros Hq H1 H2. apply wp_sql_db; [done|]. intros a s _ E. apply H2. by eapply Hq. Qed.

Lemma wp_keep_tx {A} (q : stmt A) (onerr : R) w (Q : (R + A) -> World -> Prop) :
  keeps v q -> Q (inl onerr) (count_stmt w) ->
  (forall a s, v s = v (w_tx w) -> Q (inr a) (with_tx (count_stmt w) s)) ->
  wp (sql_tx q onerr) w Q.
Proof. intros Hq H1 H2. apply wp_sql_tx; [done|]. intros a s _ E. apply H2. by eapply Hq. Qed.
End KeepRules.

Ltac keep_stmt :=
  let s := fresh "s" in let a := fresh "a" in let s' := fresh "s'" in let H := fresh "H" in
  intros s a s' H;
  unfold select, update, delete_returning, log_send, delete_batch,
    insert_challenge, count_attempt, delete_challenge, renew_challenge in H;
  cbn beta zeta in H;
  repeat match type of H with
  | context [match ?x with _ => _ end] => destruct x eqn:?; try discriminate H
  end;
  injection H as <- <-; reflexivity.

(** Symbolic execution that only follows the view. *)
Ltac by_keep :=
  unfold keeps_at;
  lazymatch goal with
  | |- ends _ _ (fun _ w' => ?v (w_db w') = _) =>
      repeat (first
        [ lazymatch goal with
          | |- wp (sql_db _ _) _ _ => apply (wp_keep_db v); [keep_stmt | | intros ? ? ?]
          | |- wp (sql_tx _ _) _ _ => apply (wp_keep_tx v); [keep_stmt | | intros ? ? ?]
          end
        | store_step ];
        cbn [w_db w_tx w_cnt count_stmt count_tick count_draw with_cnt with_tx with_db merge] in *);
      congruence
  end.

(** Operations that do not touch families. *)
Abbreviation quiet_at := (keeps_at refresh_view).

Section Quiet.
Context `{Env} `{FlowJSON} `{EmailsJSON}.

Lemma SaveState_quiet state w : quiet_at (SaveState state) w.
Proof. unfold SaveState. by_keep. Qed.
Lemma GetAndDeleteState_quiet state w : quiet_at (GetAndDeleteState state) w.
Proof. unfold GetAndDeleteState. by_keep. Qed.
Lemma PeekState_quiet state w : quiet_at (PeekState state) w.
Proof. unfold PeekState. by_keep. Qed.
Lemma SaveCredential_quiet c s e l t w : quiet_at (SaveCredential c s e l t) w.
Proof. unfold SaveCredential. by_keep. Qed.
Lemma CredentialVerified_quiet c s e w : quiet_at (CredentialVerified c s e) w.
Proof. unfold CredentialVerified. by_keep. Qed.
Lemma SaveAuthCode_quiet code w : quiet_at (SaveAuthCode code) w.
Proof. unfold SaveAuthCode. by_keep. Qed.
Lemma PeekAuthCode_quiet code now w : quiet_at (PeekAuthCode code now) w.
Proof. unfold PeekAuthCode. by_keep. Qed.
Lemma GetAndDeleteAuthCode_quiet code w : quiet_at (GetAndDeleteAuthCode code) w.
Proof. unfold GetAndDeleteAuthCode. by_keep. Qed.
Lemma SaveFlowCredential_quiet a b c d e f t z w : quiet_at (SaveFlowCredential a b c d e f t z) w.
Proof. unfold SaveFlowCredential. by_keep. Qed.
Lemma LoadFlowCredential_quiet a b c t w : quiet_at (LoadFlowCredential a b c t) w.
Proof. unfold LoadFlowCredential. by_keep. Qed.
Lemma SavePushedRequest_quiet p w : quiet_at (SavePushedRequest p) w.
Proof. unfold SavePushedRequest. by_keep. Qed.
Lemma ConsumePushedRequest_quiet u c t w : quiet_at (ConsumePushedRequest u c t) w.
Proof. unfold ConsumePushedRequest. by_keep. Qed.
Lemma CreateOTP_quiet a b c f s t d w : quiet_at (CreateOTP a b c f s t d) w.
Proof. unfold CreateOTP. by_keep. Qed.
Lemma ResendOTP_quiet a c s t d w : quiet_at (ResendOTP a c s t d) w.
Proof. unfold ResendOTP. by_keep. Qed.
Lemma LookupOTPFlow_quiet a t w : quiet_at (LookupOTPFlow a t) w.
Proof. unfold LookupOTPFlow. by_keep. Qed.
Lemma ConsumeOTP_quiet a c s t w : quiet_at (ConsumeOTP a c s t) w.
Proof. unfold ConsumeOTP. by_keep. Qed.
Lemma ListActiveGrants_quiet e t w : quiet_at (ListActiveGrants e t) w.
Proof. unfold ListActiveGrants. by_keep. Qed.
Lemma CreateIdentitySelection_quiet t s c u l a b w :
  quiet_at (CreateIdentitySelection t s c u l a b) w.
Proof. unfold CreateIdentitySelection. by_keep. Qed.
Lemma ConsumeIdentitySelection_quiet t n w : quiet_at (ConsumeIdentitySelection t n) w.
Proof. unfold ConsumeIdentitySelection. by_keep. Qed.
End Quiet.

(** ** Grant actions *)

(** The contract of ConsumeGrantActionAndRevoke: a live action issued to the same
    owner for that very grant revokes it and is used up. *)
Definition consume_action_spec `{Env} (token email sid action : string) (now : time) (s : Tables)
  : option error * Tables :=
  let email := to_lower email in
  if action_exists (sha256 token) email sid action now s && touched sid (active_for email now) s
  then (None, drop_action (sha256 token)
                (touch sid (active_for email now) (revoke_row now "self_service") s))
  else (Some ErrInvalidGrant, s).

Lemma revoke_managed_eq `{Env} h email sid action now s :
  revoke_managed h email sid action now s =
  Some (if action_exists h email sid action now s && touched sid (active_for email now) s
        then (1, touch sid (active_for email now) (revoke_row now "self_service") s) else (0, s)).
Proof.
  unfold revoke_managed, touched, touch, update_grant.
  destruct (action_exists h email sid action now s); cbn [andb]; [|done].
  destruct (refresh_grants s !! sid) as [g|]; [|done]. by destruct (active_for email now g).
Qed.

Lemma delete_action_eq h s :
  delete_action h s = Some (if is_some (grant_actions s !! h) then 1 else 0, drop_action h s).
Proof. done. Qed.

Lemma action_exists_some h email sid action now s :
  action_exists h email sid action now s = true -> is_some (grant_actions s !! h) = true.
Proof. unfold action_exists. by destruct (grant_actions s !! h). Qed.

Lemma actions_touch sid p f s : grant_actions (touch sid p f s) = grant_actions s.
Proof. unfold touch. by repeat case_match. Qed.

Section Actions.
Context `{Env}.

Lemma insert_actions_view batch email action now expiry :
  keeps refresh_view (insert_actions batch email action now expiry).
Proof.
  assert (forall batch s s',
    foldl (fun s a => insert_action email action now expiry a s) (Some s) batch = Some s' ->
    refresh_view s' = refresh_view s) as Hfold.
  { clear. intros batch. induction batch as [|a batch IH]; intros s s'; cbn [foldl]; [congruence|].
    destruct (insert_action email action now expiry a (Some s)) as [s1|] eqn:E.
    - intros HF. rewrite (IH _ _ HF). unfold insert_action in E. cbn in E. case_match; [done|].
      by injection E as <-.
    - intros HF. exfalso. revert HF. clear. induction batch; cbn; [done|]. done. }
  intros s a s' HI. unfold insert_actions in HI.
  destruct (foldl _ (Some s) batch) as [s1|] eqn:E; cbn in HI; [|discriminate].
  injection HI as _ <-. by apply Hfold in E.
Qed.

Lemma CreateGrantActions_quiet actions email action now expiry w :
  quiet_at (CreateGrantActions actions email action now expiry) w.
Proof.
  unfold keeps_at, CreateGrantActions. do 2 store_step.
  set (e := to_lower email). generalize (length actions) as n.
  assert (forall n actions w v, refresh_view (w_db w) = v ->
    wp (create_actions n actions e action now expiry) w
       (fun _ w' => refresh_view (w_db w') = v)) as HL.
  { clear. intros n. induction n as [|n IH]; intros [|a actions] w v Hv; cbn [create_actions]; try done.
    store_step. apply (wp_keep_db refresh_view); [apply insert_actions_view | done |].
    intros ? s Hs. apply IH. cbn. congruence. }
  intros n. eapply wp_mono; [by eapply HL|]. cbn. by intros [].
Qed.

Lemma ConsumeGrantActionAndRevoke_atomic token email sid action now w :
  atomically (ConsumeGrantActionAndRevoke token email sid action now) id
    (consume_action_spec token email sid action now) w.
Proof.
  unfold ConsumeGrantActionAndRevoke, atomically. repeat store_step.
  all: cbn [w_db w_tx w_cnt count_stmt with_cnt with_tx with_db merge] in *.
  all: rewrite ?revoke_managed_eq, ?delete_action_eq in *.
  all: repeat match goal with
  | H : _ \/ Some _ = None |- _ => destruct H as [H|H]; [|discriminate H]
  | H : Some (_, _) = Some (_, _) |- _ => injection H as <- <-
  | H : Some (if ?b then _ else _) = Some (_, _) |- _ => destruct b eqn:?; injection H as <- <-
  | H : context [negb (1 =? 1)] |- _ => cbn in H; try discriminate H
  | H : context [negb (0 =? 1)] |- _ => cbn in H; try discriminate H
  end; try by_fault; right; unfold consume_action_spec.
  all: match goal with H : _ && _ = _ |- _ => rewrite H end; try done.
  match goal with H : _ && _ = true |- _ => apply andb_true_iff in H as [Ha _] end.
  apply action_exists_some in Ha. rewrite actions_touch, Ha in *. done.
Qed.
End Actions.

Lemma consume_action_step `{Env} token email sid action now s :
  family_step s (consume_action_spec token email sid action now s).2.
Proof.
  unfold consume_action_spec. cbv zeta. case_match; [|by apply step_quiet]. cbn [snd].
  eapply family_step_view; [|apply (step_touch_put sid (revoke_row now "self_service")
                                     (active_for (to_lower email) now))]; [done|].
  intros g Hg. split_and!; [apply terms_revoke | left | done | done].
  unfold active_for in Hg. rewrite !andb_true_iff in Hg. apply not_revoked_None. tauto.
Qed.

(** ** Cleanup *)

Lemma eligible_spec {A} (p : A -> bool) (m : gmap string A) k :
  k ∈ eligible p m -> exists a, m !! k = Some a /\ p a = true.
Proof.
  unfold eligible. intros Hk. apply elem_of_take in Hk as (i & Hi & _).
  apply list_elem_of_lookup_2 in Hi. apply list_elem_of_fmap in Hi as ([k' a] & -> & Hi).
  apply list_elem_of_filter in Hi as [Hp Hi]. apply elem_of_map_to_list in Hi.
  exists a. split; [done|]. by apply Is_true_true.
Qed.

Section Clean.
Context `{Env}.

Lemma deleteExpiredBatch_step f w :
  (forall s, family_step s (f s)) ->
  family_step (w_db w) (w_db (deleteExpiredBatch f w).2).
Proof.
  intros Hf. enough (ends (deleteExpiredBatch f) w (fun _ w' => family_step (w_db w) (w_db w'))) by done.
  unfold deleteExpiredBatch. repeat store_step; inv_stmt; cbn; try (by apply step_quiet). apply Hf.
Qed.

Lemma delete_grants_step now s :
  family_step s (delete_grants (fun g => g_absolute_expires_at g <=? now) s).
Proof.
  eapply (step_expire _ _ (eligible (fun g => g_absolute_expires_at g <=? now) (refresh_grants s)) now).
  - intros sid Hsid. apply eligible_spec in Hsid as (g & Hg & Hle). exists g. split; [done | lia].
  - done.
Qed.

Lemma deleteExpiredBatch_quiet f w v :
  (forall s, refresh_view (f s) = refresh_view s) ->
  refresh_view (w_db w) = v -> refresh_view (w_db (deleteExpiredBatch f w).2) = v.
Proof.
  intros Hf Hv.
  enough (ends (deleteExpiredBatch f) w (fun _ w' => refresh_view (w_db w') = v)) by done.
  unfold deleteExpiredBatch. repeat store_step; inv_stmt; cbn; try done. by rewrite Hf.
Qed.

Lemma cleanupPARRequests_steps now w :
  refresh_view (w_db (cleanupPARRequests now w).2) = refresh_view (w_db w).
Proof.
  enough (quiet_at (cleanupPARRequests now) w) by done. unfold cleanupPARRequests. by_keep.
Qed.

Lemma cleanupProtocolState_step now w : family_step (w_db w) (w_db (cleanupProtocolState now w).2).
Proof.
  enough (ends (cleanupProtocolState now) w (fun _ w' => family_step (w_db w) (w_db w'))) by done.
  unfold cleanupProtocolState. repeat (store_step || lazymatch goal with |- ends (?f _) _ _ => unfold ends end).
  apply step_quiet, cleanupPARRequests_steps.
Qed.

(** An ordinary cleanup is one step: only the last batch concerns families. *)
Lemma cleanupExpiredAtContext_step now w : family_step (w_db w) (w_db (cleanupExpiredAtContext now w).2).
Proof.
  enough (ends (cleanupExpiredAtContext now) w (fun _ w' => family_step (w_db w) (w_db w'))) by done.
  unfold cleanupExpiredAtContext.
  repeat (store_step || lazymatch goal with |- ends (?f _) _ _ => unfold ends end).
  eapply family_step_view_l; [|apply deleteExpiredBatch_step; intros; apply delete_grants_step].
  symmetry. by do 7 (apply deleteExpiredBatch_quiet; [done|]).
Qed.
End Clean.

Lemma atomically_step `{Env} {R} (op : World -> R * World) err_of spec w :
  atomically op err_of spec w -> (forall s, family_step s (spec s).2) ->
  family_step (w_db w) (w_db (op w).2).
Proof.
  unfold atomically, ends. intros [(_ & _ & ->)|E] Hs; [by apply step_quiet|].
  specialize (Hs (w_db w)). by rewrite E in Hs.
Qed.

Lemma quiet_step {B} (op : World -> B * World) w :
  quiet_at op w -> family_step (w_db w) (w_db (op w).2).
Proof. intros Hq. by apply step_quiet. Qed.

(** ** Histories *)

(** One call of the store, with any arguments and in any environment; [call_other]
    is whatever the process does outside the database. *)
Inductive store_call (w : World) : World -> Prop :=
  | call_other w' : w_db w' = w_db w -> store_call w w'
  | call_GenerateStateToken `{Env} : store_call w (GenerateStateToken w).2
  | call_SaveState `{Env} state : store_call w (SaveState state w).2
  | call_GetAndDeleteState `{Env} state : store_call w (GetAndDeleteState state w).2
  | call_PeekState `{Env} state : store_call w (PeekState state w).2
  | call_SaveCredential `{Env} c s e l t : store_call w (SaveCredential c s e l t w).2
  | call_CredentialVerified `{Env} c s e : store_call w (CredentialVerified c s e w).2
  | call_SaveAuthCode `{Env} code : store_call w (SaveAuthCode code w).2
  | call_PeekAuthCode `{Env} code now : store_call w (PeekAuthCode code now w).2
  | call_GetAndDeleteAuthCode `{Env} code : store_call w (GetAndDeleteAuthCode code w).2
  | call_SaveFlowCredential `{Env} a b c d e f t z : store_call w (SaveFlowCredential a b c d e f t z w).2
  | call_LoadFlowCredential `{Env} a b c t : store_call w (LoadFlowCredential a b c t w).2
  | call_SavePushedRequest `{Env} p : store_call w (SavePushedRequest p w).2
  | call_ConsumePushedRequest `{Env} u c t : store_call w (ConsumePushedRequest u c t w).2
  | call_CreateOTP `{Env} `{FlowJSON} a b c f s t d : store_call w (CreateOTP a b c f s t d w).2
  | call_ResendOTP `{Env} `{FlowJSON} a c s t d : store_call w (ResendOTP a c s t d w).2
  | call_OTPFlow `{Env} `{FlowJSON} a t : store_call w (LookupOTPFlow a t w).2
  | call_ConsumeOTP `{Env} `{FlowJSON} a c s t : store_call w (ConsumeOTP a c s t w).2
  | call_ListActiveGrants `{Env} e t : store_call w (ListActiveGrants e t w).2
  | call_CreateGrantActions `{Env} l e a n x : store_call w (CreateGrantActions l e a n x w).2
  | call_ConsumeGrantActionAndRevoke `{Env} t e s a n :
      store_call w (ConsumeGrantActionAndRevoke t e s a n w).2
  | call_CreateIdentitySelection `{Env} `{EmailsJSON} t s c u l a b :
      store_call w (CreateIdentitySelection t s c u l a b w).2
  | call_ConsumeIdentitySelection `{Env} `{EmailsJSON} t n :
      store_call w (ConsumeIdentitySelection t n w).2
  | call_ClaimRefresh `{Env} m c n t : store_call w (ClaimRefresh m c n t w).2
  | call_MarkUpstreamRefreshStarted `{Env} s c n :
      store_call w (MarkUpstreamRefreshStarted s c n w).2
  | call_ReleaseRefreshClaim `{Env} s c : store_call w (ReleaseRefreshClaim s c w).2
  | call_AbortUpstreamRefresh `{Env} s c : store_call w (AbortUpstreamRefresh s c w).2
  | call_CompleteClaimedRefresh `{Env} m r g c n x a t :
      store_call w (CompleteClaimedRefresh m r g c n x a t w).2
  | call_ConsumeAuthCode `{Env} e b g m n : store_call w (ConsumeAuthCode e b g m n w).2
  | call_PrepareRefresh `{Env} m c n : store_call w (PrepareRefresh m c n w).2
  | call_CreateRefreshGrant `{Env} g m n x t : store_call w (CreateRefreshGrant g m n x t w).2
  | call_RotateRefreshToken `{Env} m r c n : store_call w (RotateRefreshToken m r c n w).2
  | call_RevokeGrant `{Env} s c r n : store_call w (RevokeGrant s c r n w).2
  | call_RevokeRefreshToken `{Env} m c r n : store_call w (RevokeRefreshToken m c r n w).2
  | call_RevokeCredential `{Env} k c p r n : store_call w (RevokeCredential k c p r n w).2
  | call_cleanupProtocolState `{Env} n : store_call w (cleanupProtocolState n w).2
  | call_cleanupExpiredAtContext `{Env} n : store_call w (cleanupExpiredAtContext n w).2.

(** Updates of a claim or a revocation keep the terms of the family. *)
Lemma mark_step sid claim now s : family_step s (mark_spec sid claim now s).2.
Proof.
  apply step_touch_put. intros g Hg. rewrite !andb_true_iff in Hg. split_and!; try done.
  left. apply not_revoked_None. tauto.
Qed.

Lemma release_step sid claim s : family_step s (release_spec sid claim s).2.
Proof. apply step_touch_put. intros g _. split_and!; try done. by right. Qed.

Lemma abort_step sid claim s : family_step s (abort_spec sid claim s).2.
Proof. apply step_touch_put. intros g _. split_and!; try done. by right. Qed.

Lemma revoke_grant_step sid clientID reason now s :
  family_step s (revoke_grant_spec sid clientID reason now s).2.
Proof.
  apply step_touch_put. intros g Hg. apply andb_true_iff in Hg as [_ Hg]. split_and!; try done.
  left. by apply not_revoked_None.
Qed.

Lemma revoke_token_step m clientID reason now s :
  family_step s (revoke_token_spec m clientID reason now s).2.
Proof. unfold revoke_token_spec. case_match; [apply revoke_grant_step | by apply step_quiet]. Qed.

Lemma prepare_step current clientID now s :
  family_step s (prepare_spec current clientID now s).2.
Proof. apply step_quiet. unfold prepare_spec. by repeat case_match. Qed.

Lemma GenerateStateToken_quiet `{Env} w : quiet_at GenerateStateToken w.
Proof. unfold keeps_at. apply GenerateStateToken_spec. by intros w' -> _. Qed.

Create HintDb store.
#[export] Hint Resolve GenerateStateToken_quiet SaveState_quiet GetAndDeleteState_quiet PeekState_quiet
  SaveCredential_quiet CredentialVerified_quiet SaveAuthCode_quiet PeekAuthCode_quiet
  GetAndDeleteAuthCode_quiet SaveFlowCredential_quiet LoadFlowCredential_quiet
  SavePushedRequest_quiet ConsumePushedRequest_quiet CreateOTP_quiet ResendOTP_quiet
  LookupOTPFlow_quiet ConsumeOTP_quiet ListActiveGrants_quiet CreateGrantActions_quiet
  CreateIdentitySelection_quiet ConsumeIdentitySelection_quiet : store.
#[export] Hint Resolve ConsumeGrantActionAndRevoke_atomic ClaimRefresh_atomic
  MarkUpstreamRefreshStarted_atomic ReleaseRefreshClaim_atomic AbortUpstreamRefresh_atomic
  CompleteClaimedRefresh_atomic ConsumeAuthCode_atomic PrepareRefresh_atomic
  CreateRefreshGrant_atomic RotateRefreshToken_atomic RevokeGrant_atomic RevokeRefreshToken_atomic
  RevokeCredential_atomic : store.
#[export] Hint Resolve consume_action_step claim_step mark_step release_step abort_step complete_step
  consume_code_step prepare_step new_family_step rotate_step revoke_grant_step revoke_token_step
  revoke_credential_step : store.

Lemma store_call_step w w' : store_call w w' -> family_step (w_db w) (w_db w').
Proof.
  destruct 1 as [w0 E| | | | | | | | | | | | | | | | | | | | | | | | | | | | | | | | | | | |].
  { apply step_quiet. by rewrite E. }
  all: try (apply quiet_step; solve [auto with store]).
  all: try (eapply atomically_step; [solve [auto with store]|]; intros; solve [auto with store]).
  - apply cleanupProtocolState_step.
  - apply cleanupExpiredAtContext_step.
Qed.

(** A call that leaves the family [sid] stored.  (Once an expired family has been
    cleaned up, nothing is known about a later one that draws the same identifier.) *)
Definition keeping (sid : string) (w w' : World) : Prop :=
  store_call w w' /\ is_Some (refresh_grants (w_db w') !! sid).

Lemma history_ok w w' : rtc store_call w w' -> refresh_ok (w_db w) -> refresh_ok (w_db w').
Proof.
  induction 1 as [|w w1 w' Hc _ IH]; [done|]. intros Hok. apply IH.
  eapply family_step_ok; [exact Hok | by apply store_call_step].
Qed.

Lemma revocation_kept_trans g1 g2 g3 :
  revocation_kept g1 g2 -> revocation_kept g2 g3 -> revocation_kept g1 g3.
Proof. unfold revocation_kept. intros [|[E1 E2]] [|[E3 E4]]; auto; [left|right]; split_and?; congruence. Qed.

Lemma keeping_grant sid w w' g :
  rtc (keeping sid) w w' -> refresh_grants (w_db w) !! sid = Some g ->
  exists g', refresh_grants (w_db w') !! sid = Some g' /\ same_terms g g' /\
    revocation_kept g g' /\ g_absolute_expires_at g' <= g_absolute_expires_at g.
Proof.
  intros Hr. revert g. induction Hr as [w|w w1 w' [Hc [g1 Hg1]] _ IH]; intros g Hg.
  - exists g. split_and!; [done | reflexivity | unfold revocation_kept; auto | lia].
  - apply store_call_step in Hc.
    destruct (step_grant _ _ Hc _ _ _ Hg Hg1) as (? & ? & ?).
    destruct (IH _ Hg1) as (g' & ? & ? & ? & ?). exists g'. split_and!; [done | | | lia].
    + by etrans.
    + by eapply revocation_kept_trans.
Qed.

Lemma keeping_token sid w w' h t :
  rtc (keeping sid) w w' -> refresh_tokens (w_db w) !! h = Some t -> t_sid t = sid ->
  exists t', refresh_tokens (w_db w') !! h = Some t' /\ t_sid t' = sid /\
    t_token_hash t' = t_token_hash t /\ (t_consumed_at t <> None -> t' = t).
Proof.
  intros Hr. revert t. induction Hr as [w|w w1 w' [Hc Hg] _ IH]; intros t Ht Hsid; [by exists t|].
  apply store_call_step in Hc. subst sid.
  destruct (step_token_kept _ _ Hc _ _ Ht Hg) as [t1 Ht1].
  destruct (step_token _ _ Hc _ _ _ Ht Ht1) as [->|(Hn & now & r & ->)].
  - by apply IH.
  - destruct (IH _ Ht1) as (t' & ? & ? & ? & ?); [done|]. exists t'. by split_and!.
Qed.

(** ** What a successful exchange means *)

Lemma atomically_success `{Env} {R} (op : World -> R * World) err_of spec w r :
  atomically op err_of spec w -> (op w).1 = r -> err_of r = None ->
  spec (w_db w) = (r, w_db (op w).2).
Proof.
  unfold atomically, ends. intros [(_ & He & _)|E] <- Hn; [by rewrite Hn in He | exact E].
Qed.

(** The token row an exchange was granted on. *)
Lemma rotate_spec_row current replacement clientID now s g e s' :
  rotate_spec current replacement clientID now s = ((g, e, None), s') ->
  exists t row, refresh_tokens s !! HandleHash current = Some t /\
    refresh_grants s !! t_sid t = Some row /\ SID g = t_sid t /\
    genuine current clientID t row = true /\ t_consumed_at t = None /\
    unexpired now t row = true /\
    refresh_tokens s' !! HandleHash current = Some (consumed now (TokenHash replacement) t) /\
    exists row', refresh_grants s' !! t_sid t = Some row' /\ same_terms row row'.
Proof.
  unfold rotate_spec. repeat case_match; try discriminate. intros [= <- <- <-].
  match goal with H : token_and_grant _ _ = Some (?t, ?g) |- _ =>
    apply token_and_grant_Some in H as [? ?]; exists t, g end.
  repeat match goal with
  | H : negb _ = false |- _ => apply negb_false_iff in H
  | H : is_some _ = false |- _ => apply is_some_false in H
  end.
  split_and!; try done.
  - rewrite tokens_put_grant, !tokens_put_token, lookup_insert_ne by congruence.
    by rewrite lookup_insert_eq.
  - eexists. rewrite grants_put_grant, lookup_insert_eq. split; [done | by repeat split].
Qed.

Lemma claim_spec_row current clientID now ttl fresh s g c e s' :
  claim_spec current clientID now ttl fresh s = ((g, c, e, None), s') ->
  exists t row, refresh_tokens s !! HandleHash current = Some t /\
    refresh_grants s !! t_sid t = Some row /\ SID g = t_sid t /\
    genuine current clientID t row = true /\ t_consumed_at t = None /\
    unexpired now t row = true /\ claim_alive now row = false /\
    s' = put_grant (t_sid t) (claim_row c row) s /\ ClaimExpiresAt c = now + ttl.
Proof.
  unfold claim_spec. repeat case_match; try discriminate. intros [= <- <- <- <-].
  match goal with H : token_and_grant _ _ = Some (?t, ?g) |- _ =>
    apply token_and_grant_Some in H as [? ?]; exists t, g end.
  repeat match goal with
  | H : negb _ = false |- _ => apply negb_false_iff in H
  | H : is_some _ = false |- _ => apply is_some_false in H
  end. by split_and!.
Qed.

Lemma prepare_spec_row current clientID now s g e s' :
  prepare_spec current clientID now s = ((g, e, None), s') ->
  exists t row, refresh_tokens s !! HandleHash current = Some t /\
    refresh_grants s !! t_sid t = Some row /\ SID g = t_sid t /\
    genuine current clientID t row = true /\ t_consumed_at t = None /\ unexpired now t row = true.
Proof.
  unfold prepare_spec. repeat case_match; try discriminate. intros [= <- <- <-].
  match goal with H : token_and_grant _ _ = Some (?t, ?g) |- _ =>
    apply token_and_grant_Some in H as [? ?]; exists t, g end.
  repeat match goal with
  | H : negb _ = false |- _ => apply negb_false_iff in H
  | H : is_some _ = false |- _ => apply is_some_false in H
  end. by split_and!.
Qed.

Lemma complete_spec_row current replacement grant claim nonce ciphertext abs now s e s' :
  complete_spec current replacement grant claim nonce ciphertext abs now s = ((e, None), s') ->
  exists t row, refresh_tokens s !! HandleHash current = Some t /\
    refresh_grants s !! t_sid t = Some row /\
    holds_claim current (SID grant) (ClaimID claim) t row = true /\
    unexpired now t row = true /\ claim_alive now row = true /\
    refresh_tokens s' !! HandleHash current = Some (consumed now (TokenHash replacement) t).
Proof.
  unfold complete_spec. repeat case_match; try discriminate. intros [= <- <-].
  match goal with H : token_and_grant _ _ = Some (?t, ?g) |- _ =>
    apply token_and_grant_Some in H as [? ?]; exists t, g end.
  repeat match goal with
  | H : negb _ = false |- _ => apply negb_false_iff in H
  | H : is_some _ = false |- _ => apply is_some_false in H
  end.
  split_and!; try done.
  rewrite tokens_put_token, lookup_insert_ne, tokens_put_grant, tokens_put_token by congruence.
  by rewrite lookup_insert_eq.
Qed.

(** [current] is accepted for the family [sid]: one of the operations that exchange a
    refresh token succeeds on it in [w]. *)
Inductive accepted `{Env} (w : World) (current : RefreshMaterial) : string -> Prop :=
  | accepted_rotate replacement clientID now g e :
      (RotateRefreshToken current replacement clientID now w).1 = (g, e, None) ->
      accepted w current (SID g)
  | accepted_claim clientID now ttl g c e :
      (ClaimRefresh current clientID now ttl w).1 = (g, c, e, None) -> accepted w current (SID g)
  | accepted_prepare clientID now g e :
      (PrepareRefresh current clientID now w).1 = (g, e, None) -> accepted w current (SID g)
  | accepted_complete replacement grant claim nonce ciphertext abs now e :
      (CompleteClaimedRefresh current replacement grant claim nonce ciphertext abs now w).1 = (e, None) ->
      accepted w current (SID grant).

Lemma genuine_inv current clientID t g :
  genuine current clientID t g = true ->
  t_token_hash t = TokenHash current /\ g_client_id g = clientID /\ g_revoked_at g = None.
Proof.
  unfold genuine. rewrite !andb_true_iff, !String.eqb_eq. intros [[? ?] ?%not_revoked_None]. done.
Qed.

Lemma accepted_row `{Env} w current sid :
  accepted w current sid ->
  exists t row, refresh_tokens (w_db w) !! HandleHash current = Some t /\ t_sid t = sid /\
    refresh_grants (w_db w) !! sid = Some row /\ t_consumed_at t = None /\ g_revoked_at row = None.
Proof.
  intros [replacement c now g e E|c now ttl g cl e E|c now g e E|rep grant claim n x a now e E].
  - eapply atomically_success in E; [|apply RotateRefreshToken_atomic|done].
    apply rotate_spec_row in E as (t & row & ? & ? & Hs & (_ & _ & ?)%genuine_inv & ? & _).
    exists t, row. by rewrite Hs.
  - eapply atomically_success in E; [|apply ClaimRefresh_atomic|done].
    apply claim_spec_row in E as (t & row & ? & ? & Hs & (_ & _ & ?)%genuine_inv & ? & _).
    exists t, row. by rewrite Hs.
  - eapply atomically_success in E; [|apply PrepareRefresh_atomic|done].
    apply prepare_spec_row in E as (t & row & ? & ? & Hs & (_ & _ & ?)%genuine_inv & ? & _).
    exists t, row. by rewrite Hs.
  - eapply atomically_success in E; [|apply CompleteClaimedRefresh_atomic|done].
    apply complete_spec_row in E as (t & row & ? & ? & (? & Hs & ?)%holds_claim_inv & _).
    exists t, row. by rewrite Hs in *.
Qed.

Lemma consumed_never_accepted `{Env} sid w w' current t :
  refresh_tokens (w_db w) !! HandleHash current = Some t -> t_sid t = sid ->
  t_consumed_at t <> None -> rtc (keeping sid) w w' -> forall sid', ~ accepted w' current sid'.
Proof.
  intros Ht Hsid Hc Hr sid' (t1 & row & Ht1 & _ & _ & Hn & _)%accepted_row.
  destruct (keeping_token _ _ _ _ _ Hr Ht Hsid) as (t' & Ht' & _ & _ & He).
  rewrite (He Hc) in Ht'. congruence.
Qed.

Lemma revoked_never_accepted `{Env} sid w w' g :
  refresh_grants (w_db w) !! sid = Some g -> g_revoked_at g <> None ->
  rtc (keeping sid) w w' -> forall current, ~ accepted w' current sid.
Proof.
  intros Hg Hrev Hr current (t1 & row & _ & _ & Hrow & _ & Hn)%accepted_row.
  destruct (keeping_grant _ _ _ _ Hr Hg) as (g' & Hg' & _ & [|[He _]] & _); [done|].
  congruence.
Qed.

Lemma rotate_replay_spec current replacement clientID now s t g :
  refresh_tokens s !! HandleHash current = Some t -> refresh_grants s !! t_sid t = Some g ->
  genuine current clientID t g = true -> t_consumed_at t <> None ->
  rotate_spec current replacement clientID now s =
    ((zero_grant, zero_time, Some ErrRefreshReplay),
     put_grant (t_sid t) (revoke_row now "replay" g) s).
Proof.
  intros Ht Hg Hgen Hc. unfold rotate_spec.
  rewrite (proj2 (token_and_grant_Some _ _ _ _) (conj Ht Hg)), Hgen. cbn [negb].
  by destruct (t_consumed_at t).
Qed.
