(* ===== verification/FlowSafety.v ===== *)
(** * Single use of protocol rows

    Authorization codes, pushed requests and identity selections are stored by one
    operation each and otherwise only disappear; mails are recorded by the two OTP
    sends and forgotten by the cleanup, and only the two sends make a challenge answer
    more guesses. *)

From S2P Require Import Prelude Runtime Sha256 ReplayCache Schema RefreshToken RefreshStore FlowStore OtpStore GrantStore RefreshSpec FamilySafety StoreSafety.
Import Grant Material.

(** Challenges disappear or lose attempts. *)
Definition fewer_guesses (m m' : gmap string OTPRow) : Prop :=
  forall id o', m' !! id = Some o' -> exists o, m !! id = Some o /\ o_attempts o <= o_attempts o'.

#[export] Instance fewer_guesses_preorder : PreOrder fewer_guesses.
Proof.
  split; [by intros m id o; eauto with lia|].
  intros m1 m2 m3 H12 H23 id o3 (o2 & (o1 & ? & ?)%H12 & ?)%H23. exists o1. split; [done|lia].
Qed.

Lemma fewer_guesses_sub m m' : m' ⊆ m -> fewer_guesses m m'.
Proof. intros Hs id o Ho. exists o. split; [by eapply lookup_weaken|done]. Qed.

Lemma fewer_guesses_insert m id o c :
  m !! id = Some c -> o_attempts c <= o_attempts o -> fewer_guesses m (<[id := o]> m).
Proof.
  intros Hc Hle id' o' [[<- <-]|[_ Ho]]%lookup_insert_Some; eauto with lia.
Qed.

(** Rows of the protocol tables disappear or stay as they are. *)
Record trims (s s' : Tables) : Prop := {
  tr_codes : auth_codes s' ⊆ auth_codes s;
  tr_pushed : pushed_requests s' ⊆ pushed_requests s;
  tr_selections : identity_selections s' ⊆ identity_selections s;
  tr_challenges : fewer_guesses (otp_challenges s) (otp_challenges s')
}.

#[export] Instance trims_preorder : PreOrder trims.
Proof.
  split; [by intros s; split|].
  intros s1 s2 s3 [] []. split; by etrans.
Qed.

(** The same, with the record of the mails left alone. *)
Record shrinks (s s' : Tables) : Prop := {
  sh_trims : trims s s';
  sh_sends : otp_sends s' = otp_sends s
}.

#[export] Instance shrinks_preorder : PreOrder shrinks.
Proof.
  split; [by intros s; split|].
  intros s1 s2 s3 [] []. split; by etrans.
Qed.

Definition protocol_view (s : Tables) :=
  (auth_codes s, pushed_requests s, identity_selections s, otp_challenges s, otp_sends s).

Lemma shrinks_view s s' : protocol_view s' = protocol_view s -> shrinks s s'.
Proof. intros [= E1 E2 E3 E4 E5]. split; [|done]. split; by rewrite ?E1, ?E2, ?E3, ?E4. Qed.

Lemma delete_batch_subseteq {A} (p : A -> bool) (m : gmap string A) : delete_batch p m ⊆ m.
Proof.
  unfold delete_batch. induction (eligible p m) as [|k l IH]; cbn; [done|].
  etrans; [apply delete_subseteq | exact IH].
Qed.

Lemma delete_key_subseteq {A} k (m : gmap string A) : delete k m ⊆ m.
Proof. apply delete_subseteq. Qed.

Create HintDb shrink.
#[export] Hint Resolve delete_key_subseteq delete_batch_subseteq : shrink.
#[export] Hint Extern 1 (fewer_guesses _ (<[_ := _]> _)) =>
  eapply fewer_guesses_insert; [eassumption | cbn; lia] : shrink.
#[export] Hint Extern 2 (fewer_guesses _ _) => first [reflexivity | apply fewer_guesses_sub] : shrink.

(** A statement, and an operation, under which rows only disappear. *)
Definition shrinking {A} (q : stmt A) : Prop := forall s a s', q s = Some (a, s') -> shrinks s s'.
Definition shrinks_at {B} (op : World -> B * World) (w : World) : Prop :=
  ends op w (fun _ w' => shrinks (w_db w) (w_db w')).

Section ShrinkRules.
Context `{Env} {R : Type}.

Lemma wp_shrink_db {A} (q : stmt A) (onerr : R) w (Q : (R + A) -> World -> Prop) :
  shrinking q -> Q (inl onerr) (count_stmt w) ->
  (forall a s, shrinks (w_db w) s -> Q (inr a) (with_db (count_stmt w) s)) ->
  wp (sql_db q onerr) w Q.
Proof. intros Hq H1 H2. apply wp_sql_db; [done|]. intros a s _ E. apply H2. by eapply Hq. Qed.

Lemma wp_shrink_tx {A} (q : stmt A) (onerr : R) w (Q : (R + A) -> World -> Prop) :
  shrinking q -> Q (inl onerr) (count_stmt w) ->
  (forall a s, shrinks (w_tx w) s -> Q (inr a) (with_tx (count_stmt w) s)) ->
  wp (sql_tx q onerr) w Q.
Proof. intros Hq H1 H2. apply wp_sql_tx; [done|]. intros a s _ E. apply H2. by eapply Hq. Qed.
End ShrinkRules.

Ltac shrink_stmt :=
  let s := fresh "s" in let a := fresh "a" in let s' := fresh "s'" in let H := fresh "H" in
  intros s a s' H;
  unfold select, update, delete_returning, log_send,
    insert_challenge, count_attempt, delete_challenge, renew_challenge in H;
  cbn beta zeta in H;
  repeat match type of H with
  | context [match ?x with _ => _ end] => destruct x eqn:?; try discriminate H
  end;
  injection H as <- <-; (split; [split|]); cbn -[delete_batch delete_first]; auto with shrink.

Ltac by_shrink :=
  unfold shrinks_at;
  repeat (first
    [ lazymatch goal with
      | |- wp (sql_db _ _) _ _ => apply wp_shrink_db; [shrink_stmt | | intros ? ? ?]
      | |- wp (sql_tx _ _) _ _ => apply wp_shrink_tx; [shrink_stmt | | intros ? ? ?]
      end
    | store_step ];
    cbn [w_db w_tx w_cnt count_stmt count_tick count_draw with_cnt with_tx with_db merge] in *);
  first [reflexivity | eassumption | repeat (etrans; [eassumption|]); try eassumption; reflexivity].

Section Shrink.
Context `{Env} `{FlowJSON} `{EmailsJSON}.

Lemma SaveState_shrinks state w : shrinks_at (SaveState state) w.
Proof. unfold SaveState. by_shrink. Qed.
Lemma GetAndDeleteState_shrinks state w : shrinks_at (GetAndDeleteState state) w.
Proof. unfold GetAndDeleteState. by_shrink. Qed.
Lemma PeekState_shrinks state w : shrinks_at (PeekState state) w.
Proof. unfold PeekState. by_shrink. Qed.
Lemma SaveCredential_shrinks c s e l t w : shrinks_at (SaveCredential c s e l t) w.
Proof. unfold SaveCredential. by_shrink. Qed.
Lemma CredentialVerified_shrinks c s e w : shrinks_at (CredentialVerified c s e) w.
Proof. unfold CredentialVerified. by_shrink. Qed.
Lemma PeekAuthCode_shrinks code now w : shrinks_at (PeekAuthCode code now) w.
Proof. unfold PeekAuthCode. by_shrink. Qed.
Lemma GetAndDeleteAuthCode_shrinks code w : shrinks_at (GetAndDeleteAuthCode code) w.
Proof. unfold GetAndDeleteAuthCode. by_shrink. Qed.
Lemma SaveFlowCredential_shrinks a b c d e f t z w : shrinks_at (SaveFlowCredential a b c d e f t z) w.
Proof. unfold SaveFlowCredential. by_shrink. Qed.
Lemma LoadFlowCredential_shrinks a b c t w : shrinks_at (LoadFlowCredential a b c t) w.
Proof. unfold LoadFlowCredential. by_shrink. Qed.
Lemma ConsumePushedRequest_shrinks u c t w : shrinks_at (ConsumePushedRequest u c t) w.
Proof. unfold ConsumePushedRequest. by_shrink. Qed.
Lemma LookupOTPFlow_shrinks a t w : shrinks_at (LookupOTPFlow a t) w.
Proof. unfold LookupOTPFlow. by_shrink. Qed.
Lemma ConsumeOTP_shrinks a c s t w : shrinks_at (ConsumeOTP a c s t) w.
Proof. unfold ConsumeOTP. by_shrink. Qed.
Lemma ListActiveGrants_shrinks e t w : shrinks_at (ListActiveGrants e t) w.
Proof. unfold ListActiveGrants. by_shrink. Qed.
Lemma ConsumeIdentitySelection_shrinks t n w : shrinks_at (ConsumeIdentitySelection t n) w.
Proof. unfold ConsumeIdentitySelection. by_shrink. Qed.
Lemma GenerateStateToken_shrinks w : shrinks_at GenerateStateToken w.
Proof. unfold GenerateStateToken. by_shrink. Qed.
End Shrink.

(** ** The refresh store *)

Lemma atomically_shrinks `{Env} {R} (op : World -> R * World) err_of spec w :
  atomically op err_of spec w -> (forall s, shrinks s (spec s).2) -> shrinks_at op w.
Proof.
  unfold atomically, shrinks_at, ends. intros [(_ & _ & ->)|E] Hs; [reflexivity|].
  specialize (Hs (w_db w)). by rewrite E in Hs.
Qed.

Lemma shrinks_touch sid p f s : shrinks s (touch sid p f s).
Proof. unfold touch. repeat case_match; by apply shrinks_view. Qed.

Ltac spec_shrinks :=
  intros; repeat case_match; cbn [snd]; try reflexivity; by apply shrinks_view.

Lemma rotate_shrinks m r c n s : shrinks s (rotate_spec m r c n s).2.
Proof. unfold rotate_spec. spec_shrinks. Qed.
Lemma claim_shrinks m c n t f s : shrinks s (claim_spec m c n t f s).2.
Proof. unfold claim_spec. spec_shrinks. Qed.
Lemma complete_shrinks m r g c n x a t s : shrinks s (complete_spec m r g c n x a t s).2.
Proof. unfold complete_spec. spec_shrinks. Qed.
Lemma prepare_shrinks m c n s : shrinks s (prepare_spec m c n s).2.
Proof. unfold prepare_spec. spec_shrinks. Qed.
Lemma new_family_shrinks `{Env} o g n x m t s : shrinks s (new_family o g n x m t s).2.
Proof. unfold new_family. cbv zeta. spec_shrinks. Qed.
Lemma revoke_credential_shrinks k c p r n s : shrinks s (revoke_credential_spec k c p r n s).2.
Proof. unfold revoke_credential_spec. spec_shrinks. Qed.
Lemma mark_shrinks i c n s : shrinks s (mark_spec i c n s).2.
Proof. apply shrinks_touch. Qed.
Lemma release_shrinks i c s : shrinks s (release_spec i c s).2.
Proof. apply shrinks_touch. Qed.
Lemma abort_shrinks i c s : shrinks s (abort_spec i c s).2.
Proof. apply shrinks_touch. Qed.
Lemma revoke_grant_shrinks i c r n s : shrinks s (revoke_grant_spec i c r n s).2.
Proof. apply shrinks_touch. Qed.
Lemma revoke_token_shrinks m c r n s : shrinks s (revoke_token_spec m c r n s).2.
Proof. unfold revoke_token_spec. case_match; [apply revoke_grant_shrinks | done]. Qed.

Lemma drop_code_shrinks k s : shrinks s (drop_code k s).
Proof. split; [split|]; cbn; auto with shrink. Qed.

Lemma consume_code_shrinks `{Env} e b g m n s : shrinks s (consume_code_spec e b g m n s).2.
Proof.
  unfold consume_code_spec. repeat case_match; cbn [snd]; try reflexivity; try apply drop_code_shrinks.
  all: match goal with H : new_family ?o ?g ?n ?c ?m ?t ?s0 = _ |- _ =>
     pose proof (new_family_shrinks o g n c m t s0) as Hs; rewrite H in Hs; cbn [snd] in Hs end.
  all: etrans; [apply drop_code_shrinks|]; etrans; [exact Hs|]; by apply shrinks_view.
Qed.

Lemma consume_action_shrinks `{Env} t e i a n s : shrinks s (consume_action_spec t e i a n s).2.
Proof.
  unfold consume_action_spec. cbv zeta. case_match; cbn [snd]; [|done].
  etrans; [apply shrinks_touch|]. by apply shrinks_view.
Qed.

Section ShrinkBatches.
Context `{Env}.

Lemma insert_actions_shrinking batch email action now expiry :
  shrinking (insert_actions batch email action now expiry).
Proof.
  assert (forall batch s s',
    foldl (fun s a => insert_action email action now expiry a s) (Some s) batch = Some s' ->
    shrinks s s') as Hfold.
  { clear. intros batch. induction batch as [|a batch IH]; intros s s'; cbn [foldl].
    - by intros [= <-].
    - destruct (insert_action email action now expiry a (Some s)) as [s1|] eqn:E.
      + intros HF. etrans; [|by apply IH]. unfold insert_action in E. cbn in E. case_match; [done|].
        injection E as <-. by apply shrinks_view.
      + intros HF. exfalso. revert HF. clear. induction batch; cbn; done. }
  intros s a s' HI. unfold insert_actions in HI.
  destruct (foldl _ (Some s) batch) as [s1|] eqn:E; cbn in HI; [|discriminate].
  injection HI as _ <-. by apply Hfold in E.
Qed.

Lemma CreateGrantActions_shrinks actions email action now expiry w :
  shrinks_at (CreateGrantActions actions email action now expiry) w.
Proof.
  unfold shrinks_at, CreateGrantActions. do 2 store_step.
  set (e := to_lower email). generalize (length actions) as n.
  assert (forall n actions w s, shrinks s (w_db w) ->
    wp (create_actions n actions e action now expiry) w
       (fun _ w' => shrinks s (w_db w'))) as HL.
  { clear. intros n. induction n as [|n IH]; intros [|a actions] w s0 Hv; cbn [create_actions]; try done.
    store_step. apply wp_shrink_db; [apply insert_actions_shrinking | done |].
    intros ? s Hs. apply IH. cbn. by etrans. }
  intros n. eapply wp_mono; [by eapply HL|]. cbn. by intros [].
Qed.

Lemma deleteExpiredBatch_trims f s0 w :
  (forall s, trims s (f s)) -> trims s0 (w_db w) ->
  trims s0 (w_db (deleteExpiredBatch f w).2).
Proof.
  intros Hf Hs.
  enough (ends (deleteExpiredBatch f) w (fun _ w' => trims s0 (w_db w'))) by done.
  unfold deleteExpiredBatch. repeat store_step; inv_stmt; cbn; try done. by etrans.
Qed.

Lemma cleanupProtocolState_shrinks now w : shrinks_at (cleanupProtocolState now) w.
Proof.
  unfold shrinks_at, cleanupProtocolState.
  repeat (store_step || lazymatch goal with |- ends (?f _) _ _ => unfold ends end).
  enough (shrinks_at (cleanupPARRequests now) w) by done. unfold cleanupPARRequests. by_shrink.
Qed.

Lemma cleanupExpiredAtContext_trims now w : trims (w_db w) (w_db (cleanupExpiredAtContext now w).2).
Proof.
  enough (ends (cleanupExpiredAtContext now) w (fun _ w' => trims (w_db w) (w_db w'))) by done.
  unfold cleanupExpiredAtContext.
  repeat (store_step || lazymatch goal with |- ends (?f _) _ _ => unfold ends end).
  do 8 (apply deleteExpiredBatch_trims; [intros s; split; cbn -[delete_batch delete_first]; auto with shrink|]).
  reflexivity.
Qed.
End ShrinkBatches.

Lemma call_shrinks {B} (op : World -> B * World) w : shrinks_at op w -> shrinks (w_db w) (w_db (op w).2).
Proof. done. Qed.

#[export] Hint Resolve GenerateStateToken_shrinks SaveState_shrinks GetAndDeleteState_shrinks
  PeekState_shrinks SaveCredential_shrinks CredentialVerified_shrinks PeekAuthCode_shrinks
  GetAndDeleteAuthCode_shrinks SaveFlowCredential_shrinks LoadFlowCredential_shrinks
  ConsumePushedRequest_shrinks LookupOTPFlow_shrinks ConsumeOTP_shrinks ListActiveGrants_shrinks
  ConsumeIdentitySelection_shrinks CreateGrantActions_shrinks cleanupProtocolState_shrinks
  : store.
#[export] Hint Resolve rotate_shrinks claim_shrinks complete_shrinks prepare_shrinks new_family_shrinks
  revoke_credential_shrinks mark_shrinks release_shrinks abort_shrinks revoke_grant_shrinks
  revoke_token_shrinks consume_code_shrinks consume_action_shrinks : store.

(** ** Where rows come from *)

(** The operations that store a protocol row. *)
Inductive storing (w : World) : World -> Prop :=
  | storing_code `{Env} code : storing w (SaveAuthCode code w).2
  | storing_pushed `{Env} p : storing w (SavePushedRequest p w).2
  | storing_selection `{Env} `{EmailsJSON} t s c u l a b :
      storing w (CreateIdentitySelection t s c u l a b w).2
  | storing_otp `{Env} `{FlowJSON} a b c f s t d : storing w (CreateOTP a b c f s t d w).2
  | storing_resend `{Env} `{FlowJSON} a c s t d : storing w (ResendOTP a c s t d w).2.

(** The operation that forgets mails. *)
Definition cleaning (w w' : World) : Prop := exists (E : Env) now, w' = (@cleanupExpiredAtContext E now w).2.

Lemma store_call_shrinks w w' :
  store_call w w' -> shrinks (w_db w) (w_db w') \/ storing w w' \/ cleaning w w'.
Proof.
  destruct 1 as [w0 E| | | | | | | | | | | | | | | | | | | | | | | | | | | | | | | | | | | |].
  { left. by rewrite E. }
  all: try (right; left; constructor; fail).
  all: try (right; right; by do 2 eexists).
  all: left.
  all: try (apply call_shrinks; solve [auto with store]).
  all: apply call_shrinks; eapply atomically_shrinks; [solve [auto with store]|]; intros;
    solve [auto with store].
Qed.

Lemma store_call_trims w w' : store_call w w' -> trims (w_db w) (w_db w') \/ storing w w'.
Proof.
  intros [[? _]|[?|(E & now & ->)]]%store_call_shrinks; [by left|by right|left].
  apply cleanupExpiredAtContext_trims.
Qed.

Section Storing.
Context `{Env} `{FlowJSON} `{EmailsJSON}.

Lemma SavePushedRequest_codes p w : keeps_at auth_codes (SavePushedRequest p) w.
Proof. unfold SavePushedRequest. by_keep. Qed.
Lemma CreateIdentitySelection_codes t s c u l a b w :
  keeps_at auth_codes (CreateIdentitySelection t s c u l a b) w.
Proof. unfold CreateIdentitySelection. by_keep. Qed.
Lemma CreateOTP_codes a b c f s t d w : keeps_at auth_codes (CreateOTP a b c f s t d) w.
Proof. unfold CreateOTP. by_keep. Qed.
Lemma ResendOTP_codes a c s t d w : keeps_at auth_codes (ResendOTP a c s t d) w.
Proof. unfold ResendOTP. by_keep. Qed.

Lemma SaveAuthCode_pushed code w : keeps_at pushed_requests (SaveAuthCode code) w.
Proof. unfold SaveAuthCode. by_keep. Qed.
Lemma CreateIdentitySelection_pushed t s c u l a b w :
  keeps_at pushed_requests (CreateIdentitySelection t s c u l a b) w.
Proof. unfold CreateIdentitySelection. by_keep. Qed.
Lemma CreateOTP_pushed a b c f s t d w : keeps_at pushed_requests (CreateOTP a b c f s t d) w.
Proof. unfold CreateOTP. by_keep. Qed.
Lemma ResendOTP_pushed a c s t d w : keeps_at pushed_requests (ResendOTP a c s t d) w.
Proof. unfold ResendOTP. by_keep. Qed.

(** The two insertions. *)
Lemma SaveAuthCode_effect code w :
  auth_codes (w_db (SaveAuthCode code w).2) = auth_codes (w_db w) \/
  auth_codes (w_db w) !! Code.Code code = None /\
  auth_codes (w_db (SaveAuthCode code w).2) = <[Code.Code code := code]> (auth_codes (w_db w)).
Proof.
  enough (ends (SaveAuthCode code) w (fun _ w' => auth_codes (w_db w') = auth_codes (w_db w) \/
    auth_codes (w_db w) !! Code.Code code = None /\
    auth_codes (w_db w') = <[Code.Code code := code]> (auth_codes (w_db w)))) by done.
  unfold SaveAuthCode. repeat store_step; cbn in *; auto.
  case_match; [done|]. simplify_eq. right. split; [by apply is_some_false | done].
Qed.

Lemma SavePushedRequest_effect p w :
  pushed_requests (w_db (SavePushedRequest p w).2) = pushed_requests (w_db w) \/
  pushed_requests (w_db w) !! Pushed.RequestURI p = None /\
  pushed_requests (w_db (SavePushedRequest p w).2) =
    <[Pushed.RequestURI p := p]> (pushed_requests (w_db w)).
Proof.
  enough (ends (SavePushedRequest p) w (fun _ w' => pushed_requests (w_db w') = pushed_requests (w_db w) \/
    pushed_requests (w_db w) !! Pushed.RequestURI p = None /\
    pushed_requests (w_db w') = <[Pushed.RequestURI p := p]> (pushed_requests (w_db w)))) by done.
  unfold SavePushedRequest. repeat store_step; cbn in *; auto.
  case_match; [done|]. simplify_eq. right. split; [by apply is_some_false | done].
Qed.
End Storing.

(** [k] is being stored: the call is the one operation that can store it, with a row
    of that key. *)
Definition stores_code (k : string) (w w' : World) : Prop :=
  exists (E : Env) code, Code.Code code = k /\ w' = (@SaveAuthCode E code w).2.
Definition stores_pushed (k : string) (w w' : World) : Prop :=
  exists (E : Env) p, Pushed.RequestURI p = k /\ w' = (@SavePushedRequest E p w).2.

Lemma code_provenance w w' k c :
  store_call w w' -> auth_codes (w_db w') !! k = Some c ->
  auth_codes (w_db w) !! k = Some c \/ stores_code k w w'.
Proof.
  intros Hc. apply store_call_trims in Hc as [Hs|[E code|E p|E J t s c' u l a b|E J a b d f s t x|E J a d s t x]]; intros Hk.
  - left. eapply lookup_weaken; [exact Hk | apply Hs].
  - destruct (@SaveAuthCode_effect E code w) as [He|[_ He]]; rewrite He in Hk; [by left|].
    apply lookup_insert_Some in Hk as [[Hkey _]|[_ ?]]; [right | by left]. by exists E, code.
  - left. by rewrite (@SavePushedRequest_codes E p w) in Hk.
  - left. by rewrite (@CreateIdentitySelection_codes E J t s c' u l a b w) in Hk.
  - left. by rewrite (@CreateOTP_codes E J a b d f s t x w) in Hk.
  - left. by rewrite (@ResendOTP_codes E J a d s t x w) in Hk.
Qed.

Lemma pushed_provenance w w' k p :
  store_call w w' -> pushed_requests (w_db w') !! k = Some p ->
  pushed_requests (w_db w) !! k = Some p \/ stores_pushed k w w'.
Proof.
  intros Hc. apply store_call_trims in Hc as [Hs|[E code|E p'|E J t s c' u l a b|E J a b d f s t x|E J a d s t x]]; intros Hk.
  - left. eapply lookup_weaken; [exact Hk | apply Hs].
  - left. by rewrite (@SaveAuthCode_pushed E code w) in Hk.
  - destruct (@SavePushedRequest_effect E p' w) as [He|[_ He]]; rewrite He in Hk; [by left|].
    apply lookup_insert_Some in Hk as [[Hkey _]|[_ ?]]; [right | by left]. by exists E, p'.
  - left. by rewrite (@CreateIdentitySelection_pushed E J t s c' u l a b w) in Hk.
  - left. by rewrite (@CreateOTP_pushed E J a b d f s t x w) in Hk.
  - left. by rewrite (@ResendOTP_pushed E J a d s t x w) in Hk.
Qed.

(** A key that is gone stays gone until it is stored again. *)
Definition without (stores : World -> World -> Prop) (w w' : World) : Prop :=
  store_call w w' /\ ~ stores w w'.

Lemma code_stays_gone k w w' :
  rtc (without (stores_code k)) w w' -> auth_codes (w_db w) !! k = None ->
  auth_codes (w_db w') !! k = None.
Proof.
  induction 1 as [|w w1 w' [Hc Hn] _ IH]; [done|]. intros Hk. apply IH.
  destruct (auth_codes (w_db w1) !! k) as [c|] eqn:E; [|done].
  destruct (code_provenance _ _ _ _ Hc E); congruence.
Qed.

Lemma pushed_stays_gone k w w' :
  rtc (without (stores_pushed k)) w w' -> pushed_requests (w_db w) !! k = None ->
  pushed_requests (w_db w') !! k = None.
Proof.
  induction 1 as [|w w1 w' [Hc Hn] _ IH]; [done|]. intros Hk. apply IH.
  destruct (pushed_requests (w_db w1) !! k) as [c|] eqn:E; [|done].
  destruct (pushed_provenance _ _ _ _ Hc E); congruence.
Qed.
