(* ===== verification/OtpSafety.v ===== *)
(** * The contract of the one-time codes

    What the three transactions on a challenge do to the tables, their atomic
    implementation, and the bounds that make an eight-digit code acceptable: a bounded
    number of guesses per code issued and of codes issued per address and hour. *)

From S2P Require Import Prelude Runtime Sha256 ReplayCache Schema RefreshStore OtpStore RefreshSpec FlowStore GrantStore StoreSafety FlowSafety.

(** ** Contracts *)

Section Specs.
Context `{Env} `{FlowJSON}.

(** The challenge still answers. *)
Definition answering (now : time) (o : OTPRow) : bool :=
  (now <? o_expires_at o) && (o_attempts o <? attempt_limit).

Definition consume_otp_spec (id code secret : string) (now : time) (s : Tables)
  : (Flow.OTPFlow * option error) * Tables :=
  let fail e s := ((zero_flow, Some e), s) in
  match otp_challenges s !! id with
  | None => fail ErrInvalidOTPChallenge s
  | Some o =>
      if negb (answering now o) then fail ErrInvalidOTPChallenge s
      else if negb (o_code_hmac o =? otpMAC secret id code)%string
           then fail (if attempt_limit <=? o_attempts o + 1 then ErrInvalidOTPChallenge
                      else ErrInvalidOTPCode)
                  (put_challenge id (o <| o_attempts := o_attempts o + 1 |>) s)
      else match flow_unmarshal (o_context o) with
           | None => fail (Wrapped "decode OTP flow" (Errorf "json")) s
           | Some flow => ((flow, None), drop_challenge id s)
           end
  end.

Definition add_send (email : string) (now : time) (s : Tables) : Tables :=
  s <| otp_sends := otp_sends s ++ [(email, now)] |>.

Definition create_otp_spec (id email code : string) (flow : Flow.OTPFlow) (secret : string)
    (now : time) (ttl : duration) (s : Tables) : (time * option error) * Tables :=
  let email := to_lower email in
  match flow_marshal flow with
  | None => ((zero_time, Some (Wrapped "encode OTP flow" (Errorf "json"))), s)
  | Some context =>
      if send_limit <=? count_sends email (add now (- hour)) s then ((zero_time, Some ErrOTPSendLimit), s)
      else if is_some (otp_challenges s !! id) then ((zero_time, Some ErrSQL), s)
      else ((add now ttl, None),
            add_send email now
              (put_challenge id {| o_email := email; o_code_hmac := otpMAC secret id code;
                                   o_context := context; o_attempts := 0; o_sends := 1;
                                   o_created_at := now; o_sent_at := now;
                                   o_expires_at := add now ttl |} s))
  end.

Definition resend_otp_spec (id code secret : string) (now : time) (ttl : duration) (s : Tables)
  : (Flow.OTPFlow * time * option error) * Tables :=
  match otp_challenges s !! id with
  | None => ((zero_flow, zero_time, Some (OTPResendError 0)), s)
  | Some o =>
      match flow_unmarshal (o_context o) with
      | None => ((zero_flow, zero_time, Some (Wrapped "decode OTP flow" (Errorf "json"))), s)
      | Some flow =>
          if negb (before now (o_expires_at o)) then ((flow, zero_time, Some (OTPResendError 0)), s)
          else if 0 <? sub (add (o_sent_at o) minute) now
               then ((flow, zero_time, Some (OTPResendError (sub (add (o_sent_at o) minute) now))), s)
          else if send_limit <=? count_sends (o_email o) (add now (- hour)) s
               then ((flow, zero_time,
                      Some (OTPResendError
                              (sub (add (default 0 (oldest_send (o_email o) (add now (- hour)) s)) hour) now))), s)
          else ((flow, add now ttl, None),
                add_send (o_email o) now
                  (put_challenge id (renewed (otpMAC secret id code) now (add now ttl) o) s))
      end
  end.

(** *** The statements, on a known row *)

Lemma count_attempt_known id o s :
  otp_challenges s !! id = Some o ->
  count_attempt id (o_attempts o) s =
    Some (1, put_challenge id (o <| o_attempts := o_attempts o + 1 |>) s).
Proof. intros Ho. unfold count_attempt. by rewrite Ho, Z.eqb_refl. Qed.

Lemma delete_challenge_known id o s :
  otp_challenges s !! id = Some o ->
  delete_challenge id (o_attempts o) s = Some (1, drop_challenge id s).
Proof. intros Ho. unfold delete_challenge. by rewrite Ho, Z.eqb_refl. Qed.

Lemma renew_challenge_known id mac now expires o s :
  otp_challenges s !! id = Some o -> (now <? o_expires_at o) = true ->
  renew_challenge id mac (o_sent_at o) now expires s =
    Some (1, put_challenge id (renewed mac now expires o) s).
Proof. intros Ho Hlt. unfold renew_challenge. by rewrite Ho, Z.eqb_refl, Hlt. Qed.

Lemma insert_challenge_inv id o s a s' :
  insert_challenge id o s = Some (a, s') ->
  is_some (otp_challenges s !! id) = false /\ s' = put_challenge id o s.
Proof. unfold insert_challenge. case_match; [done|]. by intros [= _ <-]. Qed.

Lemma insert_challenge_none id o s :
  insert_challenge id o s = None -> is_some (otp_challenges s !! id) = true.
Proof. unfold insert_challenge. by case_match. Qed.

Lemma log_send_inv email now s a s' : log_send email now s = Some (a, s') -> s' = add_send email now s.
Proof. by intros [= _ <-]. Qed.

Lemma count_sends_put id o email since s :
  count_sends email since (put_challenge id o s) = count_sends email since s.
Proof. done. Qed.

Lemma limit_has_oldest email since s :
  (send_limit <=? count_sends email since s) = true -> is_Some (oldest_send email since s).
Proof.
  unfold count_sends, oldest_send, send_limit. destruct (recent_sends email since s); [discriminate | by eexists].
Qed.
End Specs.

(** Symbolic execution of an OTP transaction. *)
Ltac known_challenge :=
  repeat match goal with
  | H : _ \/ select _ _ = None |- _ => destruct H as [H|H]; [|discriminate H]
  | H : _ \/ log_send _ _ _ = None |- _ => destruct H as [H|H]; [|discriminate H]
  | H : select _ _ = Some (_, _) |- _ =>
      let E := fresh "E" in apply select_inv in H as [E ->]; symmetry in E; subst
  | H : log_send _ _ _ = Some (_, _) |- _ => apply log_send_inv in H as ->
  | H : insert_challenge _ _ _ = Some (_, _) |- _ => apply insert_challenge_inv in H as [? ->]
  | H : _ \/ insert_challenge _ _ _ = None |- _ => destruct H as [H|H%insert_challenge_none]
  | Ho : otp_challenges ?s !! ?id = Some ?o, H : context [count_attempt ?id (o_attempts ?o) ?s] |- _ =>
      rewrite (count_attempt_known _ _ _ Ho) in H
  | Ho : otp_challenges ?s !! ?id = Some ?o, H : context [delete_challenge ?id (o_attempts ?o) ?s] |- _ =>
      rewrite (delete_challenge_known _ _ _ Ho) in H
  | Ho : otp_challenges ?s !! ?id = Some ?o, Hn : negb (before ?now (o_expires_at ?o)) = false,
    H : context [renew_challenge ?id ?mac (o_sent_at ?o) ?now ?x ?s] |- _ =>
      rewrite (renew_challenge_known id mac now x o s Ho (proj1 (negb_false_iff _) Hn)) in H
  | H : _ \/ Some _ = None |- _ => destruct H as [H|H]; [|discriminate H]
  | H : Some (_, _) = Some (_, _) |- _ => injection H as <- <-
  | H : negb (1 =? 1) = true |- _ => discriminate H
  | H : negb (1 =? 1) = false |- _ => clear H
  | H : faulty _ = false |- _ => clear H
  end.

Ltac run_otp :=
  repeat (store_step;
    cbn [w_db w_tx w_cnt c_stmt c_tick c_draw count_stmt with_cnt with_tx with_db merge] in *;
    known_challenge).

Lemma negb_answering now o :
  negb (answering now o) = negb (before now (o_expires_at o)) || (attempt_limit <=? o_attempts o).
Proof. unfold answering, before. by rewrite negb_andb, (Z.ltb_antisym attempt_limit), negb_involutive. Qed.

(** A transaction on a challenge implements its contract. *)
Tactic Notation "by_otp" reference(spec) :=
  unfold atomically; run_otp; try by_fault; right; unfold spec; cbv zeta;
  follow_branches; rewrite ?negb_answering; follow_branches; try done.

Section Atomic.
Context `{Env} `{FlowJSON}.

Lemma ConsumeOTP_atomic id code secret now w :
  atomically (ConsumeOTP id code secret now) snd (consume_otp_spec id code secret now) w.
Proof. unfold ConsumeOTP. by_otp consume_otp_spec. Qed.

Lemma CreateOTP_atomic id email code flow secret now ttl w :
  atomically (CreateOTP id email code flow secret now ttl) snd
    (create_otp_spec id email code flow secret now ttl) w.
Proof. unfold CreateOTP. by_otp create_otp_spec. Qed.

Lemma ResendOTP_atomic id code secret now ttl w :
  atomically (ResendOTP id code secret now ttl) snd (resend_otp_spec id code secret now ttl) w.
Proof.
  unfold ResendOTP. by_otp resend_otp_spec.
  - by rewrite Heqo1.
  - destruct (limit_has_oldest (o_email o) (add now (- hour)) (w_db w)) as [? ?]; [done | congruence].
Qed.
End Atomic.

(** The branches of a contract that a call followed, with its result and its tables. *)
Tactic Notation "split_spec" hyp(E) "as" ident(Er) ident(Ew) :=
  repeat match type of E with context [match ?x with _ => _ end] => destruct x eqn:? end;
  pose proof (f_equal fst E) as Er; pose proof (f_equal snd E) as Ew; cbn [fst snd] in Er, Ew.

(** ** Each code issued answers a bounded number of guesses *)

Section Guesses.
Context `{Env} `{FlowJSON}.

(** The result of a guess at [now] tells whether it was right: the challenge still answered
    before, and the guess was accepted or refused (the last of five wrong ones is refused as
    the guesses at a challenge that no longer answers are). *)
Definition answered (id : string) (now : time) (s : Tables) (r : Flow.OTPFlow * option error) : bool :=
  match otp_challenges s !! id with
  | Some o => answering now o &&
              match r.2 with
              | None | Some ErrInvalidOTPCode | Some ErrInvalidOTPChallenge => true
              | _ => false
              end
  | None => false
  end.

(** The guesses a challenge still answers. *)
Definition guesses_left (id : string) (s : Tables) : Z :=
  match otp_challenges s !! id with
  | Some o => Z.max 0 (attempt_limit - o_attempts o)
  | None => 0
  end.

Lemma guesses_left_fewer id s s' :
  fewer_guesses (otp_challenges s) (otp_challenges s') -> guesses_left id s' <= guesses_left id s.
Proof.
  intros Hf. unfold guesses_left. destruct (otp_challenges s' !! id) as [o'|] eqn:E.
  - destruct (Hf _ _ E) as (o & -> & ?). lia.
  - case_match; lia.
Qed.

Lemma consume_otp_spec_left id code secret now s r s' :
  consume_otp_spec id code secret now s = (r, s') ->
  guesses_left id s' + (if answered id now s r then 1 else 0) <= guesses_left id s.
Proof.
  unfold consume_otp_spec, guesses_left, answered.
  destruct (otp_challenges s !! id) as [o|] eqn:Ho; [|intros [= <- <-]; rewrite Ho; done].
  destruct (answering now o) eqn:Ha; cbn [negb].
  - assert (o_attempts o < attempt_limit) as Hlt
      by (unfold answering in Ha; apply andb_true_iff in Ha as [_ ?]; lia).
    destruct (String.eqb _ _); cbn [negb].
    + destruct (flow_unmarshal (o_context o)).
      * intros [= <- <-]. cbn -[Z.max Z.add Z.sub attempt_limit]. rewrite lookup_delete_eq. lia.
      * intros [= <- <-]. rewrite Ho. cbn -[Z.max Z.add Z.sub attempt_limit]. lia.
    + intros [= <- <-]. cbn -[Z.max Z.add Z.sub attempt_limit]. rewrite lookup_insert_eq.
      cbn [o_attempts]. repeat case_match; lia.
  - intros [= <- <-]. rewrite Ho. cbn -[Z.max Z.add Z.sub attempt_limit]. lia.
Qed.

Lemma ConsumeOTP_left id code secret now w :
  guesses_left id (w_db (ConsumeOTP id code secret now w).2)
  + (if answered id now (w_db w) (ConsumeOTP id code secret now w).1 then 1 else 0)
  <= guesses_left id (w_db w).
Proof.
  destruct (ConsumeOTP_atomic id code secret now w) as [(_ & He & ->)|E].
  - destruct (ConsumeOTP id code secret now w) as [[f err] w']. unfold answered. cbn in *.
    destruct (otp_challenges (w_db w) !! id) as [o|]; [|lia]. destruct (answering now o); [|cbn; lia].
    destruct err as [[]|]; cbn in *; try done; lia.
  - by apply consume_otp_spec_left in E.
Qed.

(** A send that fails leaves the challenges alone; one that does not concerns one of them. *)
Lemma CreateOTP_left id id' email code flow secret now ttl w :
  let r := CreateOTP id email code flow secret now ttl w in
  if is_nil r.1.2 then (if decide (id = id') then guesses_left id' (w_db r.2) <= attempt_limit
                        else guesses_left id' (w_db r.2) = guesses_left id' (w_db w))
  else w_db r.2 = w_db w.
Proof.
  cbv zeta. destruct (CreateOTP_atomic id email code flow secret now ttl w) as [(_ & He & ->)|E].
  - by destruct (CreateOTP _ _ _ _ _ _ _ w) as [[x [e|]] w'].
  - unfold create_otp_spec in E. split_spec E as Er Ew;
      rewrite <- Er, <- Ew; cbn [fst snd is_nil]; try done; case_decide; subst; unfold guesses_left; cbn;
      rewrite ?lookup_insert_eq, ?lookup_insert_ne by done; cbn; done.
Qed.

Lemma ResendOTP_left id id' code secret now ttl w :
  let r := ResendOTP id code secret now ttl w in
  if is_nil r.1.2 then (if decide (id = id') then guesses_left id' (w_db r.2) <= attempt_limit
                        else guesses_left id' (w_db r.2) = guesses_left id' (w_db w))
  else w_db r.2 = w_db w.
Proof.
  cbv zeta. destruct (ResendOTP_atomic id code secret now ttl w) as [(_ & He & ->)|E].
  - by destruct (ResendOTP _ _ _ _ _ w) as [[x [e|]] w'].
  - unfold resend_otp_spec in E. split_spec E as Er Ew;
      rewrite <- Er, <- Ew; cbn [fst snd is_nil]; try done; case_decide; subst; unfold guesses_left; cbn;
      rewrite ?lookup_insert_eq, ?lookup_insert_ne by done; cbn; done.
Qed.
End Guesses.

(** The store calls that issue a code for a challenge or guess at it. *)
Inductive on_challenge (id : string) (w : World) : World -> Prop :=
  | on_create `{Env} `{FlowJSON} email code flow secret now ttl :
      on_challenge id w (CreateOTP id email code flow secret now ttl w).2
  | on_resend `{Env} `{FlowJSON} code secret now ttl :
      on_challenge id w (ResendOTP id code secret now ttl w).2
  | on_guess `{Env} `{FlowJSON} code secret now :
      on_challenge id w (ConsumeOTP id code secret now w).2.

(** A history of the store that counts, for each code issued for the challenge [id], the
    guesses at it that were answered; the code issued last comes first. *)
Inductive guess_step (id : string) : list Z * World -> list Z * World -> Prop :=
  | step_issue `{Env} `{FlowJSON} email code flow secret now ttl w counts :
      let r := CreateOTP id email code flow secret now ttl w in
      guess_step id (counts, w) (if is_nil r.1.2 then 0 :: counts else counts, r.2)
  | step_reissue `{Env} `{FlowJSON} code secret now ttl w counts :
      let r := ResendOTP id code secret now ttl w in
      guess_step id (counts, w) (if is_nil r.1.2 then 0 :: counts else counts, r.2)
  | step_guess `{Env} `{FlowJSON} code secret now w counts :
      let r := ConsumeOTP id code secret now w in
      guess_step id (counts, w)
        (if answered id now (w_db w) r.1 then match counts with [] => [1] | n :: l => n + 1 :: l end else counts, r.2)
  | step_elsewhere w w' counts :
      store_call w w' -> ~ on_challenge id w w' -> guess_step id (counts, w) (counts, w').

Definition guesses_ok (id : string) (x : list Z * World) : Prop :=
  match x.1 with
  | [] => guesses_left id (w_db x.2) <= 0
  | n :: l => n + guesses_left id (w_db x.2) <= attempt_limit /\ Forall (fun n => n <= attempt_limit) l
  end.

Lemma guesses_left_nonneg id s : 0 <= guesses_left id s.
Proof. unfold guesses_left. case_match; lia. Qed.

Lemma guesses_ok_all id x : guesses_ok id x -> Forall (fun n => n <= attempt_limit) x.1.
Proof.
  unfold guesses_ok. destruct x as [[|n l] w]; cbn; [by constructor|]. intros [Hn Hl]. constructor; [|done].
  pose proof (guesses_left_nonneg id (w_db w)). lia.
Qed.

Lemma guesses_ok_issued id counts w w' :
  guesses_ok id (counts, w) -> guesses_left id (w_db w') <= attempt_limit -> guesses_ok id (0 :: counts, w').
Proof. intros Hx%guesses_ok_all Hl. split; [cbn; lia|done]. Qed.

Lemma guesses_ok_fewer id counts w w' :
  guesses_left id (w_db w') <= guesses_left id (w_db w) -> guesses_ok id (counts, w) -> guesses_ok id (counts, w').
Proof. unfold guesses_ok. intros Hl. destruct counts; cbn; [lia|]. intros [? ?]. split; [lia|done]. Qed.

Section Elsewhere.
Context `{Env} `{EmailsJSON}.

Lemma SaveAuthCode_challenges code w : keeps_at otp_challenges (SaveAuthCode code) w.
Proof. unfold SaveAuthCode. by_keep. Qed.
Lemma SavePushedRequest_challenges p w : keeps_at otp_challenges (SavePushedRequest p) w.
Proof. unfold SavePushedRequest. by_keep. Qed.
Lemma CreateIdentitySelection_challenges t s c u l a b w :
  keeps_at otp_challenges (CreateIdentitySelection t s c u l a b) w.
Proof. unfold CreateIdentitySelection. by_keep. Qed.

Lemma SaveAuthCode_sends code w : keeps_at otp_sends (SaveAuthCode code) w.
Proof. unfold SaveAuthCode. by_keep. Qed.
Lemma SavePushedRequest_sends p w : keeps_at otp_sends (SavePushedRequest p) w.
Proof. unfold SavePushedRequest. by_keep. Qed.
Lemma CreateIdentitySelection_sends t s c u l a b w :
  keeps_at otp_sends (CreateIdentitySelection t s c u l a b) w.
Proof. unfold CreateIdentitySelection. by_keep. Qed.
End Elsewhere.

(** A call that neither issues a code for the challenge nor guesses at it. *)
Lemma elsewhere_left id w w' :
  store_call w w' -> ~ on_challenge id w w' -> guesses_left id (w_db w') <= guesses_left id (w_db w).
Proof.
  assert (forall s s', otp_challenges s' = otp_challenges s -> guesses_left id s' <= guesses_left id s) as Hsame.
  { intros s s' E. apply guesses_left_fewer. by rewrite E. }
  intros Hc. apply store_call_trims in Hc
    as [Hs|[E code|E p'|E J t' s c' u l a b|E J a b d f s n x|E J a d s n x]]; intros Hn.
  - apply guesses_left_fewer, Hs.
  - apply Hsame, (SaveAuthCode_challenges code w).
  - apply Hsame, (SavePushedRequest_challenges p' w).
  - apply Hsame, (CreateIdentitySelection_challenges t' s c' u l a b w).
  - pose proof (CreateOTP_left a id b d f s n x w) as Hl. cbv zeta in Hl. case_match; [case_decide|].
    + subst. destruct Hn. apply on_create.
    + lia.
    + apply Hsame. by rewrite Hl.
  - pose proof (ResendOTP_left a id d s n x w) as Hl. cbv zeta in Hl. case_match; [case_decide|].
    + subst. destruct Hn. apply on_resend.
    + lia.
    + apply Hsame. by rewrite Hl.
Qed.

Lemma guess_step_ok id x y : guess_step id x y -> guesses_ok id x -> guesses_ok id y.
Proof.
  destruct 1 as [E J email code flow secret now ttl w counts r|E J code secret now ttl w counts r
                |E J code secret now w counts r|w w' counts Hc Hn]; intros Hx.
  - pose proof (CreateOTP_left id id email code flow secret now ttl w) as Hl. cbv zeta in Hl. fold r in Hl.
    destruct (is_nil r.1.2); [rewrite decide_True in Hl by done; by eapply guesses_ok_issued|].
    eapply guesses_ok_fewer; [|exact Hx]. by rewrite Hl.
  - pose proof (ResendOTP_left id id code secret now ttl w) as Hl. cbv zeta in Hl. fold r in Hl.
    destruct (is_nil r.1.2); [rewrite decide_True in Hl by done; by eapply guesses_ok_issued|].
    eapply guesses_ok_fewer; [|exact Hx]. by rewrite Hl.
  - pose proof (ConsumeOTP_left id code secret now w) as Hl. fold r in Hl.
    unfold guesses_ok in *. destruct counts as [|n l], (answered id now (w_db w) r.1); cbn [fst snd] in *;
      pose proof (guesses_left_nonneg id (w_db r.2)); try lia; destruct Hx; split; [lia|done|lia|done].
  - eapply guesses_ok_fewer; [|exact Hx]. by apply elsewhere_left.
Qed.

(** ** Codes issued per address and hour *)

(** The codes issued for [email] in the hour that ends at [u]. *)
Definition window (email : string) (u : time) (l : list (string * time)) : list (string * time) :=
  filter (fun x => x.1 = email /\ u - hour < x.2 /\ x.2 <= u) l.

Definition sent_since (email : string) (since : time) (l : list (string * time)) : list (string * time) :=
  filter (fun x => x.1 = email /\ since < x.2) l.

(** The two operations that record a mail. *)
Inductive sending (w : World) : World -> Prop :=
  | sending_create `{Env} `{FlowJSON} id email code flow secret now ttl :
      sending w (CreateOTP id email code flow secret now ttl w).2
  | sending_resend `{Env} `{FlowJSON} id code secret now ttl :
      sending w (ResendOTP id code secret now ttl w).2.

(** A history with the codes it issued, the latest last, and the time of the last issue or
    cleanup, which does not go back. *)
Record Mailing := { issued_codes : list (string * time); last_time : time; mailing_world : World }.

Inductive mail_step : Mailing -> Mailing -> Prop :=
  | mail_create `{Env} `{FlowJSON} id email code flow secret now ttl l t w :
      t <= now ->
      let r := CreateOTP id email code flow secret now ttl w in
      mail_step {| issued_codes := l; last_time := t; mailing_world := w |}
        {| issued_codes := if is_nil r.1.2 then l ++ [(to_lower email, now)] else l;
           last_time := now; mailing_world := r.2 |}
  | mail_resend `{Env} `{FlowJSON} id code secret now ttl l t w :
      t <= now ->
      let r := ResendOTP id code secret now ttl w in
      mail_step {| issued_codes := l; last_time := t; mailing_world := w |}
        {| issued_codes := match otp_challenges (w_db w) !! id with
                           | Some o => if is_nil r.1.2 then l ++ [(o_email o, now)] else l
                           | None => l
                           end;
           last_time := now; mailing_world := r.2 |}
  | mail_cleanup `{Env} now l t w :
      t <= now ->
      mail_step {| issued_codes := l; last_time := t; mailing_world := w |}
        {| issued_codes := l; last_time := now; mailing_world := (cleanupExpiredAtContext now w).2 |}
  | mail_other l t w w' :
      store_call w w' -> ~ sending w w' -> ~ cleaning w w' ->
      mail_step {| issued_codes := l; last_time := t; mailing_world := w |}
        {| issued_codes := l; last_time := t; mailing_world := w' |}.

(** The table tells the issues of the last hour, no hour has seen more than the limit, and
    nothing was issued after the last time. *)
Record quota_ok (m : Mailing) : Prop := {
  q_past : Forall (fun x => x.2 <= last_time m) (issued_codes m);
  q_known : forall email since, last_time m - hour <= since ->
    sent_since email since (otp_sends (w_db (mailing_world m))) = sent_since email since (issued_codes m);
  q_limit : forall email u, Z.of_nat (length (window email u (issued_codes m))) <= send_limit
}.

Lemma length_filter_impl {A} (P Q : A -> Prop) `{!forall x, Decision (P x), !forall x, Decision (Q x)} l :
  (forall x, P x -> Q x) -> (length (filter P l) <= length (filter Q l))%nat.
Proof.
  intros HPQ. induction l as [|x l IH]; [done|]. rewrite !filter_cons.
  repeat case_decide; cbn; try lia. exfalso; auto.
Qed.

Lemma quota_ok_later now w l t w' :
  t <= now -> quota_ok {| issued_codes := l; last_time := t; mailing_world := w |} ->
  (forall email since, now - hour <= since ->
     sent_since email since (otp_sends (w_db w')) = sent_since email since (otp_sends (w_db w))) ->
  quota_ok {| issued_codes := l; last_time := now; mailing_world := w' |}.
Proof.
  intros Hle [Hp Hk Hq] Hs. split; cbn in *; [|intros email since Hsince|done].
  - eapply Forall_impl; [exact Hp|]. cbn. lia.
  - rewrite Hs by done. apply Hk. lia.
Qed.

Lemma quota_ok_send now email w l t w' :
  t <= now -> quota_ok {| issued_codes := l; last_time := t; mailing_world := w |} ->
  count_sends email (add now (- hour)) (w_db w) < send_limit ->
  otp_sends (w_db w') = otp_sends (w_db w) ++ [(email, now)] ->
  quota_ok {| issued_codes := l ++ [(email, now)]; last_time := now; mailing_world := w' |}.
Proof.
  intros Hle [Hp Hk Hq] Hlt E. cbn in *. split; cbn.
  - rewrite Forall_app. split; [|by repeat constructor]. eapply Forall_impl; [exact Hp|]. cbn. lia.
  - intros email' since Hsince. rewrite E. unfold sent_since. rewrite !filter_app.
    f_equal. apply Hk. lia.
  - intros email' u. unfold window. rewrite filter_app, length_app, filter_cons, filter_nil.
    specialize (Hq email' u). unfold window in Hq.
    case_decide as Hd; cbn; [|lia]. destruct Hd as (<- & Hlo & Hhi). cbn in *.
    unfold count_sends, recent_sends, add in Hlt.
    specialize (Hk email (now + - hour) ltac:(lia)). unfold sent_since in Hk. rewrite Hk in Hlt.
    pose proof (length_filter_impl (fun x : string * time => x.1 = email /\ u - hour < x.2 /\ x.2 <= u)
      (fun x => x.1 = email /\ now + - hour < x.2) l) as Hlen.
    specialize (Hlen ltac:(intros x (? & ? & _); split; [done | lia])).
    unfold send_limit in *. lia.
Qed.

(** Every other call leaves the record of the mails alone. *)
Lemma other_call_sends w w' :
  store_call w w' -> ~ sending w w' -> ~ cleaning w w' -> otp_sends (w_db w') = otp_sends (w_db w).
Proof.
  intros Hc. apply store_call_shrinks in Hc
    as [Hs|[[E code|E p'|E J t' s c' u l a b|E J a b d f s n x|E J a d s n x]|?]]; intros Hn Hd.
  - apply Hs.
  - apply (SaveAuthCode_sends code w).
  - apply (SavePushedRequest_sends p' w).
  - apply (CreateIdentitySelection_sends t' s c' u l a b w).
  - destruct Hn. apply sending_create.
  - destruct Hn. apply sending_resend.
  - done.
Qed.

(** The cleanup forgets no mail of its last hour. *)
Lemma delete_first_recent email since k (p : string * time -> bool) l :
  (forall x, since < x.2 -> p x = false) ->
  sent_since email since (delete_first k p l) = sent_since email since l.
Proof.
  intros Hp. unfold sent_since. revert k. induction l as [|x l IH]; intros k; cbn [delete_first]; [done|].
  destruct (p x) eqn:E; [destruct k|]; [done| |].
  - rewrite IH, filter_cons_False; [done|]. intros [_ Hx]. by rewrite Hp in E.
  - by rewrite !filter_cons, IH.
Qed.

Section Mails.
Context `{Env} `{FlowJSON}.

Lemma deleteExpiredBatch_recent (f : Tables -> Tables) email since l w :
  (forall s, sent_since email since (otp_sends (f s)) = sent_since email since (otp_sends s)) ->
  sent_since email since (otp_sends (w_db w)) = l ->
  sent_since email since (otp_sends (w_db (deleteExpiredBatch f w).2)) = l.
Proof.
  intros Hf Hs.
  enough (ends (deleteExpiredBatch f) w (fun _ w' => sent_since email since (otp_sends (w_db w')) = l)) by done.
  unfold deleteExpiredBatch. repeat store_step; inv_stmt; cbn; try done. by rewrite Hf.
Qed.

Lemma cleanup_keeps_recent now email since w :
  now - hour <= since ->
  sent_since email since (otp_sends (w_db (cleanupExpiredAtContext now w).2)) =
  sent_since email since (otp_sends (w_db w)).
Proof.
  intros Hs.
  enough (ends (cleanupExpiredAtContext now) w (fun _ w' =>
    sent_since email since (otp_sends (w_db w')) = sent_since email since (otp_sends (w_db w)))) by done.
  unfold cleanupExpiredAtContext.
  repeat (store_step || lazymatch goal with |- ends (?f _) _ _ => unfold ends end).
  repeat (apply deleteExpiredBatch_recent; [intros s; cbn -[delete_first]; try done|]); [|done].
  apply delete_first_recent. intros x Hx. unfold add. lia.
Qed.

Lemma create_quota t id email code flow secret now ttl l w :
  let r := CreateOTP id email code flow secret now ttl w in
  t <= now -> quota_ok {| issued_codes := l; last_time := t; mailing_world := w |} ->
  quota_ok {| issued_codes := if is_nil r.1.2 then l ++ [(to_lower email, now)] else l;
              last_time := now; mailing_world := r.2 |}.
Proof.
  cbv zeta. intros Hle Hq.
  destruct (CreateOTP_atomic id email code flow secret now ttl w) as [(_ & He & Hw)|E].
  - destruct (CreateOTP _ _ _ _ _ _ _ w) as [[x [e|]] w']; [|done]. cbn in *.
    eapply quota_ok_later; [done|exact Hq|]. by rewrite Hw.
  - unfold create_otp_spec in E. split_spec E as Er Ew;
      rewrite <- Er; cbn [fst snd is_nil]; try (eapply quota_ok_later; [done|exact Hq|]; by rewrite <- Ew).
    eapply quota_ok_send; [done|exact Hq|lia|]. by rewrite <- Ew.
Qed.

Lemma resend_quota t id code secret now ttl l w :
  let r := ResendOTP id code secret now ttl w in
  t <= now -> quota_ok {| issued_codes := l; last_time := t; mailing_world := w |} ->
  quota_ok {| issued_codes := match otp_challenges (w_db w) !! id with
                              | Some o => if is_nil r.1.2 then l ++ [(o_email o, now)] else l
                              | None => l
                              end;
              last_time := now; mailing_world := r.2 |}.
Proof.
  cbv zeta. intros Hle Hq.
  destruct (ResendOTP_atomic id code secret now ttl w) as [(_ & He & Hw)|E].
  - destruct (ResendOTP _ _ _ _ _ w) as [[x [e|]] w']; [|done]. cbn in *.
    case_match; (eapply quota_ok_later; [done|exact Hq|]; by rewrite Hw).
  - unfold resend_otp_spec in E. split_spec E as Er Ew;
      rewrite <- ?Er; cbn [fst snd is_nil]; try (eapply quota_ok_later; [done|exact Hq|]; by rewrite <- Ew).
    eapply quota_ok_send; [done|exact Hq|lia|]. by rewrite <- Ew.
Qed.
End Mails.

Lemma mail_step_quota m m' : mail_step m m' -> quota_ok m -> quota_ok m'.
Proof.
  destruct 1 as [E J id email code flow secret now ttl l t w Hle r|E J id code secret now ttl l t w Hle r
                |E now l t w Hle|l t w w' Hc Hn Hd]; intros Hq.
  - by eapply create_quota.
  - by eapply resend_quota.
  - eapply quota_ok_later; [done|exact Hq|]. intros email since. apply cleanup_keeps_recent.
  - eapply quota_ok_later; [reflexivity|exact Hq|]. intros. by rewrite (other_call_sends _ _ Hc Hn Hd).
Qed.
