(* ===== verification/RefreshProperties.v ===== *)
(** * What the refresh families guarantee

    The theorems of the refresh store that its clients rely on, each
    with a concrete run of the operations it speaks about. *)

From S2P Require Import Prelude Runtime ReplayCache Schema RefreshToken RefreshStore RefreshSpec FamilySafety FlowStore OtpStore GrantStore StoreSafety.
Import Grant Material.

(** ** A concrete family *)

Definition demo_material (name : string) : RefreshMaterial :=
  {| Token := "token-" +:+ name; Handle := name; Secret := name;
     HandleHash := "handle-" +:+ name; TokenHash := "hash-" +:+ name |}.

Definition demo_grant : RefreshGrant :=
  zero_grant <| SID := "sid" |> <| ClientID := "client" |> <| Email := "a@example.com" |>
    <| Scopes := "openid" |> <| Mode := "offline" |> <| IdleTTL := hour |>
    <| AbsoluteExpiry := 10 * hour |>.

Definition quiet : Env := quiet_env 0.

(** A store with the family "sid" and its first token "0", created at the epoch. *)
Definition demo_world : World :=
  (@CreateRefreshGrant quiet demo_grant (demo_material "0") "" "" 0 (World_at 0 empty_tables)).2.

(** The same after the rotation of "0" to "1" at one minute. *)
Definition demo_rotation : (RefreshGrant * time * option error) * World :=
  @RotateRefreshToken quiet (demo_material "0") (demo_material "1") "client" minute demo_world.

(** A claim of "0" at one minute, and its completion to "1" at two. *)
Definition demo_claim : (RefreshGrant * RefreshClaim * time * option error) * World :=
  @ClaimRefresh quiet (demo_material "0") "client" minute (5 * minute) demo_world.
Definition demo_completion : (time * option error) * World :=
  @CompleteClaimedRefresh quiet (demo_material "0") (demo_material "1") demo_claim.1.1.1.1
    demo_claim.1.1.1.2 "nonce" "sealed" (5 * hour) (2 * minute) demo_claim.2.

Lemma demo_calls : rtc store_call (World_at 0 empty_tables) demo_rotation.2.
Proof.
  eapply rtc_l; [apply (@call_CreateRefreshGrant _ quiet demo_grant (demo_material "0") "" "" 0)|].
  apply rtc_once. apply (@call_RotateRefreshToken _ quiet).
Qed.

(** ** Properties *)

(** C19: RotateRefreshToken is atomic and does exactly what its contract says: a
    token that is unknown, not the stored secret, of another client, of a revoked
    family or expired is refused without effect; a consumed one revokes its family
    ("replay"); a colliding replacement is refused without effect; otherwise the
    token is consumed, the replacement stored and the idle expiry moved to at most
    the absolute one.  A failing database can only make it report the failure,
    with no effect. *)
Theorem RotateRefreshToken_implements_spec `{Env} current replacement clientID now w :
  atomically (RotateRefreshToken current replacement clientID now) snd
    (rotate_spec current replacement clientID now) w.
Proof. apply RotateRefreshToken_atomic. Qed.

(** ClaimRefresh is atomic and does exactly what its contract says: as rotation
    it refuses without effect or revokes a replayed family; a live claim of another
    replica is refused as busy, an expired claim whose upstream exchange had started
    revokes the family as indeterminate, and otherwise a fresh claim is recorded. *)
Theorem ClaimRefresh_implements_spec `{Env} current clientID now ttl w :
  atomically (ClaimRefresh current clientID now ttl) snd
    (claim_spec current clientID now ttl (state_token (c_draw (w_cnt w)))) w.
Proof. apply ClaimRefresh_atomic. Qed.

(** CompleteClaimedRefresh is atomic and does exactly what its contract says: only
    the holder of the live claim, with the unconsumed token of that family, replaces
    the token and the credential; the absolute expiry can only be brought forward,
    and the claim is released in the same transaction. *)
Theorem CompleteClaimedRefresh_implements_spec `{Env} current replacement grant claim nonce ciphertext
    absoluteExpiry now w :
  atomically (CompleteClaimedRefresh current replacement grant claim nonce ciphertext absoluteExpiry now)
    snd (complete_spec current replacement grant claim nonce ciphertext absoluteExpiry now) w.
Proof. apply CompleteClaimedRefresh_atomic. Qed.

(** ConsumeAuthCode is atomic and does exactly what its contract says: the code
    row is deleted together with the creation of the grant and its first token, or
    nothing happens at all (an unknown, changed, mismatching or expired code, a
    duplicate session, a colliding token). *)
Theorem ConsumeAuthCode_implements_spec `{Env} expected binding grant material now w :
  atomically (ConsumeAuthCode expected binding grant material now) id
    (consume_code_spec expected binding grant material now) w.
Proof. apply ConsumeAuthCode_atomic. Qed.

(** RevokeCredential is atomic and does exactly what its contract says: it always
    reports success, and revokes the family of the credential only if the credential
    belongs to the client, is unconsumed, unexpired and unrevoked, and satisfies its
    proof-of-possession binding. *)
Theorem RevokeCredential_implements_spec `{Env} credential clientID proofJKT reason now w :
  atomically (RevokeCredential credential clientID proofJKT reason now) id
    (revoke_credential_spec credential clientID proofJKT reason now) w.
Proof. apply RevokeCredential_atomic. Qed.

(** C17: In every history of the store that starts from empty tables, whatever the
    arguments, the clocks, the random sources and the failures of the calls, the
    families are well formed: every token belongs to a stored family, a family has
    at most one unconsumed token, that token expires with the idle expiry of the
    family, which never exceeds the absolute expiry, and every consumed token names
    its replacement in the same family. *)
Theorem families_well_formed w0 w :
  w_db w0 = empty_tables -> rtc store_call w0 w -> refresh_ok (w_db w).
Proof. intros E Hr. eapply history_ok; [exact Hr|]. rewrite E. apply refresh_ok_empty. Qed.

Lemma families_well_formed_witness :
  refresh_ok (w_db demo_rotation.2) /\ size (refresh_tokens (w_db demo_rotation.2)) = 2%nat.
Proof.
  split; [|vm_compute; reflexivity].
  apply (families_well_formed (World_at 0 empty_tables)); [reflexivity | apply demo_calls].
Defined.

(** C18: As long as a family stays stored, no history of the store changes what it was
    granted for (owner, client, scopes, upstream identity, mode, authentication time,
    lifetime, proof-of-possession key), undoes or rewrites its revocation, or extends
    its absolute expiry. *)
Theorem family_terms_never_widen sid w w' g :
  rtc (keeping sid) w w' -> refresh_grants (w_db w) !! sid = Some g ->
  exists g', refresh_grants (w_db w') !! sid = Some g' /\ same_terms g g' /\
    revocation_kept g g' /\ g_absolute_expires_at g' <= g_absolute_expires_at g.
Proof. intros Hr Hg. by eapply keeping_grant. Qed.

Lemma family_terms_never_widen_witness :
  exists g g', refresh_grants (w_db demo_world) !! "sid" = Some g /\
    refresh_grants (w_db demo_rotation.2) !! "sid" = Some g' /\ same_terms g g' /\
    g_idle_expires_at g < g_idle_expires_at g'.
Proof.
  assert (keeping "sid" demo_world demo_rotation.2) as Hk.
  { split; [apply (@call_RotateRefreshToken _ quiet)|]. eexists. vm_compute. reflexivity. }
  destruct (refresh_grants (w_db demo_world) !! "sid") as [g|] eqn:Hg;
    [|vm_compute in Hg; discriminate Hg].
  destruct (family_terms_never_widen "sid" _ _ g (rtc_once _ _ Hk) Hg) as (g' & Hg' & Ht & _ & _).
  exists g, g'. split_and!; [done | exact Hg' | exact Ht|].
  vm_compute in Hg, Hg'. injection Hg as <-. injection Hg' as <-. reflexivity.
Defined.

(** Rotation is final: once a token has been exchanged by RotateRefreshToken, no
    operation ever accepts it again, for any family, while its family stays stored,
    whatever calls, failures and environments come in between. *)
Theorem rotated_token_never_accepted_again `{E1 : Env} `{E2 : Env} current replacement clientID now
    w g e w1 w2 sid :
  @RotateRefreshToken E1 current replacement clientID now w = ((g, e, None), w1) ->
  rtc (keeping (SID g)) w1 w2 -> ~ @accepted E2 w2 current sid.
Proof.
  intros HR Hr.
  pose proof (atomically_success _ _ _ _ (g, e, None) (@RotateRefreshToken_atomic E1 current replacement clientID now w)) as HS.
  rewrite HR in HS. specialize (HS eq_refl eq_refl). cbn [snd] in HS.
  apply rotate_spec_row in HS as (t & row & _ & _ & Hsid & _ & _ & _ & Ht & _).
  by eapply consumed_never_accepted.
Qed.

Lemma rotated_token_never_accepted_again_witness :
  exists g e w1, demo_rotation = ((g, e, None), w1) /\ SID g = "sid" /\
    ~ @accepted quiet w1 (demo_material "0") "sid".
Proof.
  destruct demo_rotation as [[[g e] err] w1] eqn:E.
  assert (err = None) as ->.
  { change err with ((g, e, err), w1).1.2. rewrite <- E. vm_compute. reflexivity. }
  assert (SID g = "sid") as Hs.
  { change g with ((g, e, @None error), w1).1.1.1. rewrite <- E. vm_compute. reflexivity. }
  exists g, e, w1. split_and!; [done | done|].
  apply (rotated_token_never_accepted_again (E1 := quiet) (demo_material "0") (demo_material "1") "client" minute demo_world g e w1 w1 "sid" E).
  apply rtc_refl.
Defined.

(** Completion is final in the same sense: the token a claimed refresh exchanged
    is never accepted again while its family stays stored. *)
Theorem completed_token_never_accepted_again `{E1 : Env} `{E2 : Env} current replacement grant claim
    nonce ciphertext abs now w e w1 w2 sid :
  @CompleteClaimedRefresh E1 current replacement grant claim nonce ciphertext abs now w = ((e, None), w1) ->
  rtc (keeping (SID grant)) w1 w2 -> ~ @accepted E2 w2 current sid.
Proof.
  intros HR Hr.
  pose proof (atomically_success _ _ _ _ (e, None)
    (@CompleteClaimedRefresh_atomic E1 current replacement grant claim nonce ciphertext abs now w)) as HS.
  rewrite HR in HS. specialize (HS eq_refl eq_refl). cbn [snd] in HS.
  apply complete_spec_row in HS as (t & row & _ & _ & (_ & Hsid & _)%holds_claim_inv & _ & _ & Ht).
  eapply consumed_never_accepted; [exact Ht | exact Hsid | done | exact Hr].
Qed.

Lemma completed_token_never_accepted_again_witness :
  exists e w1, demo_completion = ((e, None), w1) /\
    ~ @accepted quiet w1 (demo_material "0") "sid".
Proof.
  assert (demo_completion.1.2 = None) as Hn by (vm_compute; reflexivity).
  destruct demo_completion as [[e err] w1] eqn:E. cbn in Hn. subst err.
  exists e, w1. split; [done|].
  eapply (completed_token_never_accepted_again (E1 := quiet) (E2 := quiet) (demo_material "0")
    (demo_material "1") demo_claim.1.1.1.1 demo_claim.1.1.1.2 "nonce" "sealed" (5 * hour)
    (2 * minute) demo_claim.2 e w1 w1 "sid" E).
  apply rtc_refl.
Defined.

(** Revocation is final: no operation ever accepts any token for a revoked
    family. *)
Theorem revoked_family_never_accepted `{Env} sid w w' g current :
  refresh_grants (w_db w) !! sid = Some g -> g_revoked_at g <> None ->
  rtc (keeping sid) w w' -> ~ accepted w' current sid.
Proof. intros Hg Hn Hr. by eapply revoked_never_accepted. Qed.

Lemma revoked_family_never_accepted_witness :
  let w := (@RevokeGrant quiet "sid" "client" "logout" minute demo_world).2 in
  ~ @accepted quiet w (demo_material "0") "sid".
Proof.
  cbv zeta. set (w := (@RevokeGrant quiet "sid" "client" "logout" minute demo_world).2).
  destruct (refresh_grants (w_db w) !! "sid") as [g|] eqn:Hg; [|vm_compute in Hg; discriminate Hg].
  apply (@revoked_family_never_accepted quiet "sid" w w g (demo_material "0") Hg); [|apply rtc_refl].
  vm_compute in Hg. by injection Hg as <-.
Defined.

(** C16: Theft is contained: when a token that was already rotated is presented again
    by its client and the database works, the presentation is reported as a replay
    and the family is revoked, so that from then on no token of that family, the
    replacement included, is ever accepted. *)
Theorem replay_revokes_family `{E1 : Env} `{E2 : Env} current replacement replacement' clientID
    now now' w g e w1 w2 :
  @RotateRefreshToken E1 current replacement clientID now w = ((g, e, None), w1) ->
  rtc (keeping (SID g)) w1 w2 ->
  (forall row, refresh_grants (w_db w2) !! SID g = Some row -> g_revoked_at row = None) ->
  (forall n, @stmt_fault E2 n = false) ->
  let r := @RotateRefreshToken E2 current replacement' clientID now' w2 in
  r.1 = (zero_grant, zero_time, Some ErrRefreshReplay) /\
  forall w3 m, rtc (keeping (SID g)) r.2 w3 -> ~ @accepted E2 w3 m (SID g).
Proof.
  intros HR Hr Hlive Hq. cbv zeta.
  pose proof (atomically_success _ _ _ _ (g, e, None) (@RotateRefreshToken_atomic E1 current replacement clientID now w)) as HS.
  rewrite HR in HS. specialize (HS eq_refl eq_refl). cbn [snd] in HS.
  apply rotate_spec_row in HS as (t & row & Ht0 & Hg & Hsid & (Hhash & Hclient & _)%genuine_inv & _ & _ & Ht & row1 & Hrow1 & Hterms).
  rewrite Hsid in *.
  destruct (keeping_token _ _ _ _ _ Hr Ht eq_refl) as (t' & Ht' & Hsid' & _ & Hc).
  rewrite Hc in * by done. clear Hc t'.
  destruct (keeping_grant _ _ _ _ Hr Hrow1) as (row2 & Hrow2 & Hterms2 & _ & _).
  assert (genuine current clientID (consumed now (TokenHash replacement) t) row2 = true) as Hgen.
  { unfold genuine, not_revoked. cbn. rewrite (Hlive _ Hrow2), Hhash, String.eqb_refl.
    destruct Hterms2 as [-> _]. destruct Hterms as [-> _]. by rewrite Hclient, String.eqb_refl. }
  pose proof (rotate_replay_spec current replacement' clientID now' (w_db w2) _ row2 Ht' Hrow2 Hgen ltac:(done)) as HP.
  pose proof (atomically_fault _ _ _ _ (@RotateRefreshToken_atomic E2 current replacement' clientID now' w2) Hq) as HF.
  rewrite HP in HF. injection HF as Hres Hdb. split; [done|].
  intros w3 m Hr3. eapply revoked_never_accepted; [|..|exact Hr3].
  - rewrite <- Hdb, grants_put_grant. cbn. by rewrite lookup_insert_eq.
  - done.
Qed.

Lemma replay_revokes_family_witness :
  exists g e w1, demo_rotation = ((g, e, None), w1) /\
    let r := @RotateRefreshToken quiet (demo_material "0") (demo_material "2") "client" hour w1 in
    r.1 = (zero_grant, zero_time, Some ErrRefreshReplay) /\ ~ @accepted quiet r.2 (demo_material "1") (SID g).
Proof.
  assert (demo_rotation.1.2 = None) as Hn by (vm_compute; reflexivity).
  assert (g_revoked_at <$> refresh_grants (w_db demo_rotation.2) !! SID demo_rotation.1.1.1 = Some None)
    as Hlive by (vm_compute; reflexivity).
  destruct demo_rotation as [[[g e] err] w1] eqn:E. cbn in Hn, Hlive. subst err.
  exists g, e, w1. split; [done|]. cbv zeta.
  destruct (replay_revokes_family (E1 := quiet) (E2 := quiet) (demo_material "0") (demo_material "1")
    (demo_material "2") "client" minute hour demo_world g e w1 w1 E) as [Hres Hdead].
  - apply rtc_refl.
  - intros row Hrow. rewrite Hrow in Hlive. by injection Hlive.
  - done.
  - split; [exact Hres|]. apply Hdead, rtc_refl.
Defined.

(** A claim excludes every other replica until it expires: after a successful
    claim, as long as nobody changes the family row, another claim of the family at a
    time before the expiry is refused (busy when the presented token is the genuine
    live one), and a completion under any other claim identifier is refused. *)
Theorem claim_is_exclusive `{E1 : Env} `{E2 : Env} current clientID now ttl w g c e w1 w2 :
  @ClaimRefresh E1 current clientID now ttl w = ((g, c, e, None), w1) ->
  refresh_grants (w_db w2) !! SID g = refresh_grants (w_db w1) !! SID g ->
  (forall current' clientID' now' ttl' g' c' e',
     now' < now + ttl -> 
     (@ClaimRefresh E2 current' clientID' now' ttl' w2).1 = (g', c', e', None) -> SID g' <> SID g) /\
  (forall current' replacement grant claim nonce ciphertext abs now' e',
     (@CompleteClaimedRefresh E2 current' replacement grant claim nonce ciphertext abs now' w2).1 = (e', None) ->
     SID grant = SID g -> ClaimID claim = ClaimID c).
Proof.
  intros HC Hsame.
  pose proof (atomically_success _ _ _ _ (g, c, e, None) (@ClaimRefresh_atomic E1 current clientID now ttl w)) as HS.
  rewrite HC in HS. specialize (HS eq_refl eq_refl). cbn [snd] in HS.
  apply claim_spec_row in HS as (t & row & _ & Hg & Hsid & _ & _ & _ & _ & Hw1 & Hexp).
  rewrite Hw1, grants_put_grant, Hsid, lookup_insert_eq in Hsame. split.
  - intros m' client' now' ttl' g' c' e' Hlt E He.
    eapply atomically_success in E; [|apply ClaimRefresh_atomic|done].
    apply claim_spec_row in E as (t' & row' & _ & Hg' & Hsid' & _ & _ & _ & Hbusy & _).
    rewrite <- Hsid', He, Hsid, Hsame in Hg'. injection Hg' as <-.
    unfold claim_alive in Hbusy. cbn in Hbusy. lia.
  - intros m' rep grant claim n x a now' e' E Hsg.
    eapply atomically_success in E; [|apply CompleteClaimedRefresh_atomic|done].
    apply complete_spec_row in E as (t' & row' & _ & Hg' & Hh & _).
    pose proof (holds_claim_sid _ _ _ _ _ Hh) as Hs. rewrite Hs, Hsg, Hsid, Hsame in Hg'.
    injection Hg' as <-. unfold holds_claim, claimed_by in Hh. rewrite !andb_true_iff in Hh.
    destruct Hh as [[_ Hid] _]. apply bool_decide_eq_true in Hid. cbn in Hid. by injection Hid.
Qed.

Lemma claim_is_exclusive_witness :
  exists g c e w1, demo_claim = ((g, c, e, None), w1) /\
    (forall g' c' e', (@ClaimRefresh quiet (demo_material "0") "client" (2 * minute) minute w1).1
       = (g', c', e', None) -> SID g' <> SID g) /\
    (@ClaimRefresh quiet (demo_material "0") "client" (2 * minute) minute w1).1.2 = Some ErrRefreshBusy.
Proof.
  assert (demo_claim.1.2 = None) as Hn by (vm_compute; reflexivity).
  assert ((@ClaimRefresh quiet (demo_material "0") "client" (2 * minute) minute demo_claim.2).1.2
          = Some ErrRefreshBusy) as Hb by (vm_compute; reflexivity).
  destruct demo_claim as [[[[g c] e] err] w1] eqn:E. cbn in Hn, Hb. subst err.
  exists g, c, e, w1. split; [done|]. split; [|exact Hb].
  intros g' c' e'.
  apply (claim_is_exclusive (E1 := quiet) (E2 := quiet) (demo_material "0") "client" minute (5 * minute)
    demo_world g c e w1 w1 E eq_refl). reflexivity.
Defined.
