(* ===== verification/FlowProperties.v ===== *)
(** * What single-use state and one-time codes guarantee *)

From S2P Require Import Prelude Runtime Sha256 ReplayCache Schema RefreshToken RefreshStore FlowStore OtpStore GrantStore RefreshSpec FamilySafety StoreSafety FlowSafety OtpSafety.

(** ** Concrete rows *)

Definition quiet : Env := quiet_env 0.

Definition demo_code : Code.AuthCode :=
  {| Code.Code := "code"; Code.ClientID := "client"; Code.RedirectURI := "https://app/cb";
     Code.CodeChallenge := "challenge"; Code.Email := "a@example.com"; Code.EmailVerified := true;
     Code.Nonce := ""; Code.CreatedAt := 0; Code.ExpiresAt := minute; Code.Scopes := "openid";
     Code.RefreshMode := ""; Code.AuthTime := 0; Code.ConnectorID := "otp";
     Code.UpstreamSubject := "a@example.com"; Code.OfflineConsent := false; Code.DPoPJKT := "";
     Code.PushedAuthorization := false |}.
Definition demo_binding : AuthCodeBinding :=
  {| bind_ClientID := "client"; bind_RedirectURI := "https://app/cb"; bind_CodeChallenge := "challenge" |}.
Definition demo_code_world : World := (@SaveAuthCode quiet demo_code (World_at 0 empty_tables)).2.

Definition demo_pushed : Pushed.PushedRequest :=
  {| Pushed.RequestURI := "urn:1"; Pushed.ClientID := "client"; Pushed.RedirectURI := "https://app/cb";
     Pushed.ResponseType := "code"; Pushed.Scopes := "openid"; Pushed.State := "s"; Pushed.Nonce := "n";
     Pushed.CodeChallenge := "challenge"; Pushed.CodeChallengeMethod := "S256"; Pushed.Prompt := "";
     Pushed.DPoPJKT := ""; Pushed.CreatedAt := 0; Pushed.ExpiresAt := minute |}.

Definition demo_pushed_world : World := (@SavePushedRequest quiet demo_pushed (World_at 0 empty_tables)).2.

(** A JSON codec that keeps only the identifier of a flow. *)
Definition demo_json : FlowJSON := {|
  flow_marshal := fun f => Some (Flow.FlowID f);
  flow_unmarshal := fun s => Some (zero_flow <| Flow.FlowID := s |>)
|}.
Definition demo_otp_world : World :=
  (@CreateOTP quiet demo_json "id" "A@example.com" "123456" zero_flow "key" 0 hour
     (World_at 0 empty_tables)).2.

(** ** Properties *)

(** The code row is gone after a successful exchange. *)
Lemma consumed_code_gone `{Env} expected binding grant material now s s' :
  consume_code_spec expected binding grant material now s = (None, s') ->
  auth_codes s' !! Code.Code expected = None.
Proof.
  unfold consume_code_spec. destruct (auth_codes s !! _); [|discriminate]. case_match; [discriminate|].
  destruct grant as [g|].
  - destruct (new_family _ _ _ _ _ _ _) as [[e|] x] eqn:HF; [discriminate|].
    match goal with H : new_family ?o ?g ?n ?c ?m ?t ?s0 = (None, ?x) |- _ =>
      assert (auth_codes x = auth_codes s0) as Hsame
        by (unfold new_family in H; cbv zeta in H; repeat case_match; simplify_eq; done) end.
    intros [= <-]. case_match; cbn; rewrite Hsame; cbn; apply lookup_delete_eq.
  - intros [= <-]. cbn. apply lookup_delete_eq.
Qed.

Lemma absent_code_refused `{Env} expected binding grant material now w :
  auth_codes (w_db w) !! Code.Code expected = None ->
  exists e, (ConsumeAuthCode expected binding grant material now w).1 = Some e.
Proof.
  intros Hn. destruct (ConsumeAuthCode_atomic expected binding grant material now w) as [(_ & He & _)|E].
  - destruct (ConsumeAuthCode _ _ _ _ _ w) as [[e|] w']; [by exists e | done].
  - unfold consume_code_spec in E. rewrite Hn in E. injection E as E _. exists ErrInvalidGrant. by symmetry.
Qed.

(** An authorization code is exchanged at most once: after a successful exchange
    every exchange of the same code fails, with any row, binding, grant and time, in
    every history of the store that does not store a code of that value again. *)
Theorem authorization_code_single_use `{E1 : Env} `{E2 : Env} expected binding grant material now
    w w1 w2 expected' binding' grant' material' now' :
  @ConsumeAuthCode E1 expected binding grant material now w = (None, w1) ->
  rtc (without (stores_code (Code.Code expected))) w1 w2 ->
  Code.Code expected' = Code.Code expected ->
  exists e, (@ConsumeAuthCode E2 expected' binding' grant' material' now' w2).1 = Some e.
Proof.
  intros HC Hr Hk.
  pose proof (atomically_success _ _ _ _ None (@ConsumeAuthCode_atomic E1 expected binding grant material now w)) as HS.
  rewrite HC in HS. specialize (HS eq_refl eq_refl). cbn [snd] in HS.
  apply absent_code_refused. rewrite Hk. eapply code_stays_gone; [exact Hr|].
  exact (@consumed_code_gone E1 _ _ _ _ _ _ _ HS).
Qed.

Lemma authorization_code_single_use_witness :
  exists w1, @ConsumeAuthCode quiet demo_code demo_binding None zero_material 5 demo_code_world = (None, w1) /\
    exists e, (@ConsumeAuthCode quiet demo_code demo_binding None zero_material 6 w1).1 = Some e.
Proof.
  assert ((@ConsumeAuthCode quiet demo_code demo_binding None zero_material 5 demo_code_world).1 = None) as Hn
    by (vm_compute; reflexivity).
  destruct (@ConsumeAuthCode quiet demo_code demo_binding None zero_material 5 demo_code_world) as [r w1] eqn:E.
  cbn in Hn. subst r. exists w1. split; [done|].
  apply (authorization_code_single_use (E1 := quiet) (E2 := quiet) demo_code demo_binding None zero_material 5
    demo_code_world w1 w1 demo_code demo_binding None zero_material 6 E); [apply rtc_refl | reflexivity].
Defined.

(** A pushed authorization request is redeemed at most once, only by the client
    that pushed it and before it expires: a redemption returns the stored row, and
    until a request of that URI is stored again every other redemption fails. *)
Theorem pushed_request_single_use `{E1 : Env} `{E2 : Env} uri client now w p w1 w2 client' now' :
  @ConsumePushedRequest E1 uri client now w = ((Some p, None), w1) ->
  rtc (without (stores_pushed uri)) w1 w2 ->
  Pushed.ClientID p = client /\ now < Pushed.ExpiresAt p /\
  (exists row, pushed_requests (w_db w) !! uri = Some row /\ p = row <| Pushed.RequestURI := uri |>) /\
  (@ConsumePushedRequest E2 uri client' now' w2).1.1 = None.
Proof.
  intros HC Hr.
  assert (ends (@ConsumePushedRequest E1 uri client now) w (fun r w' => r = (Some p, None) ->
    Pushed.ClientID p = client /\ now < Pushed.ExpiresAt p /\
    (exists row, pushed_requests (w_db w) !! uri = Some row /\ p = row <| Pushed.RequestURI := uri |>) /\
    pushed_requests (w_db w') !! uri = None)) as H1.
  { unfold ConsumePushedRequest. repeat store_step; cbn [merge w_db with_db count_stmt with_cnt] in *; try done.
    unfold delete_returning in *. repeat case_match; simplify_eq. intros [= <-].
    repeat match goal with H : _ && _ = true |- _ => apply andb_true_iff in H as [?%String.eqb_eq ?] end.
    split_and!; [done | cbn; lia | eauto | cbn; apply lookup_delete_eq]. }
  apply ends_eq with (2 := HC) in H1. destruct (H1 eq_refl) as (? & ? & ? & Hgone).
  split_and!; [done..|]. pose proof (pushed_stays_gone _ _ _ Hr Hgone) as Hg2.
  enough (ends (@ConsumePushedRequest E2 uri client' now') w2 (fun r _ => r.1 = None)) by done.
  unfold ConsumePushedRequest. repeat store_step; cbn [merge fst] in *; try done.
  unfold delete_returning in *. rewrite Hg2 in *. by simplify_eq.
Qed.

Lemma pushed_request_single_use_witness :
  exists w1, @ConsumePushedRequest quiet "urn:1" "client" 7 demo_pushed_world = ((Some demo_pushed, None), w1) /\
    (@ConsumePushedRequest quiet "urn:1" "client" 8 w1).1.1 = None.
Proof.
  assert ((@ConsumePushedRequest quiet "urn:1" "client" 7 demo_pushed_world).1 = (Some demo_pushed, None)) as Hn
    by (vm_compute; reflexivity).
  destruct (@ConsumePushedRequest quiet "urn:1" "client" 7 demo_pushed_world) as [r w1] eqn:E.
  cbn in Hn. subst r. exists w1. split; [done|].
  apply (pushed_request_single_use (E1 := quiet) (E2 := quiet) "urn:1" "client" 7 demo_pushed_world
    demo_pushed w1 w1 "client" 8 E (rtc_refl _ _)).
Defined.

(** ConsumeGrantActionAndRevoke is atomic and does exactly what its contract
    says: only a live action issued to the same (lower-cased) owner, for that very
    grant and action name, revokes that owner's active grant, and it is used up in
    the same transaction. *)
Theorem ConsumeGrantActionAndRevoke_implements_spec `{Env} token email sid action now w :
  atomically (ConsumeGrantActionAndRevoke token email sid action now) id
    (consume_action_spec token email sid action now) w.
Proof. apply ConsumeGrantActionAndRevoke_atomic. Qed.

(** ConsumeOTP is atomic and does exactly what its contract says: an unknown,
    expired or exhausted challenge is refused without effect; a wrong code costs one
    attempt, and the fifth kills the challenge; the right code returns the stored
    context and deletes the challenge. *)
Theorem ConsumeOTP_implements_spec `{Env} `{FlowJSON} id code secret now w :
  atomically (ConsumeOTP id code secret now) snd (consume_otp_spec id code secret now) w.
Proof. apply ConsumeOTP_atomic. Qed.

(** ResendOTP is atomic and does exactly what its contract says: it refuses an
    unknown or expired challenge, a resend within the minute and a sixth mail in the
    hour, telling when to retry, and otherwise replaces code and expiry, resets the
    attempts and records the mail. *)
Theorem ResendOTP_implements_spec `{Env} `{FlowJSON} id code secret now ttl w :
  atomically (ResendOTP id code secret now ttl) snd (resend_otp_spec id code secret now ttl) w.
Proof. apply ResendOTP_atomic. Qed.


(** Six wrong guesses at a code, a resend, and the right guess at the second code. *)
Definition guess_codes := ["000000"; "000001"; "000002"; "000003"; "000004"; "000005"].
Definition guessed_world : World :=
  foldl (fun w code => (@ConsumeOTP quiet demo_json "id" code "key" 1 w).2) demo_otp_world guess_codes.
Definition reissued_world : World := (@ResendOTP quiet demo_json "id" "654321" "key" (2 * minute) hour guessed_world).2.
Definition consumed_world : World := (@ConsumeOTP quiet demo_json "id" "654321" "key" (3 * minute) reissued_world).2.


(** C24: Mail quota: in every history of the store from empty tables, in which the clock does
    not go back between the codes issued and the cleanups, no address is issued more than five
    codes in any hour: the record of the mails that the cleanup keeps is enough. *)
Theorem otp_mail_quota m0 m email u :
  w_db (mailing_world m0) = empty_tables -> issued_codes m0 = [] -> rtc mail_step m0 m ->
  Z.of_nat (length (window email u (issued_codes m))) <= send_limit.
Proof.
  intros E El Hr. apply q_limit.
  assert (quota_ok m0) as H0 by (split; rewrite ?E, ?El; [by constructor|done|intros email' u'; cbn; unfold send_limit; lia]).
  clear E El. revert H0. induction Hr as [x|x y z Hs _ IH]; [done|]. intros Hx. by apply IH, (mail_step_quota x).
Qed.

(** A code, a cleanup and a second code. *)
Definition demo_cleaned : World := (@cleanupExpiredAtContext quiet (2 * minute) demo_otp_world).2.
Definition demo_resent : World := (@ResendOTP quiet demo_json "id" "654321" "key" (3 * minute) hour demo_cleaned).2.

Lemma otp_mail_quota_witness :
  Z.of_nat (length (window "a@example.com" hour [("a@example.com", 0); ("a@example.com", 3 * minute)])) <= 5.
Proof.
  apply (otp_mail_quota {| issued_codes := []; last_time := 0; mailing_world := World_at 0 empty_tables |}
    {| issued_codes := [("a@example.com", 0); ("a@example.com", 3 * minute)]; last_time := 3 * minute;
       mailing_world := demo_resent |} "a@example.com" hour eq_refl eq_refl).
  eapply rtc_l; [apply (@mail_create quiet demo_json "id" "A@example.com" "123456" zero_flow "key" 0 hour); reflexivity|].
  eapply rtc_l; [apply (@mail_cleanup quiet (2 * minute)); discriminate|].
  eapply rtc_l; [apply (@mail_resend quiet demo_json "id" "654321" "key" (3 * minute) hour); discriminate|].
  match goal with |- rtc _ ?x ?y => replace x with y by (vm_compute; reflexivity) end. apply rtc_refl.
Defined.

(** C25: A resend revives an exhausted challenge: five wrong codes make a challenge
    refuse every lookup and guess, but as long as it has not expired, ResendOTP (a
    minute after the last mail, within the quota) makes it answer again. *)
Theorem resend_revives_exhausted_challenge `{Env} `{FlowJSON} id code secret now ttl w o flow :
  (forall n, stmt_fault n = false) ->
  otp_challenges (w_db w) !! id = Some o -> flow_unmarshal (o_context o) = Some flow ->
  attempt_limit <= o_attempts o -> now < o_expires_at o -> 0 < ttl ->
  sub (o_sent_at o + minute) now <= 0 ->
  count_sends (o_email o) (now - hour) (w_db w) < send_limit ->
  (LookupOTPFlow id now w).1.2 = Some ErrInvalidOTPChallenge /\
  (ResendOTP id code secret now ttl w).1 = (flow, now + ttl, None) /\
  (ConsumeOTP id code secret now (ResendOTP id code secret now ttl w).2).1 = (flow, None).
Proof.
  intros Hq Ho Hf Hatt Hexp Httl Hwait Hcount.
  pose proof (atomically_fault _ _ _ _ (ResendOTP_atomic id code secret now ttl w) Hq) as HR.
  unfold resend_otp_spec in HR. rewrite Ho, Hf in HR.
  unfold before, add in HR.
  destruct (Z.ltb_spec now (o_expires_at o)); [|lia]. cbn [negb] in HR.
  destruct (Z.ltb_spec 0 (sub (o_sent_at o + minute) now)); [lia|].
  change (now + - hour) with (now - hour) in HR.
  destruct (Z.leb_spec send_limit (count_sends (o_email o) (now - hour) (w_db w))); [lia|].
  injection HR as Hres Hdb. split_and!; [|by symmetry|].
  - unfold LookupOTPFlow, run, sql_db, select, mbind, go_bind, faulty. rewrite Hq, Ho.
    rewrite (proj2 (Z.ltb_ge (o_attempts o) attempt_limit)) by done. by rewrite andb_false_r.
  - pose proof (atomically_fault _ _ _ _ (ConsumeOTP_atomic id code secret now
      (ResendOTP id code secret now ttl w).2) Hq) as HC.
    rewrite <- Hdb in HC. unfold consume_otp_spec in HC. cbn [add_send put_challenge otp_challenges upd] in HC.
    rewrite lookup_insert_eq in HC. unfold answering, renewed in HC. cbn [o_expires_at o_attempts o_code_hmac o_context upd] in HC.
    destruct (Z.ltb_spec now (now + ttl)); [|lia]. cbn [andb] in HC. rewrite String.eqb_refl, Hf in HC.
    cbn in HC. by injection HC as -> _.
Qed.

(** A challenge whose five attempts are used up, sent at the epoch. *)
Definition demo_exhausted : World := World_at 0
  (empty_tables <| otp_challenges := {[ "id" :=
     {| o_email := "a@example.com"; o_code_hmac := ""; o_context := "flow"; o_attempts := 5; o_sends := 1;
        o_created_at := 0; o_sent_at := 0; o_expires_at := 10 * minute |} ]} |>
   <| otp_sends := [("a@example.com", 0)] |>).

Lemma resend_revives_exhausted_challenge_witness :
  (@ConsumeOTP quiet demo_json "id" "654321" "key" (2 * minute)
     (@ResendOTP quiet demo_json "id" "654321" "key" (2 * minute) (10 * minute) demo_exhausted).2).1
  = (zero_flow <| Flow.FlowID := "flow" |>, None).
Proof.
  destruct (otp_challenges (w_db demo_exhausted) !! "id") as [o|] eqn:Ho; [|vm_compute in Ho; discriminate Ho].
  assert (o_context o = "flow" /\ o_attempts o = 5 /\ o_expires_at o = 10 * minute /\ o_sent_at o = 0
          /\ o_email o = "a@example.com") as (Hc & Ha & Hx & Hs & He)
    by (vm_compute in Ho; injection Ho as <-; repeat split; reflexivity).
  apply (@resend_revives_exhausted_challenge quiet demo_json "id" "654321" "key" (2 * minute) (10 * minute)
    demo_exhausted o (zero_flow <| Flow.FlowID := "flow" |>)); rewrite ?Hc, ?Ha, ?Hx, ?Hs, ?He; try exact Ho;
    try reflexivity; discriminate.
Defined.

(** * Cleanup

    The cleanup of a store deletes only what has expired. *)

(** Rows only disappear, and only dead ones. *)
Definition trimmed {A} (dead : A -> Prop) (m m' : gmap string A) : Prop :=
  m' ⊆ m /\ forall k a, m !! k = Some a -> m' !! k = None -> dead a.

Lemma trimmed_refl {A} (dead : A -> Prop) m : trimmed dead m m.
Proof. split; [done | congruence]. Qed.

Lemma trimmed_trans {A} (dead1 dead2 : A -> Prop) m1 m2 m3 :
  (forall a, dead2 a -> dead1 a) ->
  trimmed dead1 m1 m2 -> trimmed dead2 m2 m3 -> trimmed dead1 m1 m3.
Proof.
  intros Hd [S1 D1] [S2 D2]. split; [by etrans|]. intros k a Hk Hn.
  destruct (m2 !! k) as [a'|] eqn:E; [|by eapply D1].
  pose proof (lookup_weaken _ _ _ _ E S1). simplify_eq. apply Hd. by eapply D2.
Qed.

Lemma delete_batch_trimmed {A} (p : A -> bool) (m : gmap string A) :
  trimmed (fun a => p a = true) m (delete_batch p m).
Proof.
  split; [apply delete_batch_subseteq|]. intros k a Hk Hn. unfold delete_batch in Hn.
  rewrite foldr_delete_lookup in Hn. case_decide as Hin; [|congruence].
  apply eligible_spec in Hin as (a' & Ha' & Hp). congruence.
Qed.

(** The family of a row has passed its absolute expiry. *)
Definition family_dead (now : time) (s : Tables) (sid : string) : Prop :=
  exists g, refresh_grants s !! sid = Some g /\ g_absolute_expires_at g <= now.

(** What a cleanup at [now] may do to the tables, when texts in the local zone compare up to
    [lead] later than texts in UTC. *)
Record cleans (lead : duration) (now : time) (s s' : Tables) : Prop := {
  cl_states : trimmed (fun x => State.ExpiresAt x < now) (oauth_states s) (oauth_states s');
  cl_codes : trimmed (fun x => Code.ExpiresAt x < now) (auth_codes s) (auth_codes s');
  cl_pushed : trimmed (fun x => Pushed.ExpiresAt x < now) (pushed_requests s) (pushed_requests s');
  cl_otp : trimmed (fun x => o_expires_at x < now) (otp_challenges s) (otp_challenges s');
  cl_selections : trimmed (fun x => s_expires_at x <= now) (identity_selections s) (identity_selections s');
  cl_flows : trimmed (fun x => f_expires_at x <= now + match f_zone x with UTC => lead | Local => 0 end)
                (flow_credentials s) (flow_credentials s');
  cl_grants : trimmed (fun g => g_absolute_expires_at g <= now) (refresh_grants s) (refresh_grants s');
  cl_tokens : trimmed (fun t => family_dead now s (t_sid t)) (refresh_tokens s) (refresh_tokens s');
  cl_actions : trimmed (fun a => a_expires_at a <= now + lead \/ family_dead now s (a_sid a))
                 (grant_actions s) (grant_actions s');
  cl_upstream : upstream_credentials s' = upstream_credentials s;
  cl_sends : forall x, x ∈ otp_sends s -> now - hour <= x.2 -> x ∈ otp_sends s'
}.

#[export] Instance cleans_preorder lead now : PreOrder (cleans lead now).
Proof.
  split.
  - intros s. split; first [apply trimmed_refl | done | tauto].
  - intros s1 s2 s3 [] [].
    assert (forall sid, family_dead now s2 sid -> family_dead now s1 sid) as Hfam.
    { intros sid (g & Hg & Hle). exists g. split; [|done]. eapply lookup_weaken; [exact Hg|].
      by destruct cl_grants0. }
    split; try (eapply trimmed_trans; [|eassumption..]; cbn; naive_solver).
    + congruence.
    + auto.
Qed.

Section Clean.
Context `{Env}.

Lemma deleteExpiredBatch_cleans now f s0 w :
  (forall s, cleans text_lead now s (f s)) -> cleans text_lead now s0 (w_db w) ->
  cleans text_lead now s0 (w_db (deleteExpiredBatch f w).2).
Proof.
  intros Hf Hs. enough (ends (deleteExpiredBatch f) w (fun _ w' => cleans text_lead now s0 (w_db w'))) by done.
  unfold deleteExpiredBatch. repeat store_step; inv_stmt; cbn; try done. by etrans.
Qed.

(** A batch on one table. *)
Lemma trimmed_batch {A} (p : A -> bool) (dead : A -> Prop) (m : gmap string A) :
  (forall a, p a = true -> dead a) -> trimmed dead m (delete_batch p m).
Proof.
  intros Hd. destruct (delete_batch_trimmed p m) as [HS HD]. split; [done|]. intros k a Hk Hn.
  by eapply Hd, HD.
Qed.

Lemma delete_first_keeps {A} k (p : A -> bool) l x : x ∈ l -> p x = false -> x ∈ delete_first k p l.
Proof.
  revert k. induction l as [|y l IH]; intros k; cbn; [done|]. rewrite elem_of_cons. intros [<-|Hx] Hp.
  - rewrite Hp. by left.
  - destruct (p y); [destruct k|]; [by right | by apply IH | right; by apply IH].
Qed.

Lemma delete_grants_cleans now s :
  cleans text_lead now s (delete_grants (fun g => g_absolute_expires_at g <=? now) s).
Proof.
  set (p := fun g => g_absolute_expires_at g <=? now).
  assert (forall sid, sid ∈ eligible p (refresh_grants s) -> family_dead now s sid) as Hfam.
  { intros sid (g & Hg & Hp)%eligible_spec. exists g. split; [done|]. unfold p in Hp. lia. }
  split; cbn -[eligible]; try apply trimmed_refl; try done.
  - apply trimmed_batch. unfold p. intros a Ha. lia.
  - split; [apply map_filter_subseteq|]. intros k t Hk Hn. apply Hfam.
    destruct (decide (t_sid t ∈ eligible p (refresh_grants s))) as [|Hin]; [done|].
    rewrite (map_lookup_filter_Some_2 _ _ _ t) in Hn; done.
  - split; [apply map_filter_subseteq|]. intros k a Hk Hn. right. apply Hfam.
    destruct (decide (a_sid a ∈ eligible p (refresh_grants s))) as [|Hin]; [done|].
    rewrite (map_lookup_filter_Some_2 _ _ _ a) in Hn; done.
Qed.

Ltac by_batch :=
  intros ?; split; cbn -[delete_batch delete_first]; try apply trimmed_refl; try done;
  try (apply trimmed_batch; intros ? ?; first [left; lia | lia]).

(** What a batch takes for expired, in the local zone. *)
Lemma expired_text l expires now :
  negb (written_before Local now l expires) = true ->
  expires <= now + match l with UTC => text_lead | Local => 0 end.
Proof.
  intros H1%negb_true_iff%written_before_bound. unfold text_lead.
  destruct sqlite, l; cbn [offset_of] in H1; lia.
Qed.

Lemma cleanupPARRequests_cleans now w : cleans text_lead now (w_db w) (w_db (cleanupPARRequests now w).2).
Proof.
  enough (ends (cleanupPARRequests now) w (fun _ w' => cleans text_lead now (w_db w) (w_db w'))) by done.
  unfold cleanupPARRequests. repeat store_step; inv_stmt; cbn -[delete_batch]; try reflexivity.
  split; cbn -[delete_batch]; try apply trimmed_refl; try done.
  apply trimmed_batch. intros ? ?. lia.
Qed.

(** A function of the store that only cleans, as of [now]. *)
Definition cleaner {B} (now : time) (f : World -> B * World) : Prop := forall w, cleans text_lead now (w_db w) (w_db (f w).2).

Lemma cleanupProtocolState_cleans now : cleaner now (cleanupProtocolState now).
Proof.
  intros w. enough (ends (cleanupProtocolState now) w (fun _ w' => cleans text_lead now (w_db w) (w_db w'))) by done.
  unfold cleanupProtocolState. apply ends_run, wp_bind, wp_call. apply (cleanupPARRequests_cleans now w).
Qed.

Lemma cleanupExpiredAtContext_cleans now : cleaner now (cleanupExpiredAtContext now).
Proof.
  intros w. enough (ends (cleanupExpiredAtContext now) w (fun _ w' => cleans text_lead now (w_db w) (w_db w'))) by done.
  unfold cleanupExpiredAtContext.
  repeat (store_step || lazymatch goal with |- ends (?f _) _ _ => unfold ends end).
  apply deleteExpiredBatch_cleans; [apply delete_grants_cleans|].
  apply deleteExpiredBatch_cleans; [by_batch; apply trimmed_batch; by intros ? ?%expired_text|].
  apply deleteExpiredBatch_cleans; [by_batch|].
  apply deleteExpiredBatch_cleans; [by_batch; apply trimmed_batch; intros ? ?%expired_text; by left|].
  apply deleteExpiredBatch_cleans; [by_batch|].
  { intros x Hx Hlt. apply delete_first_keeps; [done|]. unfold add. lia. }
  do 3 (apply deleteExpiredBatch_cleans; [by_batch|]). reflexivity.
Qed.

(** ** The whole life of a store *)

Lemma trimmed_impl {A} (dead dead' : A -> Prop) m m' :
  (forall a, dead a -> dead' a) -> trimmed dead m m' -> trimmed dead' m m'.
Proof. intros Hd [S D]. split; [done|]. eauto. Qed.

(** What may be done at some time may be done later. *)
Lemma cleans_later now later s s' : now <= later -> cleans text_lead now s s' -> cleans text_lead later s s'.
Proof.
  intros Hle [].
  assert (forall sid, family_dead now s sid -> family_dead later s sid) as Hfam.
  { intros sid (g & Hg & Hd). exists g. split; [done|lia]. }
  split; try done; try (eapply trimmed_impl; [|eassumption]; cbn; first [intros; lia|naive_solver lia]).
  intros x Hx Hlt. apply cl_sends0; [done|lia].
Qed.

Definition tick_time (t : cleanup_tick) : time := match t with Ordinary now | Protocol now => now end.
(** The latest of some times, from [t0] on. *)
Definition latest (t0 : time) (ticks : list cleanup_tick) : time := foldr (fun t m => Z.max (tick_time t) m) t0 ticks.

Lemma cleanupExpired_cleans t0 ticks : cleaner (latest t0 ticks) (cleanupExpired ticks).
Proof.
  induction ticks as [|t ticks IH]; intros w; [reflexivity|].
  enough (ends (cleanupExpired (t :: ticks)) w (fun _ w' => cleans text_lead (latest t0 (t :: ticks)) (w_db w) (w_db w'))) by done.
  assert (forall (f : World -> unit * World), cleaner (tick_time t) f ->
            ends f w (fun _ w' => ends (cleanupExpired ticks) w' (fun _ w'' => cleans text_lead (latest t0 (t :: ticks)) (w_db w) (w_db w''))))
    as Hstep.
  { intros f Hf. specialize (Hf w). unfold ends. etrans; [eapply cleans_later; [|exact Hf]|eapply cleans_later; [|apply IH]];
      unfold latest; cbn [foldr]; lia. }
  destruct t; apply ends_run, wp_bind, wp_call;
    (eapply ends_mono; [apply Hstep|]; [first [apply cleanupExpiredAtContext_cleans|apply cleanupProtocolState_cleans]|]);
    intros [] w' Hw; by apply wp_call.
Qed.
End Clean.

(** C26: The cleanup of a store, over any sequence of its ticks and however often its
    statements fail, deletes only states, codes, pushed requests, challenges, selections,
    credentials and families that have expired by the latest tick, tokens and actions of such
    families (or expired actions), and mail records older than an hour; every other row, and
    every verified upstream credential, stays exactly as it was.  On a SQLite host east of UTC
    an action and a credential of a code, whose expiries are written in UTC, may go earlier, by
    at most the offset of the host's zone. *)
Theorem cleanup_removes_only_expired `{Env} t0 ticks w :
  cleans text_lead (latest t0 ticks) (w_db w) (w_db (cleanupExpired ticks w).2).
Proof. apply cleanupExpired_cleans. Qed.

(** * Times of different zones in SQLite *)

Section Zones.
Context `{Env}.

(** West of UTC the text of a local time comes before that of a UTC time up to the offset
    earlier, east of UTC after that of a UTC time up to the offset later. *)
Lemma text_west now expires :
  sqlite = true -> expires < now - local_offset * second -> written_before UTC now Local expires = false.
Proof. intros Hs Hlt. unfold written_before. rewrite Hs. cbn [offset_of]. lia. Qed.

Lemma text_east now expires :
  sqlite = true -> expires < now + local_offset * second -> written_before Local now UTC expires = false.
Proof. intros Hs Hlt. unfold written_before. rewrite Hs. cbn [offset_of]. lia. Qed.

(** A batch takes every eligible row when there are no more than it may take. *)
Lemma delete_batch_all {A} (p : A -> bool) (m : gmap string A) k a :
  (size m <= batch_size)%nat -> m !! k = Some a -> p a = true -> delete_batch p m !! k = None.
Proof.
  intros Hsize Hk Hp. unfold delete_batch. rewrite foldr_delete_lookup, decide_True; [done|].
  unfold eligible. rewrite take_ge.
  - apply list_elem_of_fmap. exists (k, a). split; [done|]. apply list_elem_of_filter.
    split; [cbn; by rewrite Hp|]. by apply elem_of_map_to_list.
  - rewrite length_fmap. etrans; [apply length_filter|]. by rewrite length_map_to_list.
Qed.

(** A batch that does not fail. *)
Lemma deleteExpiredBatch_done (f : Tables -> Tables) (P Q : Tables -> Prop) w :
  (forall n, stmt_fault n = false) -> (forall s, P s -> Q (f s)) -> P (w_db w) ->
  Q (w_db (deleteExpiredBatch f w).2).
Proof.
  intros Hq Hf HP. enough (ends (deleteExpiredBatch f) w (fun _ w' => Q (w_db w'))) by done.
  unfold deleteExpiredBatch. repeat store_step; inv_stmt; cbn; [|by apply Hf].
  unfold faulty in *. destruct_or?; congruence.
Qed.

Lemma cleanup_takes_actions h a now w :
  (forall n, stmt_fault n = false) ->
  grant_actions (w_db w) !! h = Some a -> (size (grant_actions (w_db w)) <= batch_size)%nat ->
  written_before Local now UTC (a_expires_at a) = false ->
  grant_actions (w_db (cleanupExpiredAtContext now w).2) !! h = None.
Proof.
  intros Hq Ha Hsize Ht.
  enough (ends (cleanupExpiredAtContext now) w (fun _ w' => grant_actions (w_db w') !! h = None)) by done.
  unfold cleanupExpiredAtContext.
  repeat (store_step || lazymatch goal with |- ends (?f _) _ _ => unfold ends end).
  apply deleteExpiredBatch_done with (P := fun s => grant_actions s !! h = None); [done| |].
  { intros s Hs. apply map_lookup_filter_None_2. by left. }
  do 2 (apply deleteExpiredBatch_done with (P := fun s => grant_actions s !! h = None); [done|done|]).
  apply deleteExpiredBatch_done with
    (P := fun s => grant_actions s !! h = Some a /\ (size (grant_actions s) <= batch_size)%nat); [done| |].
  { intros s [Hs Hn]. apply delete_batch_all with (a := a); [done|done|]. by rewrite Ht. }
  do 4 (apply deleteExpiredBatch_done with
    (P := fun s => grant_actions s !! h = Some a /\ (size (grant_actions s) <= batch_size)%nat); [done|done|]).
  done.
Qed.

Lemma saved_credential_not_loaded token clientID connectorID nonce ciphertext expires now w :
  (forall n, stmt_fault n = false) -> written_before UTC now Local expires = false ->
  (LoadFlowCredential token clientID connectorID now
     (SaveFlowCredential "" token clientID connectorID nonce ciphertext expires Local w).2).1
  = ("", "", Some ErrInvalidGrant).
Proof.
  intros Hq Ht.
  enough (ends (SaveFlowCredential "" token clientID connectorID nonce ciphertext expires Local) w
    (fun _ w' => (LoadFlowCredential token clientID connectorID now w').1 = ("", "", Some ErrInvalidGrant))) by done.
  unfold SaveFlowCredential. repeat store_step; inv_stmt; cbn in *; unfold faulty in *;
    destruct_or?; try congruence.
  unfold LoadFlowCredential, run, sql_db, select, mbind, go_bind, faulty. rewrite Hq. cbn [w_db with_db].
  cbn -[written_before]. rewrite lookup_insert_eq. cbn -[written_before]. by rewrite Ht, andb_false_r.
Qed.
End Zones.

(** C40: Times of different zones compare as texts on SQLite.  On a host more than ten minutes
    west of UTC the credential of a login, saved as the callback saves it, is not found from the
    moment it is saved; on a host east of UTC the cleanup deletes grant actions (when there
    are no more than it takes at once) that still have up to the offset of the zone to live. *)
Theorem sqlite_compares_zones `{Env} token clientID connectorID nonce ciphertext now later w :
  sqlite = true -> (forall n, stmt_fault n = false) -> now <= later ->
  (10 * minute < - (local_offset * second) ->
   (LoadFlowCredential token clientID connectorID later
      (SaveFlowCredential "" token clientID connectorID nonce ciphertext (add now (10 * minute)) Local w).2).1
   = ("", "", Some ErrInvalidGrant)) /\
  (forall h a, grant_actions (w_db w) !! h = Some a -> (size (grant_actions (w_db w)) <= batch_size)%nat ->
     a_expires_at a < later + local_offset * second ->
     grant_actions (w_db (cleanupExpiredAtContext later w).2) !! h = None).
Proof.
  intros Hs Hq Hle. split.
  - intros Hw. apply saved_credential_not_loaded; [done|]. apply text_west; [done|]. unfold add. lia.
  - intros h a Ha Hsize Hlt. eapply cleanup_takes_actions; [done..|]. by apply text_east.
Qed.

(** An action with an hour to live, on a host two hours east of UTC. *)
Definition demo_action : ActionRow :=
  {| a_email := "a@example.com"; a_sid := "sid"; a_action := "revoke"; a_created_at := 0; a_expires_at := hour |}.
Definition demo_action_world : World := World_at 0 (empty_tables <| grant_actions := {[ "h" := demo_action ]} |>).

Lemma sqlite_compares_zones_witness :
  (@LoadFlowCredential (zoned_env (-18000) 0) "token" "client" "google" 0
     (@SaveFlowCredential (zoned_env (-18000) 0) "" "token" "client" "google" "nonce" "text" (10 * minute) Local
        demo_action_world).2).1 = ("", "", Some ErrInvalidGrant) /\
  grant_actions (w_db (@cleanupExpiredAtContext (zoned_env 7200 0) 1 demo_action_world).2) !! "h" = None.
Proof.
  split.
  - apply (@sqlite_compares_zones (zoned_env (-18000) 0) "token" "client" "google" "nonce" "text" 0 0
      demo_action_world eq_refl (fun _ => eq_refl)); [discriminate|]. vm_compute. reflexivity.
  - apply (@sqlite_compares_zones (zoned_env 7200 0) "token" "client" "google" "nonce" "text" 0 1
      demo_action_world eq_refl (fun _ => eq_refl)) with (a := demo_action); [discriminate| | |].
    + vm_compute. reflexivity.
    + apply leb_complete. vm_compute. reflexivity.
    + vm_compute. reflexivity.
Defined.
