(* ===== verification/Json.v ===== *)
(** * JSON values

    The values encoding/json decodes into an [any]: with [UseNumber] a number keeps
    its text.  An object is a list of members with distinct names; Go iterates over a
    map in an unspecified order, and nothing below depends on the order but the text
    of an error. *)

From S2P Require Import Prelude.

#[local] Set Warnings "-register-all".

Inductive json :=
  | JNull
  | JBool (b : bool)
  | JNumber (text : string)
  | JString (s : string)
  | JArray (items : list json)
  | JObject (members : list (string * json)).

(** [m[name]] *)
Fixpoint member (name : string) (l : list (string * json)) : option json :=
  match l with
  | [] => None
  | (k, v) :: l => if (k =? name)%string then Some v else member name l
  end.

Section Induction.
Variable P : json -> Prop.
Hypothesis null_case : P JNull.
Hypothesis bool_case : forall b, P (JBool b).
Hypothesis number_case : forall t, P (JNumber t).
Hypothesis string_case : forall s, P (JString s).
Hypothesis array_case : forall l, Forall P l -> P (JArray l).
Hypothesis object_case : forall l, Forall (fun kv => P kv.2) l -> P (JObject l).

Fixpoint json_nested_ind (v : json) : P v :=
  match v with
  | JNull => null_case
  | JBool b => bool_case b
  | JNumber t => number_case t
  | JString s => string_case s
  | JArray l => array_case l ((fix go l : Forall P l :=
      match l with
      | [] => Forall_nil_2 P
      | x :: l => Forall_cons_2 P x l (json_nested_ind x) (go l)
      end) l)
  | JObject l => object_case l ((fix go l : Forall (fun kv => P kv.2) l :=
      match l with
      | [] => Forall_nil_2 _
      | x :: l => Forall_cons_2 (fun kv => P kv.2) x l (json_nested_ind x.2) (go l)
      end) l)
  end.
End Induction.

Lemma member_elem name l v : member name l = Some v -> (name, v) ∈ l.
Proof.
  induction l as [|[k w] l IH]; [done|]. cbn. destruct (String.eqb_spec k name) as [->|].
  - intros [= ->]. by left.
  - intros H. right. auto.
Qed.

(** The length of the longest chain of nested values. *)
Fixpoint json_depth (v : json) : nat :=
  match v with
  | JArray l => S (list_max (map json_depth l))
  | JObject l => S (list_max (map (fun kv => json_depth kv.2) l))
  | _ => O
  end.
