(* ===== verification/Config.v ===== *)
(** * internal/config: the configuration

    The structs of types.go and trust.go.  A Go map is a finite map, a pointer an
    [option], a [config.Duration] a [duration] of which 0 is the absent one; a slice or
    a map whose nil is told from the empty one is an [option] of a list or a map.  [json.RawMessage] is its text.  A compiled [jsonschema.Schema] is
    represented by the canonical text it was compiled from. *)

From S2P Require Import Prelude.

(** A compiled schema of the jsonschema library. *)
Record Schema := { compiled_from : string }.

#[export] Instance Schema_eq_dec : EqDecision Schema.
Proof. solve_decision. Defined.

Module Serving.

(** [config.ServingCertificateConfig] *)
Record ServingCertificateConfig := {
  CertificateFile : string;
  PrivateKeyFile : string
}.

#[global] Instance eta_ServingCertificateConfig : Eta ServingCertificateConfig := fun x =>
  {|
     CertificateFile := CertificateFile x; PrivateKeyFile := PrivateKeyFile x
  |}.

End Serving.

Module DPoPc.

(** [config.DPoPConfig] *)
Record DPoPConfig := {
  Mode : string;
  SigningAlgorithm : string
}.

#[global] Instance eta_DPoPConfig : Eta DPoPConfig := fun x =>
  {|
     Mode := Mode x; SigningAlgorithm := SigningAlgorithm x
  |}.

End DPoPc.

Module Refreshc.

(** [config.RefreshTokenConfig]: refresh issuance and grant lifetimes. *)
Record RefreshTokenConfig := {
  Enabled : bool;
  AllowOfflineAccess : bool;
  SessionIdleTTL : duration;
  SessionAbsoluteTTL : duration;
  OfflineIdleTTL : duration;
  OfflineAbsoluteTTL : duration
}.

#[global] Instance eta_RefreshTokenConfig : Eta RefreshTokenConfig := fun x =>
  {|
     Enabled := Enabled x; AllowOfflineAccess := AllowOfflineAccess x; SessionIdleTTL :=
     SessionIdleTTL x; SessionAbsoluteTTL := SessionAbsoluteTTL x; OfflineIdleTTL :=
     OfflineIdleTTL x; OfflineAbsoluteTTL := OfflineAbsoluteTTL x
  |}.

End Refreshc.

Module Effective.

(** [config.EffectiveTrustBinding]: a compiled authorization rule. *)
Record EffectiveTrustBinding := {
  ID : string;
  Policy : string;
  Issuer : string;
  Subject : string;
  Groups : list string;
  Schema_ : Schema
}.

#[global] Instance eta_EffectiveTrustBinding : Eta EffectiveTrustBinding := fun x =>
  {|
     ID := ID x; Policy := Policy x; Issuer := Issuer x; Subject := Subject x; Groups :=
     Groups x; Schema_ := Schema_ x
  |}.

End Effective.

Module Binding.

(** [config.TrustBindingConfig]; a nil [Groups] differs from an empty one. *)
Record TrustBindingConfig := {
  ID : string;
  TrustPolicy : string;
  Subject : option string;
  Groups : option (list string);
  Claims : gmap string string;
  Effective_ : option Effective.EffectiveTrustBinding
}.

#[global] Instance eta_TrustBindingConfig : Eta TrustBindingConfig := fun x =>
  {|
     ID := ID x; TrustPolicy := TrustPolicy x; Subject := Subject x; Groups := Groups x;
     Claims := Claims x; Effective_ := Effective_ x
  |}.

End Binding.

Module Issuer.

(** [config.TrustIssuerConfig] *)
Record TrustIssuerConfig := {
  Provider : string;
  IssuerURL : string;
  SigningAlgs : list string;
  MaxTokenAge : duration
}.

#[global] Instance eta_TrustIssuerConfig : Eta TrustIssuerConfig := fun x =>
  {|
     Provider := Provider x; IssuerURL := IssuerURL x; SigningAlgs := SigningAlgs x;
     MaxTokenAge := MaxTokenAge x
  |}.

End Issuer.

Module Policy.

(** [config.TrustPolicyConfig] *)
Record TrustPolicyConfig := {
  Issuer : string;
  Subject : string;
  Groups : list string;
  RequiredClaims : gmap string string;
  Claims : gmap string string
}.

#[global] Instance eta_TrustPolicyConfig : Eta TrustPolicyConfig := fun x =>
  {|
     Issuer := Issuer x; Subject := Subject x; Groups := Groups x; RequiredClaims :=
     RequiredClaims x; Claims := Claims x
  |}.

End Policy.

Module Client.

(** [config.ClientConfig] *)
Record ClientConfig := {
  RedirectURIs : list string;
  UserGroupMapping : string;
  RequireUserGroupsFromPolicy : option bool;
  RefreshTokens : Refreshc.RefreshTokenConfig;
  TrustBindings : list Binding.TrustBindingConfig;
  DPoP : DPoPc.DPoPConfig;
  RequirePAR : bool
}.

#[global] Instance eta_ClientConfig : Eta ClientConfig := fun x =>
  {|
     RedirectURIs := RedirectURIs x; UserGroupMapping := UserGroupMapping x;
     RequireUserGroupsFromPolicy := RequireUserGroupsFromPolicy x; RefreshTokens :=
     RefreshTokens x; TrustBindings := TrustBindings x; DPoP := DPoP x; RequirePAR :=
     RequirePAR x
  |}.

End Client.

Module Static.

(** [config.StaticPolicyConfig]; nil redirect URIs and clients differ from empty ones. *)
Record StaticPolicyConfig := {
  RequireUserGroupsFromPolicy : option bool;
  DefaultRedirectURIs : option (list string);
  UserGroupMappings : gmap string (gmap string (list string));
  TrustPolicies : gmap string Policy.TrustPolicyConfig;
  Clients : option (gmap string Client.ClientConfig)
}.

#[global] Instance eta_StaticPolicyConfig : Eta StaticPolicyConfig := fun x =>
  {|
     RequireUserGroupsFromPolicy := RequireUserGroupsFromPolicy x; DefaultRedirectURIs
     := DefaultRedirectURIs x; UserGroupMappings := UserGroupMappings x; TrustPolicies
     := TrustPolicies x; Clients := Clients x
  |}.

End Static.

Module Defaults.

(** [config.PolicyClientDefaults] *)
Record PolicyClientDefaults := {
  RequireUserGroupsFromPolicy : option bool;
  RefreshTokens : Refreshc.RefreshTokenConfig;
  DPoP : DPoPc.DPoPConfig;
  RequirePAR : bool
}.

#[global] Instance eta_PolicyClientDefaults : Eta PolicyClientDefaults := fun x =>
  {|
     RequireUserGroupsFromPolicy := RequireUserGroupsFromPolicy x; RefreshTokens :=
     RefreshTokens x; DPoP := DPoP x; RequirePAR := RequirePAR x
  |}.

End Defaults.

Module Queries.

(** [config.PolicyQueries]: an empty query is disabled. *)
Record PolicyQueries := {
  ClientExists : string;
  UserAccess : string;
  TrustIssuer : string;
  TrustBindings : string
}.

#[global] Instance eta_PolicyQueries : Eta PolicyQueries := fun x =>
  {|
     ClientExists := ClientExists x; UserAccess := UserAccess x; TrustIssuer :=
     TrustIssuer x; TrustBindings := TrustBindings x
  |}.

End Queries.

Module Lookup.

(** [config.ClientLookupCacheConfig] *)
Record ClientLookupCacheConfig := {
  TTL : duration;
  NegativeTTL : duration;
  MaxEntries : Z
}.

#[global] Instance eta_ClientLookupCacheConfig : Eta ClientLookupCacheConfig := fun x =>
  {|
     TTL := TTL x; NegativeTTL := NegativeTTL x; MaxEntries := MaxEntries x
  |}.

End Lookup.

Module PolicyDB.

(** [config.PolicyDatabaseConfig]; [PolicyBuildCache] is its one field [MaxEntries]. *)
Record PolicyDatabaseConfig := {
  Driver : string;
  ConnectionStringSecret : string;
  RedirectURIs : list string;
  ClientDefaults : Defaults.PolicyClientDefaults;
  Queries_ : Queries.PolicyQueries;
  ClientLookupCache : Lookup.ClientLookupCacheConfig;
  PolicyBuildCache : Z;
  QueryTimeout : duration;
  MaxConnections : Z;
  MaxTrustRows : Z;
  MaxGroups : Z;
  MaxGroupBytes : Z;
  MaxJSONBytes : Z
}.

#[global] Instance eta_PolicyDatabaseConfig : Eta PolicyDatabaseConfig := fun x =>
  {|
     Driver := Driver x; ConnectionStringSecret := ConnectionStringSecret x;
     RedirectURIs := RedirectURIs x; ClientDefaults := ClientDefaults x; Queries_ :=
     Queries_ x; ClientLookupCache := ClientLookupCache x; PolicyBuildCache :=
     PolicyBuildCache x; QueryTimeout := QueryTimeout x; MaxConnections :=
     MaxConnections x; MaxTrustRows := MaxTrustRows x; MaxGroups := MaxGroups x;
     MaxGroupBytes := MaxGroupBytes x; MaxJSONBytes := MaxJSONBytes x
  |}.

End PolicyDB.

Module Generic.

(** [config.GenericConfig]; [Refresh] is config.GenericRefreshConfig, scopes and authorization parameters. *)
Record GenericConfig := {
  AuthorizationURL : string;
  TokenURL : string;
  UserinfoURL : string;
  EmailField : string;
  EmailVerifiedField : string;
  SubjectField : string;
  Refresh : option (list string * gmap string string)
}.

#[global] Instance eta_GenericConfig : Eta GenericConfig := fun x =>
  {|
     AuthorizationURL := AuthorizationURL x; TokenURL := TokenURL x; UserinfoURL :=
     UserinfoURL x; EmailField := EmailField x; EmailVerifiedField := EmailVerifiedField
     x; SubjectField := SubjectField x; Refresh := Refresh x
  |}.

End Generic.

Module Connectorc.

(** [config.ConnectorConfig]; [Google] and [GitHub] are their one field. *)
Record ConnectorConfig := {
  Type_ : string;
  DisplayName : string;
  Order : Z;
  CredentialsSecret : string;
  Scopes : list string;
  Google : option string;
  GitHub : option string;
  Generic_ : option Generic.GenericConfig
}.

#[global] Instance eta_ConnectorConfig : Eta ConnectorConfig := fun x =>
  {|
     Type_ := Type_ x; DisplayName := DisplayName x; Order := Order x; CredentialsSecret
     := CredentialsSecret x; Scopes := Scopes x; Google := Google x; GitHub := GitHub x;
     Generic_ := Generic_ x
  |}.

End Connectorc.

Module SMTPc.

(** [config.SMTPConfig] *)
Record SMTPConfig := {
  Host : string;
  Port : Z;
  FromName : string;
  FromAddress : string;
  CredentialsSecret : string;
  TLSMode : string
}.

#[global] Instance eta_SMTPConfig : Eta SMTPConfig := fun x =>
  {|
     Host := Host x; Port := Port x; FromName := FromName x; FromAddress := FromAddress
     x; CredentialsSecret := CredentialsSecret x; TLSMode := TLSMode x
  |}.

End SMTPc.

Module RemoteIPc.

(** [config.TurnstileRemoteIPConfig] *)
Record TurnstileRemoteIPConfig := {
  Source : string;
  Header : string
}.

#[global] Instance eta_TurnstileRemoteIPConfig : Eta TurnstileRemoteIPConfig := fun x =>
  {|
     Source := Source x; Header := Header x
  |}.

End RemoteIPc.

Module Turnstilec.

(** [config.TurnstileConfig] *)
Record TurnstileConfig := {
  SiteKey : string;
  SecretName : string;
  RemoteIP : option RemoteIPc.TurnstileRemoteIPConfig
}.

#[global] Instance eta_TurnstileConfig : Eta TurnstileConfig := fun x =>
  {|
     SiteKey := SiteKey x; SecretName := SecretName x; RemoteIP := RemoteIP x
  |}.

End Turnstilec.

Module Email.

(** [config.EmailConfig] *)
Record EmailConfig := {
  VerificationMode : string;
  OTPSecretName : string;
  OTPTTL : duration;
  SMTP : option SMTPc.SMTPConfig;
  Turnstile : option Turnstilec.TurnstileConfig
}.

#[global] Instance eta_EmailConfig : Eta EmailConfig := fun x =>
  {|
     VerificationMode := VerificationMode x; OTPSecretName := OTPSecretName x; OTPTTL :=
     OTPTTL x; SMTP := SMTP x; Turnstile := Turnstile x
  |}.

End Email.

Module StateDB.

(** [config.StateDatabaseConfig]; [Migrations] is its one field. *)
Record StateDatabaseConfig := {
  Driver : string;
  Path : string;
  ConnectionStringSecret : string;
  MaxConnections : Z;
  QueryTimeout : duration;
  Migrations : option string
}.

#[global] Instance eta_StateDatabaseConfig : Eta StateDatabaseConfig := fun x =>
  {|
     Driver := Driver x; Path := Path x; ConnectionStringSecret :=
     ConnectionStringSecret x; MaxConnections := MaxConnections x; QueryTimeout :=
     QueryTimeout x; Migrations := Migrations x
  |}.

End StateDB.

Module Secretsc.

(** [config.SecretsConfig] *)
Record SecretsConfig := {
  Provider : string;
  SigningKeyName : string;
  EncryptionKeyName : string;
  AWSRegion : string;
  AzureKeyVaultURL : string;
  FileDirectory : string
}.

#[global] Instance eta_SecretsConfig : Eta SecretsConfig := fun x =>
  {|
     Provider := Provider x; SigningKeyName := SigningKeyName x; EncryptionKeyName :=
     EncryptionKeyName x; AWSRegion := AWSRegion x; AzureKeyVaultURL := AzureKeyVaultURL
     x; FileDirectory := FileDirectory x
  |}.

End Secretsc.

Module Config.

(** [config.Config] *)
Record Config := {
  Schema_ : string;
  IssuerURL : string;
  HomepageURL : string;
  HTTPListenAddr : string;
  ServingCertificate : option Serving.ServingCertificateConfig;
  SigningAlgorithm : string;
  JWKSKID : string;
  AccessTokenTTL : duration;
  IDTokenTTL : duration;
  Secrets_ : Secretsc.SecretsConfig;
  UserLoginConnectors : gmap string Connectorc.ConnectorConfig;
  ServiceTokenIssuers : gmap string Issuer.TrustIssuerConfig;
  TemplatesDir : string;
  Email_ : option Email.EmailConfig;
  StaticPolicy : Static.StaticPolicyConfig;
  StateDatabase : option StateDB.StateDatabaseConfig;
  PolicyDatabase : option PolicyDB.PolicyDatabaseConfig
}.

#[global] Instance eta_Config : Eta Config := fun x =>
  {|
     Schema_ := Schema_ x; IssuerURL := IssuerURL x; HomepageURL := HomepageURL x;
     HTTPListenAddr := HTTPListenAddr x; ServingCertificate := ServingCertificate x;
     SigningAlgorithm := SigningAlgorithm x; JWKSKID := JWKSKID x; AccessTokenTTL :=
     AccessTokenTTL x; IDTokenTTL := IDTokenTTL x; Secrets_ := Secrets_ x;
     UserLoginConnectors := UserLoginConnectors x; ServiceTokenIssuers :=
     ServiceTokenIssuers x; TemplatesDir := TemplatesDir x; Email_ := Email_ x;
     StaticPolicy := StaticPolicy x; StateDatabase := StateDatabase x; PolicyDatabase :=
     PolicyDatabase x
  |}.

End Config.

(** The static clients and the shared redirect URIs, as ranging over them sees them. *)
Definition static_clients (static : Static.StaticPolicyConfig) : gmap string Client.ClientConfig :=
  default ∅ (Static.Clients static).
Definition default_redirects (static : Static.StaticPolicyConfig) : list string :=
  default [] (Static.DefaultRedirectURIs static).

(** [ShouldRequireUserGroupsFromPolicy]: the client's setting, then the policy's,
    then [true]. *)
Definition ShouldRequireUserGroupsFromPolicy (c : Client.ClientConfig) (policyDefault : option bool)
  : bool :=
  match Client.RequireUserGroupsFromPolicy c with
  | Some required => required
  | None =>
      match policyDefault with
      | Some required => required
      | None => true
      end
  end.

(** The zero values of the structs. *)
Definition zero_refresh_config : Refreshc.RefreshTokenConfig :=
  {| Refreshc.Enabled := false; Refreshc.AllowOfflineAccess := false;
     Refreshc.SessionIdleTTL := 0; Refreshc.SessionAbsoluteTTL := 0;
     Refreshc.OfflineIdleTTL := 0; Refreshc.OfflineAbsoluteTTL := 0 |}.
Definition zero_client : Client.ClientConfig :=
  {| Client.RedirectURIs := []; Client.UserGroupMapping := "";
     Client.RequireUserGroupsFromPolicy := None; Client.RefreshTokens := zero_refresh_config;
     Client.TrustBindings := [];
     Client.DPoP := {| DPoPc.Mode := ""; DPoPc.SigningAlgorithm := "" |};
     Client.RequirePAR := false |}.
Definition zero_issuer : Issuer.TrustIssuerConfig :=
  {| Issuer.Provider := ""; Issuer.IssuerURL := ""; Issuer.SigningAlgs := [];
     Issuer.MaxTokenAge := 0 |}.
Definition zero_effective : Effective.EffectiveTrustBinding :=
  {| Effective.ID := ""; Effective.Policy := ""; Effective.Issuer := ""; Effective.Subject := "";
     Effective.Groups := []; Effective.Schema_ := {| compiled_from := "" |} |}.
Definition zero_policy : Policy.TrustPolicyConfig :=
  {| Policy.Issuer := ""; Policy.Subject := ""; Policy.Groups := [];
     Policy.RequiredClaims := ∅; Policy.Claims := ∅ |}.
Definition zero_static : Static.StaticPolicyConfig :=
  {| Static.RequireUserGroupsFromPolicy := None; Static.DefaultRedirectURIs := None;
     Static.UserGroupMappings := ∅; Static.TrustPolicies := ∅; Static.Clients := None |}.
Definition zero_secrets : Secretsc.SecretsConfig :=
  {| Secretsc.Provider := ""; Secretsc.SigningKeyName := ""; Secretsc.EncryptionKeyName := "";
     Secretsc.AWSRegion := ""; Secretsc.AzureKeyVaultURL := ""; Secretsc.FileDirectory := "" |}.
Definition zero_config : Config.Config :=
  {| Config.Schema_ := ""; Config.IssuerURL := ""; Config.HomepageURL := ""; Config.HTTPListenAddr := "";
     Config.ServingCertificate := None; Config.SigningAlgorithm := ""; Config.JWKSKID := "";
     Config.AccessTokenTTL := 0; Config.IDTokenTTL := 0; Config.Secrets_ := zero_secrets;
     Config.UserLoginConnectors := ∅; Config.ServiceTokenIssuers := ∅; Config.TemplatesDir := "";
     Config.Email_ := None; Config.StaticPolicy := zero_static; Config.StateDatabase := None;
     Config.PolicyDatabase := None |}.
