(* ===== verification/Upstream.v ===== *)
(** * internal/upstream: credentials and errors of the login providers

    connector.go and error.go.  The providers themselves ([Connector]) are behind an
    interface of the refresh service; an [oauth2.Token] is the value the oauth2
    library hands over, with its untyped extra fields. *)

From S2P Require Import Prelude Runtime.

(** ** Extra values of a token response *)

(** The dynamic types [extraSeconds] distinguishes.  A float64 is [m * 2 ^ e]; the
    other dynamic types are [AnyOther]. *)
Inductive any :=
  | AnyNil
  | AnyFloat64 (m e : Z)
  | AnyInt64 (n : Z)
  | AnyNumber (text : string)
  | AnyString (s : string)
  | AnyOther.

(** The int64 conversion truncates towards zero; out of range its result is chosen by
    the implementation. *)
Class FloatConversion := overflowing_float : Z -> Z -> Z.

Definition float_trunc (m e : Z) : Z :=
  if 0 <=? e then m * 2 ^ e else Z.quot m (2 ^ (- e)).

Definition int64_of_float `{FloatConversion} (m e : Z) : Z :=
  let z := float_trunc m e in
  if (min_int64 <=? z) && (z <=? max_int64) then z else overflowing_float m e.

Definition extraSeconds `{FloatConversion} (value : any) : Z * bool :=
  let parsed text := match parse_int64 text with
                     | Some n => (n, 0 <? n)
                     | None => (0, false)
                     end in
  match value with
  | AnyFloat64 m e => (int64_of_float m e, 0 <? m)
  | AnyInt64 n => (n, 0 <? n)
  | AnyNumber text => parsed text
  | AnyString text => parsed text
  | _ => (0, false)
  end.

(** ** Credentials *)

Module OAuth2.

(** [oauth2.Token] of the oauth2 library, as far as the code reads it *)
Record Token := {
  AccessToken : string;
  TokenType : string;
  RefreshToken : string;
  Expiry : time;
  Extra : string -> any
}.

End OAuth2.

Module Cred.

(** [upstream.Credential] *)
Record Credential := {
  AccessToken : string;
  TokenType : string;
  RefreshToken : string;
  AccessExpiry : time;
  RefreshExpiry : time;
  AccessNonExpiring : bool
}.

#[global] Instance eta_Credential : Eta Credential := fun x =>
  {|
     AccessToken := AccessToken x; TokenType := TokenType x; RefreshToken :=
     RefreshToken x; AccessExpiry := AccessExpiry x; RefreshExpiry := RefreshExpiry x;
     AccessNonExpiring := AccessNonExpiring x
  |}.

End Cred.

Definition zero_credential : Cred.Credential :=
  {| Cred.AccessToken := ""; Cred.TokenType := ""; Cred.RefreshToken := "";
     Cred.AccessExpiry := zero_time; Cred.RefreshExpiry := zero_time;
     Cred.AccessNonExpiring := false |}.

Definition OAuthToken (c : Cred.Credential) : OAuth2.Token :=
  {| OAuth2.AccessToken := Cred.AccessToken c; OAuth2.TokenType := Cred.TokenType c;
     OAuth2.RefreshToken := Cred.RefreshToken c; OAuth2.Expiry := Cred.AccessExpiry c;
     OAuth2.Extra := fun _ => AnyNil |}.

(** [now.Add(time.Duration(seconds) * time.Second)]: the product is an int64. *)
Definition after_seconds (now : time) (seconds : Z) : time := add now (wrap64 (seconds * second)).

(** The loop over the names of the refresh lifetime, left at the first usable one. *)
Fixpoint refresh_lifetime `{FloatConversion} (token : OAuth2.Token) (names : list string) : option Z :=
  match names with
  | [] => None
  | name :: names =>
      let '(seconds, ok) := extraSeconds (OAuth2.Extra token name) in
      if ok then Some seconds else refresh_lifetime token names
  end.

Definition NormalizeCredential `{FloatConversion} (token : OAuth2.Token) (now : time)
    (accessNonExpiring : bool) : Cred.Credential :=
  let c := {| Cred.AccessToken := OAuth2.AccessToken token; Cred.TokenType := OAuth2.TokenType token;
              Cred.RefreshToken := OAuth2.RefreshToken token;
              Cred.AccessExpiry := OAuth2.Expiry token; Cred.RefreshExpiry := zero_time;
              Cred.AccessNonExpiring := accessNonExpiring && is_zero (OAuth2.Expiry token) |} in
  let c := match refresh_lifetime token ["refresh_expires_in"; "refresh_token_expires_in"] with
           | Some seconds => c <| Cred.RefreshExpiry := after_seconds now seconds |>
           | None => c
           end in
  if is_zero (Cred.AccessExpiry c) then
    let '(seconds, ok) := extraSeconds (OAuth2.Extra token "expires_in") in
    if ok then c <| Cred.AccessExpiry := after_seconds now seconds |>
                 <| Cred.AccessNonExpiring := false |>
    else c
  else c.

Module Identity.

(** [upstream.Email] and [upstream.Identity] *)
Record Email := { Address : string; Verified : bool; Primary : bool }.
Record Identity := { Subject : string; Emails : list Email }.

End Identity.

(** ** Errors *)

Definition ErrorUnauthorized := "unauthorized".
Definition ErrorNoRotation := "definitive_no_rotation".
Definition ErrorConfiguration := "configuration".
Definition ErrorTerminal := "terminal".
Definition ErrorRateLimit := "rate_limit".
Definition ErrorTemporary := "temporary".

(** [errors.As] for the two typed errors: the first of its type in the chain. *)
Fixpoint as_connector_error (err : error) : option (string * string * string) :=
  match err with
  | ConnectorError kind retry operation => Some (kind, retry, operation)
  | Wrapped _ e | IndeterminateError e => as_connector_error e
  | _ => None
  end.
Fixpoint as_retrieve_error (err : error) : option (string * option (Z * string)) :=
  match err with
  | RetrieveError code response => Some (code, response)
  | Wrapped _ e | IndeterminateError e => as_retrieve_error e
  | _ => None
  end.

Definition ClassifyHTTPStatus (operation : string) (status : Z) (retryAfter : string) : error :=
  let kind := if status =? 401 then ErrorUnauthorized
              else if status =? 429 then ErrorRateLimit
              else ErrorTemporary in
  ConnectorError kind retryAfter operation.

Definition ClassifyError (operation : string) (err : option error) : option error :=
  match err with
  | None => None
  | Some err =>
      Some (match as_connector_error err with
      | Some (kind, retry, op) => ConnectorError kind retry op
      | None =>
          match as_retrieve_error err with
          | Some (code, response) =>
              let status := match response with Some (status, _) => status | None => 0 end in
              let kind := if (code =? "invalid_grant")%string then ErrorNoRotation
                          else if (code =? "invalid_client")%string then ErrorConfiguration
                          else if (code =? "access_denied")%string then ErrorTerminal
                          else if (code =? "invalid_token")%string || (status =? 401)
                               then ErrorUnauthorized
                          else if status =? 429 then ErrorRateLimit
                          else ErrorTemporary in
              let retry := match response with Some (_, retry) => retry | None => "" end in
              ConnectorError kind retry operation
          | None => ConnectorError ErrorTemporary "" operation
          end
      end)
  end.

Definition ErrorInfo (err : error) : string * string :=
  match as_connector_error err with
  | Some (kind, retry, _) => (kind, retry)
  | None => (ErrorTemporary, "")
  end.

(** ** Properties *)

(** What the contract of a connector asks of its errors. *)
Definition classified (err : error) : Prop :=
  exists kind retry operation, err = ConnectorError kind retry operation.

Lemma ClassifyError_classified operation err :
  exists err', ClassifyError operation (Some err) = Some err' /\ classified err'.
Proof.
  unfold classified. cbn. destruct (as_connector_error err) as [[[k r] o]|]; [by eauto 6|].
  destruct (as_retrieve_error err) as [[code response]|]; eauto 6.
Qed.

Lemma ErrorInfo_ClassifyError operation err :
  forall err', ClassifyError operation (Some err) = Some err' ->
  as_connector_error err <> None -> ErrorInfo err' = ErrorInfo err.
Proof.
  unfold ErrorInfo. cbn. intros err' [= <-] Hc.
  by destruct (as_connector_error err) as [[[k r] o]|].
Qed.

(** The seconds of a lifetime whose nanoseconds fit a [time.Duration]. *)
Definition fits_duration (seconds : Z) : Prop := 0 < seconds <= max_int64 / second.

Lemma after_seconds_exact now seconds :
  fits_duration seconds -> after_seconds now seconds = now + seconds * second.
Proof.
  unfold fits_duration, after_seconds, add, second, max_int64. intros Hs.
  rewrite wrap64_small; [done|]. unfold min_int64, max_int64.
  assert (seconds <= 9223372036) by (etransitivity; [apply Hs | vm_compute; discriminate]). lia.
Qed.
