(* ===== verification/Credentials.v ===== *)
(** * internal/statedb/refresh.go: encryption of credentials

    A stored credential is sealed with AES-256-GCM under a key derived from the
    secret half of the refresh token, which the store does not keep; a temporary one
    under the configured master key.  The authenticated data is [credentialAAD]. *)

From S2P Require Import Prelude Runtime Sha256 ReplayCache Schema RefreshToken.

(** [cipher.NewGCM(aes.NewCipher(key))]: [Seal] and [Open] of a key, a nonce, a text
    and the authenticated data. *)
Class AEAD := {
  seal : string -> string -> string -> string -> string;
  open : string -> string -> string -> string -> option string
}.

(** What the code relies on: [Open] answers exactly the ciphertexts that [Seal] makes
    under the same key, nonce and authenticated data, with their plaintext. *)
Class AEADLaws `{AEAD} : Prop :=
  open_seal : forall key nonce c aad p,
    open key nonce c aad = Some p <-> c = seal key nonce p aad.

Definition gcm_nonce_size : nat := 12.

(** [aes.NewCipher] accepts keys of 16, 24 and 32 bytes. *)
Definition aes_key (key : string) : bool :=
  existsb (Nat.eqb (String.length key)) [16; 24; 32]%nat.

Definition deriveCredentialKey (secret : string) : string :=
  hkdf_sha256_32 secret "truster upstream credential v1".

Section Encryption.
Context `{Env} `{AEAD}.

Definition encrypt (op key flowID clientID connectorID plaintext : string)
  : World -> (string * string * option error) * World :=
  run (
  return_if (negb (aes_key key))
    ("", "", Some (Wrapped ("create " +:+ op +:+ " cipher") (Errorf "aes"))) ;;
  nonce ← rand_read gcm_nonce_size
            ("", "", Some (Wrapped ("generate " +:+ op +:+ " nonce") (Errorf "rand")));
  mret (nonce, seal key nonce plaintext (credentialAAD flowID clientID connectorID), None)).

Definition decrypt (op key flowID clientID connectorID nonce ciphertext : string)
  : string * option error :=
  if negb (aes_key key) then ("", Some (Wrapped ("create " +:+ op +:+ " cipher") (Errorf "aes")))
  else match open key nonce ciphertext (credentialAAD flowID clientID connectorID) with
       | Some plain => (plain, None)
       | None => ("", Some ErrInvalidGrant)
       end.

Definition EncryptTemporaryCredential (key flowID clientID connectorID plaintext : string) :=
  encrypt "temporary credential" key flowID clientID connectorID plaintext.
Definition DecryptTemporaryCredential (key flowID clientID connectorID nonce ciphertext : string) :=
  decrypt "temporary credential" key flowID clientID connectorID nonce ciphertext.

Definition EncryptCredential (secret sid clientID connectorID plaintext : string) :=
  encrypt "credential" (deriveCredentialKey secret) sid clientID connectorID plaintext.
Definition DecryptCredential (secret sid clientID connectorID nonce ciphertext : string) :=
  decrypt "credential" (deriveCredentialKey secret) sid clientID connectorID nonce ciphertext.
End Encryption.

(** ** Properties *)

Lemma length_hkdf secret info : String.length (hkdf_sha256_32 secret info) = 32%nat.
Proof.
  unfold hkdf_sha256_32, hmac_bytes. cbv zeta. by rewrite length_bytes_string, length_sha256_bytes.
Qed.

Lemma derived_key_ok secret : aes_key (deriveCredentialKey secret) = true.
Proof. unfold aes_key, deriveCredentialKey. by rewrite length_hkdf. Qed.

(** What encryption leaves: nothing but consumed randomness; and what it returns. *)
Lemma encrypt_spec `{Env} `{AEAD} op key sid client conn plain w :
  ends (encrypt op key sid client conn plain) w (fun '(nonce, c, err) w' =>
    w_db w' = w_db w /\
    (err = None -> c = seal key nonce plain (credentialAAD sid client conn)
                   /\ String.length nonce = gcm_nonce_size /\ aes_key key = true)).
Proof.
  unfold encrypt. repeat store_step.
  - split; [done | discriminate].
  - split; [done | discriminate].
  - split; [done|]. intros _. repeat split; [done|]. by destruct (aes_key key).
Qed.

(** A credential encrypted with a token's secret for a session, client and connector
    is what the same secret and context decrypt. *)
Lemma decrypt_encrypt `{Env} `{AEADLaws} op op' key sid client conn plain w nonce c w' :
  encrypt op key sid client conn plain w = ((nonce, c, None), w') ->
  decrypt op' key sid client conn nonce c = (plain, None).
Proof.
  intros He. pose proof (encrypt_spec op key sid client conn plain w) as Hs.
  unfold ends in Hs. rewrite He in Hs. destruct Hs as [_ Hs].
  destruct (Hs eq_refl) as (-> & _ & Hk). unfold decrypt. rewrite Hk. cbn [negb].
  by rewrite (proj2 (open_seal key nonce _ _ plain) eq_refl).
Qed.

Lemma decrypt_sealed `{AEADLaws} op key sid client conn nonce plain :
  aes_key key = true ->
  decrypt op key sid client conn nonce (seal key nonce plain (credentialAAD sid client conn))
  = (plain, None).
Proof.
  intros Hk. unfold decrypt. rewrite Hk. cbn [negb].
  by rewrite (proj2 (open_seal key nonce _ _ plain) eq_refl).
Qed.

(** Whatever decrypts was sealed with exactly this key and context. *)
Lemma decrypt_authentic `{AEADLaws} op key sid client conn nonce c plain :
  decrypt op key sid client conn nonce c = (plain, None) ->
  c = seal key nonce plain (credentialAAD sid client conn).
Proof.
  unfold decrypt. destruct (aes_key key); [|discriminate]. cbn [negb].
  destruct (open _ _ _ _) as [p|] eqn:Ho; [|discriminate]. intros [= ->].
  by apply open_seal.
Qed.

(** ** A cipher for concrete inputs

    It satisfies the laws: the key, the nonce and the authenticated data precede the
    text. *)
Definition plain_header (key nonce aad : string) : string :=
  delimited key +:+ delimited nonce +:+ delimited aad.
Definition plain_aead : AEAD := {|
  seal := fun key nonce p aad => plain_header key nonce aad +:+ p;
  open := fun key nonce c aad =>
    let h := plain_header key nonce aad in
    if has_prefix c h then Some (drop_bytes (String.length h) c) else None
|}.

Lemma plain_aead_laws : @AEADLaws plain_aead.
Proof.
  intros key nonce c aad p. cbn. split.
  - destruct (has_prefix _ _) eqn:Hp; [|done]. intros [= <-]. by apply has_prefix_split.
  - intros ->. by rewrite has_prefix_append, drop_bytes_append.
Qed.
