(* ===== verification/Tokens.v ===== *)
(** * internal/tokens: the claims of the issued tokens

    signer.go and kid.go.  Signing, parsing and the serialisation of a claim are the
    jwx library's; the claims, and the checks made on a verified token, are the
    program's. *)

From S2P Require Import Prelude Runtime Base64 Sha256 ReplayCache Schema Json.

Module Ctx.

(** [tokens.TokenContext] *)
Record TokenContext := {
  Email : string;
  EmailVerified : bool;
  ClientID : string;
  Groups : list string;
  Nonce : string;
  SID : string;
  Scopes : string;
  AuthTime : time;
  IDExpiry : time;
  AccessExpiry : time;
  DPoPJKT : string
}.

(** [tokens.TrustedTokenContext] *)
Record TrustedTokenContext := {
  Subject : string;
  TrustedClientID : string;
  UpstreamIssuer : string;
  UpstreamSubject : string;
  TrustedGroups : list string;
  Expiry : time
}.

End Ctx.

(** The Go values of the map of claims handed to the library. *)
Inductive claim :=
  | CString (s : string)
  | CBool (b : bool)
  | CInt (n : Z)
  | CTime (t : time)
  | CStrings (l : list string)
  | CMap (m : gmap string string).

#[export] Instance claim_eq_dec : EqDecision claim.
Proof. solve_decision. Defined.

Definition claims := gmap string claim.

(** [tokens.SigningKey]: the algorithm and the two halves of the key *)
Record SigningKey := { Algorithm : string; PrivateKey : string; PublicKey : string }.

(** [tokens.Signer] *)
Record Signer := {
  signingKey : SigningKey;
  kid : string;
  issuerURL : string;
  tokenTTL : duration
}.

(** A parsed token: the registered claims as the library types them, and [Get] of the
    other ones. *)
Record Token := {
  tok_issuer : string;
  tok_subject : string;
  tok_audience : list string;
  tok_expiration : time;
  tok_issued_at : time;
  tok_get : string -> option json
}.

(** The jwx library: whether [Set] takes a claim, signing under a key and key id, and
    the parse of a token at a reading of the clock under a key and issuer, with the
    expiration required. *)
Class JWT := {
  jwt_accepts : string -> claim -> bool;
  jwt_accepts_kid : string -> bool;
  jwt_sign : SigningKey -> string -> claims -> option string;
  jwt_parse : SigningKey -> string -> time -> string -> option Token
}.

(** [x509.MarshalPKIXPublicKey] *)
Class PKIX := marshal_public_key : string -> option string.

(** ** Names *)

Definition NormalizeEmail `{Env} (email : string) : string := to_lower (trim_space email).

Definition ExtractUsername (email : string) : string :=
  match split_on "@" email with
  | part :: _ => part
  | [] => email
  end.

(** [t.Unix()]: the seconds of an instant, rounded down. *)
Definition unix (t : time) : Z := t / second.

(** ** Signing *)

Section Signing.
Context `{Env} `{JWT}.

(** The map of claims [signContext] builds, in the order of its assignments. *)
Definition context_claims (s : Signer) (context : Ctx.TokenContext) (identity : bool)
    (now : time) (jti : string) : claims :=
  let user (c : claims) : claims :=
    <["groups" := CStrings (Ctx.Groups context)]>
    (<["preferred_username" := CString (ExtractUsername (Ctx.Email context))]>
    (<["email_verified" := CBool (Ctx.EmailVerified context)]>
    (<["email" := CString (Ctx.Email context)]> c))) in
  let c : claims := {["iss" := CString (issuerURL s); "aud" := CString (Ctx.ClientID context);
             "sub" := CString (NormalizeEmail (Ctx.Email context)); "iat" := CTime now]} in
  let c := <["exp" := CTime (if identity then Ctx.IDExpiry context
                             else Ctx.AccessExpiry context)]> c in
  let c := <["jti" := CString jti]> c in
  let c := if negb (is_empty (Ctx.SID context)) then <["sid" := CString (Ctx.SID context)]> c else c in
  if identity then
    let c := <["auth_time" := CInt (unix (Ctx.AuthTime context))]> (user c) in
    if negb (is_empty (Ctx.Nonce context)) then <["nonce" := CString (Ctx.Nonce context)]> c else c
  else
    let c := <["scope" := CString (Ctx.Scopes context)]> c in
    let c := if negb (is_empty (Ctx.DPoPJKT context))
             then <["cnf" := CMap {["jkt" := Ctx.DPoPJKT context]}]> c else c in
    user c.

(** The loop of [token.Set] over the claims, the header and [jwt.Sign]. *)
Definition sign_claims (s : Signer) (c : claims) (op : string) : string * option error :=
  if negb (forallb (fun kv => jwt_accepts kv.1 kv.2) (map_to_list c))
  then ("", Some (Wrapped "set claim" (Errorf "jwx")))
  else if negb (jwt_accepts_kid (kid s)) then ("", Some (Errorf "set kid"))
  else match jwt_sign (signingKey s) (kid s) c with
       | Some signed => (signed, None)
       | None => ("", Some (Wrapped op (Errorf "jwx")))
       end.

Definition signContext (s : Signer) (context : Ctx.TokenContext) (identity : bool)
  : World -> (string * option error) * World := run (
  now ← now_;
  jti ← rand_read 16 ("", Some (Wrapped "generate jti" (Errorf "rand")));
  mret (sign_claims s (context_claims s context identity now (Base64.encode jti))
          "failed to sign token")).

Definition SignTokenPair (s : Signer) (context : Ctx.TokenContext)
  : World -> (string * string * option error) * World := run (
  '(id, err) ← call (signContext s context true);
  match err with
  | Some e => return_ ("", "", Some e)
  | None =>
      '(access, err) ← call (signContext s context false);
      match err with
      | Some e => return_ ("", "", Some e)
      | None => mret (id, access, None)
      end
  end).

Definition trusted_claims (s : Signer) (context : Ctx.TrustedTokenContext) (now : time)
    (jti : string) : claims :=
  {["iss" := CString (issuerURL s); "sub" := CString (Ctx.Subject context);
    "aud" := CString (Ctx.TrustedClientID context); "iat" := CTime now;
    "exp" := CTime (Ctx.Expiry context); "jti" := CString jti;
    "groups" := CStrings (Ctx.TrustedGroups context);
    "upstream_issuer" := CString (Ctx.UpstreamIssuer context);
    "upstream_subject" := CString (Ctx.UpstreamSubject context)]}.

Definition SignTrustedIDToken (s : Signer) (context : Ctx.TrustedTokenContext)
  : World -> (string * option error) * World := run (
  now ← now_;
  jti ← rand_read 16 ("", Some (Wrapped "generate jti" (Errorf "rand")));
  mret (sign_claims s (trusted_claims s context now (Base64.encode jti)) "sign trusted token")).

Definition SignIDToken (s : Signer) (email : string) (emailVerified : bool) (clientID : string)
    (groups : list string) (nonce : string) : World -> (string * option error) * World := run (
  now ← now_;
  let c : claims := {["iss" := CString (issuerURL s); "aud" := CString clientID;
             "sub" := CString (NormalizeEmail email); "email" := CString email;
             "email_verified" := CBool emailVerified;
             "preferred_username" := CString (ExtractUsername email);
             "groups" := CStrings groups; "iat" := CTime now;
             "exp" := CTime (add now (tokenTTL s))]} in
  let c := if negb (is_empty nonce) then <["nonce" := CString nonce]> c else c in
  mret (sign_claims s c "failed to sign token")).

(** ** Verification *)

Definition VerifyToken (s : Signer) (token : string)
  : World -> (option Token * option error) * World := run (
  now ← now_;
  match jwt_parse (signingKey s) (issuerURL s) now token with
  | Some verified => mret (Some verified, None)
  | None => return_ (None, Some (Wrapped "failed to verify token" (Errorf "jwx")))
  end).

(** [strings.TrimSpace(fmt.Sprint(scope)) == ""]: only a blank string prints blank. *)
Definition prints_blank (v : json) : bool :=
  match v with JString s => is_empty (trim_space s) | _ => false end.

Definition VerifyAccessToken (s : Signer) (raw : string)
  : World -> (option Token * option error) * World := run (
  '(token, err) ← call (VerifyToken s raw);
  match token with
  | None => return_ (None, err)
  | Some token =>
      return_if (negb (Z.of_nat (length (tok_audience token)) =? 1))
        (None, Some (Errorf "access token must have exactly one audience")) ;;
      match tok_get token "scope" with
      | None => return_ (None, Some (Errorf "token is not an access token"))
      | Some scope =>
          return_if (prints_blank scope) (None, Some (Errorf "token is not an access token")) ;;
          mret (Some token, None)
      end
  end).
End Signing.

Definition HasAudience (token : Token) (required : string) : bool :=
  mem required (tok_audience token).

(** [DPoPThumbprint]: a typed [cnf.jkt], absent when there is no [cnf]. *)
Definition DPoPThumbprint (token : Token) : string * option error :=
  match tok_get token "cnf" with
  | None => ("", None)
  | Some (JObject cnf) =>
      match member "jkt" cnf with
      | Some (JString jkt) =>
          if is_empty jkt || negb (Z.of_nat (length cnf) =? 1)
          then ("", Some (Errorf "cnf.jkt is invalid"))
          else match Base64.decode true jkt with
               | Some decoded =>
                   if negb (len decoded =? 32) || negb (Base64.encode decoded =? jkt)%string
                   then ("", Some (Errorf "cnf.jkt is invalid"))
                   else (jkt, None)
               | None => ("", Some (Errorf "cnf.jkt is invalid"))
               end
      | _ => ("", Some (Errorf "cnf.jkt is invalid"))
      end
  | Some _ => ("", Some (Errorf "cnf is not an object"))
  end.

Definition GenerateKeyID `{PKIX} (key : SigningKey) : string * option error :=
  match marshal_public_key (PublicKey key) with
  | Some der => (Base64.encode (take_bytes 16 (sha256 der)), None)
  | None => ("", Some (Wrapped "failed to marshal public key" (Errorf "x509")))
  end.
