(* ===== verification/Services.v ===== *)
(** * The services and what they talk to

    A service of the process works on the state database ([World]) and on peers it
    reaches through Go interfaces: the policy resolver and the login providers.  The
    peers have a state of their own type; an interface is a class over that type, so
    that the theorems of a service hold for every implementation. *)

From S2P Require Import Prelude Runtime ReplayCache Schema Json Config Upstream.

(** ** A process *)

Record Process (P : Type) := { store : World; peers : P }.
#[global] Arguments store {P} _.
#[global] Arguments peers {P} _.
#[global] Arguments Build_Process {P} _ _.

Section Lifting.
Context {P : Type}.

(** A call of the store, and a call of a peer. *)
Definition on_store {B} (f : World -> B * World) (w : Process P) : B * Process P :=
  let (b, s) := f (store w) in (b, {| store := s; peers := peers w |}).
Definition on_peers {B} (f : P -> B * P) (w : Process P) : B * Process P :=
  let (b, p) := f (peers w) in (b, {| store := store w; peers := p |}).

(** [time.Now()] and a timer. *)
Definition Now `{Env} {R} : go (Process P) R time := call (on_store (run now_)).
Definition Sleep {R} (d : duration) : go (Process P) R unit := call (on_store (run (sleep d))).

Lemma ends_on_store {B} (f : World -> B * World) (w : Process P) (Q : B -> Process P -> Prop) :
  ends f (store w) (fun b s => Q b {| store := s; peers := peers w |}) -> ends (on_store f) w Q.
Proof. unfold ends, on_store. by destruct (f (store w)). Qed.

Lemma ends_on_peers {B} (f : P -> B * P) (w : Process P) (Q : B -> Process P -> Prop) :
  ends f (peers w) (fun b p => Q b {| store := store w; peers := p |}) -> ends (on_peers f) w Q.
Proof. unfold ends, on_peers. by destruct (f (peers w)). Qed.

Lemma wp_Now `{Env} {R} (w : Process P) (Q : (R + time) -> Process P -> Prop) :
  Q (inr (clock (c_tick (w_cnt (store w))) + w_slept (store w)))
    {| store := count_tick (store w); peers := peers w |} ->
  wp Now w Q.
Proof. done. Qed.

Lemma wp_Sleep {R} d (w : Process P) (Q : (R + unit) -> Process P -> Prop) :
  Q (inr tt) {| store := (store w) <| w_slept := w_slept (store w) + d |>; peers := peers w |} ->
  wp (Sleep d) w Q.
Proof. done. Qed.
End Lifting.

(** ** The policy resolver *)

(** [authpolicy.clientSource]; [NoSource] is the zero value *)
Inductive clientSource := NoSource | clientSourceStatic | clientSourceDatabase.

Module Resolved.

(** [authpolicy.ResolvedClient]; [owner] names the resolver it came from, 0 being nil *)
Record ResolvedClient := {
  Config : Client.ClientConfig;
  id : string;
  source : clientSource;
  owner : nat
}.

(** [authpolicy.ResolvedUser] *)
Record ResolvedUser := { Groups : list string }.

(** [authpolicy.ResolvedTrustIssuer] *)
Record ResolvedTrustIssuer := {
  ID : string;
  IssuerConfig : Issuer.TrustIssuerConfig;
  Dynamic : bool;
  clientID : string;
  issuer_owner : nat
}.

End Resolved.

Definition zero_resolved_client : Resolved.ResolvedClient :=
  {| Resolved.Config := zero_client; Resolved.id := ""; Resolved.source := NoSource;
     Resolved.owner := O |}.
Definition zero_resolved_user : Resolved.ResolvedUser := {| Resolved.Groups := [] |}.
Definition zero_resolved_issuer : Resolved.ResolvedTrustIssuer :=
  {| Resolved.ID := ""; Resolved.IssuerConfig := zero_issuer; Resolved.Dynamic := false;
     Resolved.clientID := ""; Resolved.issuer_owner := O |}.

(** The interface [policyResolver] of the refresh and OIDC services, and the one of the
    trust service. *)
Class PolicyResolver (P : Type) := {
  ResolveClient : string -> bool -> P -> (Resolved.ResolvedClient * option error) * P;
  ResolveUser : Resolved.ResolvedClient -> string -> P -> (Resolved.ResolvedUser * option error) * P
}.
Class TrustResolver (P : Type) := {
  ResolveTrustIssuer : Resolved.ResolvedClient -> string -> P ->
    (Resolved.ResolvedTrustIssuer * option error) * P;
  ResolveTrustBindings : Resolved.ResolvedClient -> Resolved.ResolvedTrustIssuer -> P ->
    (list Effective.EffectiveTrustBinding * option error) * P
}.

(** ** The login providers

    [upstream.Connector], the connector being named by its identifier in the
    configuration; [has_connector] is the presence of the map's key. *)
Class Connectors (P : Type) := {
  has_connector : string -> bool;
  AuthCodeURL : string -> string -> list (string * string) -> string;
  Exchange : string -> string -> P -> (option Cred.Credential * option error) * P;
  Refresh : string -> Cred.Credential -> P -> (option Cred.Credential * option error) * P;
  GetIdentity : string -> OAuth2.Token -> P -> (Identity.Identity * option error) * P
}.

(** Whether the context of the request is done, at a point where the code waits. *)
Class Contexts (P : Type) := ctx_done : P -> bool * P.

(** encoding/json on [upstream.Credential]. *)
Class CredentialJSON := {
  marshal_credential : Cred.Credential -> option string;
  unmarshal_credential : string -> option Cred.Credential
}.

(** Symbolic execution of a service: calls are left to their specifications. *)
Ltac service_step :=
  cbn beta iota zeta;
  lazymatch goal with
  | |- wp Now _ _ => apply wp_Now
  | |- wp (Sleep _) _ _ => apply wp_Sleep
  | |- wp (call _) _ _ => fail
  | |- _ => go_step
  end; cbn [store peers].

(** * Walks through a body

    That the states before and after a function are related is established by a walk
    through its body, given the same of the functions it calls.  [calls R st f] says that
    [R] relates the component [st] of the states before and after [f]; [steps R st m] says
    it of a statement.  The hint database [walk] holds the lemmas about functions. *)

Section Walks.
Context {W S : Type} (R : relation S) `{!PreOrder R} (st : W -> S).

Definition calls {B} (f : W -> B * W) : Prop := forall w, R (st w) (st (f w).2).
Definition steps {X A} (m : go W X A) : Prop := forall w, wp m w (fun _ w' => R (st w) (st w')).

Lemma steps_ret {X A} (a : A) : steps (X := X) (mret a).
Proof. intros w. by apply wp_ret. Qed.
Lemma steps_return {X A} (r : X) : steps (A := A) (return_ r).
Proof. intros w. by apply wp_return. Qed.
Lemma steps_return_if {X} c (r : X) : steps (return_if c r).
Proof. intros w. by apply wp_return_if. Qed.
Lemma steps_when {X} c (m : go W X unit) : steps m -> steps (when c m).
Proof. intros Hm w. apply wp_when; intros _; [apply Hm | done]. Qed.
Lemma steps_get {X} : steps (X := X) get.
Proof. intros w. by apply wp_get. Qed.
Lemma steps_call {X B} (f : W -> B * W) : calls f -> steps (X := X) (call f).
Proof. intros Hf w. apply wp_call. apply Hf. Qed.

(** A statement that establishes [Q] of its value when it goes on. *)
Lemma steps_bind_post {X A B} (m : go W X A) (f : A -> go W X B) (Q : A -> Prop) :
  (forall w, wp m w (fun x w' => R (st w) (st w') /\ match x with inr a => Q a | inl _ => True end)) ->
  (forall a, Q a -> steps (f a)) -> steps (m ≫= f).
Proof.
  intros Hm Hf w. apply wp_bind. eapply wp_mono; [apply Hm|]. intros [r|a] w1; cbn beta iota; [by intros [? _]|].
  intros [Hh HQ]. eapply wp_mono; [by apply Hf|]. intros x w2 Hh2. by etrans.
Qed.

Lemma steps_bind {X A B} (m : go W X A) (f : A -> go W X B) :
  steps m -> (forall a, steps (f a)) -> steps (m ≫= f).
Proof.
  intros Hm Hf. apply (steps_bind_post _ _ (fun _ => True)); [|auto].
  intros w. eapply wp_mono; [apply Hm|]. by intros [?|?].
Qed.

Lemma calls_run {X} (m : go W X X) : steps m -> calls (run m).
Proof. intros Hm w. specialize (Hm w). unfold wp, run in *. by destruct (m w) as [[?|?] ?]. Qed.
End Walks.

(** ** Processes: the store and its peers *)

Definition at_peers {P S} (st : P -> S) (w : Process P) : S := st (peers w).

Section Processes.
Context {P S : Type} (R : relation S) `{!PreOrder R} (Rw : relation World) `{!PreOrder Rw} (st : P -> S).

Lemma calls_on_store {B} (op : World -> B * World) : calls Rw id op -> calls Rw store (on_store (P := P) op).
Proof. intros Hop w. unfold on_store. specialize (Hop (store w)). by destruct (op (store w)). Qed.
Lemma calls_on_peers {B} (f : P -> B * P) : calls R st f -> calls R (at_peers st) (on_peers f).
Proof. intros Hf w. unfold on_peers. specialize (Hf (peers w)). by destruct (f (peers w)). Qed.

(** Each half of a process is left alone by the functions of the other. *)
Lemma calls_store_peers {B} (f : P -> B * P) : calls Rw store (on_peers f).
Proof. intros w. unfold on_peers. by destruct (f (peers w)). Qed.
Lemma calls_peers_store {B} (op : World -> B * World) : calls R (at_peers st) (on_store op).
Proof. intros w. unfold on_store. by destruct (op (store w)). Qed.
End Processes.

Create HintDb walk.
#[export] Hint Resolve steps_ret steps_return steps_return_if steps_get calls_store_peers calls_peers_store : walk.
#[export] Hint Extern 0 (PreOrder _) => exact _ : walk.

(** One step of the walk. *)
Ltac walk_step :=
  cbv beta zeta;
  lazymatch goal with
  | |- calls _ _ (run _) => apply calls_run
  | |- calls _ store (on_store _) => apply calls_on_store
  | |- calls _ (at_peers _) (on_peers _) => apply calls_on_peers
  | |- steps _ _ (mbind _ _) => apply steps_bind; [exact _| |intros ?]
  | |- steps _ _ (when _ _) => apply steps_when
  | |- steps _ _ (match ?x with _ => _ end) => destruct x
  | |- calls _ _ (match ?x with _ => _ end) => destruct x
  | |- steps _ _ (call _) => apply steps_call
  | |- _ => solve [eauto with walk]
  end.
Ltac by_walk := repeat walk_step.

(** ** The clock along a call *)

(** The clock is only ever read on, and nobody waits. *)
Definition later (w w' : World) : Prop :=
  (c_tick (w_cnt w) <= c_tick (w_cnt w'))%nat /\ w_slept w' = w_slept w.
#[export] Instance later_preorder : PreOrder later.
Proof. split; [by intros w|]. intros w1 w2 w3 [? E1] [? E2]. split; [lia|congruence]. Qed.

(** The same, and the database stays as it is. *)
Definition still (w w' : World) : Prop := later w w' /\ w_db w' = w_db w.
#[export] Instance still_preorder : PreOrder still.
Proof. split; [by intros w|]. intros w1 w2 w3 [L1 E1] [L2 E2]. split; [by etrans|congruence]. Qed.

(** [now] was read from the clock between the states [w] and [w']. *)
Definition read_between `{Env} (w w' : World) (now : time) : Prop :=
  exists n, (c_tick (w_cnt w) <= n < c_tick (w_cnt w'))%nat /\ now = clock n + w_slept w.

Lemma read_between_wider `{Env} w w1 w2 w' now :
  later w w1 -> later w2 w' -> read_between w1 w2 now -> read_between w w' now.
Proof. intros [? E1] [? E2] (n & ? & ->). exists n. split; [lia|congruence]. Qed.

Lemma wp_Now_read `{Env} {P R} (w : Process P) (Q : (R + time) -> Process P -> Prop) :
  (forall now s, still (store w) s -> read_between (store w) s now -> Q (inr now) {| store := s; peers := peers w |}) ->
  wp Now w Q.
Proof.
  intros HQ. apply wp_Now, HQ; [split; [split; cbn; [lia|done]|done]|].
  eexists. split; [|reflexivity]. cbn. lia.
Qed.

Section Later.
Context `{Env} {R : Type}.

Lemma later_begin_tx onerr : steps later id (X := R) (begin_tx onerr).
Proof. intros w. unfold wp, begin_tx. by destruct (faulty w). Qed.
Lemma later_commit_tx onerr : steps later id (X := R) (commit_tx onerr).
Proof. intros w. unfold wp, commit_tx. by destruct (faulty w). Qed.
Lemma later_sql_tx {A} (q : stmt A) onerr : steps later id (X := R) (sql_tx q onerr).
Proof. intros w. unfold wp, sql_tx. destruct (faulty w); [done|]. by destruct (q (w_tx w)) as [[]|]. Qed.
Lemma later_sql_db {A} (q : stmt A) onerr : steps later id (X := R) (sql_db q onerr).
Proof. intros w. unfold wp, sql_db. destruct (faulty w); [done|]. by destruct (q (w_db w)) as [[]|]. Qed.
Lemma later_now : steps later id (X := R) now_.
Proof. intros w. apply wp_now. split; cbn; [lia|done]. Qed.
Lemma later_rand_read n onerr : steps later id (X := R) (rand_read n onerr).
Proof. intros w. unfold wp, rand_read. by destruct (entropy_fault _). Qed.

Lemma still_begin_tx onerr : steps still id (X := R) (begin_tx onerr).
Proof. intros w. unfold wp, begin_tx. by destruct (faulty w). Qed.
Lemma still_select_tx {A} (f : Tables -> A) onerr : steps still id (X := R) (sql_tx (select f) onerr).
Proof. intros w. unfold wp, sql_tx. by destruct (faulty w). Qed.
Lemma still_select_db {A} (f : Tables -> A) onerr : steps still id (X := R) (sql_db (select f) onerr).
Proof. intros w. unfold wp, sql_db. by destruct (faulty w). Qed.
Lemma still_now : steps still id (X := R) now_.
Proof. intros w. apply wp_now. split; [split; cbn; [lia|done]|done]. Qed.
Lemma still_rand_read n onerr : steps still id (X := R) (rand_read n onerr).
Proof. intros w. unfold wp, rand_read. by destruct (entropy_fault _). Qed.

Lemma later_Now {P} : steps later (@store P) (X := R) Now.
Proof. intros w. apply wp_Now_read. by intros now s [? _] _. Qed.
Lemma still_Now {P} : steps still (@store P) (X := R) Now.
Proof. intros w. by apply wp_Now_read. Qed.
End Later.
#[export] Hint Resolve later_begin_tx later_commit_tx later_sql_tx later_sql_db later_now later_rand_read
  still_begin_tx still_select_tx still_select_db still_now still_rand_read later_Now still_Now : walk.

(** An operation of the store, by a walk through its body. *)
Ltac unfold_head op := lazymatch op with ?f _ => unfold_head f | _ => unfold op end.
Ltac by_unfolding := lazymatch goal with |- calls _ id ?op => unfold_head op; by_walk end.

(** ** What a body yields

    [yields G Q m]: the statement [m] returns from the function only with values in [G],
    and goes on only with values in [Q]. *)

Section Yields.
Context {W X : Type} (G : X -> Prop).

Definition yields {A} (Q : A -> Prop) (m : go W X A) : Prop :=
  forall w, wp m w (fun x _ => match x with inl r => G r | inr a => Q a end).
Definition produces {B} (Q : B -> Prop) (f : W -> B * W) : Prop := forall w, Q (f w).1.

Lemma yields_ret {A} (Q : A -> Prop) a : Q a -> yields Q (mret a).
Proof. intros Hq w. by apply wp_ret. Qed.
Lemma yields_return {A} (Q : A -> Prop) r : G r -> yields Q (return_ r).
Proof. intros Hg w. by apply wp_return. Qed.
Lemma yields_return_if (c : bool) r : (c = true -> G r) -> yields (fun _ => c = false) (return_if c r).
Proof. intros Hg w. by apply wp_return_if. Qed.
Lemma yields_return_if_any c r : G r -> yields (fun _ => True) (return_if c r).
Proof. intros Hg w. by apply wp_return_if. Qed.
Lemma yields_call {B} (Q : B -> Prop) (f : W -> B * W) : produces Q f -> yields Q (call f).
Proof. intros Hf w. apply wp_call. apply Hf. Qed.
Lemma yields_bind {A B} (Q' : A -> Prop) (Q : B -> Prop) (m : go W X A) (f : A -> go W X B) :
  yields Q' m -> (forall a, Q' a -> yields Q (f a)) -> yields Q (m ≫= f).
Proof.
  intros Hm Hf w. apply wp_bind. eapply wp_mono; [apply Hm|]. intros [r|a] w1; cbn beta iota; [done|].
  intros Ha. by apply Hf.
Qed.
Lemma yields_mono {A} (Q Q' : A -> Prop) m : yields Q m -> (forall a, Q a -> Q' a) -> yields Q' m.
Proof. intros Hm Hq w. eapply wp_mono; [apply Hm|]. intros [r|a] w1; auto. Qed.
End Yields.

Lemma produces_run {W X} (G : X -> Prop) (m : go W X X) : yields G G m -> produces G (run m).
Proof. intros Hm w. specialize (Hm w). unfold wp, run in *. by destruct (m w) as [[?|?] ?]. Qed.
Lemma produces_any {W B} (f : W -> B * W) : produces (fun _ => True) f.
Proof. done. Qed.
Lemma produces_on_store {P B} (Q : B -> Prop) (op : World -> B * World) :
  produces Q op -> produces Q (on_store (P := P) op).
Proof. intros Hop w. unfold on_store. specialize (Hop (store w)). by destruct (op (store w)). Qed.
Lemma produces_on_peers {P B} (Q : B -> Prop) (f : P -> B * P) :
  produces Q f -> produces Q (on_peers f).
Proof. intros Hf w. unfold on_peers. specialize (Hf (peers w)). by destruct (f (peers w)). Qed.

Lemma yields_Now `{Env} {P X} (G : X -> Prop) : yields (W := Process P) G (fun _ => True) Now.
Proof. by apply yields_call, produces_any. Qed.

(** What both of two walks establish. *)
Lemma wp_both {W X A} (m : go W X A) w (Q Q' : X + A -> W -> Prop) :
  wp m w Q -> wp m w Q' -> wp m w (fun x w' => Q x w' /\ Q' x w').
Proof. unfold wp. by destruct (m w). Qed.

(** A statement that returns only with values in [G] and goes on with [Post]: a gate. *)
Definition gate {W X A} (G : X -> Prop) (Post : A -> W -> Prop) (m : go W X A) (w : W) : Prop :=
  wp m w (fun x w' => match x with inl r => G r | inr a => Post a w' end).

Lemma gate_bind {W X A B} (G : X -> Prop) (Post : A -> W -> Prop) (Q : B -> W -> Prop)
    (m : go W X A) (f : A -> go W X B) w :
  gate G Post m w -> (forall a w1, Post a w1 -> gate G Q (f a) w1) -> gate G Q (m ≫= f) w.
Proof.
  intros Hm Hf. apply wp_bind. unfold gate, wp in *. destruct (m w) as [[r|a] w1]; cbn in *; [done|]. by apply Hf.
Qed.
Lemma gate_mono {W X A} (G : X -> Prop) (Post Post' : A -> W -> Prop) (m : go W X A) w :
  gate G Post m w -> (forall a w', Post a w' -> Post' a w') -> gate G Post' m w.
Proof. intros Hm Hp. unfold gate, wp in *. destruct (m w) as [[r|a] w']; cbn in *; auto. Qed.
Lemma gate_steps {W X A S} (G : X -> Prop) (R : relation S) (st : W -> S) (Post : A -> W -> Prop) (m : go W X A) w :
  gate G Post m w -> steps R st m -> gate G (fun a w' => Post a w' /\ R (st w) (st w')) m w.
Proof.
  intros Hm Hs. specialize (Hs w). unfold gate, wp in *. by destruct (m w) as [[r|a] w'].
Qed.
Lemma gate_yields {W X A} (G : X -> Prop) (Q : A -> Prop) (m : go W X A) w :
  yields G Q m -> gate G (fun a _ => Q a) m w.
Proof. intros Hm. exact (Hm w). Qed.
Lemma gate_ret {W X A} (G : X -> Prop) (Post : A -> W -> Prop) a w : Post a w -> gate G Post (mret a) w.
Proof. done. Qed.
Lemma gate_return {W X A} (G : X -> Prop) (Post : A -> W -> Prop) r w : G r -> gate G Post (return_ r) w.
Proof. done. Qed.
Lemma gate_return_if {W X} (G : X -> Prop) (c : bool) r (w : W) :
  G r -> gate G (fun _ w' => w' = w /\ c = false) (return_if c r) w.
Proof. intros Hg. by apply wp_return_if. Qed.
Lemma gate_call {W X B} (G : X -> Prop) (Post : B -> W -> Prop) (f : W -> B * W) w :
  ends f w Post -> gate G Post (call f) w.
Proof. intros Hf. by apply wp_call. Qed.
Lemma gate_Now `{Env} {P X} (G : X -> Prop) (w : Process P) :
  gate G (fun _ w' => w_db (store w') = w_db (store w) /\ peers w' = peers w) Now w.
Proof. by apply wp_Now. Qed.
Lemma gate_Now_read `{Env} {P X} (G : X -> Prop) (w : Process P) :
  gate G (fun now w' => still (store w) (store w') /\ peers w' = peers w /\
            read_between (store w) (store w') now) Now w.
Proof. by apply wp_Now_read. Qed.
Lemma gate_any {W X B} (G : X -> Prop) (f : W -> B * W) w : gate G (fun _ _ => True) (call f) w.
Proof. by apply gate_call. Qed.
Lemma gate_ends {W X} (G : X -> Prop) (Q : X -> W -> Prop) (m : go W X X) w :
  gate G Q m w -> (forall r w', G r -> Q r w') -> ends (run m) w Q.
Proof. intros Hm Hg. unfold gate, wp, ends, run in *. destruct (m w) as [[r|a] w']; cbn in *; auto. Qed.

Create HintDb yields.
#[export] Hint Resolve yields_Now : yields.
(** One step of the walk: nothing is kept of the values but what the hints establish. *)
Ltac yields_step :=
  cbv beta zeta;
  lazymatch goal with
  | |- produces _ (run _) => apply produces_run
  | |- produces _ (match ?x with _ => _ end) => destruct x
  | |- yields _ _ (mbind _ _) =>
      first [ eapply yields_bind; [solve [eauto 2 with yields]|]
            | apply (yields_bind _ (fun _ => True)) ]; [..|intros ? ?]
  | |- yields _ _ (match ?x with _ => _ end) => destruct x eqn:?
  | |- yields _ _ (return_ _) => apply yields_return
  | |- yields _ _ (mret _) => apply yields_ret
  | |- yields _ _ (return_if _ _) => apply yields_return_if_any
  | |- yields _ _ (call _) => apply yields_call
  | |- produces (fun _ => True) _ => apply produces_any
  | |- yields _ _ Now => apply yields_Now
  end.

(** One step of a walk through gates: a statement with a lemma among the hints, a test, a
    return; nothing is kept of other calls. *)
Create HintDb gates.
#[export] Hint Resolve gate_return_if gate_Now : gates.
Ltac gate_step :=
  cbv beta zeta;
  lazymatch goal with
  | |- gate _ _ (mbind _ _) _ =>
      first [ eapply gate_bind; [solve [eauto 3 with gates yields]|] | eapply gate_bind; [apply gate_any|] ];
      intros ? ? ?
  | |- gate _ _ (match ?x with _ => _ end) _ => destruct x eqn:?
  | |- gate _ _ (return_ _) _ => apply gate_return; auto with yields
  | |- gate _ _ (mret _) _ => apply gate_ret
  end.
Ltac by_gates := repeat gate_step; eauto with yields.
