(* ===== verification/RefreshService.v ===== *)
(** * internal/refresh/service.go: the refresh grant

    [Exchange] takes a refresh token to a new token pair and a replacement, after
    revalidating the client, the user and, for a connector-backed grant, the upstream
    credential under an exclusive claim. *)

From S2P Require Import Prelude Runtime Base64 Sha256 ReplayCache Schema RefreshToken RefreshStore FlowStore Json Config Credentials Tokens Upstream Services.

Definition InvalidGrant := "invalid_grant".
Definition InvalidScope := "invalid_scope".
Definition Temporary := "temporarily_unavailable".
Definition maxRefreshMaterialAttempts : nat := 3.
Definition refreshBusyPollInterval : duration := 50 * 1000000.
Definition refreshBusyWait : duration := second.

Module Failure.

(** [refresh.Failure] *)
Record Failure := { Code : string; Description : string; RetryAfter : string }.

End Failure.

Module Request.

(** [refresh.Request] *)
Record Request := { Token : string; ClientID : string; Scope : string }.

End Request.

Module Result.

(** [refresh.Result] *)
Record Result := {
  AccessToken : string;
  IDToken : string;
  RefreshToken : string;
  Scope : string;
  SID : string;
  DPoPJKT : string;
  AccessExpiry : time
}.

#[global] Instance eta_Result : Eta Result := fun x =>
  {|
     AccessToken := AccessToken x; IDToken := IDToken x; RefreshToken := RefreshToken x;
     Scope := Scope x; SID := SID x; DPoPJKT := DPoPJKT x; AccessExpiry := AccessExpiry x
  |}.

End Result.

Definition zero_result : Result.Result :=
  {| Result.AccessToken := ""; Result.IDToken := ""; Result.RefreshToken := "";
     Result.Scope := ""; Result.SID := ""; Result.DPoPJKT := ""; Result.AccessExpiry := zero_time |}.
Definition for_sid (sid : string) : Result.Result := zero_result <| Result.SID := sid |>.

Definition failure (code description : string) : Failure.Failure :=
  {| Failure.Code := code; Failure.Description := description; Failure.RetryAfter := "" |}.
Definition retry_later (description retry : string) : Failure.Failure :=
  {| Failure.Code := Temporary; Failure.Description := description; Failure.RetryAfter := retry |}.

Definition outcome : Type := Result.Result * option Failure.Failure.
Definition refuse (f : Failure.Failure) : outcome := (zero_result, Some f).

Definition invalid_token := failure InvalidGrant "refresh token is invalid".
Definition storage_unavailable := failure Temporary "storage unavailable".

(** The wait for a claim has used up the iterations of the model; it never does. *)
Definition out_of_fuel : Failure.Failure := failure "" "".

Definition storageError (err : error) : Failure.Failure :=
  if errors_is err ErrInvalidGrant || errors_is err ErrRefreshReplay
     || errors_is err ErrCredentialIndeterminate
  then invalid_token
  else if errors_is err ErrRefreshBusy then retry_later "refresh is already in progress" "1"
  else storage_unavailable.

(** The scopes of an exchange: the granted ones, or the requested ones when each of
    them was granted, and whether they differ. *)
Definition narrow_scopes `{Env} (granted requested : string) : option (string * bool) :=
  let requested := join " " (fields requested) in
  if is_empty requested then Some (granted, false)
  else if forallb (fun v => mem v (fields granted)) (fields requested)
       then Some (requested, negb (requested =? granted)%string)
       else None.

Section Service.
Context `{Env} {P : Type} `{!PolicyResolver P} `{!Connectors P} `{!Contexts P}.
Context `{!AEAD} `{!JWT} `{!CredentialJSON}.
Context (cfg : Config.Config) (signer : Signer).

Abbreviation proc := (Process P).

Definition revoke (grant : Grant.RefreshGrant) (reason : string) (now : time)
  : proc -> Failure.Failure * proc := run (
  err ← call (on_store (RevokeGrant (Grant.SID grant) (Grant.ClientID grant) reason now));
  match err with
  | Some _ => return_ storage_unavailable
  | None => mret invalid_token
  end).

(** [return Result{}, s.revoke(grant, reason, time.Now().UTC())] *)
Definition revoke_now (grant : Grant.RefreshGrant) (reason : string) {A} : go proc outcome A :=
  now ← Now;
  f ← call (revoke grant reason now);
  return_ (refuse f).

(** The claims of both tokens of an exchange. *)
Definition exchange_context (grant : Grant.RefreshGrant) (verified : bool) (groups : list string)
    (scopes : string) (id access : time) : Ctx.TokenContext :=
  {| Ctx.Email := Grant.Email grant; Ctx.EmailVerified := verified;
     Ctx.ClientID := Grant.ClientID grant; Ctx.Groups := groups; Ctx.Nonce := "";
     Ctx.SID := Grant.SID grant; Ctx.Scopes := scopes; Ctx.AuthTime := Grant.AuthTime grant;
     Ctx.IDExpiry := id; Ctx.AccessExpiry := access; Ctx.DPoPJKT := Grant.DPoPJKT grant |}.

Definition issued (grant : Grant.RefreshGrant) (idToken accessToken : string)
    (replacement : Material.RefreshMaterial) (access : time) (narrowed : bool) (scopes : string)
  : outcome :=
  let result := {| Result.AccessToken := accessToken; Result.IDToken := idToken;
                   Result.RefreshToken := Material.Token replacement; Result.Scope := "";
                   Result.SID := Grant.SID grant; Result.DPoPJKT := Grant.DPoPJKT grant;
                   Result.AccessExpiry := access |} in
  (if narrowed then result <| Result.Scope := scopes |> else result, None).

(** ** Direct email grants *)

(** The attempts to rotate under fresh material: the material of the last one and its
    error. *)
Fixpoint rotate_attempts (attempts : nat) (current : Material.RefreshMaterial)
    (grant : Grant.RefreshGrant) (access id : time) (last : Material.RefreshMaterial * option error)
  : go proc outcome (Material.RefreshMaterial * option error) :=
  match attempts with
  | O => mret last
  | S attempts =>
      '(replacement, err) ← call (on_store GenerateRefreshMaterial);
      match err with
      | Some _ => return_ (refuse (failure Temporary "token generation failed"))
      | None =>
          completion ← Now;
          return_if (negb (after access completion) || negb (after id completion))
            (refuse invalid_token) ;;
          '(_, _, err) ← call (on_store (RotateRefreshToken current replacement
                                           (Grant.ClientID grant) completion));
          if negb (is_err err ErrRefreshCollision) then mret (replacement, err)
          else rotate_attempts attempts current grant access id (replacement, err)
      end
  end.

Definition direct (current : Material.RefreshMaterial) (grant : Grant.RefreshGrant) (expiry : time)
    (scopes : string) (narrowed : bool) (groups : list string) (now : time)
  : proc -> outcome * proc := run (
  let access := cap (add now (Config.AccessTokenTTL cfg)) expiry in
  let id := cap (add now (Config.IDTokenTTL cfg)) expiry in
  '(idToken, accessToken, err) ← call (on_store (SignTokenPair signer
      (exchange_context grant (Grant.EmailVerified grant) groups scopes id access)));
  match err with
  | Some _ => return_ (refuse (failure Temporary "token signing failed"))
  | None =>
      '(replacement, err) ← rotate_attempts maxRefreshMaterialAttempts current grant access id
                              (zero_material, None);
      match err with
      | Some e => return_ (refuse (storageError e))
      | None => mret (issued grant idToken accessToken replacement access narrowed scopes)
      end
  end).
(** ** Connector-backed grants *)

Definition claim_ttl : duration := 30 * second.
Definition indeterminate := "indeterminate_upstream_credential".

(** The wait for the claim of the family, polled while another request holds it.  The
    iterations are bounded by [refreshBusyWait / refreshBusyPollInterval + 1]. *)
Definition claim_fuel : nat := 21.

(** The claim is held by another request: the wait of one polling interval. *)
Definition poll_again (prepared : Grant.RefreshGrant) (waitUntil : time) (e : error)
  : go proc outcome unit :=
  now ← Now;
  let remaining := sub waitUntil now in
  return_if (remaining <=? 0) (for_sid (Grant.SID prepared), Some (storageError e)) ;;
  interrupted ← call (on_peers ctx_done);
  return_if interrupted
    (for_sid (Grant.SID prepared), Some (failure Temporary "refresh interrupted")) ;;
  Sleep (Z.min refreshBusyPollInterval remaining).

Fixpoint claim_wait (fuel : nat) (current : Material.RefreshMaterial) (prepared : Grant.RefreshGrant)
    (waitUntil : time) : go proc outcome (Grant.RefreshGrant * RefreshClaim * option error) :=
  match fuel with
  | O => return_ (refuse out_of_fuel)
  | S fuel =>
      now ← Now;
      '(grant, claim, _, err) ← call (on_store
          (ClaimRefresh current (Grant.ClientID prepared) now claim_ttl));
      match err with
      | None => mret (grant, claim, None)
      | Some e =>
          if negb (errors_is e ErrRefreshBusy) then mret (grant, claim, Some e)
          else poll_again prepared waitUntil e ;;
               claim_wait fuel current prepared waitUntil
      end
  end.

(** The closure [release], whose error is dropped. *)
Definition release (grant : Grant.RefreshGrant) (claim : RefreshClaim) : go proc outcome unit :=
  call (on_store (ReleaseRefreshClaim (Grant.SID grant) claim)) ;; mret tt.

(** A failure before the upstream refresh was started releases the claim; after it the
    upstream credential is unknown and the family is revoked. *)
Definition abandon {A} (started : bool) (grant : Grant.RefreshGrant) (claim : RefreshClaim)
    (f : Failure.Failure) : go proc outcome A :=
  if started then revoke_now grant indeterminate
  else release grant claim ;; return_ (refuse f).

(** The closure [refreshCredential]: the credential, whether the refresh was started,
    and the failure. *)
Definition refreshCredential (grant : Grant.RefreshGrant) (claim : RefreshClaim)
    (credential : Cred.Credential)
  : proc -> (Cred.Credential * bool * option Failure.Failure) * proc := run (
  now ← Now;
  e ← call (on_store (MarkUpstreamRefreshStarted (Grant.SID grant) claim now));
  match e with
  | Some e =>
      if errors_is e ErrCredentialIndeterminate then
        now ← Now;
        f ← call (revoke grant indeterminate now);
        return_ (credential, false, Some f)
      else return_ (credential, false, Some storage_unavailable)
  | None =>
      let old := Cred.RefreshToken credential in
      '(refreshed, e) ← call (on_peers (Refresh (Grant.ConnectorID grant) credential));
      match e, refreshed with
      | Some e, _ =>
          let '(kind, retry) := ErrorInfo e in
          if (kind =? ErrorConfiguration)%string then
            a ← call (on_store (AbortUpstreamRefresh (Grant.SID grant) claim));
            match a with
            | Some _ => return_ (credential, true, Some storage_unavailable)
            | None => return_ (credential, true,
                               Some (retry_later "upstream configuration error" retry))
            end
          else
            now ← Now;
            f ← call (revoke grant indeterminate now);
            return_ (credential, true, Some f)
      | None, None =>
          now ← Now;
          f ← call (revoke grant indeterminate now);
          return_ (credential, true, Some f)
      | None, Some refreshed =>
          let credential := if is_empty (Cred.RefreshToken refreshed)
                            then refreshed <| Cred.RefreshToken := old |> else refreshed in
          mret (credential, true, None)
      end
  end).

(** The renewal of a credential that expires within 30 seconds, and the refusal of one
    that nothing bounds: the credential and whether the refresh was started. *)
Definition renew (grant : Grant.RefreshGrant) (claim : RefreshClaim) (credential : Cred.Credential)
    (now : time) : go proc outcome (Cred.Credential * bool) :=
  '(credential, started) ← (
    if negb (is_zero (Cred.AccessExpiry credential))
       && negb (after (Cred.AccessExpiry credential) (add now (30 * second)))
    then if is_empty (Cred.RefreshToken credential)
         then f ← call (revoke grant "upstream_expired" now); return_ (refuse f)
         else '(credential, started, f) ← call (refreshCredential grant claim credential);
              match f with
              | Some f => return_ (refuse f)
              | None => mret (credential, started)
              end
    else mret (credential, false) : go proc outcome (Cred.Credential * bool));
  if is_empty (Cred.RefreshToken credential) && is_zero (Cred.AccessExpiry credential)
     && negb (Cred.AccessNonExpiring credential)
  then if started : bool then revoke_now grant indeterminate
       else f ← call (revoke grant "unknown_upstream_expiry" now); return_ (refuse f)
  else mret (credential, started).

(** The identity behind the credential; an unauthorized one is refreshed once. *)
Definition identify (grant : Grant.RefreshGrant) (claim : RefreshClaim)
    (credential : Cred.Credential) (started : bool)
  : go proc outcome (Identity.Identity * Cred.Credential * bool) :=
  '(identity, err) ← call (on_peers (GetIdentity (Grant.ConnectorID grant) (OAuthToken credential)));
  '(identity, err, credential, started) ← (
    match err with
    | Some e =>
        if started then mret (identity, err, credential, started)
        else
          let '(kind, retry) := ErrorInfo e in
          if (kind =? ErrorUnauthorized)%string && negb (is_empty (Cred.RefreshToken credential)) then
            '(credential, started, f) ← call (refreshCredential grant claim credential);
            match f with
            | Some f => return_ (refuse f)
            | None =>
                '(identity, err) ← call (on_peers
                    (GetIdentity (Grant.ConnectorID grant) (OAuthToken credential)));
                mret (identity, err, credential, started)
            end
          else if (kind =? ErrorTemporary)%string || (kind =? ErrorRateLimit)%string
                  || (kind =? ErrorConfiguration)%string
          then release grant claim ;; return_ (refuse (retry_later "upstream unavailable" retry))
          else mret (identity, err, credential, started)
    | None => mret (identity, err, credential, started)
    end : go proc outcome (Identity.Identity * option error * Cred.Credential * bool));
  match err with
  | Some _ => if started : bool then revoke_now grant indeterminate
              else revoke_now grant "upstream_authentication"
  | None => mret (identity, credential, started)
  end.

(** Whether an assertion names the grant's address, and whether one that does is
    verified by the provider. *)
Definition match_emails (email : string) (emails : list Identity.Email) : bool * bool :=
  fold_left (fun '(matched, verified) assertion =>
    if (to_lower (trim_space (Identity.Address assertion)) =? email)%string
    then (true, verified || Identity.Verified assertion)
    else (matched, verified)) emails (false, false).

Definition verification_mode : string :=
  match Config.Email_ cfg with Some e => Email.VerificationMode e | None => "disabled" end.

(** The identity must still be the grant's; the result is whether the address counts as
    verified. *)
Definition recheck_identity (grant : Grant.RefreshGrant) (claim : RefreshClaim) (started : bool)
    (identity : Identity.Identity) : go proc outcome bool :=
  let '(matched, providerVerified) := match_emails (Grant.Email grant) (Identity.Emails identity) in
  '(exists_, local, verifyErr) ← call (on_store
      (CredentialVerified (Grant.ConnectorID grant) (Grant.UpstreamSubject grant) (Grant.Email grant)));
  let mode := verification_mode in
  let localVerified := exists_ && local in
  let verified := providerVerified || localVerified in
  let accepted := (mode =? "disabled")%string || localVerified
                  || (mode =? "provider")%string && providerVerified in
  if is_some (verifyErr : option error) then abandon started grant claim storage_unavailable
  else if negb (Identity.Subject identity =? Grant.UpstreamSubject grant)%string
          || negb matched || negb accepted
  then if started then revoke_now grant indeterminate else revoke_now grant "identity_mismatch"
  else mret verified.

(** The new absolute expiry of the family, its idle expiry and the expiries of the two
    tokens: none exceeds the lifetime of the upstream credential. *)
Definition absolute_expiry (grant : Grant.RefreshGrant) (credential : Cred.Credential) : time :=
  let absolute := Grant.AbsoluteExpiry grant in
  let absolute := if negb (is_zero (Cred.RefreshExpiry credential))
                     && after absolute (Cred.RefreshExpiry credential)
                  then Cred.RefreshExpiry credential else absolute in
  if is_empty (Cred.RefreshToken credential) && negb (is_zero (Cred.AccessExpiry credential))
     && after absolute (Cred.AccessExpiry credential)
  then Cred.AccessExpiry credential else absolute.
Definition token_expiry (credential : Cred.Credential) (expiry p : time) : time :=
  let p := cap p expiry in
  if negb (is_zero (Cred.AccessExpiry credential)) then cap p (Cred.AccessExpiry credential) else p.

(** The attempts to complete the claim under fresh material. *)
Fixpoint complete_attempts (attempts : nat) (current : Material.RefreshMaterial)
    (grant : Grant.RefreshGrant) (claim : RefreshClaim) (encoded : string)
    (absolute expiry access id : time) (last : Material.RefreshMaterial * option error)
  : go proc outcome (Material.RefreshMaterial * option error) :=
  match attempts with
  | O => mret last
  | S attempts =>
      '(replacement, err) ← call (on_store GenerateRefreshMaterial);
      match err with
      | Some _ => mret (replacement, err)
      | None =>
          '(nonce, ciphertext, encryptErr) ← call (on_store
              (EncryptCredential (Material.Secret replacement) (Grant.SID grant)
                 (Grant.ClientID grant) (Grant.ConnectorID grant) encoded));
          match encryptErr with
          | Some _ => mret (replacement, encryptErr)
          | None =>
              completion ← Now;
              if negb (after access completion) || negb (after id completion)
                 || negb (after expiry completion)
              then mret (replacement, Some ErrInvalidGrant)
              else
                '(_, err) ← call (on_store (CompleteClaimedRefresh current replacement grant claim
                                             nonce ciphertext absolute completion));
                if negb (is_err err ErrRefreshCollision) then mret (replacement, err)
                else complete_attempts attempts current grant claim encoded absolute expiry
                       access id (replacement, err)
          end
      end
  end.

(** The issue of the tokens and the completion of the claim. *)
Definition finish (current : Material.RefreshMaterial) (grant : Grant.RefreshGrant)
    (claim : RefreshClaim) (credential : Cred.Credential) (started verified : bool)
    (scopes : string) (narrowed : bool) (groups : list string) : go proc outcome outcome :=
  match marshal_credential credential with
  | None => abandon started grant claim (failure Temporary "credential encoding failed")
  | Some encoded =>
      issuedAt ← Now;
      let absolute := absolute_expiry grant credential in
      let expiry := cap (add issuedAt (Grant.IdleTTL grant)) absolute in
      let access := token_expiry credential expiry (add issuedAt (Config.AccessTokenTTL cfg)) in
      let id := token_expiry credential expiry (add issuedAt (Config.IDTokenTTL cfg)) in
      if negb (after access issuedAt) || negb (after id issuedAt) || negb (after expiry issuedAt)
      then if started then revoke_now grant indeterminate
           else f ← call (revoke grant "upstream_expired" issuedAt); return_ (refuse f)
      else
        '(idToken, accessToken, err) ← call (on_store (SignTokenPair signer
            (exchange_context grant verified groups scopes id access)));
        if is_some (err : option error)
        then abandon started grant claim (failure Temporary "token signing failed")
        else
          let grant := grant <| Grant.UpstreamAccessExpiry := Cred.AccessExpiry credential |>
                             <| Grant.UpstreamRefreshExpiry := Cred.RefreshExpiry credential |>
                             <| Grant.UpstreamAccessNonExpiring := Cred.AccessNonExpiring credential |> in
          '(replacement, err) ← complete_attempts maxRefreshMaterialAttempts current grant claim
                                  encoded absolute expiry access id (zero_material, None);
          match err with
          | Some e => abandon started grant claim (storageError e)
          | None => mret (issued grant idToken accessToken replacement access narrowed scopes)
          end
  end.

Definition connector (current : Material.RefreshMaterial) (prepared : Grant.RefreshGrant)
    (scopes : string) (narrowed : bool) (groups : list string) : proc -> outcome * proc := run (
  started_at ← Now;
  let waitUntil := add started_at refreshBusyWait in
  '(grant, claim, err) ← claim_wait claim_fuel current prepared waitUntil;
  match (err : option error) with
  | Some e => return_ (for_sid (Grant.SID prepared), Some (storageError e))
  | None =>
      now ← Now;
      let '(plain, err) := DecryptCredential (Material.Secret current) (Grant.SID grant)
          (Grant.ClientID grant) (Grant.ConnectorID grant) (Grant.CredentialNonce grant)
          (Grant.CredentialCiphertext grant) in
      match err, unmarshal_credential plain with
      | None, Some credential =>
          if negb (has_connector (Grant.ConnectorID grant))
          then revoke_now grant "connector_provenance"
          else
            '(credential, started) ← renew grant claim credential now;
            '(identity, credential, started) ← identify grant claim credential started;
            verified ← recheck_identity grant claim started identity;
            finish current grant claim credential started verified scopes narrowed groups
      | _, _ => revoke_now grant "credential"
      end
  end).

(** ** The exchange *)

(** The provenance the grant must have under the current configuration. *)
Definition provenance_lost (grant : Grant.RefreshGrant) : bool :=
  let hasNonce := negb (len (Grant.CredentialNonce grant) =? 0) in
  let hasCipher := negb (len (Grant.CredentialCiphertext grant) =? 0) in
  match Config.UserLoginConnectors cfg !! Grant.ConnectorID grant with
  | None => true
  | Some cc =>
      let email := (Connectorc.Type_ cc =? "email")%string in
      email && (hasNonce || hasCipher)
      || negb email && (is_empty (Grant.UpstreamSubject grant) || negb hasNonce || negb hasCipher)
  end.
Definition is_email_connector (connectorID : string) : bool :=
  match Config.UserLoginConnectors cfg !! connectorID with
  | Some cc => (Connectorc.Type_ cc =? "email")%string
  | None => false
  end.

(** The policy decisions about a prepared grant, and its exchange. *)
Definition exchange_prepared (req : Request.Request) (current : Material.RefreshMaterial)
    (grant : Grant.RefreshGrant) (expiry now : time) : go proc outcome outcome :=
  let sid := for_sid (Grant.SID grant) in
  let revoked reason : go proc outcome outcome :=
    f ← call (revoke grant reason now); return_ (sid, Some f) in
  let unavailable : outcome := (sid, Some (failure Temporary "auth temporarily unavailable")) in
  '(resolved, resolveErr) ← call (on_peers (ResolveClient (Grant.ClientID grant) true));
  if is_err resolveErr ErrDenied then revoked "policy"
  else if is_some resolveErr then return_ unavailable
  else
    let client := Client.RefreshTokens (Resolved.Config resolved) in
    if negb (Refreshc.Enabled client)
       || (Grant.Mode grant =? "offline")%string && negb (Refreshc.AllowOfflineAccess client)
    then revoked "policy"
    else match narrow_scopes (Grant.Scopes grant) (Request.Scope req) with
    | None => return_ (sid, Some (failure InvalidScope "scope exceeds original grant"))
    | Some (effective, narrowed) =>
        '(user, policyErr) ← call (on_peers (ResolveUser resolved (Grant.Email grant)));
        if is_err policyErr ErrDenied then revoked "policy"
        else if is_some policyErr then return_ unavailable
        else
          let groups := Resolved.Groups user in
          if provenance_lost grant then revoked "connector_provenance"
          else if is_email_connector (Grant.ConnectorID grant)
          then call (direct current grant expiry effective narrowed groups now)
          else call (connector current grant effective narrowed groups)
    end.

Definition Exchange (req : Request.Request) : proc -> outcome * proc := run (
  match ParseRefreshToken (Request.Token req) with
  | (_, Some _) => return_ (refuse invalid_token)
  | (current, None) =>
      now ← Now;
      '(grant, expiry, err) ← call (on_store (PrepareRefresh current (Request.ClientID req) now));
      match (err : option error) with
      | Some e =>
          when (errors_is e ErrRefreshReplay) (
            '(_, _, rotateErr) ← call (on_store
                (RotateRefreshToken current zero_material (Request.ClientID req) now));
            return_if (is_some rotateErr && negb (is_err rotateErr ErrRefreshReplay)
                       && negb (is_err rotateErr ErrInvalidGrant)) (refuse storage_unavailable)) ;;
          return_if (errors_is e ErrInvalidGrant || errors_is e ErrRefreshReplay)
            (for_sid (Grant.SID grant), Some invalid_token) ;;
          return_ (refuse storage_unavailable)
      | None => exchange_prepared req current grant expiry now
      end
  end).
End Service.
