(* ===== verification/ExchangeSafety.v ===== *)
(** * Safety of the refresh exchange: the stages

    What each stage of [Exchange] leaves in the tables.  While a claim is held the
    tables differ from those before the claim in the one row of the family; a stage
    that ends the exchange leaves the tokens alone, and once the provider was asked to
    refresh the credential it leaves the family fenced: revoked, or marked as started
    under a claim, which no later claim gets past. *)

From S2P Require Import Prelude Runtime Base64 Sha256 ReplayCache Schema RefreshToken RefreshStore FlowStore RefreshSpec FamilySafety Json Config Credentials Tokens Upstream Services RefreshService.
Import Grant Material.

(** An error has one sentinel at the end of its chain. *)
Lemma errors_is_sql e : errors_is e ErrSQL = true -> errors_is e ErrRefreshReplay = false.
Proof. induction e; cbn; intros He; rewrite ?bool_decide_false in * by done; auto. Qed.

(** ** Store calls of a service *)

Lemma wp_atomic `{Env} {P R B} (op : World -> B * World) err_of spec (w : Process P)
    (Q : (R + B) -> Process P -> Prop) :
  atomically op err_of spec (store w) ->
  (forall b s, is_err (err_of b) ErrSQL = true -> w_db s = w_db (store w) ->
     Q (inr b) {| store := s; peers := peers w |}) ->
  (forall b s, spec (w_db (store w)) = (b, w_db s) -> Q (inr b) {| store := s; peers := peers w |}) ->
  wp (call (on_store op)) w Q.
Proof.
  intros Ha Hf Hs. apply wp_call, ends_on_store. unfold atomically, ends in *.
  destruct Ha as [(_ & He & Hdb)|Hspec]; auto.
Qed.

(** A call that leaves the tables alone. *)
Lemma wp_quiet {P R B} (op : World -> B * World) (w : Process P) (Q : (R + B) -> Process P -> Prop) :
  ends op (store w) (fun _ s => w_db s = w_db (store w)) ->
  (forall b s, op (store w) = (b, s) -> w_db s = w_db (store w) ->
     Q (inr b) {| store := s; peers := peers w |}) ->
  wp (call (on_store op)) w Q.
Proof.
  intros He HQ. apply wp_call, ends_on_store. unfold ends in *. apply HQ; [|done].
  by destruct (op (store w)).
Qed.

Lemma CredentialVerified_tables `{Env} connectorID subject email w :
  ends (CredentialVerified connectorID subject email) w (fun _ w' => w_db w' = w_db w).
Proof. unfold CredentialVerified. repeat store_step; cbn; inv_stmt; done. Qed.

Lemma GenerateRefreshMaterial_quiet `{Env} w :
  ends GenerateRefreshMaterial w (fun _ w' => w_db w' = w_db w).
Proof. unfold GenerateRefreshMaterial. repeat store_step; done. Qed.

Lemma EncryptCredential_quiet `{Env} `{AEAD} secret sid client conn plain w :
  ends (EncryptCredential secret sid client conn plain) w (fun _ w' => w_db w' = w_db w).
Proof. eapply ends_mono; [apply encrypt_spec|]. by intros [[??]?] w' [? _]. Qed.

Lemma signContext_quiet `{Env} `{JWT} signer context identity w :
  ends (signContext signer context identity) w (fun _ w' => w_db w' = w_db w).
Proof. unfold signContext. repeat store_step; done. Qed.

Lemma SignTokenPair_quiet `{Env} `{JWT} signer context w :
  ends (SignTokenPair signer context) w (fun _ w' => w_db w' = w_db w).
Proof.
  unfold SignTokenPair. apply ends_run, wp_bind, wp_call.
  eapply ends_mono; [apply signContext_quiet|]. intros [id err] w1 Hw1. cbn beta iota.
  destruct err; [done|]. apply wp_bind, wp_call.
  eapply ends_mono; [apply signContext_quiet|]. intros [access err] w2 Hw2. cbn beta iota.
  destruct err; [apply wp_return | apply wp_ret]; by rewrite Hw2.
Qed.

Lemma put_grant_twice sid g g' s : put_grant sid g' (put_grant sid g s) = put_grant sid g' s.
Proof. unfold put_grant. cbn. by rewrite insert_insert_eq. Qed.

(** ** Lifetimes *)

Lemma cap_le_l t u : cap t u <= t.
Proof. rewrite cap_min. lia. Qed.
Lemma cap_le_r t u : cap t u <= u.
Proof. rewrite cap_min. lia. Qed.

Lemma token_expiry_le credential expiry p : token_expiry credential expiry p <= expiry.
Proof.
  unfold token_expiry. case_match; [|apply cap_le_r].
  etransitivity; [apply cap_le_l | apply cap_le_r].
Qed.

(** A token does not outlive a known expiry of the upstream access token. *)
Lemma token_expiry_upstream credential expiry p :
  is_zero (Cred.AccessExpiry credential) = false ->
  token_expiry credential expiry p <= Cred.AccessExpiry credential.
Proof. unfold token_expiry. intros ->. apply cap_le_r. Qed.

Lemma absolute_expiry_le grant credential :
  absolute_expiry grant credential <= AbsoluteExpiry grant.
Proof.
  unfold absolute_expiry, after.
  repeat case_match; repeat match goal with H : _ && _ = true |- _ => apply andb_true_iff in H as [? ?] end; lia.
Qed.

(** ** The states of a claimed family *)

(** The family cannot be refreshed again: it is revoked, or its upstream refresh was
    started under a claim that is still there. *)
Definition fenced (g : GrantRow) : Prop :=
  g_revoked_at g <> None \/ g_upstream_refresh_started g = true /\ is_Some (g_claim_expires_at g).

(** Fenced families stay fenced, with the connector they have. *)
Definition fences_kept (s s' : Tables) : Prop :=
  forall sid g, refresh_grants s !! sid = Some g -> fenced g ->
  exists g', refresh_grants s' !! sid = Some g' /\ fenced g' /\ g_connector_id g' = g_connector_id g.

#[export] Instance fences_kept_preorder : PreOrder fences_kept.
Proof.
  split; [intros s sid g; eauto|]. intros s1 s2 s3 H12 H23 sid g Hg Hf.
  destruct (H12 _ _ Hg Hf) as (g2 & Hg2 & Hf2 & E2). destruct (H23 _ _ Hg2 Hf2) as (g3 & ? & ? & ?).
  exists g3. split_and!; [done|done|congruence].
Qed.

Lemma fences_kept_same s s' : refresh_grants s' = refresh_grants s -> fences_kept s s'.
Proof. intros E sid g. rewrite E. eauto. Qed.

(** One family changed, and not for the better. *)
Lemma fences_kept_put sid g g' s :
  refresh_grants s !! sid = Some g -> (fenced g -> fenced g' /\ g_connector_id g' = g_connector_id g) ->
  fences_kept s (put_grant sid g' s).
Proof.
  intros Hg Hf sid' g0 Hg0 Hf0. rewrite grants_put_grant. destruct (decide (sid' = sid)) as [->|Hne].
  - rewrite lookup_insert_eq. assert (g0 = g) as -> by congruence. exists g'. naive_solver.
  - rewrite lookup_insert_ne by done. eauto.
Qed.

Lemma fences_kept_touch sid p f s :
  (forall g, p g = true -> fenced g -> fenced (f g) /\ g_connector_id (f g) = g_connector_id g) ->
  fences_kept s (touch sid p f s).
Proof.
  intros Hf. unfold touch. destruct (refresh_grants s !! sid) as [g|] eqn:Hg; [|done].
  destruct (p g) eqn:Hp; [|done]. eapply fences_kept_put; eauto.
Qed.

(** A family that is not fenced may change, the others stay. *)
Lemma fences_kept_except sid g s s' :
  refresh_grants s !! sid = Some g -> ~ fenced g ->
  (forall sid', sid' <> sid -> refresh_grants s' !! sid' = refresh_grants s !! sid') -> fences_kept s s'.
Proof.
  intros Hg Hf Hs sid' g0 Hg0 Hf0. destruct (decide (sid' = sid)) as [->|Hne]; [|rewrite Hs by done; eauto].
  congruence.
Qed.

Lemma fences_kept_put_token h t s s' : fences_kept s s' -> fences_kept s (put_token h t s').
Proof. intros Hf. etrans; [exact Hf|]. by apply fences_kept_same. Qed.

Lemma rotate_fences current replacement clientID now s :
  fences_kept s (rotate_spec current replacement clientID now s).2.
Proof.
  unfold rotate_spec. destruct (token_and_grant _ _) as [[t g]|] eqn:Htok; [|done].
  apply token_and_grant_Some in Htok as [_ Hg].
  repeat case_match; cbn [snd]; try done; (etrans; [|eapply fences_kept_put]);
    [reflexivity|exact Hg|by split; [left|]| |cbn; exact Hg|done]; by repeat apply fences_kept_put_token.
Qed.

(** The status of the family changed, nothing else: every column but the revocation, the
    claim and the mark of a started refresh is as it was. *)
Definition status_only (g g' : GrantRow) : Prop :=
  same_terms g g' /\ revocation_kept g g' /\ g_last_used_at g' = g_last_used_at g /\
  g_idle_expires_at g' = g_idle_expires_at g /\
  g_absolute_expires_at g' = g_absolute_expires_at g /\
  g_credential_nonce g' = g_credential_nonce g /\
  g_credential_ciphertext g' = g_credential_ciphertext g /\
  g_upstream_access_expires_at g' = g_upstream_access_expires_at g /\
  g_upstream_refresh_expires_at g' = g_upstream_refresh_expires_at g /\
  g_upstream_access_nonexpiring g' = g_upstream_access_nonexpiring g.

Definition held_row (claim : RefreshClaim) (started : bool) (g : GrantRow) : GrantRow :=
  (claim_row claim g) <| g_upstream_refresh_started := started |>.

Definition is_configuration_failure (f : option Failure.Failure) : Prop :=
  exists retry, f = Some (retry_later "upstream configuration error" retry).

(** A successful exchange of [current] against the tables [s], in which its row and its
    family are [t] and [g], with the granted scopes [scopes]: the tokens returned were
    signed for the terms of the family, they do not outlive it, the presented token is
    consumed and its replacement stored in one step. *)
Record reissued `{Env} `{JWT} (signer : Signer) (current : RefreshMaterial) (s : Tables) (t : TokenRow)
    (g : GrantRow) (scopes : string) (groups : list string) (r : Result.Result) (s' : Tables) : Prop := {
  presented : token_and_grant (HandleHash current) s = Some (t, g) /\
    t_token_hash t = TokenHash current /\ g_revoked_at g = None /\ t_consumed_at t = None;
  signed : exists verified id w w', SignTokenPair signer
      (exchange_context (grant_full (t_sid t) g) verified groups scopes id (Result.AccessExpiry r)) w
    = ((Result.IDToken r, Result.AccessToken r, None), w') /\ id <= g_absolute_expires_at g;
  replaced : exists replacement now g', Result.RefreshToken r = Token replacement /\
    refresh_tokens s !! HandleHash replacement = None /\
    refresh_tokens s' !! HandleHash current = Some (consumed now (TokenHash replacement) t) /\
    refresh_tokens s' !! HandleHash replacement
      = Some (new_token_row replacement (t_sid t) now (g_idle_expires_at g')) /\
    refresh_grants s' !! t_sid t = Some g' /\ same_terms g g' /\ g_revoked_at g' = None /\
    g_idle_expires_at g' <= g_absolute_expires_at g' <= g_absolute_expires_at g /\
    now < Result.AccessExpiry r <= g_absolute_expires_at g'
}.

Section Stages.
Context `{Env} {P : Type} `{!PolicyResolver P} `{!Connectors P} `{!Contexts P}.
Context `{!AEAD} `{!JWT} `{!CredentialJSON}.
Context (cfg : Config.Config) (signer : Signer).

(** How often the providers were asked to refresh a credential. *)
Context (asked : P -> nat).
Hypothesis asked_identity : forall conn token p, asked (GetIdentity conn token p).2 = asked p.

(** The tables before the claim, the family and the claim. *)
Context (s0 : Tables) (g : GrantRow) (grant : RefreshGrant) (claim : RefreshClaim) (asked0 : nat).
Hypothesis grant_eq : grant = grant_full (SID grant) g.
Hypothesis grant_live : g_revoked_at g = None.

Local Abbreviation sid := (SID grant).

Lemma grant_client : ClientID grant = g_client_id g.
Proof. by rewrite grant_eq. Qed.

(** The claim is held: the refresh was started or the providers were not asked. *)
Definition held (started : bool) (w : Process P) : Prop :=
  w_db (store w) = put_grant sid (held_row claim started g) s0 /\
  (started = false -> asked (peers w) = asked0).

(** The exchange ended in a failure. *)
Definition closed (o : outcome) (w : Process P) : Prop :=
  o.2 <> None /\
  exists g', w_db (store w) = put_grant sid g' s0 /\ status_only g g' /\
    (asked (peers w) <> asked0 -> fenced g' \/ is_configuration_failure o.2).

Definition closed_or {A} (Q : A -> Process P -> Prop) (x : outcome + A) (w : Process P) : Prop :=
  match x with inl o => closed o w | inr a => Q a w end.

Lemma status_only_held b : status_only g (held_row claim b g).
Proof. unfold status_only, revocation_kept, same_terms. cbn. auto 20. Qed.

Lemma closed_held b o w : held b w -> o.2 <> None -> closed o w.
Proof.
  intros [Hdb Hasked] Ho. split; [done|]. exists (held_row claim b g).
  split_and!; [done | apply status_only_held |]. intros Hne. left. right.
  destruct b; [cbn; eauto | by destruct Hne; apply Hasked].
Qed.

(** A change of the held row alone. *)
Lemma held_touch b p f s :
  s = put_grant sid (held_row claim b g) s0 ->
  touch sid p f s = put_grant sid (if p (held_row claim b g) then f (held_row claim b g)
                                   else held_row claim b g) s0
  /\ touched sid p s = p (held_row claim b g).
Proof.
  intros ->. unfold touch, touched. rewrite grants_put_grant, lookup_insert_eq. 
  destruct (p _); [by rewrite put_grant_twice | done].
Qed.

Lemma revoke_held b reason now w :
  held b w ->
  ends (revoke grant reason now) w (fun f w' => closed (zero_result, Some f) w').
Proof.
  intros [Hdb Hasked]. unfold revoke. repeat service_step.
  eapply wp_atomic; [apply RevokeGrant_atomic|..].
  - intros err s He Hs. cbn beta iota. destruct err; [|discriminate].
    apply wp_return, (closed_held b); [split|]; cbn; [by rewrite Hs | auto | done].
  - unfold revoke_grant_spec. intros err s [= <- Hs]. cbn beta iota. apply wp_ret.
    edestruct held_touch as [Ht _]; [exact Hdb|]. rewrite Ht in Hs.
    assert ((g_client_id (held_row claim b g) =? ClientID grant)%string
            && not_revoked (held_row claim b g) = true) as Hp.
    { rewrite grant_client. unfold not_revoked. cbn. by rewrite String.eqb_refl, grant_live. }
    cbv beta in Hs. rewrite Hp in Hs.
    split; [done|]. eexists. split; [by symmetry; apply Hs|]. split.
    + unfold status_only, revocation_kept, same_terms. cbn. auto 20.
    + intros _. left. left. done.
Qed.

Lemma held_tick b w (w' : Process P) :
  held b w -> w_db (store w') = w_db (store w) -> peers w' = peers w -> held b w'.
Proof. unfold held. by intros [??] -> ->. Qed.

Lemma wp_revoke_now {A} b reason w (Q : (outcome + A) -> Process P -> Prop) :
  held b w -> (forall o w', closed o w' -> Q (inl o) w') -> wp (revoke_now grant reason) w Q.
Proof.
  intros Hh HQ. unfold revoke_now. repeat service_step. apply wp_call. eapply ends_mono.
  { eapply (revoke_held b). by eapply held_tick. }
  intros f w' Hc. apply wp_return, HQ. done.
Qed.

Lemma wp_revoke {A} b reason now w (Q : (outcome + A) -> Process P -> Prop) :
  held b w -> (forall o w', closed o w' -> Q (inl o) w') ->
  wp (f ← call (revoke grant reason now); return_ (refuse f)) w Q.
Proof.
  intros Hh HQ. repeat service_step. apply wp_call. eapply ends_mono; [by eapply (revoke_held b)|].
  intros f w' Hc. apply wp_return, HQ. done.
Qed.

Lemma held_row_mine b : claimed_by (ClaimID claim) (held_row claim b g) && not_revoked (held_row claim b g) = true.
Proof.
  unfold claimed_by, not_revoked. cbn. by rewrite bool_decide_eq_true_2, grant_live.
Qed.

Lemma mark_held now w :
  held false w ->
  let s := w_db (store w) in
  mark_spec sid claim now s = (Some ErrCredentialIndeterminate, s) \/
  mark_spec sid claim now s = (None, put_grant sid (held_row claim true g) s0).
Proof.
  intros [Hdb _]. unfold mark_spec. edestruct held_touch as [-> ->]; [exact Hdb|].
  pose proof (held_row_mine false) as Hm. apply andb_true_iff in Hm as [-> ->].
  rewrite andb_true_r. cbn [andb]. destruct (claim_alive _ _); [by right|]. left. by rewrite Hdb.
Qed.

Lemma abort_held w :
  held true w ->
  abort_spec sid claim (w_db (store w)) =
  (None, put_grant sid (unclaim_row (held_row claim true g)) s0).
Proof.
  intros [Hdb _]. unfold abort_spec. edestruct held_touch as [-> ->]; [exact Hdb|].
  by rewrite held_row_mine.
Qed.

Lemma started_held (w w' : Process P) : held true w -> w_db (store w') = w_db (store w) -> held true w'.
Proof. unfold held. by intros [? _] ->. Qed.

Ltac by_revoke b :=
  apply wp_call; eapply ends_mono;
  [ eapply (revoke_held b); first [by eapply held_tick | by eapply started_held | eassumption]
  | intros ? ? ?; cbn beta iota; try (apply wp_return); try done ].

Lemma refreshCredential_held credential w :
  held false w ->
  ends (refreshCredential grant claim credential) w (fun '(_, started, f) w' =>
    match f with
    | Some f => closed (zero_result, Some f) w'
    | None => held true w' /\ started = true
    end).
Proof.
  intros Hh. unfold refreshCredential. repeat service_step.
  assert (held false {| store := count_tick (store w); peers := peers w |}) as Hh' by by eapply held_tick.
  eapply wp_atomic; [apply MarkUpstreamRefreshStarted_atomic|..].
  { intros err s He Hs. destruct err as [e|]; [|discriminate]. cbn beta iota.
    assert (held false {| store := s; peers := peers w |}) as Hf by by eapply held_tick.
    repeat service_step; [by_revoke false | by eapply closed_held]. }
  intros err s Hm. destruct (mark_held (clock (c_tick (w_cnt (store w))) + w_slept (store w)) _ Hh)
    as [Hm'|Hm']; cbn [store count_tick with_cnt w_db] in Hm; rewrite Hm' in Hm; injection Hm as <- Hs; cbn beta iota.
  { repeat service_step; [|discriminate]. by_revoke false. }
  clear Hm'. assert (held true {| store := s; peers := peers w |}) as Ht by done.
  repeat service_step. apply wp_call, ends_on_peers.
  unfold ends. destruct (Refresh _ _ _) as [[refreshed e] p]. cbn [fst snd].
  assert (held true {| store := s; peers := p |}) as Hp by by eapply started_held.
  clear Hh Hh' Ht. destruct e as [e|]; [|destruct refreshed as [c|]].
  - destruct (ErrorInfo e) as [kind retry]. repeat service_step; [|by_revoke true].
    eapply wp_atomic; [apply AbortUpstreamRefresh_atomic|..].
    + intros a s' He Hs'. destruct a; [|discriminate]. apply wp_return. cbn beta iota.
      eapply (closed_held true); [by eapply started_held | done].
    + intros a s' Ha. pose proof (abort_held _ Hp) as Hab. cbn [store] in *.
      rewrite Hab in Ha. injection Ha as <- Hs'. apply wp_return. cbn beta iota.
      split; [done|]. eexists. split; [by symmetry|]. split.
      * unfold status_only, revocation_kept, same_terms. cbn. auto 20.
      * intros _. right. by eexists.
  - apply wp_ret. cbn beta iota. split; [|done]. done.
  - repeat service_step. by_revoke true.
Qed.

Lemma wp_refreshCredential {A} credential w (Q : (outcome + A) -> Process P -> Prop)
    (k : Cred.Credential * bool -> go (Process P) outcome A) :
  held false w ->
  (forall o w', closed o w' -> Q (inl o) w') ->
  (forall c w', held true w' -> wp (k (c, true)) w' Q) ->
  wp ('(credential, started, f) ← call (refreshCredential grant claim credential);
      match f with Some f => return_ (refuse f) | None => k (credential, started) end) w Q.
Proof.
  intros Hh Hc Hk. repeat service_step. apply wp_call.
  eapply ends_mono; [by apply refreshCredential_held|].
  intros [[c started] [f|]] w' Hf; cbn beta iota in *; [by apply wp_return, Hc|].
  destruct Hf as [Hf ->]. by apply Hk.
Qed.

Lemma renew_held credential now w :
  held false w ->
  wp (renew grant claim credential now) w (closed_or (fun '(_, started) w' => held started w')).
Proof.
  intros Hh. unfold renew. apply wp_bind.
  assert (forall c started w', held started w' ->
    wp (if is_empty (Cred.RefreshToken c) && is_zero (Cred.AccessExpiry c)
           && negb (Cred.AccessNonExpiring c)
        then if started then revoke_now grant indeterminate
             else f ← call (revoke grant "unknown_upstream_expiry" now); return_ (refuse f)
        else mret (c, started)) w' (closed_or (fun '(_, started) w' => held started w'))) as Hrest.
  { intros c started w' Hw'. case_match; [|by apply wp_ret].
    destruct started; [eapply (wp_revoke_now true) | eapply (wp_revoke false)]; by eauto. }
  case_match; [case_match|].
  - eapply (wp_revoke false); by eauto.
  - eapply wp_refreshCredential with (k := mret); [done | by intros |].
    intros c w' Hw'. apply wp_ret. exact (Hrest c true w' Hw').
  - apply wp_ret. exact (Hrest credential false w Hh).
Qed.

Lemma release_held w :
  held false w -> wp (release grant claim) w (fun x w' => match x with
    | inl _ => False
    | inr _ => forall f, closed (refuse f) w'
    end).
Proof.
  intros Hh. unfold release. repeat service_step.
  eapply wp_atomic; [apply ReleaseRefreshClaim_atomic|..].
  - intros err s _ Hs. apply wp_ret. intros f. eapply (closed_held false); [by eapply held_tick | done].
  - unfold release_spec. intros err s [= <- Hs]. apply wp_ret. intros f. destruct Hh as [Hdb Hasked].
    edestruct held_touch as [Ht _]; [exact Hdb|]. rewrite Ht in Hs. split; [done|].
    eexists. split; [by symmetry|]. split; [|intros Hne; by destruct Hne; apply Hasked].
    case_match; unfold status_only, revocation_kept, same_terms; cbn; auto 20.
Qed.

Lemma wp_release {A} f w (Q : (outcome + A) -> Process P -> Prop) :
  held false w -> (forall o w', closed o w' -> Q (inl o) w') ->
  wp (release grant claim ;; return_ (refuse f)) w Q.
Proof.
  intros Hh HQ. apply wp_bind. eapply wp_mono; [by apply release_held|].
  intros [o|[]] w' Hc; [done|]. apply wp_return, HQ, Hc.
Qed.

Lemma abandon_held {A} started f w (Q : (outcome + A) -> Process P -> Prop) :
  held started w -> (forall o w', closed o w' -> Q (inl o) w') ->
  wp (abandon started grant claim f) w Q.
Proof. destruct started; intros; [by eapply (wp_revoke_now true) | by apply wp_release]. Qed.

Lemma identity_held started conn token w :
  held started w ->
  wp (R := outcome) (call (on_peers (GetIdentity conn token))) w (fun x w' => match x with
    | inl _ => False
    | inr _ => held started w'
    end).
Proof.
  intros [Hdb Hasked]. apply wp_call, ends_on_peers. unfold ends. split; [done|].
  intros Hs. cbn. by rewrite asked_identity, Hasked.
Qed.

Lemma identify_held credential started w :
  held started w ->
  wp (identify grant claim credential started) w
    (closed_or (fun '(_, _, started) w' => held started w')).
Proof.
  intros Hh. unfold identify. apply wp_bind. eapply wp_mono; [by apply identity_held|].
  intros [o|[identity err]] w' Hw'; [done|]. clear w Hh. cbn beta iota. apply wp_bind.
  assert (forall (i : Identity.Identity) (err : option error) (c : Cred.Credential) started w',
    held started w' ->
    wp (match err with
        | Some _ => if started then revoke_now grant indeterminate
                    else revoke_now grant "upstream_authentication"
        | None => mret (i, c, started)
        end) w' (closed_or (fun '(_, _, started) w' => held started w'))) as Hrest.
  { intros i err0 c st w0 Hw0. destruct err0; [|by apply wp_ret].
    destruct st; [eapply (wp_revoke_now true) | eapply (wp_revoke_now false)]; by eauto. }
  destruct err as [e|]; [|apply wp_ret; exact (Hrest identity None credential _ _ Hw')].
  destruct started; [apply wp_ret; exact (Hrest identity (Some e) credential _ _ Hw')|].
  destruct (ErrorInfo e) as [kind retry]. case_match; [|case_match].
  - eapply wp_refreshCredential with (k := fun '(c, st) =>
      '(identity, err) ← call (on_peers (GetIdentity (Grant.ConnectorID grant) (OAuthToken c)));
      mret (identity, err, c, st)); [done | by intros |].
    intros c w0 Hw0. apply wp_bind. eapply wp_mono; [by apply identity_held|].
    intros [o|[i2 err2]] w2 Hw2; [done|]. apply wp_ret. exact (Hrest i2 err2 c true _ Hw2).
  - by apply wp_release.
  - apply wp_ret. exact (Hrest identity (Some e) credential false _ Hw').
Qed.

Lemma recheck_held started identity w :
  held started w ->
  wp (recheck_identity cfg grant claim started identity) w (closed_or (fun _ w' => held started w')).
Proof.
  intros Hh. unfold recheck_identity. destruct (match_emails _ _) as [matched pv]. apply wp_bind.
  apply wp_quiet; [apply CredentialVerified_tables|]. intros [[ex local] err] s _ Hs.
  assert (held started {| store := s; peers := peers w |}) as Hw' by by eapply held_tick.
  cbn beta iota zeta. case_match; [by eapply abandon_held; eauto|].
  case_match; [|by apply wp_ret].
  destruct started; [eapply (wp_revoke_now true) | eapply (wp_revoke_now false)]; by eauto.
Qed.

Lemma complete_spec_fail current replacement gr c nonce ciphertext abs now s e err s' :
  complete_spec current replacement gr c nonce ciphertext abs now s = ((e, Some err), s') -> s' = s.
Proof. unfold complete_spec. repeat case_match; congruence. Qed.

Section Finish.
Context (current : RefreshMaterial) (t : TokenRow) (terms : RefreshGrant).
Hypothesis token_row : token_and_grant (HandleHash current) s0 = Some (t, g).
Hypothesis token_sid : t_sid t = sid.
Hypothesis terms_sid : SID terms = sid.
Hypothesis terms_idle : IdleTTL terms = g_idle_ttl_ns g.

Lemma complete_attempts_held n encoded abs expiry access id last started w :
  held started w -> (n = O -> last.2 <> None) ->
  wp (complete_attempts n current terms claim encoded abs expiry access id last) w
    (fun x w' => match x with
     | inl _ => False
     | inr (_, Some _) => held started w'
     | inr (replacement, None) => exists now nonce ciphertext e, now < access /\
         complete_spec current replacement terms claim nonce ciphertext abs now
           (put_grant sid (held_row claim started g) s0) = ((e, None), w_db (store w'))
     end).
Proof.
  revert last w. induction n as [|n IH]; intros last w Hh Hlast; cbn [complete_attempts].
  { apply wp_ret. destruct last as [m [e|]]; [done | by destruct Hlast]. }
  apply wp_bind, wp_quiet; [apply GenerateRefreshMaterial_quiet|].
  intros [m [e|]] s1 _ Hs1; cbn beta iota; [by apply wp_ret; eapply held_tick|].
  apply wp_bind, wp_quiet; [apply EncryptCredential_quiet|].
  intros [[nonce ciphertext] [e|]] s2 _ Hs2; cbn beta iota in *; cbn [store] in *.
  { apply wp_ret. eapply held_tick; [done|..]; cbn; congruence. }
  repeat service_step; [eapply held_tick; [done|..]; cbn; congruence|].
  assert (held started {| store := count_tick s2; peers := peers w |}) as Hh'
    by (eapply held_tick; [done|..]; cbn; congruence).
  repeat match goal with H : _ || _ = false |- _ => apply orb_false_iff in H as [? ?] end.
  set (now := clock _ + w_slept _) in *.
  assert (now < access) as Hnow.
  { unfold after in *. repeat match goal with H : negb _ = false |- _ =>
      apply negb_false_iff, Z.ltb_lt in H end. done. }
  eapply wp_atomic; [apply CompleteClaimedRefresh_atomic|..].
  - intros [e [err|]] s3 He Hs3; [|discriminate]. cbn beta iota.
    assert (held started {| store := s3; peers := peers w |}) as Hh3 by by eapply held_tick.
    destruct (negb (is_err _ _)); [by apply wp_ret | by apply IH].
  - intros [e [err|]] s3 Hspec; cbn beta iota.
    + apply complete_spec_fail in Hspec.
      assert (held started {| store := s3; peers := peers w |}) as Hh3 by by eapply held_tick.
      destruct (negb (is_err _ _)); [by apply wp_ret | by apply IH].
    + destruct Hh' as [Hdb _]. cbn [store] in *. rewrite Hdb in Hspec. cbn. eauto 10.
Qed.

(** What a completion writes. *)
Lemma complete_held current' replacement nonce ciphertext abs now e started s' :
  current' = current ->
  complete_spec current' replacement terms claim nonce ciphertext abs now
    (put_grant sid (held_row claim started g) s0) = ((e, None), s') ->
  t_token_hash t = TokenHash current /\ t_consumed_at t = None /\
  refresh_tokens s0 !! HandleHash replacement = None /\
  refresh_tokens s' !! HandleHash current = Some (consumed now (TokenHash replacement) t) /\
  exists g', refresh_grants s' !! sid = Some g' /\ same_terms g g' /\ g_revoked_at g' = None /\
    refresh_tokens s' !! HandleHash replacement
      = Some (new_token_row replacement sid now (g_idle_expires_at g')) /\
    g_idle_expires_at g' <= g_absolute_expires_at g' /\
    g_absolute_expires_at g' = Z.min abs (g_absolute_expires_at g) /\
    forall sid', sid' <> sid -> refresh_grants s' !! sid' = refresh_grants s0 !! sid'.
Proof.
  intros ->. unfold complete_spec.
  destruct (proj1 (token_and_grant_Some _ _ _ _) token_row) as [Ht Hg].
  assert (token_and_grant (HandleHash current) (put_grant sid (held_row claim started g) s0)
          = Some (t, held_row claim started g)) as ->.
  { apply token_and_grant_Some. rewrite tokens_put_grant, grants_put_grant, token_sid.
    by rewrite lookup_insert_eq. }
  destruct (holds_claim _ _ _ _ _) eqn:Hc; [|discriminate]. cbn [negb].
  repeat (case_match; [discriminate|]). intros [= <- <-].
  unfold holds_claim in Hc. rewrite !andb_true_iff, String.eqb_eq in Hc.
  destruct Hc as ((((Hhash & Hcons) & _) & _) & _).
  match goal with H : is_some (refresh_tokens _ !! _) = false |- _ =>
    rewrite tokens_put_grant, is_some_false in H; rename H into Hnew end.
  assert (HandleHash replacement <> HandleHash current) as Hne by congruence.
  split_and!; [done | by apply is_nil_true | done |..].
  { by rewrite tokens_put_token, lookup_insert_ne, tokens_put_grant, tokens_put_token, lookup_insert_eq by done. }
  eexists. rewrite terms_sid. split_and!.
  - by rewrite grants_put_token, grants_put_grant, lookup_insert_eq.
  - unfold same_terms. cbn. done.
  - done.
  - by rewrite tokens_put_token, lookup_insert_eq.
  - cbn. lia.
  - done.
  - intros sid' Hne'. rewrite grants_put_token, grants_put_grant, lookup_insert_ne, grants_put_token, grants_put_grant by done.
    by apply lookup_insert_ne.
Qed.

(** The exchange succeeded. *)
Definition succeeded (scopes : string) (narrowed : bool) (groups : list string)
    (o : outcome) (w : Process P) : Prop :=
  o.2 = None /\ (~ fenced g -> fences_kept s0 (w_db (store w))) /\ Result.Scope o.1 = (if narrowed then scopes else "") /\
  reissued signer current s0 t g scopes groups o.1 (w_db (store w)).

Hypothesis terms_eq : exists a r n, terms = grant <| UpstreamAccessExpiry := a |>
  <| UpstreamRefreshExpiry := r |> <| UpstreamAccessNonExpiring := n |>.

Lemma completed_reissued started verified scopes narrowed groups absolute access id idToken
    accessToken replacement now nonce ciphertext e w1 w2 w' :
  access <= absolute -> id <= absolute -> absolute <= AbsoluteExpiry grant -> now < access ->
  SignTokenPair signer (exchange_context grant verified groups scopes id access) w1
    = ((idToken, accessToken, None), w2) ->
  complete_spec current replacement terms claim nonce ciphertext absolute now
    (put_grant sid (held_row claim started g) s0) = ((e, None), w_db (store w')) ->
  succeeded scopes narrowed groups
    (issued terms idToken accessToken replacement access narrowed scopes) w'.
Proof.
  intros Hacc Hid Habs Hnow Hsign Hc. eapply complete_held in Hc; [|done].
  destruct Hc as (Hhash & Hcons & Hnew & Hold & g' & Hg' & Hterms & Hrev & Hrepl & Hidle & Habs' & Hothers).
  assert (AbsoluteExpiry grant = g_absolute_expires_at g) as Habsg by by rewrite grant_eq.
  split; [done|]. split.
  { intros Hnf. apply token_and_grant_Some in token_row as [_ Hg]. rewrite token_sid in Hg.
    by eapply fences_kept_except. }
  split; [by destruct narrowed|]. split.
  - done.
  - exists verified, id, w1, w2. rewrite token_sid, <- grant_eq. split; [|lia].
    destruct narrowed; exact Hsign.
  - exists replacement, now, g'. rewrite token_sid.
    destruct narrowed; cbn; split_and!; try done; lia.
Qed.
End Finish.

Lemma finish_held current t credential started verified scopes narrowed groups w :
  token_and_grant (HandleHash current) s0 = Some (t, g) -> t_sid t = sid -> held started w ->
  wp (finish cfg signer current grant claim credential started verified scopes narrowed groups) w
    (closed_or (succeeded current t scopes narrowed groups)).
Proof.
  intros Htok Hsid Hh. unfold finish.
  destruct (marshal_credential credential) as [encoded|]; [|by eapply abandon_held; eauto].
  repeat service_step.
  { eapply (wp_revoke_now true); [by eapply held_tick | done]. }
  { by_revoke false. }
  set (issuedAt := clock _ + w_slept _) in *.
  set (absolute := absolute_expiry grant credential) in *.
  set (expiry := cap (add issuedAt (IdleTTL grant)) absolute) in *.
  apply wp_quiet; [apply SignTokenPair_quiet|]. intros [[idToken accessToken] err] s Hsign Hs.
  assert (held started {| store := s; peers := peers w |}) as Hh' by by eapply held_tick.
  cbn beta iota. destruct (is_some err) eqn:Herr; [by eapply abandon_held; eauto|].
  apply is_some_false in Herr as ->. cbv zeta. apply wp_bind.
  match goal with |- wp (complete_attempts _ _ ?tm _ _ _ _ _ _ _) _ _ => set (terms := tm) in * end.
  eapply wp_mono; [by apply (complete_attempts_held current terms)|].
  intros [o|[replacement [e|]]] w' Hc; cbn beta iota in Hc |- *; [done | by eapply abandon_held; eauto |].
  destruct Hc as (now & nonce & ciphertext & e & Hnow & Hc).
  apply wp_ret. eapply completed_reissued with (terms := terms); [done..| | | | | |exact Hsign|exact Hc].
  - unfold terms. eauto.
  - etransitivity; [apply token_expiry_le | apply cap_le_r].
  - etransitivity; [apply token_expiry_le | apply cap_le_r].
  - apply absolute_expiry_le.
  - done.
Qed.
End Stages.

(** ** The claim *)

Section Exchanges.
Context `{Env} {P : Type} `{!PolicyResolver P} `{!Connectors P} `{!Contexts P}.
Context `{!AEAD} `{!JWT} `{!CredentialJSON}.
Context (cfg : Config.Config) (signer : Signer).
Context (asked : P -> nat).
Hypothesis asked_identity : forall conn token p, asked (GetIdentity conn token p).2 = asked p.
Hypothesis asked_context : forall p, asked (ctx_done p).2 = asked p.
Hypothesis asked_client : forall client fresh p, asked (ResolveClient client fresh p).2 = asked p.
Hypothesis asked_user : forall client subject p, asked (ResolveUser client subject p).2 = asked p.

(** The tables at the start of the exchange and the token presented. *)
Context (s0 : Tables) (a0 : nat) (current : RefreshMaterial).

(** Nothing happened. *)
Definition untouched (w : Process P) : Prop := w_db (store w) = s0 /\ asked (peers w) = a0.

(** The exchange was refused: at most the status of the family of the presented token
    changed; if a provider was asked, the family is fenced, unless the refusal is the
    provider's that its configuration is wrong. *)
Definition refused (o : outcome) (w : Process P) : Prop :=
  o.2 <> None /\
  (untouched w \/
   exists t g g', token_and_grant (HandleHash current) s0 = Some (t, g) /\
     w_db (store w) = put_grant (t_sid t) g' s0 /\ status_only g g' /\ (fenced g -> fenced g') /\
     (asked (peers w) <> a0 -> fenced g' \/ is_configuration_failure o.2)).

Lemma refused_fences o w : refused o w -> fences_kept s0 (w_db (store w)).
Proof.
  intros [_ [[-> _]|(t & g & g' & Htok & -> & Hst & Hf & _)]]; [done|].
  apply token_and_grant_Some in Htok as [_ Hg]. apply (fences_kept_put _ g); [done|].
  intros Hfg. split; [auto|]. by destruct Hst as ((_ & _ & _ & _ & ? & _) & _).
Qed.

Lemma untouched_tick w w' :
  untouched w -> w_db (store w') = w_db (store w) -> peers w' = peers w -> untouched w'.
Proof. unfold untouched. by intros [??] -> ->. Qed.

Lemma refused_untouched o w : untouched w -> o.2 <> None -> refused o w.
Proof. intros Hw Ho. split; [exact Ho | by left]. Qed.

(** The claim was taken for the family of the presented token. *)
Definition claimed (grant : RefreshGrant) (claim : RefreshClaim) (w : Process P) : Prop :=
  exists t g, token_and_grant (HandleHash current) s0 = Some (t, g) /\
    g_revoked_at g = None /\ ~ fenced g /\ grant = grant_full (t_sid t) g /\
    held asked s0 g grant claim a0 false w.

Lemma claim_fail_status clientID now ttl fresh gr cl e err s' :
  claim_spec current clientID now ttl fresh s0 = ((gr, cl, e, Some err), s') ->
  s' = s0 \/ exists t g g', token_and_grant (HandleHash current) s0 = Some (t, g) /\
               s' = put_grant (t_sid t) g' s0 /\ status_only g g' /\ fenced g'.
Proof.
  unfold claim_spec. destruct (token_and_grant _ _) as [[t g]|] eqn:Htok; [|naive_solver].
  destruct (negb (genuine _ _ _ _)) eqn:Hgen; [naive_solver|].
  assert (g_revoked_at g = None) as Hrev.
  { apply negb_false_iff in Hgen. unfold genuine, not_revoked in Hgen.
    apply andb_true_iff in Hgen as [_ Hn]. by apply is_nil_true. }
  assert (forall g', status_only g g' -> g_revoked_at g' <> None -> exists t0 g0 g'0, Some (t, g) = Some (t0, g0) /\
    put_grant (t_sid t) g' s0 = put_grant (t_sid t0) g'0 s0 /\ status_only g0 g'0 /\ fenced g'0) as Hput.
  { intros g' ? ?. exists t, g, g'. split_and!; [done..|by left]. }
  repeat case_match; intros [= <- <- <- <- <-]; try (by left); right; (apply Hput; [|done]);
    unfold status_only, revocation_kept, same_terms; cbn; auto 20.
Qed.

Lemma claim_success clientID now ttl fresh gr cl e s' :
  claim_spec current clientID now ttl fresh s0 = ((gr, cl, e, None), s') ->
  exists t g, token_and_grant (HandleHash current) s0 = Some (t, g) /\
    t_token_hash t = TokenHash current /\ g_client_id g = clientID /\ g_revoked_at g = None /\
    t_consumed_at t = None /\ unexpired now t g = true /\ gr = grant_full (t_sid t) g /\
    ~ fenced g /\ s' = put_grant (t_sid t) (claim_row cl g) s0.
Proof.
  unfold claim_spec. destruct (token_and_grant _ _) as [[t g]|] eqn:Htok; [|discriminate].
  destruct (genuine _ _ _ _) eqn:Hgen; [|discriminate]. cbn [negb].
  unfold genuine, not_revoked in Hgen. rewrite !andb_true_iff, !String.eqb_eq, is_nil_true in Hgen.
  destruct Hgen as [[Hhash Hclient] Hrev].
  destruct (is_some (t_consumed_at t)) eqn:Hcons; [discriminate|]. apply is_some_false in Hcons.
  destruct (unexpired now t g) eqn:Hexp; [|discriminate]. cbn [negb].
  destruct (claim_alive now g); [discriminate|].
  destruct (is_some (g_claim_expires_at g) && g_upstream_refresh_started g) eqn:Hst; [discriminate|].
  destruct fresh as [id [?|]]; [discriminate|]. intros [= <- <- <- <-]. exists t, g.
  split_and!; try done. intros [?|[Hstarted Hc]]; [done|].
  apply is_some_true in Hc. by rewrite Hc, Hstarted in Hst.
Qed.

Lemma claim_busy clientID now ttl fresh gr cl e err s' :
  claim_spec current clientID now ttl fresh s0 = ((gr, cl, e, Some err), s') ->
  errors_is err ErrRefreshBusy = true -> s' = s0.
Proof.
  unfold claim_spec. intros Hspec Hb.
  destruct (token_and_grant _ _) as [[t g]|]; [|by injection Hspec].
  repeat (case_match; [by injection Hspec as <- <- <- <- <-|]).
  destruct fresh as [id [x|]]; by injection Hspec.
Qed.

Lemma poll_again_spec prepared waitUntil err w :
  untouched w ->
  wp (poll_again prepared waitUntil err) w (fun x w' => match x with
    | inl o => refused o w'
    | inr _ => untouched w'
    end).
Proof.
  intros Hw. unfold poll_again. repeat service_step.
  - apply refused_untouched; [|done]. by eapply untouched_tick.
  - apply wp_call, ends_on_peers. unfold ends. cbn [peers store].
    pose proof (asked_context (peers w)) as Ha. destruct (ctx_done (peers w)) as [d p].
    cbn [fst snd] in *. destruct Hw as [Hdb Ha0].
    repeat service_step; [apply refused_untouched; [|done]|]; by (split; [|cbn; rewrite Ha]).
Qed.

Lemma claim_wait_spec fuel prepared waitUntil w :
  untouched w ->
  wp (claim_wait fuel current prepared waitUntil) w (fun x w' => match x with
    | inl o => refused o w'
    | inr (_, _, Some e) => forall o, o.2 <> None -> refused o w'
    | inr (grant, claim, None) => claimed grant claim w'
    end).
Proof.
  revert w. induction fuel as [|fuel IH]; intros w Hw; cbn [claim_wait].
  { apply wp_return. by apply refused_untouched. }
  repeat service_step. eapply wp_atomic; [apply ClaimRefresh_atomic|..].
  - intros [[[gr cl] e] [err|]] s He Hs; [|discriminate]. cbn beta iota.
    assert (untouched {| store := s; peers := peers w |}) as Hw' by by eapply untouched_tick.
    destruct (negb _); [apply wp_ret; intros o Ho; by apply refused_untouched|].
    apply wp_bind. eapply wp_mono; [by apply poll_again_spec|]. intros [o|[]] w2 Hw2; [done | by apply IH].
  - destruct Hw as [Hdb Ha0]. cbn [store count_tick with_cnt w_db]. rewrite Hdb.
    intros [[[gr cl] e] [err|]] s Hspec; cbn beta iota.
    + destruct (errors_is err ErrRefreshBusy) eqn:Hb; cbn [negb].
      * apply claim_busy in Hspec as Hs; [|done]. apply wp_bind. eapply wp_mono; [by apply poll_again_spec|].
        intros [o|[]] w2 Hw2; [done | by apply IH].
      * apply wp_ret. intros o Ho. split; [done|].
        apply claim_fail_status in Hspec as [Hs|(t & g & g' & Htok & Hs & Hst & Hf)]; [by left|].
        right. exists t, g, g'. by split_and!.
    + apply wp_ret. apply claim_success in Hspec as (t & g & Htok & _ & _ & Hrev & _ & _ & Hgr & Hnf & Hs).
      exists t, g. split_and!; try done. subst gr. by split.
Qed.

(** The exchange succeeded for a family that allows it. *)
Definition granted (scopes : string) (narrowed : bool) (groups : list string) (o : outcome)
    (w : Process P) : Prop :=
  fences_kept s0 (w_db (store w)) /\
  exists t g, (is_email_connector cfg (g_connector_id g) = false -> ~ fenced g) /\
    succeeded signer s0 g current t scopes narrowed groups o w.

Definition refused_or {A} (Q : A -> Process P -> Prop) (x : outcome + A) (w : Process P) : Prop :=
  match x with inl o => refused o w | inr a => Q a w end.

Lemma closed_refused t g grant o w :
  token_and_grant (HandleHash current) s0 = Some (t, g) -> t_sid t = SID grant -> ~ fenced g ->
  closed asked s0 g grant a0 o w -> refused o w.
Proof.
  intros Htok Hsid Hnf [Ho (g' & Hdb & Hst & Ha)]. split; [done|]. right. exists t, g, g'.
  rewrite Hsid. split_and!; [done..| |done]. by intros ?.
Qed.

Lemma connector_spec prepared scopes narrowed groups w :
  untouched w ->
  ends (connector cfg signer current prepared scopes narrowed groups) w (fun o w' =>
    refused o w' \/ granted scopes narrowed groups o w').
Proof.
  intros Hw. unfold connector. repeat service_step.
  eapply wp_mono; [by apply claim_wait_spec; eapply untouched_tick|].
  intros [o|[[grant claim] [e|]]] w1 Hc; cbn beta iota in Hc |- *;
    [by left | by apply wp_return; left; apply Hc |].
  destruct Hc as (t & g & Htok & Hrev & Hnf & Hgr & Hh). assert (t_sid t = SID grant) as Hsid by by subst.
  assert (grant = grant_full (SID grant) g) as Hgr' by by rewrite <- Hsid.
  assert (forall o w', closed asked s0 g grant a0 o w' ->
            refused (merge (inl o)) w' \/ granted scopes narrowed groups (merge (inl o)) w') as Hclosed.
  { intros o w' Ho. left. by eapply closed_refused. }
  repeat service_step;
    try (by eapply (wp_revoke_now asked s0 g grant claim a0 Hgr' Hrev false); [by eapply held_tick | done]).
  assert (held asked s0 g grant claim a0 false
            {| store := count_tick (store w1); peers := peers w1 |}) as Hh' by by eapply held_tick.
  eapply wp_mono; [by apply renew_held|].
  intros [r|[cr started]] w2 Hw2; cbn beta iota in *; [by apply Hclosed|]. apply wp_bind.
  eapply wp_mono; [by apply identify_held|].
  intros [r|[[identity cr'] started']] w3 Hw3; cbn beta iota in *; [by apply Hclosed|]. apply wp_bind.
  eapply wp_mono; [by apply recheck_held|].
  intros [r|verified] w4 Hw4; cbn beta iota in *; [by apply Hclosed|].
  eapply wp_mono; [by eapply (finish_held cfg signer asked s0 g grant claim a0)|].
  intros [r|res] w5 Hw5; cbn beta iota in *; [by apply Hclosed|]. right. split; [by destruct Hw5 as (_ & Hf & _); apply Hf|]. exists t, g. by split.
Qed.

(** ** Direct grants *)

Lemma rotate_fail_status replacement clientID now gr e err s' :
  rotate_spec current replacement clientID now s0 = ((gr, e, Some err), s') ->
  s' = s0 \/ errors_is err ErrRefreshCollision = false /\
    exists t g g', token_and_grant (HandleHash current) s0 = Some (t, g) /\
      s' = put_grant (t_sid t) g' s0 /\ status_only g g' /\ fenced g'.
Proof.
  unfold rotate_spec. destruct (token_and_grant _ _) as [[t g]|] eqn:Htok; [|naive_solver].
  destruct (genuine _ _ _ _) eqn:Hgen; [|naive_solver]. cbn [negb].
  assert (g_revoked_at g = None) as Hrev.
  { unfold genuine, not_revoked in Hgen. apply andb_true_iff in Hgen as [_ Hn]. by apply is_nil_true. }
  repeat case_match; intros [= <- <- <- <-]; try (by left).
  right. split; [done|]. exists t, g. eexists. split_and!; [done|done| |by left].
  unfold status_only, revocation_kept, same_terms. cbn. auto 20.
Qed.

Lemma rotate_success replacement clientID now gr e s' :
  rotate_spec current replacement clientID now s0 = ((gr, e, None), s') ->
  exists t g g', token_and_grant (HandleHash current) s0 = Some (t, g) /\
    t_token_hash t = TokenHash current /\ g_client_id g = clientID /\ g_revoked_at g = None /\
    t_consumed_at t = None /\ refresh_tokens s0 !! HandleHash replacement = None /\
    refresh_tokens s' !! HandleHash current = Some (consumed now (TokenHash replacement) t) /\
    refresh_tokens s' !! HandleHash replacement
      = Some (new_token_row replacement (t_sid t) now (g_idle_expires_at g')) /\
    refresh_grants s' !! t_sid t = Some g' /\ same_terms g g' /\ g_revoked_at g' = None /\
    g_idle_expires_at g' <= g_absolute_expires_at g' /\
    g_absolute_expires_at g' = g_absolute_expires_at g.
Proof.
  unfold rotate_spec. destruct (token_and_grant _ _) as [[t g]|] eqn:Htok; [|discriminate].
  destruct (genuine _ _ _ _) eqn:Hgen; [|discriminate]. cbn [negb].
  unfold genuine, not_revoked in Hgen. rewrite !andb_true_iff, !String.eqb_eq, is_nil_true in Hgen.
  destruct Hgen as [[Hhash Hclient] Hrev].
  destruct (is_some (t_consumed_at t)) eqn:Hcons; [discriminate|]. apply is_some_false in Hcons.
  destruct (unexpired now t g); [|discriminate]. cbn [negb].
  destruct (is_some (refresh_tokens s0 !! _)) eqn:Hnew; [discriminate|]. apply is_some_false in Hnew.
  set (g' := g <| g_last_used_at := now |> <| g_idle_expires_at := _ |>).
  intros [= _ _ <-]. apply token_and_grant_Some in Htok as Hrow. destruct Hrow as [Ht Hg].
  assert (HandleHash replacement <> HandleHash current) as Hne by congruence.
  exists t, g, g'. split_and!; try done.
  - rewrite tokens_put_grant, tokens_put_token, lookup_insert_ne, tokens_put_token, lookup_insert_eq by done. reflexivity.
  - by rewrite tokens_put_grant, tokens_put_token, lookup_insert_eq.
  - by rewrite grants_put_grant, lookup_insert_eq.
  - cbn. lia.
Qed.

Lemma rotate_attempts_spec n grant access id last w :
  untouched w -> (n = O -> last.2 <> None) ->
  wp (rotate_attempts n current grant access id last) w (refused_or (fun '(replacement, err) w' =>
    match err with
    | Some _ => forall o, o.2 <> None -> refused o w'
    | None => exists now gr e, now < access /\
        rotate_spec current replacement (ClientID grant) now s0 = ((gr, e, None), w_db (store w'))
    end)).
Proof.
  revert last w. induction n as [|n IH]; intros last w Hw Hlast; cbn [rotate_attempts].
  { apply wp_ret. destruct last as [m [e|]]; [|by destruct Hlast]. intros o Ho. by apply refused_untouched. }
  apply wp_bind, wp_quiet; [apply GenerateRefreshMaterial_quiet|].
  intros [m [e|]] s1 _ Hs1; cbn beta iota.
  { apply wp_return, refused_untouched; [|done]. by eapply untouched_tick. }
  repeat service_step; [apply refused_untouched; [by eapply untouched_tick | done]|].
  assert (untouched {| store := count_tick s1; peers := peers w |}) as Hw' by by eapply untouched_tick.
  match goal with H : _ || _ = false |- _ => apply orb_false_iff in H as [Hnow _] end.
  unfold after in Hnow. apply negb_false_iff, Z.ltb_lt in Hnow.
  eapply wp_atomic; [apply RotateRefreshToken_atomic|..].
  - intros [[gr e] [err|]] s2 He Hs2; [|discriminate]. cbn beta iota.
    assert (untouched {| store := s2; peers := peers w |}) as Hw2 by by eapply untouched_tick.
    destruct (negb _); [apply wp_ret; intros o Ho; by apply refused_untouched | by apply IH].
  - destruct Hw' as [Hdb Ha]. rewrite Hdb. intros [[gr e] [err|]] s2 Hspec; cbn beta iota.
    + unfold is_err. destruct (errors_is err ErrRefreshCollision) eqn:Hcol; cbn [negb].
      * apply IH; [|done]. apply rotate_fail_status in Hspec as [Hs|[? _]]; [by split | congruence].
      * apply wp_ret. intros o Ho. split; [done|].
        apply rotate_fail_status in Hspec as [Hs|(_ & t & g & g' & Htok & Hs & Hst & Hf)]; [by left|].
        right. exists t, g, g'. by split_and!.
    + apply wp_ret. cbn. eauto 10.
Qed.

Lemma direct_spec t g expiry scopes narrowed groups now w :
  token_and_grant (HandleHash current) s0 = Some (t, g) ->
  is_email_connector cfg (g_connector_id g) = true -> expiry <= g_absolute_expires_at g ->
  untouched w ->
  ends (direct cfg signer current (grant_full (t_sid t) g) expiry scopes narrowed groups now) w
    (fun o w' => refused o w' \/ granted scopes narrowed groups o w').
Proof.
  intros Htok Hemail Hexp Hw. unfold direct. repeat service_step.
  apply wp_quiet; [apply SignTokenPair_quiet|]. intros [[idToken accessToken] err] s Hsign Hs.
  assert (untouched {| store := s; peers := peers w |}) as Hw' by by eapply untouched_tick.
  cbn beta iota. destruct err as [e|]; [apply wp_return; left; by apply refused_untouched|].
  apply wp_bind. eapply wp_mono; [by apply rotate_attempts_spec|].
  intros [o|[replacement [e|]]] w' Hr; cbn beta iota in *;
    [by left | apply wp_return; left; by apply Hr | apply wp_ret; right].
  destruct Hr as (now' & gr & e & Hnow & Hr).
  assert (fences_kept s0 (w_db (store w'))) as Hfences.
  { pose proof (rotate_fences current replacement (ClientID (grant_full (t_sid t) g)) now' s0) as Hf. by rewrite Hr in Hf. }
  apply rotate_success in Hr.
  destruct Hr as (t' & g0 & g' & Htok' & Hhash & Hclient & Hrev & Hcons & Hnew & Hold & Hrepl & Hg' &
    Hterms & Hrev' & Hidle & Habs).
  rewrite Htok in Htok'. injection Htok' as <- <-. split; [done|]. exists t, g. split; [congruence|].
  split; [done|]. split; [done|]. split; [by destruct narrowed|]. split.
  - done.
  - do 4 eexists. split; [destruct narrowed; exact Hsign|]. etransitivity; [apply cap_le_r | done].
  - exists replacement, now', g'. pose proof (cap_le_r (add now (Config.AccessTokenTTL cfg)) expiry).
    destruct narrowed; cbn; split_and!; try done; lia.
Qed.

(** ** The whole exchange *)

(** The current policy lets the client use its refresh grants, and these are the groups
    it gives the user. *)
Definition policy_allows (g : GrantRow) (groups : list string) : Prop :=
  exists resolved user p1 p1' p2 p2',
    ResolveClient (g_client_id g) true p1 = ((resolved, None), p1') /\
    Refreshc.Enabled (Client.RefreshTokens (Resolved.Config resolved)) = true /\
    (g_mode g = "offline" ->
     Refreshc.AllowOfflineAccess (Client.RefreshTokens (Resolved.Config resolved)) = true) /\
    ResolveUser resolved (g_email g) p2 = ((user, None), p2') /\ groups = Resolved.Groups user.

(** A successful exchange of the request. *)
Definition answered (req : Request.Request) (o : outcome) (w : Process P) : Prop :=
  fences_kept s0 (w_db (store w)) /\
  exists t g scopes narrowed groups,
    g_client_id g = Request.ClientID req /\
    narrow_scopes (g_scopes g) (Request.Scope req) = Some (scopes, narrowed) /\
    policy_allows g groups /\
    (is_email_connector cfg (g_connector_id g) = false -> ~ fenced g) /\
    succeeded signer s0 g current t scopes narrowed groups o w.

Lemma prepare_success clientID now gr expiry s' :
  prepare_spec current clientID now s0 = ((gr, expiry, None), s') ->
  s' = s0 /\ exists t g, token_and_grant (HandleHash current) s0 = Some (t, g) /\
    g_client_id g = clientID /\ g_revoked_at g = None /\ gr = grant_full (t_sid t) g /\
    expiry <= g_absolute_expires_at g.
Proof.
  unfold prepare_spec. destruct (token_and_grant _ _) as [[t g]|] eqn:Htok; [|discriminate].
  destruct (genuine _ _ _ _) eqn:Hgen; [|discriminate]. cbn [negb].
  unfold genuine, not_revoked in Hgen. rewrite !andb_true_iff, !String.eqb_eq, is_nil_true in Hgen.
  repeat (case_match; [discriminate|]). intros [= <- <- <-]. split; [done|]. exists t, g.
  split_and!; try tauto. lia.
Qed.

Lemma prepare_fail clientID now gr expiry e s' :
  prepare_spec current clientID now s0 = ((gr, expiry, Some e), s') -> s' = s0.
Proof. unfold prepare_spec. repeat case_match; congruence. Qed.

Lemma revoke_refused t g reason now w o :
  token_and_grant (HandleHash current) s0 = Some (t, g) -> g_revoked_at g = None ->
  untouched w ->
  ends (revoke (grant_full (t_sid t) g) reason now) w (fun f w' => refused (o, Some f) w').
Proof.
  intros Htok Hrev Hw. unfold revoke. repeat service_step.
  apply token_and_grant_Some in Htok as Hrow. destruct Hrow as [_ Hg].
  eapply wp_atomic; [apply RevokeGrant_atomic|..].
  - intros [e|] s He Hs; [|discriminate]. apply wp_return, refused_untouched; [|done].
    by eapply untouched_tick.
  - destruct Hw as [Hdb Ha]. rewrite Hdb. unfold revoke_grant_spec, touch. cbn [SID ClientID].
    rewrite SID_grant_full, ClientID_grant_full, Hg, String.eqb_refl. unfold not_revoked. rewrite Hrev.
    intros err s [= <- Hs]. apply wp_ret. split; [done|]. right. do 3 eexists.
    split_and!; [exact Htok | by symmetry | | by intros _; left | by intros Hne; destruct Hne].
    unfold status_only, revocation_kept, same_terms. cbn. auto 20.
Qed.

Lemma prepare_replay clientID now gr expiry e s' :
  prepare_spec current clientID now s0 = ((gr, expiry, Some e), s') ->
  errors_is e ErrRefreshReplay = true ->
  exists err s2, rotate_spec current zero_material clientID now s0 = ((zero_grant, zero_time, Some err), s2).
Proof.
  unfold prepare_spec, rotate_spec. destruct (token_and_grant _ _) as [[t g]|] eqn:Htok; [|by eauto].
  repeat (case_match; [by eauto|]). by intros [= _ _ <-].
Qed.

(** The reaction to a consumed token: the family is revoked, whatever else happens. *)
Lemma replay_refused clientID now w unavailable :
  untouched w -> unavailable.2 <> None ->
  (exists err s2, rotate_spec current zero_material clientID now s0
                  = ((zero_grant, zero_time, Some err), s2)) ->
  wp ('(_, _, rotateErr) ← call (on_store (RotateRefreshToken current zero_material clientID now));
      return_if (is_some rotateErr && negb (is_err rotateErr ErrRefreshReplay)
                 && negb (is_err rotateErr ErrInvalidGrant)) unavailable) w
    (refused_or (fun _ w' => forall o, o.2 <> None -> refused o w')).
Proof.
  intros Hw Hu (err0 & s2 & Hrot). apply wp_bind.
  eapply wp_atomic; [apply RotateRefreshToken_atomic|..].
  - intros [[gr e] err] s He Hs. assert (forall o, o.2 <> None -> refused o {| store := s; peers := peers w |})
      as Hr by (intros o Ho; apply refused_untouched; [by eapply untouched_tick | done]).
    cbn beta iota. repeat service_step; [by apply Hr | done].
  - destruct Hw as [Hdb Ha]. rewrite Hdb. intros [[gr e] err] s Hspec. rewrite Hrot in Hspec.
    injection Hspec as <- <- <- Hs.
    assert (forall o, o.2 <> None -> refused o {| store := s; peers := peers w |}) as Hr.
    { intros o Ho. split; [done|]. apply rotate_fail_status in Hrot as [->|(_ & t & g & g' & Htok & -> & Hst & Hf)];
        [by left|]. right. exists t, g, g'. by split_and!. }
    cbn beta iota. repeat service_step; [by apply Hr | done].
Qed.

Lemma revoked_refused t g reason now w o :
  token_and_grant (HandleHash current) s0 = Some (t, g) -> g_revoked_at g = None ->
  untouched w ->
  wp (f ← call (revoke (grant_full (t_sid t) g) reason now); return_ (o, Some f)) w
    (fun x w' => refused (merge x) w').
Proof.
  intros Htok Hrev Hw. apply wp_bind, wp_call. eapply ends_mono; [by apply (revoke_refused t g reason now w o)|].
  intros f w' Hf. by apply wp_return.
Qed.

Lemma untouched_peers {B} (f : P -> B * P) w :
  (forall p, asked (f p).2 = asked p) -> untouched w ->
  wp (R := outcome) (call (on_peers f)) w (fun x w' => match x with
    | inl _ => False
    | inr b => untouched w' /\ exists p', f (peers w) = (b, p')
    end).
Proof.
  intros Hf [Hdb Ha]. apply wp_call, ends_on_peers. unfold ends. split; [split; [done|]|].
  - cbn. by rewrite Hf.
  - exists (f (peers w)).2. by destruct (f (peers w)).
Qed.

(** Once the presented token is known to be good. *)
Definition good (t : TokenRow) (g : GrantRow) (clientID : string) : Prop :=
  token_and_grant (HandleHash current) s0 = Some (t, g) /\
  g_client_id g = clientID /\ g_revoked_at g = None.

Lemma answered_granted t g req scopes narrowed groups (f : Process P -> outcome * Process P) w :
  good t g (Request.ClientID req) ->
  narrow_scopes (g_scopes g) (Request.Scope req) = Some (scopes, narrowed) ->
  policy_allows g groups ->
  ends f w (fun o w' => refused o w' \/ granted scopes narrowed groups o w') ->
  wp (call f) w (fun x w' => refused (merge x) w' \/ answered req (merge x) w').
Proof.
  intros (Htok & Hclient & Hrev) Hn Hp Hf. apply wp_call. eapply ends_mono; [exact Hf|].
  intros o w' [Hr|(Hkept & t' & g' & Hfence & Hs)]; [by left|]. right. split; [done|].
  assert (t' = t /\ g' = g) as [-> ->].
  { destruct Hs as (_ & _ & _ & Hre). destruct (presented _ _ _ _ _ _ _ _ _ Hre) as [Htok' _].
    rewrite Htok in Htok'. by injection Htok' as -> ->. }
  exists t, g, scopes, narrowed, groups. by split_and!.
Qed.

Lemma exchange_prepared_spec req t g expiry now w :
  good t g (Request.ClientID req) -> expiry <= g_absolute_expires_at g -> untouched w ->
  wp (exchange_prepared cfg signer req current (grant_full (t_sid t) g) expiry now) w
    (fun x w' => refused (merge x) w' \/ answered req (merge x) w').
Proof.
  intros Hgood Hexp Hw. destruct Hgood as (Htok & Hclient & Hrev). unfold exchange_prepared.
  assert (forall reason w, untouched w ->
    wp (A := outcome) (f ← call (revoke (grant_full (t_sid t) g) reason now);
        return_ (for_sid (SID (grant_full (t_sid t) g)), Some f)) w
       (fun x w' => refused (merge x) w' \/ answered req (merge x) w')) as Hrevoked.
  { intros reason w0 Hw0. eapply wp_mono; [by apply revoked_refused|]. by left. }
  cbv zeta. apply wp_bind. eapply wp_mono; [by apply untouched_peers|].
  intros [o|[resolved err]] w1 Hw1; [done|]. destruct Hw1 as [Hw1 [p1' Hp1]]. cbn beta iota.
  destruct (is_err err ErrDenied); [by apply Hrevoked|].
  destruct err as [e|]; [apply wp_return; left; by apply refused_untouched|]. cbn [is_some is_nil negb].
  destruct (negb _ || _) eqn:Hallowed; [by apply Hrevoked|].
  apply orb_false_iff in Hallowed as [Hen Hoff]. apply negb_false_iff in Hen.
  destruct (narrow_scopes _ _) as [[scopes narrowed]|] eqn:Hn;
    [|apply wp_return; left; by apply refused_untouched].
  apply wp_bind. eapply wp_mono; [by apply untouched_peers|].
  intros [o|[user err]] w2 Hw2; [done|]. destruct Hw2 as [Hw2 [p2' Hp2]]. cbn beta iota.
  destruct (is_err err ErrDenied); [by apply Hrevoked|].
  destruct err as [e|]; [apply wp_return; left; by apply refused_untouched|]. cbn [is_some is_nil negb].
  assert (policy_allows g (Resolved.Groups user)) as Hpol.
  { exists resolved, user, (peers w), p1', (peers w1), p2'. split_and!; try done.
    intros Hmode. apply andb_false_iff in Hoff as [Hoff|Hoff]; [|by apply negb_false_iff].
    apply String.eqb_neq in Hoff. by destruct Hoff. }
  destruct (provenance_lost _ _); [by apply Hrevoked|].
  destruct (is_email_connector _ _) eqn:Hemail; (eapply answered_granted; [by split_and!|done..|]).
  - by apply direct_spec.
  - by apply connector_spec.
Qed.

Theorem Exchange_outcome req w :
  current = (ParseRefreshToken (Request.Token req)).1 -> untouched w ->
  ends (Exchange cfg signer req) w (fun o w' => refused o w' \/ answered req o w').
Proof.
  intros Hcur Hw. unfold Exchange. apply ends_run.
  destruct (ParseRefreshToken (Request.Token req)) as [m [e|]]; cbn [fst] in Hcur; subst m.
  { apply wp_return. left. by apply refused_untouched. }
  repeat service_step. eapply wp_atomic; [apply PrepareRefresh_atomic|..].
  - intros [[gr expiry] [e|]] s He Hs; [|discriminate].
    assert (untouched {| store := s; peers := peers w |}) as Hw' by by eapply untouched_tick.
    cbn beta iota. cbn in He. unfold when. rewrite (errors_is_sql _ He).
    repeat service_step; left; by apply refused_untouched.
  - destruct Hw as [Hdb Ha]. cbn [store count_tick with_cnt w_db]. rewrite Hdb.
    intros [[gr expiry] [e|]] s Hspec; cbn beta iota.
    + apply prepare_fail in Hspec as Hs. assert (untouched {| store := s; peers := peers w |}) as Hw' by done.
      apply wp_bind, wp_when; intros Hreplay.
      * eapply wp_mono; [apply replay_refused; [done..|]; by eapply prepare_replay|].
        intros [o|[]] w' Hr; cbn in Hr |- *; [by left|].
        repeat service_step; left; by apply Hr.
      * repeat service_step; left; by apply refused_untouched.
    + apply prepare_success in Hspec as (Hs & t & g & Htok & Hclient & Hrev & -> & Hexp).
      by apply exchange_prepared_spec.
Qed.
End Exchanges.

Section Fences.
Context `{Env} {P : Type} `{!PolicyResolver P} `{!Connectors P} `{!Contexts P}.
Context `{!AEAD} `{!JWT} `{!CredentialJSON}.

(** The exchange keeps the fences of every family. *)
Lemma Exchange_fences cfg signer req (w : Process P) :
  fences_kept (w_db (store w)) (w_db (store (Exchange cfg signer req w).2)).
Proof.
  pose proof (Exchange_outcome cfg signer (fun _ => O) (fun _ _ _ => eq_refl)
    (fun _ => eq_refl) (fun _ _ _ => eq_refl) (fun _ _ _ => eq_refl) (w_db (store w)) O _ req w eq_refl
    (conj eq_refl eq_refl)) as Hout. unfold ends in Hout.
  destruct Hout as [Hr|[Hf _]]; [|exact Hf]. by eapply refused_fences.
Qed.
End Fences.
