(* ===== verification/ExchangeProperties.v ===== *)
(** * Properties of the refresh exchange

    What a client can and cannot obtain from [refresh.Service.Exchange], for every
    configuration, policy resolver, login provider, clock, random source and failure
    of the database, with concrete instances. *)

From S2P Require Import Prelude Runtime Base64 Sha256 ReplayCache Schema RefreshToken RefreshStore FlowStore RefreshSpec FamilySafety Json Config Credentials Tokens Upstream Services RefreshService ExchangeSafety.

(** ** The wait for a claim *)

Section Wait.
Context `{Env}.

(** The clock of the process never goes back. *)
Definition steady_clock : Prop := forall n, clock n <= clock (S n).

Lemma clock_mono m n : steady_clock -> (m <= n)%nat -> clock m <= clock n.
Proof. intros Hc Hmn. induction Hmn; [lia|]. etransitivity; [eassumption | apply Hc]. Qed.

(** The earliest next reading of the clock. *)
Definition reading (w : World) : time := clock (c_tick (w_cnt w)) + w_slept w.

Lemma later_reading w w' : steady_clock -> later w w' -> reading w <= reading w'.
Proof.
  intros Hc [Ht Hs]. unfold reading. rewrite Hs. pose proof (clock_mono _ _ Hc Ht). lia.
Qed.

Lemma GenerateStateToken_later w (Q : string * option error -> World -> Prop) :
  (forall r w', later w w' -> Q r w') -> ends GenerateStateToken w Q.
Proof.
  intros HQ. unfold GenerateStateToken. repeat store_step; apply HQ; unfold later; cbn; auto.
Qed.

Lemma ClaimRefresh_later current clientID now ttl w :
  ends (ClaimRefresh current clientID now ttl) w (fun _ w' => later w w').
Proof.
  unfold ClaimRefresh.
  repeat first [store_step | apply GenerateStateToken_later; intros ? ? [? ?]].
  all: unfold later in *; cbn in *; split; (lia || congruence).
Qed.

Context {P : Type} `{!Contexts P}.

Lemma wp_later {B R} (op : World -> B * World) (w : Process P) (Q : (R + B) -> Process P -> Prop) :
  ends op (store w) (fun _ s => later (store w) s) ->
  (forall b s, later (store w) s -> Q (inr b) {| store := s; peers := peers w |}) ->
  wp (call (on_store op)) w Q.
Proof. intros He HQ. apply wp_call, ends_on_store. unfold ends in *. auto. Qed.

Lemma storageError_fuel e : storageError e <> out_of_fuel.
Proof. unfold storageError. by repeat case_match. Qed.

(** The time left of a wait falls with every interval: [n] more polls are enough when it
    is at most [n - 1] intervals. *)
Lemma claim_wait_ends n current prepared waitUntil w :
  steady_clock ->
  waitUntil - reading (store w) <= refreshBusyWait ->
  waitUntil - reading (store w) <= (Z.of_nat n - 1) * refreshBusyPollInterval ->
  (0 < n)%nat ->
  wp (claim_wait n current prepared waitUntil) w (fun x _ => x <> inl (refuse out_of_fuel)).
Proof.
  intros Hclock. revert w. induction n as [|n IH]; intros w Hwait Hn Hpos; [lia|].
  cbn [claim_wait]. repeat service_step. apply wp_later; [apply ClaimRefresh_later|].
  intros [[[gr cl] e] [err|]] s Hs; cbn beta iota; [|by apply wp_ret].
  destruct (negb _); [by apply wp_ret|]. unfold poll_again.
  repeat service_step; [intros [= _ Hf]; by apply storageError_fuel in Hf|].
  apply wp_call, ends_on_peers. unfold ends. destruct (ctx_done _) as [d p]. cbn [fst snd].
  repeat service_step; [done|].
  set (now := clock (c_tick (w_cnt s)) + w_slept s) in *.
  assert (reading (store w) <= now) as Hnow.
  { etransitivity; [|apply (later_reading _ _ Hclock Hs)].
    apply (later_reading _ _ Hclock). split; cbn; [lia | done]. }
  assert (now <= clock (S (c_tick (w_cnt s))) + w_slept s) as Hnext
    by (unfold now; pose proof (Hclock (c_tick (w_cnt s))); lia).
  match goal with H : (sub waitUntil now <=? 0) = false |- _ => apply Z.leb_gt in H; rename H into Hrem end.
  assert (sub waitUntil now = waitUntil - now) as Hsub.
  { unfold sub in *. unfold refreshBusyWait, second, min_int64, max_int64 in *. lia. }
  rewrite Hsub in *. unfold refreshBusyPollInterval, refreshBusyWait, second in *.
  apply IH; unfold reading; cbn; lia.
Qed.
End Wait.

(** ** A concrete process *)

(** Peers that count the refreshes they are asked for: the resolver enables every client
    and puts every user in "staff"; the provider fails to refresh. *)
Definition demo_resolver : PolicyResolver nat := {|
  ResolveClient := fun client fresh p =>
    (({| Resolved.Config := zero_client <| Client.RefreshTokens :=
           zero_refresh_config <| Refreshc.Enabled := true |> |>;
         Resolved.id := client; Resolved.source := clientSourceStatic; Resolved.owner := 1 |}, None), p);
  ResolveUser := fun client subject p => (({| Resolved.Groups := ["staff"] |}, None), p)
|}.
Definition demo_connectors : Connectors nat := {|
  has_connector := fun _ => true;
  AuthCodeURL := fun _ _ _ => "";
  Services.Exchange := fun _ _ p => ((None, None), p);
  Refresh := fun _ _ p => ((None, Some (ConnectorError ErrorTemporary "" "refresh")), S p);
  GetIdentity := fun _ _ p =>
    (({| Identity.Subject := "sub"; Identity.Emails := [] |}, None), p)
|}.
Definition demo_contexts : Contexts nat := fun p => (false, p).
Definition demo_jwt : JWT := {|
  jwt_accepts := fun _ _ => true;
  jwt_accepts_kid := fun _ => true;
  jwt_sign := fun key id c => Some (id +:+ "-signed");
  jwt_parse := fun _ _ _ _ => None
|}.
(** The stored credential can be renewed and has expired. *)
Definition demo_credential_json : CredentialJSON := {|
  marshal_credential := fun _ => Some "credential";
  unmarshal_credential := fun _ => Some (zero_credential <| Cred.RefreshToken := "upstream" |>
                                           <| Cred.AccessExpiry := 1 |>)
|}.
Definition demo_signer : Signer :=
  {| signingKey := {| Algorithm := "RS256"; PrivateKey := ""; PublicKey := "" |};
     kid := "kid"; issuerURL := "https://issuer.example"; tokenTTL := hour |}.
Definition demo_connector_config (kind : string) : Connectorc.ConnectorConfig :=
  {| Connectorc.Type_ := kind; Connectorc.DisplayName := ""; Connectorc.Order := 0;
     Connectorc.CredentialsSecret := ""; Connectorc.Scopes := []; Connectorc.Google := None;
     Connectorc.GitHub := None; Connectorc.Generic_ := None |}.
Definition demo_config : Config.Config :=
  zero_config <| Config.AccessTokenTTL := 5 * minute |> <| Config.IDTokenTTL := 5 * minute |>
    <| Config.UserLoginConnectors := {["email" := demo_connector_config "email";
                                       "google" := demo_connector_config "google"]} |>.

Definition demo_quiet : Env := quiet_env 0.
Definition demo_handle := "0123456789abcdef".
Definition demo_secret := "0123456789abcdef0123456789abcdef".
Definition demo_token : string := Eval vm_compute in token_text demo_handle demo_secret.
Definition demo_parsed : Material.RefreshMaterial := (ParseRefreshToken demo_token).1.
Definition demo_family (connector : string) : Grant.RefreshGrant :=
  let sealed := negb (connector =? "email")%string in
  zero_grant <| Grant.SID := "sid" |> <| Grant.ClientID := "client" |>
    <| Grant.Email := "a@example.com" |> <| Grant.Scopes := "openid email" |>
    <| Grant.ConnectorID := connector |> <| Grant.UpstreamSubject := "sub" |>
    <| Grant.Mode := "session" |> <| Grant.IdleTTL := hour |> <| Grant.AbsoluteExpiry := 10 * hour |>
    <| Grant.CredentialNonce := if sealed then "nonce" else "" |>
    <| Grant.CredentialCiphertext := if sealed
         then @seal plain_aead (deriveCredentialKey demo_secret) "nonce" "credential"
                (credentialAAD "sid" "client" connector)
         else "" |>.
(** A process whose store holds the family and its first token. *)
Definition demo_process (connector : string) : Process nat :=
  let grant := demo_family connector in
  {| store := (@CreateRefreshGrant demo_quiet grant demo_parsed (Grant.CredentialNonce grant)
                 (Grant.CredentialCiphertext grant) 0 (World_at 0 empty_tables)).2;
     peers := O |}.
Definition demo_request (scope : string) : Request.Request :=
  {| Request.Token := demo_token; Request.ClientID := "client"; Request.Scope := scope |}.
Definition demo_exchange (connector scope : string) : outcome * Process nat :=
  @Exchange demo_quiet nat demo_resolver demo_connectors demo_contexts plain_aead demo_jwt
    demo_credential_json demo_config demo_signer (demo_request scope) (demo_process connector).

Example demo_outcomes :
  ((demo_exchange "email" "openid").1.2, (demo_exchange "email" "admin").1.2,
   (demo_exchange "google" "").1.2, peers (demo_exchange "google" "").2) =
  (None, Some (failure InvalidScope "scope exceeds original grant"), Some invalid_token, 1%nat).
Proof. vm_compute. reflexivity. Qed.

(** ** Properties *)

Lemma fields_mem `{Env} granted v l :
  forallb (fun v => mem v (fields granted)) l = true -> v ∈ l -> v ∈ fields granted.
Proof.
  rewrite forallb_forall. intros Hl Hv. apply list_elem_of_In in Hv. apply Hl in Hv.
  unfold mem in Hv. apply existsb_exists in Hv as (x & Hx & ->%String.eqb_eq).
  by apply list_elem_of_In.
Qed.

Lemma narrow_scopes_within `{Env} granted requested scopes narrowed v :
  narrow_scopes granted requested = Some (scopes, narrowed) ->
  v ∈ fields scopes -> v ∈ fields granted.
Proof.
  unfold narrow_scopes. case_match; [by intros [= <- <-]|].
  case_match eqn:Hall; [|done]. intros [= <- <-]. by apply fields_mem.
Qed.

Section Properties.
Context `{Env} {P : Type} `{!PolicyResolver P} `{!Connectors P} `{!Contexts P}.
Context `{!AEAD} `{!JWT} `{!CredentialJSON}.
Context (cfg : Config.Config) (signer : Signer).

(** C1: A successful exchange is justified: the token presented was the stored,
    unconsumed token of an unrevoked family of the calling client; the current policy
    lets the client refresh and gives the groups of the tokens; the scopes were all
    granted; the tokens returned were signed for the terms of the family and end no
    later than it; and the same transaction consumed the token presented and stored
    its replacement, under unchanged terms and a family expiry that is no later. *)
Theorem successful_exchange_is_justified req w r w' :
  Exchange cfg signer req w = ((r, None), w') ->
  exists t g scopes groups,
    g_client_id g = Request.ClientID req /\ policy_allows g groups /\
    (forall v, v ∈ fields scopes -> v ∈ fields (g_scopes g)) /\
    reissued signer (ParseRefreshToken (Request.Token req)).1 (w_db (store w)) t g scopes groups r
      (w_db (store w')).
Proof.
  intros Hrun. pose proof (Exchange_outcome cfg signer (fun _ => O) (fun _ _ _ => eq_refl)
    (fun _ => eq_refl) (fun _ _ _ => eq_refl) (fun _ _ _ => eq_refl) (w_db (store w)) O _ req w eq_refl)
    as Hout. unfold ends in Hout. rewrite Hrun in Hout.
  destruct Hout as [[Hr _]|(_ & t & g & scopes & narrowed & groups & Hc & Hn & Hp & _ & _ & _ & _ & Hre)];
    [by split | done |].
  exists t, g, scopes, groups. split_and!; try done. intros v. by eapply narrow_scopes_within.
Qed.

(** C2: A refused exchange issues nothing: the tables are unchanged but for the status
    of the family of the token presented: its revocation, its claim and the mark of a
    started refresh; no token is consumed or created, no other family changes, and no
    other column of that family does. *)
Theorem failed_exchange_issues_nothing req w r f w' :
  Exchange cfg signer req w = ((r, Some f), w') ->
  w_db (store w') = w_db (store w) \/
  exists t g g',
    token_and_grant (Material.HandleHash (ParseRefreshToken (Request.Token req)).1) (w_db (store w))
      = Some (t, g) /\
    w_db (store w') = put_grant (t_sid t) g' (w_db (store w)) /\ status_only g g'.
Proof.
  intros Hrun. pose proof (Exchange_outcome cfg signer (fun _ => O) (fun _ _ _ => eq_refl)
    (fun _ => eq_refl) (fun _ _ _ => eq_refl) (fun _ _ _ => eq_refl) (w_db (store w)) O _ req w eq_refl)
    as Hout. unfold ends in Hout. rewrite Hrun in Hout.
  destruct Hout as [[_ [[Hdb _]|(t & g & g' & Htok & Hdb & Hst & _)]]|(_ & ? & ? & ? & ? & ? & ? & ? & ? & ? & Hs & ?)];
    [by split | by left | right; eauto 10 | done].
Qed.

(** *** Credentials whose refresh did not complete *)

Context (asked : P -> nat).

(** [asked] counts how often the providers were asked to refresh a credential: nothing else
    the exchange asks of the peers counts. *)
Record counts_refreshes : Prop := {
  counts_identity : forall conn token p, asked (GetIdentity conn token p).2 = asked p;
  counts_context : forall p, asked (ctx_done p).2 = asked p;
  counts_client : forall client fresh p, asked (ResolveClient client fresh p).2 = asked p;
  counts_user : forall client subject p, asked (ResolveUser client subject p).2 = asked p
}.

(** A failed exchange that asked a provider to refresh the credential fences the family. *)
Lemma failed_refresh_fences req w r f w' t g :
  counts_refreshes -> Exchange cfg signer req w = ((r, Some f), w') ->
  asked (peers w') <> asked (peers w) -> ~ is_configuration_failure (Some f) ->
  token_and_grant (Material.HandleHash (ParseRefreshToken (Request.Token req)).1) (w_db (store w)) = Some (t, g) ->
  exists g', refresh_grants (w_db (store w')) !! t_sid t = Some g' /\ fenced g' /\
    g_connector_id g' = g_connector_id g.
Proof.
  intros [Hi Hx Hc Hu] Hrun Hasked Hconf Htok.
  pose proof (Exchange_outcome cfg signer asked Hi Hx Hc Hu (w_db (store w)) (asked (peers w)) _ req w
    eq_refl (conj eq_refl eq_refl)) as Hout. unfold ends in Hout. rewrite Hrun in Hout.
  destruct Hout as [[_ [[_ Ha]|(t' & g' & g1 & Htok' & Hdb & Hst & _ & Hf)]]|(_ & ? & ? & ? & ? & ? & ? & ? & ? & ? & Hs & ?)];
    [done| |done].
  cbn [fst snd] in Hdb, Hf. rewrite Htok in Htok'. injection Htok' as <- <-. destruct (Hf Hasked) as [Hfenced|]; [|done].
  exists g1. split; [|split; [done|by destruct Hst as ((_ & _ & _ & _ & ? & _) & _)]].
  by rewrite Hdb, grants_put_grant, lookup_insert_eq.
Qed.

(** A fenced family over a provider is refused. *)
Lemma fenced_family_refused req w t g :
  token_and_grant (Material.HandleHash (ParseRefreshToken (Request.Token req)).1) (w_db (store w)) = Some (t, g) ->
  fenced g -> is_email_connector cfg (g_connector_id g) = false ->
  (Exchange cfg signer req w).1.2 <> None.
Proof.
  intros Htok Hfenced Hemail Hnone.
  pose proof (Exchange_outcome cfg signer (fun _ => O) (fun _ _ _ => eq_refl)
    (fun _ => eq_refl) (fun _ _ _ => eq_refl) (fun _ _ _ => eq_refl) (w_db (store w)) O _ req w eq_refl
    (conj eq_refl eq_refl)) as Hout. unfold ends in Hout.
  destruct Hout as [[Hn _]|(_ & t' & g' & scopes & narrowed & groups & _ & _ & _ & Hfence & _ & _ & _ & Hre)]; [done|].
  destruct (presented _ _ _ _ _ _ _ _ _ Hre) as [Htok' _]. rewrite Htok in Htok'. injection Htok' as <- <-. by apply Hfence.
Qed.

(** C27: The wait for a claim ends: with a clock that does not go back, the polls the
    model allows are enough, from the moment the deadline is set. *)
Theorem claim_wait_terminates current prepared (w : Process P) :
  steady_clock ->
  wp (claim_wait claim_fuel current prepared (add (reading (store w)) refreshBusyWait)) w
    (fun x _ => x <> inl (refuse out_of_fuel)).
Proof.
  intros Hc. apply claim_wait_ends; [done|..]; unfold add, refreshBusyWait, refreshBusyPollInterval, second, claim_fuel; lia.
Qed.
End Properties.

(** ** Witnesses *)

Lemma successful_exchange_is_justified_witness :
  exists r w', demo_exchange "email" "openid" = ((r, None), w') /\ Result.Scope r = "openid" /\
    exists t g scopes groups,
      g_client_id g = "client" /\ @policy_allows nat demo_resolver g groups /\
      (forall v, v ∈ @fields demo_quiet scopes -> v ∈ @fields demo_quiet (g_scopes g)) /\
      @reissued demo_quiet demo_jwt demo_signer demo_parsed (w_db (store (demo_process "email"))) t g scopes
        groups r (w_db (store w')).
Proof.
  assert (exists r w', demo_exchange "email" "openid" = ((r, None), w') /\ Result.Scope r = "openid")
    as (r & w' & Hrun & Hscope) by (vm_compute; eauto).
  exists r, w'. split; [exact Hrun|]. split; [exact Hscope|].
  exact (successful_exchange_is_justified demo_config demo_signer (demo_request "openid")
           (demo_process "email") r w' Hrun).
Defined.

Lemma failed_exchange_issues_nothing_witness :
  exists r f w', demo_exchange "email" "admin" = ((r, Some f), w') /\
    (w_db (store w') = w_db (store (demo_process "email")) \/
     exists t g g', token_and_grant (Material.HandleHash demo_parsed) (w_db (store (demo_process "email")))
       = Some (t, g) /\
       w_db (store w') = put_grant (t_sid t) g' (w_db (store (demo_process "email"))) /\ status_only g g').
Proof.
  assert (exists r f w', demo_exchange "email" "admin" = ((r, Some f), w')) as (r & f & w' & Hrun)
    by (vm_compute; eauto).
  exists r, f, w'. split; [exact Hrun|].
  exact (failed_exchange_issues_nothing demo_config demo_signer (demo_request "admin")
           (demo_process "email") r f w' Hrun).
Defined.

Lemma claim_wait_terminates_witness :
  wp (@claim_wait demo_quiet nat demo_contexts claim_fuel demo_parsed (demo_family "google")
        (add (@reading demo_quiet (store (demo_process "google"))) refreshBusyWait))
     (demo_process "google") (fun x _ => x <> inl (refuse out_of_fuel)).
Proof. apply (@claim_wait_terminates demo_quiet nat demo_contexts). intros n. cbn. lia. Defined.
