(* ===== verification/TokenProperties.v ===== *)
(** * Properties of the credentials and tokens

    What a stored credential opens to, what the two tokens of a pair can be used for,
    and the normalisation of upstream credentials. *)

From stdpp Require Import pretty.
From S2P Require Import Prelude Runtime Base64 Sha256 ReplayCache Schema RefreshToken Json Credentials Tokens Upstream.

(** ** What the code relies on in the jwx library *)

(** The JSON a claim reads back as. *)
Definition claim_json (c : claim) : json :=
  match c with
  | CString s => JString s
  | CBool b => JBool b
  | CInt n => JNumber (pretty n)
  | CTime t => JNumber (pretty (unix t))
  | CStrings l => JArray (JString <$> l)
  | CMap m => JObject ((fun kv => (kv.1, JString kv.2)) <$> map_to_list m)
  end.

Definition registered : list string := ["iss"; "sub"; "aud"; "exp"; "iat"; "nbf"; "jti"].

(** A token parses to the claims it was signed with, at most, and only for its issuer
    and before its expiry. *)
Class JWTLaws `{JWT} : Prop :=
  parse_signed : forall key id c signed issuer now tok,
    jwt_sign key id c = Some signed -> jwt_parse key issuer now signed = Some tok ->
    c !! "iss" = Some (CString issuer) /\
    (forall t, c !! "exp" = Some (CTime t) -> now < t) /\
    (forall a, c !! "aud" = Some (CString a) -> tok_audience tok = [a]) /\
    (forall name, mem name registered = false -> tok_get tok name = claim_json <$> c !! name).

Lemma sign_claims_ok `{JWT} s c op signed :
  sign_claims s c op = (signed, None) -> jwt_sign (signingKey s) (kid s) c = Some signed.
Proof. unfold sign_claims. repeat case_match; congruence. Qed.

Lemma SignTokenPair_inv `{Env} `{JWT} s context w id access w' :
  SignTokenPair s context w = ((id, access, None), w') ->
  exists now1 jti1 now2 jti2,
    jwt_sign (signingKey s) (kid s) (context_claims s context true now1 jti1) = Some id /\
    jwt_sign (signingKey s) (kid s) (context_claims s context false now2 jti2) = Some access.
Proof.
  assert (forall identity w, ends (signContext s context identity) w (fun '(signed, err) _ =>
    err = None -> exists now jti,
      jwt_sign (signingKey s) (kid s) (context_claims s context identity now jti) = Some signed)) as Hone.
  { intros identity w0. unfold signContext. repeat store_step; [done|]. cbn [merge].
    destruct (sign_claims _ _ _) as [signed err] eqn:E. intros ->. apply sign_claims_ok in E. eauto. }
  intros Hrun. pose proof (Hone true w) as H1. unfold ends in H1.
  unfold SignTokenPair, run, call, mbind, go_bind in Hrun.
  destruct (signContext s context true w) as [[id1 [e|]] w1]; [done|].
  pose proof (Hone false w1) as H2. unfold ends in H2.
  destruct (signContext s context false w1) as [[ac1 [e|]] w2]; [done|].
  injection Hrun as <- <- <-. cbn in H1, H2.
  destruct (H1 eq_refl) as (n1 & j1 & ?), (H2 eq_refl) as (n2 & j2 & ?). eauto 10.
Qed.

Section Claims.
Context `{Env} (s : Signer) (context : Ctx.TokenContext) (now : time) (jti : string).

Lemma id_scope : context_claims s context true now jti !! "scope" = None.
Proof. unfold context_claims. cbv zeta. repeat case_match; reflexivity. Qed.

Lemma access_scope : context_claims s context false now jti !! "scope" = Some (CString (Ctx.Scopes context)).
Proof. unfold context_claims. cbv zeta. repeat case_match; reflexivity. Qed.

Lemma access_aud : context_claims s context false now jti !! "aud" = Some (CString (Ctx.ClientID context)).
Proof. unfold context_claims. cbv zeta. repeat case_match; reflexivity. Qed.

Lemma access_exp : context_claims s context false now jti !! "exp" = Some (CTime (Ctx.AccessExpiry context)).
Proof. unfold context_claims. cbv zeta. repeat case_match; reflexivity. Qed.

Lemma access_cnf : context_claims s context false now jti !! "cnf" =
  if is_empty (Ctx.DPoPJKT context) then None else Some (CMap {["jkt" := Ctx.DPoPJKT context]}).
Proof. unfold context_claims. cbv zeta. destruct (is_empty (Ctx.DPoPJKT context)), (is_empty (Ctx.SID context)); reflexivity. Qed.
End Claims.

(** A thumbprint as [dpop] computes it: the base64url text of 32 bytes. *)
Definition thumbprint (jkt : string) : Prop :=
  exists digest, String.length digest = 32%nat /\ jkt = Base64.encode digest.

Lemma thumbprint_nonempty jkt : thumbprint jkt -> is_empty jkt = false.
Proof.
  intros (d & Hd & ->). apply encode_length_32 in Hd. by destruct (Base64.encode d).
Qed.

Lemma DPoPThumbprint_jkt tok jkt :
  thumbprint jkt -> tok_get tok "cnf" = Some (JObject [("jkt", JString jkt)]) ->
  DPoPThumbprint tok = (jkt, None).
Proof.
  intros Ht Hcnf. unfold DPoPThumbprint. rewrite Hcnf. cbn [member].
  rewrite String.eqb_refl, (thumbprint_nonempty _ Ht). destruct Ht as (d & Hd & ->).
  cbn [orb negb length]. rewrite decode_encode, String.eqb_refl. unfold len. by rewrite Hd.
Qed.

Lemma VerifyAccessToken_accepts `{Env} `{JWT} s raw w tok :
  (VerifyAccessToken s raw w).1.1 = Some tok ->
  jwt_parse (signingKey s) (issuerURL s) (clock (c_tick (w_cnt w)) + w_slept w) raw = Some tok /\
  exists scope, tok_get tok "scope" = Some scope /\ prints_blank scope = false.
Proof.
  enough (ends (VerifyAccessToken s raw) w (fun r _ => r.1 = Some tok ->
    jwt_parse (signingKey s) (issuerURL s) (clock (c_tick (w_cnt w)) + w_slept w) raw = Some tok /\
    exists scope, tok_get tok "scope" = Some scope /\ prints_blank scope = false)) as He by exact He.
  unfold VerifyAccessToken, VerifyToken. repeat store_step; try done; cbn in *; intros [= <-]; simplify_eq; eauto.
Qed.

Section Purposes.
Context `{Env} `{JWTLaws}.

(** C31: The two tokens of a pair are not interchangeable, and the binding survives: the ID
    token is never accepted as an access token, by any signer at any time; and an
    access token that is accepted is unexpired, is for exactly the client it was
    issued to, carries the scopes it was issued with, and reads back the DPoP key of
    the grant, or none. *)
Theorem token_purposes_separate signer context w id access w' verifier w2 :
  SignTokenPair signer context w = ((id, access, None), w') ->
  (Ctx.DPoPJKT context = "" \/ thumbprint (Ctx.DPoPJKT context)) ->
  signingKey verifier = signingKey signer ->
  (VerifyAccessToken verifier id w2).1.1 = None /\
  forall tok, (VerifyAccessToken verifier access w2).1.1 = Some tok ->
    clock (c_tick (w_cnt w2)) + w_slept w2 < Ctx.AccessExpiry context /\
    tok_audience tok = [Ctx.ClientID context] /\
    tok_get tok "scope" = Some (JString (Ctx.Scopes context)) /\
    DPoPThumbprint tok = (Ctx.DPoPJKT context, None).
Proof.
  intros Hsign Hjkt Hkey. apply SignTokenPair_inv in Hsign as (n1 & j1 & n2 & j2 & Hid & Hac).
  split.
  - destruct (VerifyAccessToken verifier id w2).1.1 as [tok|] eqn:Hv; [|done].
    apply VerifyAccessToken_accepts in Hv as (Hp & scope & Hscope & _). rewrite Hkey in Hp.
    destruct (parse_signed _ _ _ _ _ _ _ Hid Hp) as (_ & _ & _ & Hget).
    by rewrite (Hget "scope" eq_refl), id_scope in Hscope.
  - intros tok Hv. apply VerifyAccessToken_accepts in Hv as (Hp & _). rewrite Hkey in Hp.
    destruct (parse_signed _ _ _ _ _ _ _ Hac Hp) as (_ & Hexp & Haud & Hget). split_and!.
    + apply Hexp, access_exp.
    + apply Haud, access_aud.
    + by rewrite (Hget "scope" eq_refl), access_scope.
    + destruct Hjkt as [Hnone|Ht].
      * unfold DPoPThumbprint. by rewrite (Hget "cnf" eq_refl), access_cnf, Hnone.
      * apply DPoPThumbprint_jkt; [done|].
        by rewrite (Hget "cnf" eq_refl), access_cnf, thumbprint_nonempty.
Qed.
End Purposes.

(** ** Credentials *)

Section Credential.
Context `{Env} `{AEADLaws}.

(** A stored credential opens exactly in its own context: what EncryptCredential
    stores under a refresh token's secret decrypts to the credential with that secret,
    session, client and connector; and whatever DecryptCredential opens was sealed
    under the key of that secret with exactly that session, client and connector as
    authenticated data. *)
Theorem credential_opens_in_its_context secret sid client conn plain w nonce c w' :
  EncryptCredential secret sid client conn plain w = ((nonce, c, None), w') ->
  DecryptCredential secret sid client conn nonce c = (plain, None) /\
  forall secret' sid' client' conn' nonce' c' plain',
    DecryptCredential secret' sid' client' conn' nonce' c' = (plain', None) <->
    c' = seal (deriveCredentialKey secret') nonce' plain' (credentialAAD sid' client' conn').
Proof.
  unfold EncryptCredential, DecryptCredential. intros He.
  split; [by apply (decrypt_encrypt _ "credential") in He|].
  intros. split; [apply decrypt_authentic|]. intros ->. by apply decrypt_sealed, derived_key_ok.
Qed.
End Credential.

Section Normalize.
Context `{FloatConversion}.

(** A provider's relative lifetimes become expiries: without an absolute expiry, a
    positive "expires_in" sets the access expiry that many seconds after now and the
    credential is not taken for non-expiring; a positive refresh lifetime sets the
    refresh expiry, "refresh_expires_in" first; as long as the seconds fit a
    [time.Duration]. *)
Theorem lifetimes_become_expiries token now nonExpiring seconds refresh :
  is_zero (OAuth2.Expiry token) = true ->
  extraSeconds (OAuth2.Extra token "expires_in") = (seconds, true) -> fits_duration seconds ->
  extraSeconds (OAuth2.Extra token "refresh_expires_in") = (refresh, true) -> fits_duration refresh ->
  let c := NormalizeCredential token now nonExpiring in
  Cred.AccessExpiry c = now + seconds * second /\ Cred.AccessNonExpiring c = false /\
  Cred.RefreshExpiry c = now + refresh * second.
Proof.
  intros Hz Hs Hfit Hr Hrfit. unfold NormalizeCredential, refresh_lifetime. rewrite Hr. cbn [Cred.AccessExpiry upd].
  cbn. rewrite Hz, Hs. cbn. by rewrite !after_seconds_exact.
Qed.

(** A lifetime that does not fit a [time.Duration] wraps around: a refresh lifetime
    of 9223372037 seconds, about 292 years, is normalised to a refresh expiry before
    the present. *)
Theorem huge_lifetime_expires_in_the_past token now nonExpiring :
  OAuth2.Extra token "refresh_expires_in" = AnyInt64 9223372037 ->
  Cred.RefreshExpiry (NormalizeCredential token now nonExpiring) < now.
Proof.
  intros Hr. unfold NormalizeCredential, refresh_lifetime. rewrite Hr. cbn -[after_seconds].
  destruct (is_zero _); [destruct (extraSeconds _) as [? []]|]; cbn -[after_seconds];
    unfold after_seconds, add; change (wrap64 (9223372037 * second)) with (-9223372036709551616); lia.
Qed.
End Normalize.

(** ** Witnesses *)

Definition token_quiet : Env := quiet_env 0.
Definition token_jkt : string := Base64.encode "0123456789abcdef0123456789abcdef".
Definition token_context : Ctx.TokenContext :=
  {| Ctx.Email := "a@example.com"; Ctx.EmailVerified := true; Ctx.ClientID := "client";
     Ctx.Groups := ["staff"]; Ctx.Nonce := "n"; Ctx.SID := "sid"; Ctx.Scopes := "openid";
     Ctx.AuthTime := 0; Ctx.IDExpiry := hour; Ctx.AccessExpiry := hour; Ctx.DPoPJKT := token_jkt |}.
Definition token_signer : Signer :=
  {| signingKey := {| Algorithm := "RS256"; PrivateKey := ""; PublicKey := "" |};
     kid := "kid"; issuerURL := "https://issuer.example"; tokenTTL := hour |}.

(** A library that signs the two sets of claims of this run, and parses them back. *)
Definition token_claims (identity : bool) : claims :=
  @context_claims token_quiet token_signer token_context identity (if identity then 0 else 1)
    (Base64.encode (@entropy_bytes token_quiet (if identity then 0 else 16) 16)).
Definition token_of (c : claims) : Token :=
  {| tok_issuer := ""; tok_subject := "";
     tok_audience := match c !! "aud" with Some (CString a) => [a] | _ => [] end;
     tok_expiration := zero_time; tok_issued_at := zero_time;
     tok_get := fun name => claim_json <$> c !! name |}.
Definition two_tokens : JWT := {|
  jwt_accepts := fun _ _ => true;
  jwt_accepts_kid := fun _ => true;
  jwt_sign := fun _ _ c => if decide (c = token_claims true) then Some "id"
                           else if decide (c = token_claims false) then Some "access" else None;
  jwt_parse := fun _ issuer now raw =>
    c ← (if (raw =? "id")%string then Some (token_claims true)
         else if (raw =? "access")%string then Some (token_claims false) else None);
    if bool_decide (c !! "iss" = Some (CString issuer))
       && match c !! "exp" with Some (CTime t) => now <? t | _ => true end
    then Some (token_of c) else None
|}.

Definition readable (c : claims) (issuer : string) (now : time) : bool :=
  bool_decide (c !! "iss" = Some (CString issuer))
  && match c !! "exp" with Some (CTime t) => now <? t | _ => true end.

Lemma two_tokens_parse b key issuer now :
  @jwt_parse two_tokens key issuer now (if b : bool then "id" else "access")
  = if readable (token_claims b) issuer now : bool then Some (token_of (token_claims b)) else None.
Proof. by destruct b. Qed.

Lemma two_tokens_laws : @JWTLaws two_tokens.
Proof.
  intros key id c signed issuer now tok Hs Hp.
  assert (exists b, c = token_claims b /\ signed = if b then "id" else "access") as (b & -> & ->).
  { cbn in Hs. repeat case_decide; simplify_eq; [by exists true | by exists false]. }
  rewrite two_tokens_parse in Hp. destruct (readable _ _ _) eqn:Hok; [|done].
  injection Hp as <-. unfold readable in Hok.
  apply andb_true_iff in Hok as [Hiss Hexp]. apply bool_decide_eq_true in Hiss. split_and!; [done|..].
  - intros t Ht. rewrite Ht in Hexp. by apply Z.ltb_lt.
  - intros a Ha. cbn. by rewrite Ha.
  - done.
Qed.

Lemma token_purposes_separate_witness :
  exists id access w', @SignTokenPair token_quiet two_tokens token_signer token_context (World_at 0 empty_tables)
    = ((id, access, None), w') /\
  (@VerifyAccessToken token_quiet two_tokens token_signer id w').1.1 = None /\
  forall tok, (@VerifyAccessToken token_quiet two_tokens token_signer access w').1.1 = Some tok ->
    @clock token_quiet (c_tick (w_cnt w')) + w_slept w' < hour /\ tok_audience tok = ["client"] /\
    tok_get tok "scope" = Some (JString "openid") /\ DPoPThumbprint tok = (token_jkt, None).
Proof.
  assert (exists w', @SignTokenPair token_quiet two_tokens token_signer token_context (World_at 0 empty_tables)
    = (("id", "access", None), w')) as (w' & Hrun) by (vm_compute; eauto).
  exists "id", "access", w'. split; [exact Hrun|].
  apply (@token_purposes_separate token_quiet two_tokens two_tokens_laws token_signer token_context
    (World_at 0 empty_tables) "id" "access" w' token_signer w' Hrun); [|reflexivity].
  right. exists "0123456789abcdef0123456789abcdef". split; reflexivity.
Defined.

Lemma credential_opens_in_its_context_witness :
  exists nonce c w', @EncryptCredential token_quiet plain_aead "secret" "sid" "client" "google" "credential"
    (World_at 0 empty_tables) = ((nonce, c, None), w') /\
  @DecryptCredential plain_aead "secret" "sid" "client" "google" nonce c = ("credential", None).
Proof.
  assert (exists nonce c w', @EncryptCredential token_quiet plain_aead "secret" "sid" "client" "google" "credential"
    (World_at 0 empty_tables) = ((nonce, c, None), w')) as (nonce & c & w' & Hrun) by (vm_compute; eauto).
  exists nonce, c, w'. split; [exact Hrun|].
  exact (proj1 (@credential_opens_in_its_context token_quiet plain_aead plain_aead_laws _ _ _ _ _ _ _ _ _ Hrun)).
Defined.

Definition lifetime_token (seconds refresh : Z) : OAuth2.Token :=
  {| OAuth2.AccessToken := "t"; OAuth2.TokenType := "Bearer"; OAuth2.RefreshToken := "r";
     OAuth2.Expiry := zero_time;
     OAuth2.Extra := fun name => if (name =? "expires_in")%string then AnyNumber "3600"
                                 else if (name =? "refresh_expires_in")%string then AnyInt64 refresh
                                 else AnyNil |}.

Lemma lifetimes_become_expiries_witness :
  let c := @NormalizeCredential (fun _ _ => 0) (lifetime_token 3600 7200) 0 true in
  Cred.AccessExpiry c = 0 + 3600 * second /\ Cred.AccessNonExpiring c = false /\
  Cred.RefreshExpiry c = 0 + 7200 * second.
Proof.
  apply (@lifetimes_become_expiries (fun _ _ => 0) (lifetime_token 3600 7200) 0 true 3600 7200);
    try reflexivity; unfold fits_duration, max_int64, second; split; vm_compute; congruence.
Defined.

Lemma huge_lifetime_expires_in_the_past_witness :
  Cred.RefreshExpiry (@NormalizeCredential (fun _ _ => 0) (lifetime_token 3600 9223372037) 0 true) < 0.
Proof.
  apply (@huge_lifetime_expires_in_the_past (fun _ _ => 0) (lifetime_token 3600 9223372037) 0 true).
  reflexivity.
Defined.
