(* ===== verification/TrustPolicy.v ===== *)
(** * src/trustpolicy: the effective schema of a trust binding

    policy.go: the allowlist of claim names, the limits on a schema fragment and the
    construction of the schema an external token's claims must satisfy.  The JSON text
    functions are encoding/json's, the compiler and the validation the jsonschema
    library's. *)

From S2P Require Import Prelude Runtime Json Config.

(** encoding/json: the first value of a text with [UseNumber], and [Marshal] of a value;
    the jsonschema library: whether a text compiles, and [Validate]. *)
Class JSONLib := {
  decode_json : string -> option json;
  marshal_json : json -> string;
  compiles : string -> bool;
  Validate : Schema -> json -> bool
}.

Definition maxClaimNameLength : Z := 256.
Definition maxClaims : Z := 64.
Definition maxSchemaBytes : Z := 64 * 1024.
Definition maxSchemaFragmentBytes : Z := 16 * 1024.
Definition maxSchemaDepth : nat := 16.
Definition maxSchemaMembers : Z := 64.
Definition maxSchemaItems : Z := 32.
Definition maxSchemaStringLength : Z := 4096.
Definition jsonSchema2020 := "https://json-schema.org/draft/2020-12/schema".

(** ** Claim names *)

(** [trustpolicy.providerClaimRule] *)
Record providerClaimRule := { rule_claims : list string; dynamicPrefix : string; allowAny : bool }.

Definition standardClaims : list string :=
  ["aud"; "azp"; "email"; "email_verified"; "exp"; "iat"; "iss"; "jti"; "nbf"; "nonce"; "sub"].

Definition providerClaimRules : list (string * providerClaimRule) :=
  [("github", {| rule_claims :=
      ["actor"; "actor_id"; "base_ref"; "check_run_id"; "enterprise"; "enterprise_id"; "environment";
       "environment_node_id"; "event_name"; "head_ref"; "issuer_scope"; "job_workflow_ref";
       "job_workflow_sha"; "ref"; "ref_protected"; "ref_type"; "repository"; "repository_id";
       "repository_owner"; "repository_owner_id"; "repository_visibility"; "run_attempt"; "run_id";
       "run_number"; "runner_environment"; "sha"; "workflow"; "workflow_ref"; "workflow_sha"];
      dynamicPrefix := "repo_property_"; allowAny := false |});
   ("buildkite", {| rule_claims :=
      ["agent_id"; "build_branch"; "build_commit"; "build_id"; "build_number"; "build_source";
       "build_tag"; "cluster_id"; "cluster_name"; "job_id"; "organization_id"; "organization_slug";
       "pipeline_id"; "pipeline_slug"; "queue_id"; "queue_key"; "runner_environment"; "step_key";
       "https://aws.amazon.com/tags"];
      dynamicPrefix := "agent_tag:"; allowAny := false |});
   ("oidc", {| rule_claims := []; dynamicPrefix := ""; allowAny := true |})].

Fixpoint find_rule (provider : string) (l : list (string * providerClaimRule)) : option providerClaimRule :=
  match l with
  | [] => None
  | (k, rule) :: l => if (k =? provider)%string then Some rule else find_rule provider l
  end.
Definition claim_rule (provider : string) : option providerClaimRule :=
  find_rule provider providerClaimRules.

Definition ValidateClaimName (name provider : string) : option error :=
  let rule := claim_rule provider in
  let dynamicClaim := match rule with
    | Some rule => allowAny rule
        || (negb (is_empty (dynamicPrefix rule)) && has_prefix name (dynamicPrefix rule)
            && (len (dynamicPrefix rule) <? len name))
    | None => false
    end in
  let known := match rule with Some rule => mem name (rule_claims rule) | None => false end in
  if is_empty name || (maxClaimNameLength <? len name)
     || negb (mem name standardClaims) && negb known && negb dynamicClaim
  then Some (Errorf "claim name is not allowed for provider") else None.

(** ** Fragments *)

Definition prohibitedSchemaKeywords : list string :=
  ["$anchor"; "$dynamicAnchor"; "$dynamicRef"; "$id"; "$recursiveRef"; "$ref"; "$schema"; "$vocabulary"].

Definition prohibited_keyword (name : string) : bool :=
  mem name prohibitedSchemaKeywords || has_prefix name "content".

Fixpoint inspectSchema (value : json) (depth : nat) : option error :=
  if (maxSchemaDepth <? depth)%nat then Some (Errorf "schema exceeds maximum depth") else
  match value with
  | JObject members =>
      if maxSchemaMembers <? Z.of_nat (length members) then Some (Errorf "schema object too large")
      else (fix inspect_members l :=
        match l with
        | [] => None
        | (name, item) :: l =>
            if prohibited_keyword name then Some (Errorf "prohibited schema keyword")
            else match inspectSchema item (S depth) with
                 | Some err => Some err
                 | None => inspect_members l
                 end
        end) members
  | JArray items =>
      if maxSchemaItems <? Z.of_nat (length items)
      then Some (Errorf "schema composition or collection too large")
      else (fix inspect_items l :=
        match l with
        | [] => None
        | item :: l => match inspectSchema item (S depth) with
                       | Some err => Some err
                       | None => inspect_items l
                       end
        end) items
  | JString s => if maxSchemaStringLength <? len s then Some (Errorf "schema string too long") else None
  | _ => None
  end.

Section Policy.
Context `{JSONLib}.

Definition decodeFragment (raw : string) : json + error :=
  if (len raw =? 0) || (maxSchemaFragmentBytes <? len raw)
  then inr (Errorf "schema fragment is empty or too large")
  else match decode_json raw with
       | None => inr (Errorf "json")
       | Some value =>
           match inspectSchema value 0 with
           | Some err => inr err
           | None => inl value
           end
       end.

(** ** The effective schema *)

(** The loops over the two maps of fragments: the properties, or the first error in
    some order of the keys. *)
Fixpoint add_claims (claims : list (string * string)) (properties : gmap string json)
  : gmap string json + error :=
  match claims with
  | [] => inl properties
  | (name, raw) :: claims =>
      if is_empty name || (maxClaimNameLength <? len name) then inr (Errorf "claim name is invalid")
      else match decodeFragment raw with
           | inr err => inr (Wrapped "claim" err)
           | inl value => add_claims claims (<[name := value]> properties)
           end
  end.

Definition all_of (values : list json) : json := JObject [("allOf", JArray values)].

Fixpoint add_required (required : list (string * string)) (properties : gmap string json)
  : gmap string json + error :=
  match required with
  | [] => inl properties
  | (name, raw) :: required =>
      if is_empty name || (maxClaimNameLength <? len name)
      then inr (Errorf "required claim name is invalid")
      else match decodeFragment raw with
           | inr err => inr (Wrapped "required claim" err)
           | inl value =>
               add_required required
                 (<[name := match properties !! name with
                            | Some existing => all_of [value; existing]
                            | None => value
                            end]> properties)
           end
  end.

(** The names in order and the document. *)
Definition schema_names (properties : gmap string json) : list string :=
  sort_strings (map_to_list properties).*1.
Definition schema_document (properties : gmap string json) : json :=
  JObject [("$schema", JString jsonSchema2020); ("type", JString "object");
           ("required", JArray (JString <$> schema_names properties));
           ("properties", JObject (map_to_list properties))].

Definition BuildSchema (claims required : gmap string string) : string + error :=
  match add_claims (map_to_list claims) ∅ with
  | inr err => inr err
  | inl properties =>
      match add_required (map_to_list required) properties with
      | inr err => inr err
      | inl properties =>
          let data := marshal_json (schema_document properties) in
          if (maxSchemaBytes <? len data) || (maxClaims <? Z.of_nat (length (schema_names properties)))
          then inr (Errorf "effective schema exceeds safe limits")
          else inl data
      end
  end.

Definition CompileCanonicalSchema (data : string) : Schema + error :=
  if compiles data then inl {| compiled_from := data |} else inr (Errorf "jsonschema").

Definition CompileSchema (claims required : gmap string string) : (string * Schema) + error :=
  match BuildSchema claims required with
  | inr err => inr err
  | inl data =>
      match CompileCanonicalSchema data with
      | inr err => inr err
      | inl schema => inl (data, schema)
      end
  end.

(** The error of a loop over the names of a map. *)
Definition validate_names (provider : string) (names : list string) : option error :=
  fold_right (fun name err => match ValidateClaimName name provider with
                              | Some e => Some e
                              | None => err
                              end) None names.

Definition ValidateClaims (provider : string) (claims : gmap string string) : option error :=
  match claim_rule provider with
  | None => Some (Errorf "unknown trust provider")
  | Some _ =>
      match validate_names provider (map_to_list claims).*1 with
      | Some err => Some err
      | None =>
          match CompileSchema claims ∅ with
          | inr err => Some err
          | inl _ => None
          end
      end
  end.
End Policy.
