(* ===== verification/SchemaSafety.v ===== *)
(** * What an effective trust schema guarantees

    The fragments [inspectSchema] accepts, and the claims the compiled schema of a
    binding accepts: those that satisfy every fragment of the claims and, whatever a
    binding overrides, every required fragment. *)

From S2P Require Import Prelude Runtime Json Config TrustPolicy.

(** ** Accepted fragments *)

(** [x] occurs [n] levels below [v]. *)
Inductive subvalue : nat -> json -> json -> Prop :=
  | sub_here v : subvalue 0 v v
  | sub_item n l v x : v ∈ l -> subvalue n v x -> subvalue (S n) (JArray l) x
  | sub_member n l k v x : (k, v) ∈ l -> subvalue n v x -> subvalue (S n) (JObject l) x.

(** The limits on one value. *)
Definition node_ok (v : json) : Prop :=
  match v with
  | JObject l => Z.of_nat (length l) <= maxSchemaMembers /\
                 forall k x, (k, x) ∈ l -> prohibited_keyword k = false
  | JArray l => Z.of_nat (length l) <= maxSchemaItems
  | JString s => len s <= maxSchemaStringLength
  | _ => True
  end.

Definition safe_from (depth : nat) (v : json) : Prop :=
  forall n x, subvalue n v x -> (n + depth <= maxSchemaDepth)%nat /\ node_ok x.

Lemma safe_leaf depth v :
  (forall l, v <> JArray l) -> (forall l, v <> JObject l) ->
  safe_from depth v <-> (depth <= maxSchemaDepth)%nat /\ node_ok v.
Proof.
  intros Ha Ho. split; [intros Hs; apply (Hs O), sub_here|].
  intros [Hd Hn] n x Hx. inversion Hx; subst; [done | by destruct (Ha l) | by destruct (Ho l)].
Qed.

Lemma safe_array depth l :
  safe_from depth (JArray l) <->
  (depth <= maxSchemaDepth)%nat /\ node_ok (JArray l) /\ Forall (safe_from (S depth)) l.
Proof.
  rewrite Forall_forall. split.
  - intros Hs. destruct (Hs O _ (sub_here _)) as [Hd Hn]. split_and!; [done..|].
    intros v Hv n x Hx. destruct (Hs (S n) x); [by eapply sub_item|]. split; [lia | done].
  - intros (Hd & Hn & Hl) n x Hx. inversion Hx; subst; [done|].
    destruct (Hl v ltac:(done) n0 x ltac:(done)). split; [lia | done].
Qed.

Lemma safe_object depth l :
  safe_from depth (JObject l) <->
  (depth <= maxSchemaDepth)%nat /\ node_ok (JObject l) /\ Forall (fun kv => safe_from (S depth) kv.2) l.
Proof.
  rewrite Forall_forall. split.
  - intros Hs. destruct (Hs O _ (sub_here _)) as [Hd Hn]. split_and!; [done..|].
    intros [k v] Hv n x Hx. destruct (Hs (S n) x); [by eapply sub_member|]. split; [lia | done].
  - intros (Hd & Hn & Hl) n x Hx. inversion Hx; subst; [done|].
    destruct (Hl (k, v) ltac:(done) n0 x ltac:(done)). split; [lia | done].
Qed.

Lemma inspectSchema_safe v : forall depth, inspectSchema v depth = None <-> safe_from depth v.
Proof.
  induction v as [| | |s|l IH|l IH] using json_nested_ind; intros depth; cbn [inspectSchema];
    rewrite guard_none, Nat.ltb_ge.
  1-3: rewrite safe_leaf by done; cbn; tauto.
  - rewrite safe_leaf by done. cbn [node_ok]. rewrite guard_none, Z.ltb_ge. tauto.
  - rewrite safe_array. cbn [node_ok]. rewrite guard_none, Z.ltb_ge.
    do 2 (apply and_iff_compat_l).
    induction IH as [|x l Hx _ IHl]; [done|]. by rewrite Forall_cons, <- Hx, <- IHl, match_none.
  - rewrite safe_object. cbn [node_ok]. rewrite guard_none, Z.ltb_ge.
    rewrite Logic.and_assoc. do 2 (apply and_iff_compat_l).
    transitivity (Forall (fun kv => prohibited_keyword kv.1 = false /\ safe_from (S depth) kv.2) l).
    + induction IH as [|[k x] l Hx _ IHl]; [done|]. cbn in Hx.
      by rewrite Forall_cons, <- IHl, guard_none, match_none, <- Hx, Logic.and_assoc.
    + rewrite Forall_and, !Forall_forall. split; [intros [Hk Hs] | intros [Hk Hs]]; split; try done.
      * intros k x Hx. by apply (Hk (k, x)).
      * intros [k x] Hx. by apply (Hk k x).
Qed.

(** ** The effective schema *)

(** The documented meaning of the keywords the program writes: [holds schema value]. *)
Class JSONSchemaLaws `{JSONLib} (holds : json -> json -> Prop) : Prop := {
  law_all_of : forall l v, holds (all_of l) v <-> Forall (fun s => holds s v) l;
  law_object : forall draft names props v,
    holds (JObject [("$schema", JString draft); ("type", JString "object");
                    ("required", JArray (JString <$> names)); ("properties", JObject props)]) v
    <-> exists members, v = JObject members /\
          (forall name, name ∈ names -> is_Some (member name members)) /\
          (forall name s x, (name, s) ∈ props -> member name members = Some x -> holds s x);
  law_validate : forall document v, compiles (marshal_json document) = true ->
    Validate {| compiled_from := marshal_json document |} v = true <-> holds document v
}.

Section Effective.
Context `{JSONSchemaLaws}.

(** The value accepts the fragment of the given text. *)
Definition accepted_by (raw : string) (x : json) : Prop :=
  exists s, decode_json raw = Some s /\ safe_from 0 s /\ holds s x.

Lemma decodeFragment_ok raw s :
  decodeFragment raw = inl s <->
  0 < len raw <= maxSchemaFragmentBytes /\ decode_json raw = Some s /\ safe_from 0 s.
Proof.
  unfold decodeFragment. pose proof (Nat2Z.is_nonneg (String.length raw)) as Hlen. fold (len raw) in Hlen.
  destruct (Z.eqb_spec (len raw) 0); cbn [orb]; [split; [done | lia]|].
  destruct (Z.ltb_spec maxSchemaFragmentBytes (len raw)); [split; [done | lia]|].
  destruct (decode_json raw) as [v|]; [|naive_solver].
  pose proof (inspectSchema_safe v 0) as Hv. destruct (inspectSchema v 0).
  - split; [done|]. intros (_ & [= ->] & Hs). by apply Hv in Hs.
  - split; [intros [= ->]; split_and!; try lia; try done; by apply Hv | by intros (_ & [= ->] & _)].
Qed.

(** Every property is present in the object and its schema holds there. *)
Definition satisfies (properties : gmap string json) (members : list (string * json)) : Prop :=
  forall name s, properties !! name = Some s -> exists x, member name members = Some x /\ holds s x.
(** The object has the claim and the fragment accepts it. *)
Definition has_claim (members : list (string * json)) (name raw : string) : Prop :=
  exists x, member name members = Some x /\ accepted_by raw x.

Lemma accepted_fragment raw s x : decodeFragment raw = inl s -> accepted_by raw x <-> holds s x.
Proof.
  rewrite decodeFragment_ok. intros (_ & Hd & Hs). unfold accepted_by. rewrite Hd. naive_solver.
Qed.

Lemma satisfies_insert props members name raw s :
  decodeFragment raw = inl s ->
  satisfies (<[name := match props !! name with
                       | Some existing => all_of [s; existing]
                       | None => s
                       end]> props) members
  <-> has_claim members name raw /\ satisfies props members.
Proof.
  intros Hraw. unfold satisfies, has_claim. setoid_rewrite (accepted_fragment _ _ _ Hraw). split.
  - intros Hs. destruct (Hs name _ (lookup_insert_eq _ _ _)) as (x & Hx & Hholds). split.
    + exists x. split; [done|]. destruct (props !! name); [|done].
      apply law_all_of in Hholds. by apply Forall_cons in Hholds as [? _].
    + intros n s' Hn. destruct (decide (name = n)) as [<-|Hne]; [|by apply Hs; rewrite lookup_insert_ne].
      exists x. split; [done|]. rewrite Hn in Hholds. apply law_all_of in Hholds.
      rewrite !Forall_cons in Hholds. tauto.
  - intros [(x & Hx & Hholds) Hs] n s' Hn. apply lookup_insert_Some in Hn as [[<- <-]|[_ Hn]]; [|by apply Hs].
    exists x. split; [done|]. destruct (props !! name) as [e|] eqn:He; [|done].
    destruct (Hs name e He) as (x' & Hx' & Hholds'). rewrite Hx in Hx'. injection Hx' as <-.
    apply law_all_of. by repeat constructor.
Qed.

Definition has_claims (members : list (string * json)) (l : list (string * string)) : Prop :=
  Forall (fun kv => has_claim members kv.1 kv.2) l.

Lemma add_required_satisfies l props props' members :
  add_required l props = inl props' ->
  satisfies props' members <-> has_claims members l /\ satisfies props members.
Proof.
  unfold has_claims. revert props. induction l as [|[name raw] l IH]; intros props; cbn [add_required].
  { intros [= ->]. rewrite Forall_nil. tauto. }
  destruct (_ || _); [done|]. destruct (decodeFragment raw) as [v|] eqn:Hv; [|done]. intros Hadd.
  rewrite (IH _ Hadd), (satisfies_insert _ _ _ _ _ Hv), Forall_cons. cbn. tauto.
Qed.

Lemma add_claims_satisfies l props props' members :
  NoDup l.*1 -> (forall name, name ∈ l.*1 -> props !! name = None) ->
  add_claims l props = inl props' ->
  satisfies props' members <-> has_claims members l /\ satisfies props members.
Proof.
  unfold has_claims. revert props. induction l as [|[name raw] l IH]; intros props Hnd Hnew; cbn [add_claims].
  { intros [= ->]. rewrite Forall_nil. tauto. }
  destruct (_ || _); [done|]. destruct (decodeFragment raw) as [v|] eqn:Hv; [|done]. intros Hadd.
  cbn in Hnd. apply NoDup_cons in Hnd as [Hk Hnd].
  pose proof (satisfies_insert props members name raw v Hv) as Hins.
  rewrite (Hnew name ltac:(by left)) in Hins.
  assert (forall n, n ∈ l.*1 -> <[name := v]> props !! n = None) as Hnew'.
  { intros n Hn. rewrite lookup_insert_ne by (intros ->; done). apply Hnew. by right. }
  rewrite (IH _ Hnd Hnew' Hadd).
  rewrite Hins, Forall_cons. cbn. tauto.
Qed.

Lemma schema_names_elem props name : name ∈ schema_names props <-> is_Some (props !! name).
Proof.
  unfold schema_names, sort_strings. rewrite merge_sort_Permutation, list_elem_of_fmap. split.
  - intros ([k v] & -> & Hkv). apply elem_of_map_to_list in Hkv. eauto.
  - intros [v Hv]. exists (name, v). split; [done|]. by apply elem_of_map_to_list.
Qed.

Lemma document_holds props v :
  holds (schema_document props) v <-> exists members, v = JObject members /\ satisfies props members.
Proof.
  unfold schema_document. rewrite law_object. apply exist_proper. intros members.
  apply and_iff_compat_l. split.
  - intros [Hn Hp] name s Hs. destruct (Hn name) as [x Hx]; [by apply schema_names_elem|].
    exists x. split; [done|]. apply (Hp name s x); [by apply elem_of_map_to_list | done].
  - intros Hs. split.
    + intros name [s Hname]%schema_names_elem. destruct (Hs name s Hname) as (x & -> & _). eauto.
    + intros name s x Hname%elem_of_map_to_list Hx. destruct (Hs name s Hname) as (x' & Hx' & ?). congruence.
Qed.

Lemma has_claims_map members (m : gmap string string) :
  has_claims members (map_to_list m) <-> forall name raw, m !! name = Some raw -> has_claim members name raw.
Proof.
  unfold has_claims. rewrite Forall_forall. split.
  - intros Hl name raw Hm. by apply (Hl (name, raw)), elem_of_map_to_list.
  - intros Hm [name raw] Hl%elem_of_map_to_list. by apply Hm.
Qed.

(** What an effective schema accepts. *)
Lemma CompileSchema_accepts claims required data schema v :
  CompileSchema claims required = inl (data, schema) ->
  Validate schema v = true <->
  exists members, v = JObject members /\
    (forall name raw, claims !! name = Some raw -> has_claim members name raw) /\
    (forall name raw, required !! name = Some raw -> has_claim members name raw).
Proof.
  unfold CompileSchema, BuildSchema, CompileCanonicalSchema.
  destruct (add_claims _ _) as [props|] eqn:Hc; [|done].
  destruct (add_required _ _) as [props'|] eqn:Hr; [|done].
  destruct (_ || _); [done|]. destruct (compiles _) eqn:Hok; [|done]. intros [= <- <-].
  rewrite (law_validate _ _ Hok), document_holds. apply exist_proper. intros members.
  apply and_iff_compat_l. rewrite (add_required_satisfies _ _ _ _ Hr).
  rewrite (add_claims_satisfies _ ∅ _ _ (NoDup_fst_map_to_list _) (fun _ _ => lookup_empty _) Hc).
  rewrite !has_claims_map. split; [tauto|]. intros [? ?]. split_and!; try done.
Qed.
End Effective.
