(* ===== verification/TrustConfig.v ===== *)
(** * internal/config/trust.go: the trust configuration

    Issuers, their presets and limits, and the startup compilation of every static
    binding to its effective rule.  Loops over maps run in some order of the keys; the
    order decides only which error is reported. *)

From S2P Require Import Prelude Runtime Json Config TrustPolicy.

Definition maxTrustBindings : Z := 100.

(** ** Names and URLs *)

Definition is_alnum (c : ascii) : bool :=
  let z := byte_z c in
  ((48 <=? z) && (z <=? 57)) || ((65 <=? z) && (z <=? 90)) || ((97 <=? z) && (z <=? 122)).
Definition is_name_byte (c : ascii) : bool :=
  is_alnum c || contains_byte "_.:-" c.

(** [trustNamePattern]: an alphanumeric byte and at most 63 name bytes. *)
Definition trust_name (s : string) : bool :=
  match s with
  | String c t => is_alnum c && (len t <=? 63) && string_forallb is_name_byte t
  | EmptyString => false
  end.
Definition ValidTrustBindingID (id : string) : bool := trust_name id.

(** [url.Parse] of net/url, as far as the code reads the result. *)
Record URL := {
  Scheme : string;
  Host : string;
  Hostname : string;
  HasUser : bool;
  RawQuery : string;
  ForceQuery : bool;
  Fragment : string
}.
Class URLs := parse_url : string -> option URL.

Definition supportedSigningAlgorithms : list string :=
  ["RS256"; "RS384"; "RS512"; "ES256"; "ES384"; "ES512"; "PS256"; "PS384"; "PS512"; "EdDSA"].
Definition isTrustAlg (alg : string) : bool := mem alg supportedSigningAlgorithms.

Section Issuers.
Context `{URLs}.

Definition local_host (host : string) : bool := mem host ["localhost"; "127.0.0.1"; "::1"].

Definition validateIssuerURL (issuer : string) : option error :=
  if is_empty issuer then Some (Errorf "is required")
  else match parse_url issuer with
  | None => Some (Wrapped "invalid URL" (Errorf "url"))
  | Some u =>
      and_then (guard_err (is_empty (Scheme u) || is_empty (Host u))
                  "must be absolute and include a host")
      (and_then (guard_err (HasUser u || negb (is_empty (RawQuery u)) || negb (is_empty (Fragment u)))
                   "must not contain userinfo, query, or fragment")
      (and_then (guard_err (negb (mem (Scheme u) ["https"; "http"])) "scheme must be http or https")
                (guard_err ((Scheme u =? "http")%string && negb (local_host (Hostname u)))
                   "http scheme only allowed for localhost in development")))
  end.

(** The URL the code parses again, ignoring the error. *)
Definition parsed_or_zero (url : string) : URL :=
  default {| Scheme := ""; Host := ""; Hostname := ""; HasUser := false; RawQuery := "";
             ForceQuery := false; Fragment := "" |} (parse_url url).

Definition check_algs (issuer : Issuer.TrustIssuerConfig) : option error :=
  first_error (fun alg => guard_err (negb (isTrustAlg alg)) "unsupported asymmetric signing algorithm")
    (Issuer.SigningAlgs issuer).

Definition algs_and_age_missing (issuer : Issuer.TrustIssuerConfig) : bool :=
  (Z.of_nat (length (Issuer.SigningAlgs issuer)) =? 0) || (Issuer.MaxTokenAge issuer <=? 0).

Definition ValidateDynamicTrustIssuer (name : string) (issuer : Issuer.TrustIssuerConfig) : option error :=
  and_then (guard_err (negb (trust_name name)) "issuer name is invalid")
  (and_then (guard_err (negb (Issuer.Provider issuer =? "oidc")%string)
               "database policy provider must be oidc")
  (and_then (validateIssuerURL (Issuer.IssuerURL issuer))
  (and_then (guard_err (negb (Scheme (parsed_or_zero (Issuer.IssuerURL issuer)) =? "https")%string)
               "database policy issuer_url must use https")
  (and_then (guard_err (algs_and_age_missing issuer) "signing_algs and max_token_age are required")
            (check_algs issuer))))).

(** ** Static issuers *)

Definition overridden (issuer : Issuer.TrustIssuerConfig) : bool :=
  negb (is_empty (Issuer.IssuerURL issuer))
  || negb (Z.of_nat (length (Issuer.SigningAlgs issuer)) =? 0)
  || negb (Issuer.MaxTokenAge issuer =? 0).

Definition preset (issuer : Issuer.TrustIssuerConfig) (url : string)
  : Issuer.TrustIssuerConfig + error :=
  if overridden issuer then inr (Errorf "provider preset fields cannot be overridden")
  else inl (issuer <| Issuer.IssuerURL := url |> <| Issuer.SigningAlgs := ["RS256"] |>
                   <| Issuer.MaxTokenAge := 10 * 60 * second |>).

(** The effective issuer of one configured issuer. *)
Definition effective_issuer (issuer : Issuer.TrustIssuerConfig) : Issuer.TrustIssuerConfig + error :=
  if (Issuer.Provider issuer =? "github")%string
  then preset issuer "https://token.actions.githubusercontent.com"
  else if (Issuer.Provider issuer =? "buildkite")%string
  then preset issuer "https://agent.buildkite.com"
  else if (Issuer.Provider issuer =? "oidc")%string
  then match and_then (validateIssuerURL (Issuer.IssuerURL issuer))
               (guard_err (algs_and_age_missing issuer) "signing_algs and max_token_age are required") with
       | Some err => inr err
       | None => inl issuer
       end
  else inr (Errorf "provider must be github, buildkite, or oidc").

(** The loop over the issuers: the URLs seen and the issuers rewritten. *)
Fixpoint check_issuers (l : list (string * Issuer.TrustIssuerConfig)) (urls : list string)
    (issuers : gmap string Issuer.TrustIssuerConfig) : gmap string Issuer.TrustIssuerConfig + error :=
  match l with
  | [] => inl issuers
  | (name, issuer) :: l =>
      if negb (trust_name name) then inr (Errorf "issuer name is invalid")
      else match effective_issuer issuer with
      | inr err => inr err
      | inl issuer =>
          let u := parsed_or_zero (Issuer.IssuerURL issuer) in
          match and_then (guard_err (negb (is_empty (Fragment u)) || negb (is_empty (RawQuery u)))
                            "issuer_url must not contain query or fragment")
                (and_then (check_algs issuer)
                   (guard_err (mem (Issuer.IssuerURL issuer) urls)
                      "issuers have the same effective issuer_url")) with
          | Some err => inr err
          | None => check_issuers l (Issuer.IssuerURL issuer :: urls) (<[name := issuer]> issuers)
          end
      end
  end.
End Issuers.

(** ** Policies and bindings *)

Section Bindings.
Context `{URLs} `{JSONLib}.

Definition compileTrustSchema (claims required : gmap string string) : Schema + error :=
  match CompileSchema claims required with
  | inr err => inr err
  | inl (_, schema) => inl schema
  end.

Definition validatePolicyFragments (policy : Policy.TrustPolicyConfig) (provider : string)
  : option error :=
  and_then (validate_names provider (map_to_list (Policy.Claims policy)).*1)
  (and_then (validate_names provider (map_to_list (Policy.RequiredClaims policy)).*1)
  (if negb (Z.of_nat (size (Policy.Claims policy)) =? 0)
      || negb (Z.of_nat (size (Policy.RequiredClaims policy)) =? 0)
   then match compileTrustSchema (Policy.Claims policy) (Policy.RequiredClaims policy) with
        | inr err => Some (Wrapped "compile policy schema" err)
        | inl _ => None
        end
   else None)).

Definition check_policy (issuers : gmap string Issuer.TrustIssuerConfig)
    (kv : string * Policy.TrustPolicyConfig) : option error :=
  let '(name, policy) := kv in
  and_then (guard_err (negb (trust_name name)) "policy name is invalid")
  match issuers !! Policy.Issuer policy with
  | None => Some (Errorf "unknown issuer")
  | Some issuer => validatePolicyFragments policy (Issuer.Provider issuer)
  end.

(** The effective rule of one binding: the subject and the groups of the binding win,
    its claims override those of the policy, the required claims stay. *)
Definition effective_binding (cfg : Config.Config) (issuers : gmap string Issuer.TrustIssuerConfig)
    (binding : Binding.TrustBindingConfig) : Effective.EffectiveTrustBinding + error :=
  match Static.TrustPolicies (Config.StaticPolicy cfg) !! Binding.TrustPolicy binding with
  | None => inr (Errorf "unknown trust_policy")
  | Some policy =>
      let issuer := default zero_issuer (issuers !! Policy.Issuer policy) in
      let subject := default (Policy.Subject policy) (Binding.Subject binding) in
      let groups := default (Policy.Groups policy) (Binding.Groups binding) in
      let count := Z.of_nat (length groups) in
      match and_then (guard_err (negb (has_prefix subject "trusted:") || (256 <? len subject)
                                 || (count =? 0) || (100 <? count))
                        "effective subject must begin trusted: and groups must contain 1-100 values")
            (and_then (first_error (fun group => guard_err (is_empty group || (256 <? len group))
                         "group names must contain 1-256 characters") groups)
               (validate_names (Issuer.Provider issuer) (map_to_list (Binding.Claims binding)).*1)) with
      | Some err => inr err
      | None =>
          match compileTrustSchema (Binding.Claims binding ∪ Policy.Claims policy)
                  (Policy.RequiredClaims policy) with
          | inr err => inr err
          | inl schema =>
              inl {| Effective.ID := Binding.ID binding; Effective.Policy := Binding.TrustPolicy binding;
                     Effective.Issuer := Policy.Issuer policy; Effective.Subject := subject;
                     Effective.Groups := groups; Effective.Schema_ := schema |}
          end
      end
  end.

Fixpoint compile_client (cfg : Config.Config) (issuers : gmap string Issuer.TrustIssuerConfig)
    (l : list Binding.TrustBindingConfig) (seen : list string)
  : list Binding.TrustBindingConfig + error :=
  match l with
  | [] => inl []
  | binding :: l =>
      if negb (trust_name (Binding.ID binding)) || mem (Binding.ID binding) seen
      then inr (Errorf "trust binding IDs must be nonempty and unique")
      else match effective_binding cfg issuers binding with
      | inr err => inr err
      | inl effective =>
          match compile_client cfg issuers l (Binding.ID binding :: seen) with
          | inr err => inr err
          | inl bindings => inl ((binding <| Binding.Effective_ := Some effective |>) :: bindings)
          end
      end
  end.

Fixpoint compile_clients (cfg : Config.Config) (issuers : gmap string Issuer.TrustIssuerConfig)
    (l : list (string * Client.ClientConfig)) (clients : gmap string Client.ClientConfig)
  : gmap string Client.ClientConfig + error :=
  match l with
  | [] => inl clients
  | (id, client) :: l =>
      if maxTrustBindings <? Z.of_nat (length (Client.TrustBindings client))
      then inr (Errorf "too many trust bindings")
      else match compile_client cfg issuers (Client.TrustBindings client) [] with
      | inr err => inr err
      | inl bindings =>
          compile_clients cfg issuers l (<[id := client <| Client.TrustBindings := bindings |>]> clients)
      end
  end.

(** [validateTrust]: the configuration with its effective issuers and bindings. *)
Definition validateTrust (cfg : Config.Config) : Config.Config + error :=
  match check_issuers (map_to_list (Config.ServiceTokenIssuers cfg)) [] (Config.ServiceTokenIssuers cfg) with
  | inr err => inr err
  | inl issuers =>
      let static := Config.StaticPolicy cfg in
      match first_error (check_policy issuers) (map_to_list (Static.TrustPolicies static)) with
      | Some err => inr err
      | None =>
          match compile_clients cfg issuers (map_to_list (static_clients static)) (static_clients static) with
          | inr err => inr err
          | inl clients =>
              inl (cfg <| Config.ServiceTokenIssuers := issuers |>
                       <| Config.StaticPolicy := static <| Static.Clients := (fun _ => clients) <$> Static.Clients static |> |>)
          end
      end
  end.
End Bindings.
