(* ===== verification/TrustProperties.v ===== *)
(** * Properties of the trust policy

    What the effective schema of a binding accepts, whatever the binding overrides, and
    a lawful instance of the JSON and jsonschema libraries the witness runs with. *)

From S2P Require Import Prelude Runtime Json Config TrustPolicy SchemaSafety TrustConfig.

#[local] Set Warnings "-register-all".

(** ** A small lawful JSON library

    Texts are the digits of the number of a value; a schema is a conjunction, an object
    document or a constant string. *)

Module Demo.

Fixpoint tree_of (v : json) : gen_tree string :=
  match v with
  | JNull => GenNode 0 []
  | JBool b => GenNode (if b then 2 else 1) []
  | JNumber t => GenNode 3 [GenLeaf t]
  | JString s => GenNode 4 [GenLeaf s]
  | JArray l => GenNode 5 (map tree_of l)
  | JObject l => GenNode 6 (map (fun kv => GenNode 7 [GenLeaf kv.1; tree_of kv.2]) l)
  end.

Fixpoint of_tree (t : gen_tree string) : json :=
  match t with
  | GenNode 1 [] => JBool false
  | GenNode 2 [] => JBool true
  | GenNode 3 [GenLeaf t] => JNumber t
  | GenNode 4 [GenLeaf s] => JString s
  | GenNode 5 l => JArray (map of_tree l)
  | GenNode 6 l => JObject (map (fun t => match t with
                                         | GenNode 7 [GenLeaf k; t] => (k, of_tree t)
                                         | _ => ("", JNull)
                                         end) l)
  | _ => JNull
  end.

Lemma of_tree_of v : of_tree (tree_of v) = v.
Proof.
  induction v as [|[]| | |l IH|l IH] using json_nested_ind; try done; cbn; f_equal; rewrite map_map.
  - induction IH as [|x l Hx _ IH]; cbn; [done | by rewrite Hx, IH].
  - induction IH as [|[k x] l Hx _ IH]; cbn in *; [done | by rewrite Hx, IH].
Qed.

Fixpoint bits (p : positive) : string :=
  match p with
  | xH => ""
  | xO p => String "0" (bits p)
  | xI p => String "1" (bits p)
  end.
Fixpoint of_bits (s : string) : positive :=
  match s with
  | EmptyString => xH
  | String c s => if Ascii.eqb c "1" then xI (of_bits s) else xO (of_bits s)
  end.
Lemma of_bits_of p : of_bits (bits p) = p.
Proof. induction p; cbn; congruence. Qed.

Definition print (v : json) : string := bits (encode (tree_of v)).
Definition parse (s : string) : option json := of_tree <$> decode (of_bits s).
Lemma parse_print v : parse (print v) = Some v.
Proof. unfold parse, print. rewrite of_bits_of, decode_encode. cbn. by rewrite of_tree_of. Qed.

(** The names of a [required] list. *)
Definition present (members : list (string * json)) (name : json) : bool :=
  match name with JString s => negb (is_nil (member s members)) | _ => false end.

Fixpoint holdsb (s v : json) : bool :=
  match s with
  | JObject [("allOf", JArray l)] => forallb (fun s => holdsb s v) l
  | JObject [("const", JString c)] => match v with JString x => (x =? c)%string | _ => false end
  | JObject [("$schema", JString _); ("type", JString "object"); ("required", JArray names);
             ("properties", JObject props)] =>
      match v with
      | JObject members =>
          forallb (present members) names
          && forallb (fun kv => match member kv.1 members with
                                | Some x => holdsb kv.2 x
                                | None => true
                                end) props
      | _ => false
      end
  | _ => false
  end.

#[export] Instance demo_json : JSONLib := {|
  decode_json := parse;
  marshal_json := print;
  compiles s := negb (is_nil (parse s));
  Validate schema v := match parse (compiled_from schema) with Some s => holdsb s v | None => false end
|}.

#[export] Instance demo_laws : JSONSchemaLaws (fun s v => holdsb s v = true).
Proof.
  constructor.
  - intros l v. cbn. rewrite forallb_forall, Forall_forall. by setoid_rewrite <- list_elem_of_In.
  - intros draft names props v. cbn. destruct v as [| | | | |members]; try (split; [done | naive_solver]).
    rewrite andb_true_iff, !forallb_forall. split.
    + intros [Hn Hp]. exists members. split_and!; [done|..].
      * intros name Hname. specialize (Hn (JString name)). cbn in Hn.
        destruct (member name members); [eauto|]. discriminate Hn.
        apply list_elem_of_In, list_elem_of_fmap. eauto.
      * intros name s x Hs Hx. specialize (Hp (name, s)). cbn in Hp. rewrite Hx in Hp.
        by apply Hp, list_elem_of_In.
    + intros (? & [= <-] & Hn & Hp). split.
      * intros n Hin. apply list_elem_of_In, list_elem_of_fmap in Hin as (name & -> & Hin).
        destruct (Hn name Hin) as [x Hx]. cbn. by rewrite Hx.
      * intros [name s] Hin. apply list_elem_of_In in Hin. cbn.
        destruct (member name members) eqn:Hx; [by apply (Hp name s)|done].
  - intros document v _. cbn. by rewrite parse_print.
Qed.
End Demo.

(** ** What startup validation establishes of a static binding *)

Section Static.
Context `{!JSONLib} {holds : json -> json -> Prop} `{!JSONSchemaLaws holds} `{!URLs}.
#[local] Abbreviation has_claim := (has_claim (holds := holds)).

Definition within (lo n hi : Z) : Prop := lo <= n <= hi.

(** The rule compiled for a binding under the policy it names. *)
Definition enforces (policy : Policy.TrustPolicyConfig) (binding : Binding.TrustBindingConfig)
    (effective : Effective.EffectiveTrustBinding) : Prop :=
  Effective.Issuer effective = Policy.Issuer policy /\
  has_prefix (Effective.Subject effective) "trusted:" = true /\
  within 1 (Z.of_nat (length (Effective.Groups effective))) 100 /\
  forall v, Validate (Effective.Schema_ effective) v = true <->
    exists members, v = JObject members /\
      (forall name raw, Policy.RequiredClaims policy !! name = Some raw -> has_claim members name raw) /\
      (forall name raw, Binding.Claims binding !! name = Some raw -> has_claim members name raw) /\
      (forall name raw, Policy.Claims policy !! name = Some raw ->
         Binding.Claims binding !! name = None -> has_claim members name raw).

Lemma effective_binding_enforces cfg issuers binding effective :
  effective_binding cfg issuers binding = inl effective ->
  exists policy, Static.TrustPolicies (Config.StaticPolicy cfg) !! Binding.TrustPolicy binding = Some policy /\
    enforces policy binding effective.
Proof.
  unfold effective_binding. destruct (_ !! _) as [policy|]; [|done]. cbn zeta.
  destruct (and_then _ _) eqn:Hchecks; [done|].
  rewrite and_then_none, guard_err_none, !orb_false_iff in Hchecks.
  destruct Hchecks as [(((Hs & _) & Hlo) & Hhi) _]. unfold compileTrustSchema.
  destruct (CompileSchema _ _) as [[data schema]|] eqn:Hc; [|done]. intros [= <-].
  exists policy. split; [done|]. unfold enforces, within. cbn. split_and!; try done; try lia.
  { by apply negb_false_iff in Hs. }
  intros v. rewrite (CompileSchema_accepts _ _ _ _ _ Hc). apply exist_proper. intros members.
  apply and_iff_compat_l. setoid_rewrite lookup_union_Some_raw. naive_solver.
Qed.

Lemma compile_client_bindings cfg issuers l seen l' :
  compile_client cfg issuers l seen = inl l' ->
  Forall (fun b => exists effective, Binding.Effective_ b = Some effective /\
                     effective_binding cfg issuers b = inl effective) l'.
Proof.
  revert seen l'. induction l as [|b l IH]; intros seen l'; cbn [compile_client]; [by intros [= <-]|].
  destruct (_ || _); [done|]. destruct (effective_binding _ _ _) as [e|] eqn:He; [|done].
  destruct (compile_client _ _ l _) eqn:Hl; [|done]. intros [= <-]. constructor; [|eauto]. by exists e.
Qed.

Lemma compile_clients_bindings cfg issuers l clients clients' :
  compile_clients cfg issuers l clients = inl clients' ->
  forall id client, clients' !! id = Some client ->
    (clients !! id = Some client /\ id ∉ l.*1) \/
    Forall (fun b => exists effective, Binding.Effective_ b = Some effective /\
                       effective_binding cfg issuers b = inl effective) (Client.TrustBindings client).
Proof.
  revert clients. induction l as [|[k c] l IH]; intros clients; cbn [compile_clients].
  { intros [= <-] id client Hid. left. split; [done | set_solver]. }
  destruct (_ <? _); [done|]. destruct (compile_client _ _ _ _) as [bs|] eqn:Hbs; [|done].
  intros Hl id client Hid. destruct (IH _ Hl id client Hid) as [[Hc Hnew]|?]; [|by right].
  apply lookup_insert_Some in Hc as [[<- <-]|[Hne Hc]].
  - right. by eapply compile_client_bindings.
  - left. split; [done|]. cbn. set_solver.
Qed.

(** C32: Every trust binding of a configuration that passes startup validation has an
    effective rule of the policy it names: for the policy's issuer, with a [trusted:]
    subject and 1 to 100 groups, and with a schema that accepts exactly the claims that
    satisfy every required fragment of the policy, every fragment of the binding and
    every fragment of the policy the binding does not override.  No override relaxes a
    required claim. *)
Theorem validated_bindings_enforce_policy cfg cfg' id client binding :
  validateTrust cfg = inl cfg' ->
  static_clients (Config.StaticPolicy cfg') !! id = Some client ->
  binding ∈ Client.TrustBindings client ->
  exists policy effective,
    Static.TrustPolicies (Config.StaticPolicy cfg') !! Binding.TrustPolicy binding = Some policy /\
    Binding.Effective_ binding = Some effective /\
    enforces policy binding effective.
Proof.
  unfold validateTrust. destruct (check_issuers _ _ _) as [issuers|]; [|done].
  destruct (first_error _ _); [done|].
  destruct (compile_clients _ _ _ _) as [clients|] eqn:Hc; [|done]. intros [= <-]. cbn.
  intros Hid Hb.
  destruct (Static.Clients (Config.StaticPolicy cfg)); cbn in Hid; [|done].
  destruct (compile_clients_bindings _ _ _ _ _ Hc _ _ Hid) as [[Hin Hnew]|Hall].
  { destruct Hnew. apply list_elem_of_fmap. exists (id, client). split; [done|]. by apply elem_of_map_to_list. }
  rewrite Forall_forall in Hall. destruct (Hall _ Hb) as (effective & He & Heff).
  destruct (effective_binding_enforces _ _ _ _ Heff) as (policy & ? & ?). eauto.
Qed.
End Static.

Module Sample.
Import Demo.

#[export] Instance sample_urls : URLs := fun s =>
  Some {| Scheme := "https"; Host := "ci.example"; Hostname := "ci.example"; HasUser := false;
          RawQuery := ""; ForceQuery := false; Fragment := "" |}.

Definition const (s : string) : string := print (JObject [("const", JString s)]).
Definition sample_policy : Policy.TrustPolicyConfig :=
  {| Policy.Issuer := "ci"; Policy.Subject := "trusted:ci"; Policy.Groups := ["deploy"];
     Policy.RequiredClaims := {[ "sub" := const "repo:a" ]}; Policy.Claims := {[ "env" := const "prod" ]} |}.
(** The binding overrides one claim and tries to override the required one. *)
Definition sample_binding : Binding.TrustBindingConfig :=
  {| Binding.ID := "b1"; Binding.TrustPolicy := "p"; Binding.Subject := None; Binding.Groups := None;
     Binding.Claims := {[ "env" := const "test"; "sub" := const "repo:b" ]};
     Binding.Effective_ := None |}.
Definition sample_config : Config.Config :=
  zero_config
    <| Config.ServiceTokenIssuers := {[ "ci" :=
         {| Issuer.Provider := "oidc"; Issuer.IssuerURL := "https://ci.example";
            Issuer.SigningAlgs := ["RS256"]; Issuer.MaxTokenAge := 600 * second |} ]} |>
    <| Config.StaticPolicy :=
         {| Static.RequireUserGroupsFromPolicy := None; Static.DefaultRedirectURIs := None;
            Static.UserGroupMappings := ∅; Static.TrustPolicies := {[ "p" := sample_policy ]};
            Static.Clients := Some {[ "c" := zero_client <| Client.TrustBindings := [sample_binding] |> ]} |} |>.
End Sample.
Import Demo Sample.

Lemma validated_bindings_enforce_policy_witness :
  exists cfg' client binding,
    (validateTrust Sample.sample_config = inl cfg' /\
     static_clients (Config.StaticPolicy cfg') !! "c" = Some client /\
     binding ∈ Client.TrustBindings client) /\
    exists policy effective,
      Static.TrustPolicies (Config.StaticPolicy cfg') !! Binding.TrustPolicy binding = Some policy /\
      Binding.Effective_ binding = Some effective /\
      @enforces _ (fun s v => Demo.holdsb s v = true) policy binding effective.
Proof.
  destruct (validateTrust Sample.sample_config) as [cfg'|] eqn:Hcfg; [|vm_compute in Hcfg; discriminate].
  destruct (static_clients (Config.StaticPolicy cfg') !! "c") as [client|] eqn:Hclient.
  2:{ vm_compute in Hcfg. injection Hcfg as <-. vm_compute in Hclient. discriminate. }
  destruct (Client.TrustBindings client) as [|binding l] eqn:Hbs.
  { vm_compute in Hcfg. injection Hcfg as <-. vm_compute in Hclient. injection Hclient as <-. discriminate. }
  exists cfg', client, binding. split.
  - split; [done|]. split; [done|]. rewrite Hbs. left.
  - apply (@validated_bindings_enforce_policy _ _ Demo.demo_laws _ Sample.sample_config cfg' "c" client binding
             Hcfg Hclient).
    rewrite Hbs. left.
Defined.
