(* ===== verification/PolicySchema.v ===== *)
(** * src/trustpolicy/schema.go: the published schema of trust policies

    [JSONSchema] publishes, for editors of policies, a JSON Schema of the claims of each
    provider; the checks at run time are those of policy.go (TrustPolicy.v).  The document
    is written out as the value that is marshalled, and the keywords it uses are given the
    meaning JSON Schema 2020-12 has for them; regular expressions and the schema of the
    dialect itself are parameters.  The published schema accepts what the run time accepts,
    and exactly that where the text is ASCII: JSON Schema counts characters, Go bytes. *)

From Stdlib Require Import Btauto.
From stdpp Require Import pretty.
From S2P Require Import Prelude Runtime Json TrustPolicy TrustProperties.

(** ** The document *)

Definition int_number (n : Z) : json := JNumber (pretty n).
Definition ref_to (name : string) : json := JObject [("$ref", JString ("#/$defs/" +:+ name))].
Definition safe_name (depth : nat) : string := "safeValue" +:+ pretty depth.

(** [sortedSchemaKeywords] *)
Definition sortedSchemaKeywords : list string := sort_strings prohibitedSchemaKeywords.

(** The layer of arrays and that of objects: at the last level they are empty. *)
Definition arraySchema (depth : nat) : json :=
  JObject ([("type", JString "array")]
           ++ if (depth =? maxSchemaDepth)%nat then [("maxItems", int_number 0)]
              else [("maxItems", int_number maxSchemaItems); ("items", ref_to (safe_name (S depth)))]).
Definition name_schema : json := JObject [("not", JObject [("anyOf", JArray [
  JObject [("enum", JArray (JString <$> sortedSchemaKeywords))]; JObject [("pattern", JString "^content")]])])].
Definition objectSchema (depth : nat) : json :=
  JObject ([("type", JString "object"); ("propertyNames", name_schema)]
           ++ if (depth =? maxSchemaDepth)%nat then [("maxProperties", int_number 0)]
              else [("maxProperties", int_number maxSchemaMembers); ("additionalProperties", ref_to (safe_name (S depth)))]).

Definition type_schema (name : string) : json := JObject [("type", JString name)].
Definition layers (depth : nat) : list json :=
  [type_schema "null"; type_schema "boolean"; type_schema "number";
   JObject [("type", JString "string"); ("maxLength", int_number maxSchemaStringLength)]; arraySchema depth; objectSchema depth].
Definition safeSchemaValue (depth : nat) : json :=
  JObject [("oneOf", JArray (layers depth))].

Definition schemaDefinitions : list (string * json) :=
  ("trustSchemaFragment", JObject [("allOf", JArray [JObject [("$ref", JString jsonSchema2020)]; ref_to (safe_name 0)])])
  :: map (fun depth => (safe_name depth, safeSchemaValue depth)) (seq 0 (S maxSchemaDepth)).

(** [regexp.QuoteMeta] *)
Definition is_meta (c : ascii) : bool := contains_byte "\.+*?()|[]{}^$" c.
Fixpoint QuoteMeta (s : string) : string :=
  match s with
  | EmptyString => ""
  | String c s => if is_meta c then String "\" (String c (QuoteMeta s)) else String c (QuoteMeta s)
  end.
Definition dynamic_pattern (rule : providerClaimRule) : string :=
  "^" +:+ QuoteMeta (dynamicPrefix rule) +:+ "[\s\S]{1," +:+ pretty (maxClaimNameLength - len (dynamicPrefix rule)) +:+ "}$".

Definition providerSchema (rule : providerClaimRule) : json :=
  let fragment := ref_to "trustSchemaFragment" in
  JObject ([("description", JString "Validates one claims or required_claims object. Final merged-policy validation remains authoritative in Truster.");
            ("type", JString "object"); ("maxProperties", int_number maxClaims);
            ("properties", JObject (map (fun name => (name, fragment)) (standardClaims ++ rule_claims rule)))]
           ++ if allowAny rule
              then [("propertyNames", JObject [("minLength", int_number 1); ("maxLength", int_number maxClaimNameLength)]);
                    ("additionalProperties", fragment)]
              else [("additionalProperties", JBool false)]
                   ++ if is_empty (dynamicPrefix rule) then []
                      else [("patternProperties", JObject [(dynamic_pattern rule, fragment)])]).

(** The members of the document; a definition of a provider takes the place of another of
    its name. *)
Definition document_definitions : list (string * json) :=
  map (fun kv => (kv.1, providerSchema kv.2)) providerClaimRules ++ schemaDefinitions.
Definition schema_document_published : json := JObject [
  ("$schema", JString jsonSchema2020); ("$id", JString "https://truster.dev/schema/v2/trust-policy.schema.json");
  ("title", JString "Truster trust policy schemas");
  ("description", JString "Generated from Truster's runtime trust policy rules. Select $defs/github, $defs/buildkite, or $defs/oidc after resolving the configured issuer's provider.");
  ("$comment", JString "The bundle root intentionally rejects instances because a bare claims object does not identify its provider.");
  ("not", JObject []); ("$defs", JObject document_definitions)].

(** [JSONSchema]; the marshalled text ends with a newline. *)
Definition JSONSchema `{JSONLib} : string := marshal_json schema_document_published +:+ String "010" "".

(** ** The generated file *)

(** src/scripts/generate-trust-policy-schema: the files of a directory. *)
Class SchemaFiles (P : Type) := {
  read_schema : string -> string -> P -> (string + error) * P;
  write_schema : string -> string -> string -> P -> option error * P
}.
Definition schemaPath : string := "trust-policy.schema.json".
Definition out_of_date : error := Errorf "trust-policy.schema.json is out of date; run make schemas".

(** The program: it writes the document, or checks that the committed one is it. *)
Definition generate_schema `{JSONLib} {P} `{!SchemaFiles P} (check : bool) (output : string) : P -> option error * P := run (
  let data := JSONSchema in
  if check : bool then
    committed ← call (read_schema output schemaPath);
    mret (match committed with
          | inl committed => if (committed =? data)%string then None else Some out_of_date
          | inr _ => Some out_of_date
          end)
  else
    err ← call (write_schema output schemaPath data);
    mret (Wrapped "write" <$> (err : option error))).

(** What the program has written it finds up to date, where a file reads as it was written. *)
Lemma generated_schema_is_current `{JSONLib} {P} `{!SchemaFiles P} output (p p' : P) :
  (forall name text q q', write_schema output name text q = (None, q') -> (read_schema output name q').1 = inl text) ->
  generate_schema false output p = (None, p') -> (generate_schema true output p').1 = None.
Proof.
  intros Hfiles. unfold generate_schema, run, mbind, go_bind, call, mret, go_ret. cbn beta iota.
  destruct (write_schema output schemaPath JSONSchema p) as [[err|] q] eqn:Ew; cbn; [done|]. intros [= <-].
  pose proof (Hfiles _ _ _ _ Ew) as Hr. destruct (read_schema output schemaPath q) as [committed q'].
  cbn in *. rewrite Hr. by rewrite String.eqb_refl.
Qed.

(** ** The meaning of the keywords *)

(** The characters of a UTF-8 text: its bytes but those that continue one; the first byte
    of a text continues none. *)
Fixpoint rune_starts (s : string) : Z :=
  match s with
  | EmptyString => 0
  | String c s => (if (128 <=? byte_z c) && (byte_z c <? 192) then 0 else 1) + rune_starts s
  end.
Definition rune_count (s : string) : Z := match s with EmptyString => 0 | String _ s => 1 + rune_starts s end.

Definition at_most (limit : json) (size : Z) : bool :=
  match limit with
  | JNumber text => match parse_int64 text with Some n => size <=? n | None => true end
  | _ => true
  end.
Definition at_least (limit : json) (size : Z) : bool :=
  match limit with
  | JNumber text => match parse_int64 text with Some n => n <=? size | None => true end
  | _ => true
  end.
Definition has_type (name : string) (v : json) : bool :=
  match v with
  | JNull => (name =? "null")%string
  | JBool _ => (name =? "boolean")%string
  | JNumber _ => (name =? "number")%string
  | JString _ => (name =? "string")%string
  | JArray _ => (name =? "array")%string
  | JObject _ => (name =? "object")%string
  end.
(** The texts of an enumeration. *)
Definition in_enum (values v : json) : bool :=
  match values, v with
  | JArray l, JString s => existsb (fun x => match x with JString t => (t =? s)%string | _ => false end) l
  | _, _ => false
  end.
Definition array_of (v : json) : list json := match v with JArray l => l | _ => [] end.
Definition members_of (v : json) : list (string * json) := match v with JObject l => l | _ => [] end.

Section Validation.
Context (matches : string -> string -> bool) (dialect : json -> bool) (defs : list (string * json)).

(** The members [additionalProperties] applies to. *)
Definition additional (keywords : list (string * json)) (name : string) : bool :=
  is_nil (member name (members_of (default JNull (member "properties" keywords))))
  && negb (existsb (fun pattern => matches pattern.1 name) (members_of (default JNull (member "patternProperties" keywords)))).

(** One keyword of a schema, [valid] being the validation of its subschemas. *)
Definition keyword (valid : json -> json -> bool) (keywords : list (string * json)) (name : string) (arg v : json) : bool :=
  let on_strings (f : string -> bool) := match v with JString s => f s | _ => true end in
  let on_members (f : string * json -> bool) := match v with JObject l => forallb f l | _ => true end in
  if (name =? "$ref")%string then
    match arg with
    | JString target =>
        if (target =? jsonSchema2020)%string then dialect v
        else match member (drop_bytes 8 target) defs with Some schema => valid schema v | None => false end
    | _ => false
    end
  else if (name =? "allOf")%string then forallb (fun schema => valid schema v) (array_of arg)
  else if (name =? "anyOf")%string then existsb (fun schema => valid schema v) (array_of arg)
  else if (name =? "oneOf")%string then (length (filter (fun schema => valid schema v = true) (array_of arg)) =? 1)%nat
  else if (name =? "not")%string then negb (valid arg v)
  else if (name =? "type")%string then match arg with JString t => has_type t v | _ => true end
  else if (name =? "enum")%string then in_enum arg v
  else if (name =? "pattern")%string then on_strings (fun s => match arg with JString p => matches p s | _ => true end)
  else if (name =? "minLength")%string then on_strings (fun s => at_least arg (rune_count s))
  else if (name =? "maxLength")%string then on_strings (fun s => at_most arg (rune_count s))
  else if (name =? "maxItems")%string then match v with JArray l => at_most arg (Z.of_nat (length l)) | _ => true end
  else if (name =? "items")%string then match v with JArray l => forallb (valid arg) l | _ => true end
  else if (name =? "maxProperties")%string then match v with JObject l => at_most arg (Z.of_nat (length l)) | _ => true end
  else if (name =? "propertyNames")%string then on_members (fun kv => valid arg (JString kv.1))
  else if (name =? "properties")%string then
    on_members (fun kv => match member kv.1 (members_of arg) with Some schema => valid schema kv.2 | None => true end)
  else if (name =? "patternProperties")%string then
    on_members (fun kv => forallb (fun p => negb (matches p.1 kv.1) || valid p.2 kv.2) (members_of arg))
  else if (name =? "additionalProperties")%string then
    on_members (fun kv => negb (additional keywords kv.1) || valid arg kv.2)
  else true.

(** Validation; [fuel] bounds the nesting of schemas. *)
Fixpoint valid (fuel : nat) (schema v : json) : bool :=
  match fuel with
  | O => false
  | S fuel =>
      match schema with
      | JBool b => b
      | JObject keywords => forallb (fun kw => keyword (valid fuel) keywords kw.1 kw.2 v) keywords
      | _ => false
      end
  end.
End Validation.

(** Three levels of schemas for each level of a value, and those around. *)
Definition validation_fuel : nat := 100.
Definition published (matches : string -> string -> bool) (dialect : json -> bool) (provider : string) (claims : json) : bool :=
  match member provider document_definitions with
  | Some schema => valid matches dialect document_definitions validation_fuel schema claims
  | None => false
  end.

(** ** The limits of a fragment *)

(** [inspectSchema] with another measure of texts. *)
Fixpoint within (size : string -> Z) (v : json) (depth : nat) : bool :=
  (depth <=? maxSchemaDepth)%nat &&
  match v with
  | JObject l => (Z.of_nat (length l) <=? maxSchemaMembers)
                 && forallb (fun kv => negb (prohibited_keyword kv.1) && within size kv.2 (S depth)) l
  | JArray l => (Z.of_nat (length l) <=? maxSchemaItems) && forallb (fun x => within size x (S depth)) l
  | JString s => size s <=? maxSchemaStringLength
  | _ => true
  end.

Lemma ltb_negb_leb x y : (x <? y) = negb (y <=? x).
Proof. destruct (Z.ltb_spec x y), (Z.leb_spec y x); lia || done. Qed.

Lemma within_inspect v : forall depth, is_nil (inspectSchema v depth) = within len v depth.
Proof.
  induction v as [| | |s|l IH|l IH] using json_nested_ind; intros depth; cbn [inspectSchema within];
    rewrite Nat.ltb_antisym; destruct (depth <=? maxSchemaDepth)%nat; try done; cbn [negb andb].
  - rewrite ltb_negb_leb. by destruct (len s <=? _).
  - rewrite ltb_negb_leb. destruct (_ <=? _); [|done]. cbn [negb andb].
    induction IH as [|x l Hx _ IHl]; [done|]. cbn [forallb]. rewrite <- Hx, <- IHl. by destruct (inspectSchema x _).
  - rewrite ltb_negb_leb. destruct (_ <=? _); [|done]. cbn [negb andb].
    induction IH as [|[k x] l Hx _ IHl]; [done|]. cbn [forallb fst snd]. cbn [snd] in Hx. rewrite <- Hx, <- IHl.
    destruct (prohibited_keyword k); [done|]. by destruct (inspectSchema x _).
Qed.

Lemma forallb_imp {A} (f g : A -> bool) l : Forall (fun x => f x = true -> g x = true) l -> forallb f l = true -> forallb g l = true.
Proof. induction 1 as [|x l Hx _ IH]; [done|]. cbn. rewrite !andb_true_iff. intuition. Qed.

Lemma within_mono (size size' : string -> Z) v : (forall s, size' s <= size s) ->
  forall depth, within size v depth = true -> within size' v depth = true.
Proof.
  intros Hs. induction v as [| | |s|l IH|l IH] using json_nested_ind; intros depth; cbn [within]; try done;
    rewrite !andb_true_iff; intros [Hd H]; (split; [done|]).
  - apply Z.leb_le in H. apply Z.leb_le. specialize (Hs s). lia.
  - destruct H as [Hl Hf]. split; [done|]. revert Hf. apply forallb_imp. eapply Forall_impl; [exact IH|]. intros x Hx. apply Hx.
  - destruct H as [Hl Hf]. split; [done|]. revert Hf. apply forallb_imp. eapply Forall_impl; [exact IH|].
    intros [k x] Hx. cbn in *. rewrite !andb_true_iff. intuition.
Qed.

Lemma rune_starts_len s : 0 <= rune_starts s <= len s.
Proof.
  unfold len. induction s as [|c s IH]; cbn [rune_starts String.length]; [lia|]. destruct (_ && _); lia.
Qed.
Lemma rune_count_len s : 0 <= rune_count s <= len s.
Proof.
  destruct s as [|c s]; [done|]. pose proof (rune_starts_len s). unfold rune_count, len in *. cbn [String.length]. lia.
Qed.
Lemma rune_count_empty s : rune_count s = 0 <-> s = "".
Proof.
  destruct s as [|c s]; [done|]. pose proof (rune_starts_len s). unfold rune_count. split; [lia|done].
Qed.
Lemma rune_starts_ascii s : string_forallb is_ascii_byte s = true -> rune_starts s = len s.
Proof.
  unfold len. induction s as [|c s IH]; cbn [rune_starts String.length string_forallb]; [done|].
  rewrite andb_true_iff. intros [Hc Hs]. rewrite IH by done. unfold is_ascii_byte in Hc.
  destruct (Z.leb_spec 128 (byte_z c)); [lia|]. cbn. lia.
Qed.
Lemma rune_count_ascii s : string_forallb is_ascii_byte s = true -> rune_count s = len s.
Proof.
  destruct s as [|c s]; [done|]. cbn [string_forallb]. rewrite andb_true_iff. intros [_ Hs%rune_starts_ascii].
  unfold rune_count, len in *. cbn [String.length]. lia.
Qed.

(** Every text in the value is ASCII. *)
Fixpoint ascii_values (v : json) : bool :=
  match v with
  | JString s => string_forallb is_ascii_byte s
  | JArray l => forallb ascii_values l
  | JObject l => forallb (fun kv => ascii_values kv.2) l
  | _ => true
  end.

Lemma within_ascii v : ascii_values v = true -> forall depth, within rune_count v depth = within len v depth.
Proof.
  induction v as [| | |s|l IH|l IH] using json_nested_ind; cbn [ascii_values within]; intros Ha depth; try done; f_equal.
  - by rewrite rune_count_ascii.
  - f_equal. induction IH as [|x l Hx _ IHl]; [done|]. cbn [forallb] in *. apply andb_true_iff in Ha as [Hax Hal].
    rewrite Hx, IHl by done. done.
  - f_equal. induction IH as [|[k x] l Hx _ IHl]; [done|]. cbn [forallb fst snd] in *. apply andb_true_iff in Ha as [Hax Hal].
    rewrite Hx, IHl by done. done.
Qed.

(** ** What the definitions accept *)

#[global] Arguments int_number : simpl never.
#[global] Arguments safe_name : simpl never.
#[global] Arguments at_most : simpl never.
#[global] Arguments at_least : simpl never.
#[global] Arguments in_enum : simpl never.

Lemma at_most_number n size : In n [0; 1; 32; 64; 256; 4096] -> at_most (int_number n) size = (size <=? n).
Proof. cbn. intros Hn. repeat destruct Hn as [<-|Hn]; done. Qed.
Lemma at_least_number n size : In n [0; 1; 32; 64; 256; 4096] -> at_least (int_number n) size = (n <=? size).
Proof. cbn. intros Hn. repeat destruct Hn as [<-|Hn]; done. Qed.

(** A value of a fragment is defined at each depth. *)
Lemma safe_defined depth : (depth <= maxSchemaDepth)%nat ->
  member (safe_name depth) document_definitions = Some (safeSchemaValue depth).
Proof.
  intros Hd. assert (In depth (seq 0 (S maxSchemaDepth))) as Hin by (apply in_seq; lia).
  revert depth Hd Hin. assert (Forall (fun depth => member (safe_name depth) document_definitions = Some (safeSchemaValue depth))
    (seq 0 (S maxSchemaDepth))) as Hf by (repeat constructor).
  intros depth _ Hin. rewrite Forall_forall in Hf. apply Hf. by apply list_elem_of_In.
Qed.

Section Accepted.
Context (matches : string -> string -> bool) (dialect : json -> bool).
Hypothesis matches_content : forall s, matches "^content" s = has_prefix s "content".

Abbreviation accepts := (valid matches dialect document_definitions).

Lemma valid_keywords fuel keywords v :
  accepts (S fuel) (JObject keywords) v
  = forallb (fun kw => keyword matches dialect document_definitions (accepts fuel) keywords kw.1 kw.2 v) keywords.
Proof. reflexivity. Qed.

(** A reference is what it refers to. *)
Lemma valid_ref fuel name schema v : member name document_definitions = Some schema ->
  accepts (S fuel) (ref_to name) v = accepts fuel schema v.
Proof.
  intros Hm. unfold ref_to. rewrite valid_keywords. cbn [forallb fst snd]. rewrite andb_true_r.
  change (keyword matches dialect document_definitions (accepts fuel) [("$ref", JString ("#/$defs/" +:+ name))]
            "$ref" (JString ("#/$defs/" +:+ name)) v)
    with (match member name document_definitions with Some schema => accepts fuel schema v | None => false end). by rewrite Hm.
Qed.

(** The names of members a fragment may have. *)
Lemma in_enum_strings l s : in_enum (JArray (JString <$> l)) (JString s) = mem s l.
Proof.
  unfold in_enum, mem. induction l as [|x l IH]; [done|]. cbn [fmap list_fmap existsb]. rewrite <- IH. f_equal.
  by rewrite String.eqb_sym.
Qed.
Lemma mem_sorted l s : mem s (sort_strings l) = mem s l.
Proof.
  apply eq_iff_eq_true. rewrite !mem_true. unfold sort_strings. by rewrite merge_sort_Permutation.
Qed.
Lemma valid_name fuel name : accepts (S (S (S fuel))) name_schema (JString name) = negb (prohibited_keyword name).
Proof.
  unfold name_schema. do 3 (rewrite ?valid_keywords; cbn [forallb fst snd keyword String.eqb Ascii.eqb Bool.eqb existsb array_of]).
  rewrite in_enum_strings, matches_content, !andb_true_r, orb_false_r. unfold sortedSchemaKeywords. by rewrite mem_sorted.
Qed.

(** A value of another type is refused. *)
Lemma valid_type fuel t rest v :
  accepts (S fuel) (JObject (("type", JString t) :: rest)) v
  = has_type t v && forallb (fun kw => keyword matches dialect document_definitions (accepts fuel) (("type", JString t) :: rest) kw.1 kw.2 v) rest.
Proof. reflexivity. Qed.

Lemma count_one {A} (f : A -> bool) (before after : list A) x :
  forallb (fun y => negb (f y)) (before ++ after) = true ->
  (length (filter (fun y => f y = true) (before ++ x :: after)) =? 1)%nat = f x.
Proof.
  rewrite forallb_app, andb_true_iff. intros [Hb Ha].
  assert (forall l, forallb (fun y => negb (f y)) l = true -> filter (fun y => f y = true) l = []) as Hn.
  { induction l as [|y l IH]; cbn [forallb]; [done|]. rewrite andb_true_iff, negb_true_iff. intros [Hy Hl].
    rewrite filter_cons_False by congruence. auto. }
  rewrite filter_app, (Hn _ Hb), filter_cons. destruct (f x) eqn:Hx.
  - rewrite decide_True by done. by rewrite (Hn _ Ha).
  - rewrite decide_False by congruence. by rewrite (Hn _ Ha).
Qed.

(** The layer of a value's type decides. *)
Lemma valid_layer n schema fuel depth v :
  layers depth !! n = Some schema ->
  forallb (fun other => negb (accepts fuel other v)) (take n (layers depth) ++ drop (S n) (layers depth)) = true ->
  accepts (S fuel) (safeSchemaValue depth) v = accepts fuel schema v.
Proof.
  intros Hn Ho. unfold safeSchemaValue. rewrite valid_keywords. cbn [forallb fst snd]. rewrite andb_true_r.
  transitivity (length (filter (fun schema => accepts fuel schema v = true) (layers depth)) =? 1)%nat; [done|].
  rewrite <- (take_drop_middle _ _ _ Hn) at 1. exact (count_one (fun schema => accepts fuel schema v) _ _ schema Ho).
Qed.

(** Below the last level there is nothing. *)
Lemma within_below size v : within size v (S maxSchemaDepth) = false.
Proof. by destruct v. Qed.
Lemma below_empty {A} (f : A -> bool) (l : list A) limit : (forall x, f x = false) -> 0 <= limit ->
  (Z.of_nat (length l) <=? 0) = (Z.of_nat (length l) <=? limit) && forallb f l.
Proof. intros Hf Hl. destruct l as [|x l]; cbn [length forallb].
  { rewrite andb_true_r. symmetry. by apply Z.leb_le. }
  rewrite Hf. cbn [andb]. rewrite andb_false_r. apply Z.leb_gt. lia. Qed.
Lemma forallb_eq {A} (f g : A -> bool) l : Forall (fun x => f x = g x) l -> forallb f l = forallb g l.
Proof. induction 1 as [|x l Hx _ IH]; [done|]. cbn. by rewrite Hx, IH. Qed.

Lemma forallb_andb {A} (f g : A -> bool) l : forallb (fun x => f x && g x) l = forallb f l && forallb g l.
Proof. induction l as [|x l IH]; [done|]. cbn. rewrite IH. btauto. Qed.

(** What a fragment of the published schema accepts: three levels of schemas for each
    level of a value. *)
Lemma valid_safe v : forall depth fuel, (depth <= maxSchemaDepth)%nat -> (3 * (maxSchemaDepth - depth) + 8 <= fuel)%nat ->
  accepts fuel (ref_to (safe_name depth)) v = within rune_count v depth.
Proof.
  induction v as [| | |s|l IH|l IH] using json_nested_ind; intros depth fuel Hd Hf;
    (do 7 (destruct fuel as [|fuel]; [lia|]));
    rewrite (valid_ref _ _ (safeSchemaValue depth)) by (by apply safe_defined);
    cbn [within]; rewrite (proj2 (Nat.leb_le depth maxSchemaDepth) Hd); cbn [andb].
  - by rewrite (valid_layer 0 (type_schema "null")).
  - by rewrite (valid_layer 1 (type_schema "boolean")).
  - by rewrite (valid_layer 2 (type_schema "number")).
  - rewrite (valid_layer 3 _ _ _ _ eq_refl) by done.
    rewrite valid_type. cbn [has_type String.eqb Ascii.eqb Bool.eqb andb forallb fst snd keyword].
    by rewrite at_most_number, andb_true_r by (cbn; tauto).
  - rewrite (valid_layer 4 _ _ _ _ eq_refl) by done. unfold arraySchema.
    destruct (Nat.eqb_spec depth maxSchemaDepth) as [->|Hne]; cbn [app]; rewrite valid_type;
      cbn [has_type String.eqb Ascii.eqb Bool.eqb andb forallb fst snd keyword]; rewrite at_most_number by (cbn; tauto).
    + rewrite andb_true_r. apply below_empty; [intros; apply within_below|done].
    + rewrite andb_true_r. f_equal. apply forallb_eq. eapply Forall_impl; [exact IH|]. intros x Hx. apply Hx; lia.
  - rewrite (valid_layer 5 _ _ _ _ eq_refl) by done. unfold objectSchema.
    destruct (Nat.eqb_spec depth maxSchemaDepth) as [->|Hne]; cbn [app]; rewrite valid_type;
      cbn [has_type String.eqb Ascii.eqb Bool.eqb andb forallb fst snd keyword]; rewrite at_most_number by (cbn; tauto).
    + rewrite (below_empty (fun kv => negb (prohibited_keyword kv.1) && within rune_count kv.2 (S maxSchemaDepth)) l maxSchemaMembers)
        by (try intros; try rewrite within_below, andb_false_r; done).
      rewrite (forallb_eq _ (fun kv => negb (prohibited_keyword kv.1))) by (apply Forall_forall; intros; apply valid_name).
      rewrite forallb_andb. btauto.
    + rewrite forallb_andb.
      transitivity (forallb (fun kv => negb (prohibited_keyword kv.1)) l && ((Z.of_nat (length l) <=? maxSchemaMembers)
        && (forallb (fun kv => within rune_count kv.2 (S depth)) l && true))); [|btauto].
      f_equal; [apply forallb_eq, Forall_forall; intros; apply valid_name|]. do 2 f_equal.
      apply forallb_eq. eapply Forall_impl; [exact IH|]. intros kv Hx. apply Hx; lia.
Qed.

(** A fragment: a schema of the dialect within the limits. *)
Lemma valid_fragment fuel v : (60 <= fuel)%nat ->
  accepts fuel (ref_to "trustSchemaFragment") v = dialect v && within rune_count v 0.
Proof.
  intros Hf. do 3 (destruct fuel as [|fuel]; [lia|]).
  rewrite (valid_ref _ _ (JObject [("allOf", JArray [JObject [("$ref", JString jsonSchema2020)]; ref_to (safe_name 0)])])) by reflexivity.
  rewrite valid_keywords. cbn [forallb fst snd keyword String.eqb Ascii.eqb Bool.eqb array_of].
  rewrite valid_safe by (unfold maxSchemaDepth; lia). rewrite !andb_true_r. f_equal. by rewrite valid_keywords; cbn; rewrite andb_true_r.
Qed.

(** The names a provider's schema allows. *)
Definition fixed_names (rule : providerClaimRule) : list string := standardClaims ++ rule_claims rule.
Definition published_name (rule : providerClaimRule) (name : string) : bool :=
  if allowAny rule then (1 <=? rune_count name) && (rune_count name <=? maxClaimNameLength)
  else mem name (fixed_names rule) || negb (is_empty (dynamicPrefix rule)) && matches (dynamic_pattern rule) name.

Lemma member_fixed (fragment : json) names name :
  member name (map (fun name => (name, fragment)) names) = if mem name names then Some fragment else None.
Proof.
  unfold mem. induction names as [|n names IH]; [done|]. cbn. rewrite (String.eqb_sym n name). by destruct (name =? n)%string.
Qed.

(** The keyword of a provider's schema on one claim. *)
Lemma additional_keyword keywords extra name rule :
  member "properties" keywords = Some (JObject (map (fun name => (name, ref_to "trustSchemaFragment")) (fixed_names rule))) ->
  member "patternProperties" keywords = extra ->
  additional matches keywords name
  = negb (mem name (fixed_names rule))
    && negb (existsb (fun pattern => matches pattern.1 name) (members_of (default JNull extra))).
Proof.
  intros Hp He. unfold additional. rewrite Hp, He. cbn [default members_of id]. rewrite member_fixed. by destruct (mem _ _).
Qed.

Lemma valid_false fuel v : accepts (S fuel) (JBool false) v = false.
Proof. reflexivity. Qed.

Lemma valid_provider fuel rule claims : (62 <= fuel)%nat ->
  accepts fuel (providerSchema rule) (JObject claims)
  = (Z.of_nat (length claims) <=? maxClaims)
    && forallb (fun kv => published_name rule kv.1 && (dialect kv.2 && within rune_count kv.2 0)) claims.
Proof.
  intros Hf. do 2 (destruct fuel as [|fuel]; [lia|]). unfold providerSchema, published_name. fold (fixed_names rule).
  destruct (allowAny rule); [|destruct (is_empty (dynamicPrefix rule))]; cbn [app negb andb];
    rewrite valid_keywords; cbn [forallb fst snd keyword String.eqb Ascii.eqb Bool.eqb has_type andb];
    rewrite at_most_number by (cbn; tauto); f_equal; rewrite ?andb_true_r, <- ?forallb_andb; apply forallb_eq, Forall_forall;
    intros [name v] _; cbn [fst snd members_of forallb]; erewrite additional_keyword by reflexivity;
    cbn [member String.eqb Ascii.eqb Bool.eqb default members_of existsb id fst];
    rewrite member_fixed, ?valid_false, ?valid_fragment by lia.
  - rewrite valid_keywords. cbn [forallb fst snd keyword String.eqb Ascii.eqb Bool.eqb].
    rewrite at_most_number, at_least_number by (cbn; tauto). destruct (mem name _); cbn [negb andb orb]; rewrite ?valid_fragment by lia; btauto.
  - destruct (mem name _); cbn [negb andb orb]; rewrite ?valid_fragment by lia; btauto.
  - destruct (mem name _); cbn [negb andb orb]; rewrite ?valid_fragment by lia; btauto.
Qed.
End Accepted.

(** ** The run time and the published schema *)

(** ECMA-262 on the patterns of the document: a fixed prefix, and a prefix followed by a
    number of characters. *)
Class PatternLaws (matches : string -> string -> bool) : Prop := {
  matches_content : forall s, matches "^content" s = has_prefix s "content";
  matches_dynamic : forall provider rule s, claim_rule provider = Some rule -> dynamicPrefix rule <> "" ->
    matches (dynamic_pattern rule) s
    = has_prefix s (dynamicPrefix rule)
      && (let rest := drop_bytes (String.length (dynamicPrefix rule)) s in
          (1 <=? rune_count rest) && (rune_count rest <=? maxClaimNameLength - len (dynamicPrefix rule)))
}.

(** What the three rules have in common. *)
Record rule_sound (rule : providerClaimRule) : Prop := {
  rs_names : forallb (fun name => negb (is_empty name) && (len name <=? maxClaimNameLength)) (fixed_names rule) = true;
  rs_prefix : is_ascii (dynamicPrefix rule) = true;
  rs_any : allowAny rule = true -> dynamicPrefix rule = "" /\ rule_claims rule = []
}.
Lemma claim_rule_sound provider rule : claim_rule provider = Some rule ->
  rule_sound rule /\ member provider document_definitions = Some (providerSchema rule).
Proof.
  unfold claim_rule, providerClaimRules. cbn [find_rule].
  destruct (String.eqb_spec "github" provider) as [<-|_]; [|destruct (String.eqb_spec "buildkite" provider) as [<-|_];
    [|destruct (String.eqb_spec "oidc" provider) as [<-|_]; [|done]]];
    (intros [= <-]; split; [split; [reflexivity..|by vm_compute]|reflexivity]).
Qed.

(** The claims the run time accepts, once decoded: their number, their names and their
    fragments. *)
Definition runtime_accepts (provider : string) (claims : list (string * json)) : Prop :=
  Z.of_nat (length claims) <= maxClaims /\
  Forall (fun kv => ValidateClaimName kv.1 provider = None /\ inspectSchema kv.2 0 = None) claims.

(** The name and the texts of the fragment are ASCII. *)
Definition ascii_claims (claims : list (string * json)) : Prop :=
  Forall (fun kv => is_ascii kv.1 = true /\ ascii_values kv.2 = true) claims.

Section Published.
Context (matches : string -> string -> bool) (dialect : json -> bool) `{!PatternLaws matches}.
Context (provider : string) (rule : providerClaimRule) (known : claim_rule provider = Some rule).

(** The name is a fixed one, or any, or the prefix with something after it. *)
Lemma claim_name_allowed name :
  is_nil (ValidateClaimName name provider)
  = negb (is_empty name) && (len name <=? maxClaimNameLength)
    && (mem name (fixed_names rule) || allowAny rule
        || negb (is_empty (dynamicPrefix rule)) && has_prefix name (dynamicPrefix rule) && (len (dynamicPrefix rule) <? len name)).
Proof.
  unfold ValidateClaimName. rewrite known, ltb_negb_leb. unfold fixed_names.
  assert (mem name (standardClaims ++ rule_claims rule) = mem name standardClaims || mem name (rule_claims rule)) as ->
    by (unfold mem; by rewrite existsb_app).
  cbv zeta.
  destruct (is_empty name), (len name <=? maxClaimNameLength), (mem name standardClaims), (mem name (rule_claims rule)), (allowAny rule);
    cbn [negb andb orb is_nil]; try done; by destruct (negb (is_empty (dynamicPrefix rule)) && _ && _).
Qed.

Lemma fixed_name_short name : mem name (fixed_names rule) = true ->
  negb (is_empty name) && (len name <=? maxClaimNameLength) = true.
Proof.
  intros Hm%mem_true. destruct (claim_rule_sound _ _ known) as [Hs _]. pose proof (rs_names _ Hs) as Hn.
  rewrite forallb_forall in Hn. apply Hn. by apply list_elem_of_In.
Qed.

(** The length of what follows a prefix. *)
Lemma len_rest name prefix : has_prefix name prefix = true ->
  len name = len prefix + len (drop_bytes (String.length prefix) name).
Proof. intros Hp. rewrite (has_prefix_split _ _ Hp) at 1. unfold len. rewrite length_append. lia. Qed.

(** Names the run time allows are published; those of ASCII texts exactly. *)
Lemma runtime_name_published name : ValidateClaimName name provider = None -> published_name matches rule name = true.
Proof.
  intros Hn. pose proof (claim_name_allowed name) as Ha. rewrite Hn in Ha. symmetry in Ha.
  change (is_nil (None : option error)) with true in Ha.
  rewrite !andb_true_iff in Ha. destruct Ha as [[He Hl] Ha]. apply Z.leb_le in Hl. unfold published_name.
  assert (1 <= rune_count name) as Hr.
  { pose proof (rune_count_len name). destruct (decide (rune_count name = 0)) as [->%rune_count_empty|]; [done|lia]. }
  destruct (allowAny rule).
  { pose proof (rune_count_len name). apply andb_true_iff. split; apply Z.leb_le; lia. }
  rewrite orb_false_r in Ha. destruct (mem name (fixed_names rule)); [done|]. cbn [orb] in *.
  rewrite !andb_true_iff in Ha. destruct Ha as [[Hne Hp] Hlt]. rewrite Hne. cbn [andb].
  apply negb_true_iff in Hne. rewrite (matches_dynamic _ _ _ known) by (intros Hx; by rewrite Hx in Hne). rewrite Hp. cbn [andb].
  apply Z.ltb_lt in Hlt. pose proof (len_rest _ _ Hp) as Hlen. set (rest := drop_bytes _ name) in *.
  pose proof (rune_count_len rest) as Hc. cbv zeta. apply andb_true_iff. split; apply Z.leb_le; [|lia].
  destruct (decide (rune_count rest = 0)) as [Hz%rune_count_empty|]; [|lia]. rewrite Hz in Hlen. unfold len in *. cbn in *. lia.
Qed.

Lemma is_ascii_rest name prefix : has_prefix name prefix = true -> is_ascii name = true ->
  is_ascii (drop_bytes (String.length prefix) name) = true.
Proof.
  intros Hp. rewrite (has_prefix_split _ _ Hp) at 1. unfold is_ascii. rewrite string_forallb_app. by intros [_ ?]%andb_true_iff.
Qed.
Lemma published_name_runtime name : is_ascii name = true -> published_name matches rule name = true ->
  ValidateClaimName name provider = None.
Proof.
  intros Ha Hn. pose proof (claim_name_allowed name) as Hc. destruct (ValidateClaimName name provider); [|done].
  change (is_nil (Some e)) with false in Hc. symmetry in Hc. exfalso. apply not_true_iff_false in Hc. apply Hc. clear Hc.
  unfold published_name in Hn. destruct (allowAny rule).
  { rewrite rune_count_ascii in Hn by done. apply andb_true_iff in Hn as [H1%Z.leb_le H2]. rewrite H2, orb_true_r.
    destruct (is_empty name) eqn:He; [|done]. apply String.eqb_eq in He. by subst. }
  rewrite orb_false_r. destruct (mem name (fixed_names rule)) eqn:Hm; [by rewrite fixed_name_short|]. cbn [orb] in *.
  apply andb_true_iff in Hn as [Hne Hn]. rewrite Hne. cbn [andb]. apply negb_true_iff in Hne.
  rewrite (matches_dynamic _ _ _ known) in Hn by (intros Hx; by rewrite Hx in Hne).
  apply andb_true_iff in Hn as [Hp Hn]. rewrite Hp. cbn [andb]. cbv zeta in Hn.
  rewrite rune_count_ascii in Hn by (by apply is_ascii_rest). pose proof (len_rest _ _ Hp) as Hlen.
  apply andb_true_iff in Hn as [H1%Z.leb_le H2%Z.leb_le].
  apply andb_true_iff; split; [apply andb_true_iff; split|apply Z.ltb_lt; lia]; [|apply Z.leb_le; lia].
  destruct (is_empty name) eqn:He; [|done]. apply String.eqb_eq in He. subst. unfold len in *. cbn in *. lia.
Qed.

(** The claims of a provider in the published schema. *)
Lemma published_claims claims :
  published matches dialect provider (JObject claims)
  = (Z.of_nat (length claims) <=? maxClaims)
    && forallb (fun kv => published_name matches rule kv.1 && (dialect kv.2 && within rune_count kv.2 0)) claims.
Proof.
  unfold published. destruct (claim_rule_sound _ _ known) as [_ ->].
  apply valid_provider; [apply matches_content|unfold validation_fuel; lia].
Qed.

Lemma runtime_published claims : runtime_accepts provider claims -> Forall (fun kv => dialect kv.2 = true) claims ->
  published matches dialect provider (JObject claims) = true.
Proof.
  intros [Hl Hr] Hd. rewrite published_claims. apply andb_true_iff. split; [by apply Z.leb_le|]. apply forallb_forall.
  intros kv Hin%list_elem_of_In. rewrite Forall_forall in Hr, Hd. destruct (Hr kv Hin) as [Hn Hi].
  rewrite runtime_name_published, Hd by done. cbn [andb]. apply (within_mono len rune_count).
  - intros s. apply rune_count_len.
  - by rewrite <- within_inspect, Hi.
Qed.

Lemma published_runtime claims : ascii_claims claims -> published matches dialect provider (JObject claims) = true ->
  runtime_accepts provider claims /\ Forall (fun kv => dialect kv.2 = true) claims.
Proof.
  unfold ascii_claims. rewrite published_claims. intros Ha [Hl%Z.leb_le Hf]%andb_true_iff. rewrite forallb_forall in Hf. rewrite Forall_forall in Ha.
  assert (forall kv, kv ∈ claims -> published_name matches rule kv.1 = true /\ dialect kv.2 = true /\ within rune_count kv.2 0 = true) as Hp.
  { intros kv Hin. specialize (Hf kv (proj1 (list_elem_of_In _ _) Hin)). rewrite !andb_true_iff in Hf. tauto. }
  split; [split; [done|]|]; apply Forall_forall; intros kv Hin; destruct (Hp kv Hin) as (Hn & Hd & Hw); [|done].
  destruct (Ha kv Hin) as [Han Hav]. split; [by apply published_name_runtime|].
  rewrite within_ascii, <- within_inspect in Hw by done. by destruct (inspectSchema kv.2 0).
Qed.
End Published.

(** ** The checks of a configuration *)

Section Validated.
Context `{!JSONLib}.

(** The claims of a configuration and their decoded fragments. *)
Definition decoded_claims (claims : gmap string string) (members : list (string * json)) : Prop :=
  Forall2 (fun kv kv' => kv.1 = kv'.1 /\ decode_json kv.2 = Some kv'.2) (map_to_list claims) members.

Lemma decodeFragment_inspected raw value : decodeFragment raw = inl value -> decode_json raw = Some value /\ inspectSchema value 0 = None.
Proof.
  unfold decodeFragment. destruct (_ || _); [done|]. destruct (decode_json raw) as [v|]; [|done].
  destruct (inspectSchema v 0) eqn:Hi; [done|]. by intros [= <-].
Qed.

Lemma add_claims_decoded l properties properties' : add_claims l properties = inl properties' ->
  Forall (fun kv => exists v, decode_json kv.2 = Some v /\ inspectSchema v 0 = None) l /\
  forall name, is_Some (properties' !! name) <-> is_Some (properties !! name) \/ name ∈ l.*1.
Proof.
  revert properties. induction l as [|[name raw] l IH]; intros properties; cbn [add_claims].
  { intros [= ->]. split; [done|]. intros name. rewrite elem_of_nil. tauto. }
  destruct (_ || _); [done|]. destruct (decodeFragment raw) as [v|] eqn:Hv; [|done]. intros [Hf Hn]%IH. split.
  - constructor; [|done]. exists v. by apply decodeFragment_inspected.
  - intros n. rewrite Hn. cbn. rewrite elem_of_cons. destruct (decide (n = name)) as [->|Hne].
    + rewrite lookup_insert_eq. split; [tauto|]. intros _. left. by eexists.
    + rewrite lookup_insert_ne by done. tauto.
Qed.

Lemma validate_names_all provider names : validate_names provider names = None ->
  Forall (fun name => ValidateClaimName name provider = None) names.
Proof.
  induction names as [|name names IH]; [done|]. unfold validate_names in *. cbn [fold_right].
  destruct (ValidateClaimName name provider) eqn:Hn; [done|]. intros Hv. constructor; auto.
Qed.

(** The library compiles a text only when the schema of the dialect accepts its document,
    and that accepts an object only with a schema under each of its properties. *)
Class DialectLaws (dialect : json -> bool) : Prop := {
  compiled_dialect : forall document, compiles (marshal_json document) = true -> dialect document = true;
  dialect_properties : forall members props name s,
    dialect (JObject members) = true -> member "properties" members = Some (JObject props) -> (name, s) ∈ props ->
    dialect s = true
}.

(** The properties hold what the fragments decode to. *)
Lemma add_claims_lookup l properties properties' : NoDup l.*1 -> add_claims l properties = inl properties' ->
  (forall name, name ∉ l.*1 -> properties' !! name = properties !! name) /\
  Forall (fun kv => properties' !! kv.1 = decode_json kv.2) l.
Proof.
  revert properties. induction l as [|[name raw] l IH]; intros properties; cbn [add_claims].
  { intros _ [= ->]. by split. }
  rewrite fmap_cons. intros [Hnew Hd]%NoDup_cons. cbn [fst] in *. destruct (_ || _); [done|].
  destruct (decodeFragment raw) as [v|] eqn:Hv; [|done]. intros [Hsame Hf]%IH; [|done].
  apply decodeFragment_inspected in Hv as [Hv _]. split.
  - intros n [Hne Hn]%not_elem_of_cons. rewrite Hsame by done. by apply lookup_insert_ne.
  - constructor; [|done]. cbn. rewrite Hsame by done. by rewrite lookup_insert_eq.
Qed.

(** The fragments of claims the loader accepts are schemas of the dialect: it compiles the
    document they are the properties of. *)
Lemma ValidateClaims_dialect dialect `{!DialectLaws dialect} provider claims members :
  ValidateClaims provider claims = None -> decoded_claims claims members -> Forall (fun kv => dialect kv.2 = true) members.
Proof.
  unfold ValidateClaims, CompileSchema, BuildSchema. destruct (claim_rule provider); [|done].
  destruct (validate_names _ _); [done|]. destruct (add_claims _ _) as [properties|] eqn:Ha; [|done].
  rewrite map_to_list_empty. cbn [add_required]. destruct (_ || _); [done|]. unfold CompileCanonicalSchema.
  destruct (compiles _) eqn:Hc; [|done]. intros _ Hd. apply compiled_dialect in Hc.
  apply add_claims_lookup in Ha as [_ Hl]; [|apply NoDup_fst_map_to_list]. pose proof (proj1 (Forall_forall _ _) Hl) as Hall. apply Forall_forall.
  intros [name v] Hin. apply list_elem_of_lookup in Hin as [i Hi].
  destruct (Forall2_lookup_r _ _ _ _ _ Hd Hi) as ([name' raw] & Hraw & Hn & Hv). cbn in Hn, Hv |- *. subst name'.
  apply (dialect_properties _ (map_to_list properties) name v Hc); [done|]. apply elem_of_map_to_list.
  rewrite <- Hv. apply (Hall (name, raw)). by eapply list_elem_of_lookup_2.
Qed.

(** What the loader's check of a policy's claims establishes of the decoded claims. *)
Lemma ValidateClaims_runtime provider claims members : ValidateClaims provider claims = None ->
  decoded_claims claims members -> is_Some (claim_rule provider) /\ runtime_accepts provider members.
Proof.
  unfold ValidateClaims, CompileSchema, BuildSchema. destruct (claim_rule provider) as [rule|] eqn:Hr; [|done].
  destruct (validate_names _ _) eqn:Hn; [done|]. apply validate_names_all in Hn.
  destruct (add_claims _ _) as [properties|] eqn:Ha; [|done]. rewrite map_to_list_empty. cbn [add_required].
  destruct (_ || _) eqn:Hlimit; [done|]. intros _ Hd. apply orb_false_iff in Hlimit as [_ Hlimit].
  apply add_claims_decoded in Ha as [Hdec Hnames]. split; [by eexists|]. split.
  - rewrite <- (Forall2_length _ _ _ Hd). apply Z.ltb_ge in Hlimit. unfold schema_names, sort_strings in Hlimit.
    rewrite (Permutation_length (merge_sort_Permutation _ _)), length_fmap in Hlimit.
    enough (length (map_to_list claims) = length (map_to_list properties)) as -> by done.
    rewrite !length_map_to_list, <- !size_dom. f_equal. apply set_eq. intros name.
    rewrite !elem_of_dom, Hnames, lookup_empty, list_elem_of_fmap. split.
    + intros [raw Hc]. right. exists (name, raw). split; [done|]. by apply elem_of_map_to_list.
    + intros [[? ?]|([n raw] & -> & Hc%elem_of_map_to_list)]; [done|]. by eexists.
  - apply Forall_fmap in Hn. revert Hn Hdec. unfold decoded_claims in Hd. clear Hnames Hlimit.
    induction Hd as [|[n raw] [n' v] l l' [Hk Hv] _ IH]; [by constructor|]. cbn in *. subst n'.
    intros [Hn Hl]%Forall_cons [(v' & Hv' & Hi) Hdec]%Forall_cons. cbn in *. constructor; [|by apply IH].
    split; [done|]. cbn. congruence.
Qed.
End Validated.

(** C36: The published schema follows the run time.  The claims of a trust policy that
    the loader accepts for a provider are accepted by the schema published for that
    provider; and claims of ASCII texts that the published schema accepts are schemas of the
    dialect and pass every structural check of the run time: their number, their names, and
    depth, sizes and keywords of each fragment.  Of the libraries, the patterns must match
    as regular expressions do, and a text must only compile when the schema of the dialect
    accepts it. *)
Theorem published_schema_follows_runtime `{!JSONLib} (matches : string -> string -> bool) (dialect : json -> bool)
    (Hmatches : PatternLaws matches) (Hdialect : DialectLaws dialect) (provider : string) (Hprovider : is_Some (claim_rule provider))
    (members : list (string * json)) :
  (forall claims, ValidateClaims provider claims = None -> decoded_claims claims members ->
     published matches dialect provider (JObject members) = true) /\
  (ascii_claims members -> published matches dialect provider (JObject members) = true ->
     runtime_accepts provider members /\ Forall (fun kv => dialect kv.2 = true) members).
Proof.
  destruct Hprovider as [rule Hr]. split.
  - intros claims Hv Hd. pose proof (ValidateClaims_dialect dialect provider claims members Hv Hd) as Hs. destruct (ValidateClaims_runtime _ _ _ Hv Hd) as [_ Ha].
    by apply (runtime_published matches dialect provider rule Hr).
  - by apply (published_runtime matches dialect provider rule Hr).
Qed.

(** ** A policy for GitHub *)

Module Editor.

(** The three patterns of the document, matched as what they are. *)
Definition after_prefix (prefix s : string) : bool :=
  has_prefix s prefix && (let rest := drop_bytes (String.length prefix) s in
                          (1 <=? rune_count rest) && (rune_count rest <=? maxClaimNameLength - len prefix)).
Definition matcher (pattern s : string) : bool :=
  if (pattern =? "^content")%string then has_prefix s "content"
  else if (pattern =? "^repo_property_[\s\S]{1,242}$")%string then after_prefix "repo_property_" s
  else if (pattern =? "^agent_tag:[\s\S]{1,246}$")%string then after_prefix "agent_tag:" s
  else false.

#[export] Instance matcher_laws : PatternLaws matcher.
Proof.
  split; [done|]. intros provider rule s. unfold claim_rule, providerClaimRules. cbn [find_rule].
  destruct (String.eqb_spec "github" provider) as [_|_]; [|destruct (String.eqb_spec "buildkite" provider) as [_|_];
    [|destruct (String.eqb_spec "oidc" provider) as [_|_]; [|done]]]; intros [= <-] Hp; [| |by destruct Hp].
  - change (dynamic_pattern _) with "^repo_property_[\s\S]{1,242}$". reflexivity.
  - change (dynamic_pattern _) with "^agent_tag:[\s\S]{1,246}$". reflexivity.
Qed.

(** A dialect in which a schema is an object with a schema under each of its properties, and
    the library that compiles its documents. *)
Fixpoint objects (v : json) : bool :=
  match v with
  | JObject members =>
      forallb (fun kv => if (kv.1 =? "properties")%string
                         then match kv.2 with JObject props => forallb (fun p => objects p.2) props | _ => false end
                         else true) members
  | _ => false
  end.
#[export] Instance compiler : JSONLib := {|
  decode_json := Demo.parse;
  marshal_json := Demo.print;
  compiles text := match Demo.parse text with Some document => objects document | None => false end;
  Validate _ _ := true
|}.
#[export] Instance compiler_laws : DialectLaws objects.
Proof.
  split.
  - intros document. cbn. by rewrite Demo.parse_print.
  - intros members props name s Hd Hm Hin. cbn in Hd. induction members as [|[k v] members IH]; [done|]. cbn in Hd, Hm.
    apply andb_true_iff in Hd as [Hv Hd]. destruct (k =? "properties")%string; [|by apply IH].
    injection Hm as ->. rewrite forallb_forall in Hv. apply (Hv (name, s)), list_elem_of_In, Hin.
Qed.

Definition const (s : string) : json := JObject [("const", JString s)].
Definition members : list (string * json) := [("repository", const "a/b"); ("repo_property_team", const "core")].

(** Editors are told of a foreign claim, of a forbidden keyword, of a name that only has the
    prefix, and of nesting beyond the last level; the document itself validates nothing. *)
Fixpoint nested (n : nat) : json := match n with O => JNull | S n => JObject [("not", nested n)] end.
Example published_examples :
  map (fun members => published matcher objects "github" (JObject members))
    [members; [("pipeline_slug", const "p")]; [("ref", JObject [("$ref", JString "x")])]; [("repo_property_", const "x")];
     [("ref", nested 16)]; [("ref", nested 17)]]
  = [true; false; false; false; true; false] /\
  valid matcher objects document_definitions validation_fuel schema_document_published (JObject []) = false.
Proof. vm_compute. done. Qed.

(** A text of 4096 characters of two bytes each is published and refused: JSON Schema
    counts characters, the run time bytes. *)
Fixpoint repeated (n : nat) (s : string) : string := match n with O => "" | S n => s +:+ repeated n s end.
Definition accents : string := repeated 4096 (String "195" (String "169" "")).
Example characters_and_bytes :
  published matcher objects "github" (JObject [("ref", const accents)]) = true /\
  is_nil (inspectSchema (const accents) 0) = false.
Proof. vm_compute. done. Qed.

(** A fragment that is no schema is refused by the editor and by the loader. *)
Example number_refused :
  published matcher objects "github" (JObject [("repository", JNumber "5")]) = false /\
  is_nil (ValidateClaims "github" {["repository" := Demo.print (JNumber "5")]}) = false.
Proof. vm_compute. done. Qed.
End Editor.

Import Editor.

Lemma published_schema_follows_runtime_witness :
  published matcher objects "github" (JObject members) = true /\ runtime_accepts "github" members /\
  published matcher objects "github" (JObject [("repository", const "a/b")]) = true.
Proof.
  assert (is_Some (claim_rule "github")) as Hg by (by eexists).
  destruct (published_schema_follows_runtime matcher objects matcher_laws compiler_laws "github" Hg members) as [_ Hr].
  destruct (published_schema_follows_runtime matcher objects matcher_laws compiler_laws "github" Hg [("repository", const "a/b")]) as [Hv _].
  assert (published matcher objects "github" (JObject members) = true) as Hp by (vm_compute; reflexivity).
  split; [exact Hp|]. split; [apply Hr; [|exact Hp]; repeat constructor|].
  apply (Hv {["repository" := Demo.print (const "a/b")]}).
  - vm_compute. reflexivity.
  - unfold decoded_claims. rewrite map_to_list_singleton. repeat constructor.
Defined.
