(* ===== verification/Lru.v ===== *)
(** * The bounded caches of internal/authpolicy and internal/trust

    A cache is a [container/list] of entries, the most recently used first, and a map
    from keys to elements of the list.  An element is a number: the element a map entry
    points to is the one of that number. *)

From S2P Require Import Prelude.

Record lru (V : Type) := {
  index : gmap string nat;
  order : list (nat * V);
  next_element : nat
}.
#[global] Arguments index {V} _.
#[global] Arguments order {V} _.
#[global] Arguments next_element {V} _.
#[global] Arguments Build_lru {V} _ _ _.

Fixpoint element {V} (i : nat) (l : list (nat * V)) : option V :=
  match l with
  | [] => None
  | (j, v) :: l => if (j =? i)%nat then Some v else element i l
  end.
Fixpoint without {V} (i : nat) (l : list (nat * V)) : list (nat * V) :=
  match l with
  | [] => []
  | (j, v) :: l => if (j =? i)%nat then l else (j, v) :: without i l
  end.

Section Operations.
Context {V : Type} (key : V -> string).
Implicit Type c : lru V.

Definition empty_cache : lru V := {| index := ∅; order := []; next_element := O |}.

(** [m[k]] and the value of the element. *)
Definition find_entry (k : string) c : option (nat * V) :=
  i ← index c !! k; v ← element i (order c); Some (i, v).

(** [list.MoveToFront(e)] *)
Definition MoveToFront (i : nat) c : lru V :=
  match element i (order c) with
  | Some v => {| index := index c; order := (i, v) :: without i (order c); next_element := next_element c |}
  | None => c
  end.

(** [m[key] = list.PushFront(v)] *)
Definition PushFront (v : V) c : lru V :=
  {| index := <[key v := next_element c]> (index c); order := (next_element c, v) :: order c;
     next_element := S (next_element c) |}.

(** [delete(m, key of e); list.Remove(e)] *)
Definition remove_entry (i : nat) (v : V) c : lru V :=
  {| index := delete (key v) (index c); order := without i (order c); next_element := next_element c |}.

(** [for list.Len() > max { remove(list.Back()) }]; a turn shortens the list, so its
    length is fuel enough. *)
Fixpoint trim_go (fuel : nat) (max : Z) c : lru V :=
  match fuel with
  | O => c
  | S fuel =>
      if max <? Z.of_nat (length (order c))
      then match last (order c) with
           | Some (i, v) => trim_go fuel max (remove_entry i v c)
           | None => c
           end
      else c
  end.
Definition trim (max : Z) c : lru V := trim_go (length (order c)) max c.

(** ** Well-formedness *)

Definition sound c : Prop :=
  NoDup (order c).*1 /\
  (forall i v, (i, v) ∈ order c -> (i < next_element c)%nat /\ index c !! key v = Some i) /\
  (forall k i, index c !! k = Some i -> exists v, (i, v) ∈ order c /\ key v = k).

Lemma element_elem i l (v : V) : NoDup l.*1 -> element i l = Some v <-> (i, v) ∈ l.
Proof.
  induction l as [|[j w] l IH]; cbn; [split; [done | set_solver]|].
  rewrite NoDup_cons. intros [Hj Hl]. destruct (Nat.eqb_spec j i) as [->|Hne].
  - rewrite elem_of_cons. split; [intros [= ->]; by left|]. intros [[= ->]|Hin]; [done|].
    destruct Hj. apply list_elem_of_fmap. by exists (i, v).
  - rewrite IH by done. rewrite elem_of_cons. naive_solver.
Qed.

Lemma without_elem i j l (v : V) :
  NoDup l.*1 -> (j, v) ∈ without i l <-> (j, v) ∈ l /\ j <> i.
Proof.
  induction l as [|[k w] l IH]; cbn; [set_solver|].
  rewrite NoDup_cons. intros [Hk Hl]. destruct (Nat.eqb_spec k i) as [->|Hne].
  - rewrite elem_of_cons. split; [|naive_solver]. intros Hin. split; [by right|]. intros ->.
    apply Hk, list_elem_of_fmap. by exists (i, v).
  - rewrite !elem_of_cons, IH by done. naive_solver.
Qed.

Lemma without_NoDup i (l : list (nat * V)) : NoDup l.*1 -> NoDup (without i l).*1.
Proof.
  induction l as [|[k w] l IH]; cbn; [done|]. intros Hnd. pose proof Hnd as [Hk Hl]%NoDup_cons.
  destruct (Nat.eqb_spec k i); [done|]. cbn. constructor; [|auto].
  intros (y & -> & Hin)%list_elem_of_fmap. destruct y as [j v]. cbn in *.
  apply without_elem in Hin as [Hin _]; [|done]. apply Hk, list_elem_of_fmap. by exists (j, v).
Qed.

Lemma without_length i l (v : V) : (i, v) ∈ l -> S (length (without i l)) = length l.
Proof.
  induction l as [|[k w] l IH]; cbn; [set_solver|]. destruct (Nat.eqb_spec k i) as [->|]; [done|].
  rewrite elem_of_cons. intros [?|Hin]; [naive_solver|]. cbn. by rewrite IH.
Qed.

Lemma sound_empty : sound empty_cache.
Proof. split_and!; cbn; [constructor | set_solver | by intros ?? ?%lookup_empty_Some]. Qed.

(** The entry of a key is the one element of the list with that key. *)
Lemma find_entry_spec k c i v : sound c -> find_entry k c = Some (i, v) <-> (i, v) ∈ order c /\ key v = k.
Proof.
  intros (Hnd & Hl & Hm). unfold find_entry. split.
  - destruct (index c !! k) as [j|] eqn:Hj; cbn; [|done].
    destruct (element j (order c)) as [w|] eqn:Hw; [|done]. cbn. intros [= -> ->].
    apply element_elem in Hw; [|done]. split; [done|].
    destruct (Hm _ _ Hj) as (v' & Hv' & <-).
    apply (element_elem _ _ _ Hnd) in Hv'. apply (element_elem _ _ _ Hnd) in Hw. congruence.
  - intros [Hin <-]. destruct (Hl _ _ Hin) as [_ ->]. cbn.
    apply (element_elem _ _ _ Hnd) in Hin. by rewrite Hin.
Qed.

Lemma find_entry_none k c : sound c -> find_entry k c = None <-> forall i v, (i, v) ∈ order c -> key v <> k.
Proof.
  intros Hs. split.
  - intros Hn i v Hin Hk. assert (find_entry k c = Some (i, v)) by by apply find_entry_spec. congruence.
  - intros Hn. destruct (find_entry k c) as [[i v]|] eqn:Hf; [|done].
    apply find_entry_spec in Hf as [Hin Hk]; [|done]. by destruct (Hn _ _ Hin).
Qed.

Lemma MoveToFront_elem i j v c : sound c -> (j, v) ∈ order (MoveToFront i c) <-> (j, v) ∈ order c.
Proof.
  intros (Hnd & _). unfold MoveToFront. destruct (element i (order c)) as [w|] eqn:Hw; [|done]. cbn.
  apply element_elem in Hw; [|done]. rewrite elem_of_cons, without_elem by done.
  destruct (decide (j = i)) as [->|]; [|naive_solver]. split; [naive_solver|].
  intros Hin. apply (element_elem _ _ _ Hnd) in Hin, Hw. left. congruence.
Qed.

Lemma MoveToFront_sound i c : sound c -> sound (MoveToFront i c).
Proof.
  intros Hs. pose proof (fun j v => MoveToFront_elem i j v c Hs) as Helem.
  destruct Hs as (Hnd & Hl & Hm). split_and!.
  - unfold MoveToFront. destruct (element i (order c)) as [w|] eqn:Hw; [|done]. cbn.
    constructor; [|by apply without_NoDup]. intros ([j v] & -> & Hin)%list_elem_of_fmap.
    by apply without_elem in Hin as [_ ?].
  - intros j v Hin%Helem. destruct (Hl _ _ Hin). unfold MoveToFront. by destruct (element i _).
  - intros k j Hk. assert (index c !! k = Some j) as Hk' by (revert Hk; unfold MoveToFront; by destruct (element i _)).
    destruct (Hm _ _ Hk') as (v & Hin & <-). exists v. by rewrite Helem.
Qed.

Lemma MoveToFront_length i c : sound c -> length (order (MoveToFront i c)) = length (order c).
Proof.
  intros (Hnd & _). unfold MoveToFront. destruct (element i (order c)) as [w|] eqn:Hw; [|done]. cbn.
  apply element_elem in Hw; [|done]. by erewrite without_length.
Qed.

Lemma remove_entry_sound i v c : sound c -> (i, v) ∈ order c -> sound (remove_entry i v c).
Proof.
  intros (Hnd & Hl & Hm) Hin. unfold remove_entry. split_and!; cbn.
  - by apply without_NoDup.
  - intros j w Hw. apply without_elem in Hw as [Hw Hne]; [|done]. destruct (Hl _ _ Hw) as [? Hj].
    split; [done|]. rewrite lookup_delete_ne; [done|]. intros Hk.
    destruct (Hl _ _ Hin) as [_ Hi]. rewrite Hk in Hi. congruence.
  - intros k j Hk. apply lookup_delete_Some in Hk as [Hne Hk]. destruct (Hm _ _ Hk) as (w & Hw & <-).
    exists w. split; [|done]. apply without_elem; [done|]. split; [done|]. intros ->.
    apply (element_elem _ _ _ Hnd) in Hw, Hin. congruence.
Qed.

Lemma remove_entry_elem i v j w c :
  sound c -> (j, w) ∈ order (remove_entry i v c) <-> (j, w) ∈ order c /\ j <> i.
Proof. intros (Hnd & _). by apply without_elem. Qed.

(** A pushed entry needs a key the cache does not have. *)
Lemma PushFront_sound v c : sound c -> find_entry (key v) c = None -> sound (PushFront v c).
Proof.
  intros Hs Hnone. pose proof (proj1 (find_entry_none _ _ Hs) Hnone) as Hnew.
  destruct Hs as (Hnd & Hl & Hm). unfold PushFront. split_and!; cbn.
  - constructor; [|done]. intros ([j w] & Heq & Hin)%list_elem_of_fmap. cbn in Heq.
    destruct (Hl _ _ Hin). lia.
  - intros j w [[= -> ->]|Hin]%elem_of_cons; [split; [lia | by rewrite lookup_insert_eq]|].
    destruct (Hl _ _ Hin) as [Hj Hk]. split; [lia|]. rewrite lookup_insert_ne; [done|].
    intros ?. by apply (Hnew _ _ Hin).
  - intros k j [[<- <-]|[Hne Hk]]%lookup_insert_Some; [exists v; split; [by left | done]|].
    destruct (Hm _ _ Hk) as (w & Hw & <-). exists w. split; [by right | done].
Qed.

Lemma trim_go_spec fuel max c :
  sound c -> (length (order c) <= fuel)%nat -> 0 <= max ->
  sound (trim_go fuel max c) /\ Z.of_nat (length (order (trim_go fuel max c))) <= max /\
  order (trim_go fuel max c) `prefix_of` order c.
Proof.
  revert c. induction fuel as [|fuel IH]; intros c Hs Hf Hmax; cbn; [split_and!; [done | lia | done]|].
  destruct (Z.ltb_spec max (Z.of_nat (length (order c)))); [|split_and!; [done | lia | done]].
  destruct (last (order c)) as [[i v]|] eqn:Hlast.
  2:{ apply last_None in Hlast. rewrite Hlast in *. cbn in *. lia. }
  apply last_Some in Hlast as [l Hl].
  assert ((i, v) ∈ order c) as Hin by (rewrite Hl; set_solver).
  assert (without i (order c) = l) as Hwithout.
  { destruct Hs as (Hnd & _). rewrite Hl in *. clear -Hnd.
    induction l as [|[j w] l IHl]; cbn in *; [by rewrite Nat.eqb_refl|].
    apply NoDup_cons in Hnd as [Hj Hnd]. destruct (Nat.eqb_spec j i) as [->|]; [|by rewrite IHl].
    destruct Hj. rewrite fmap_app. set_solver. }
  destruct (IH (remove_entry i v c)) as (Hs' & Hlen & Hpre); try done.
  - by apply remove_entry_sound.
  - cbn. rewrite Hwithout. rewrite Hl, length_app in Hf. cbn in Hf. lia.
  - split_and!; [done..|]. etrans; [done|]. cbn. rewrite Hwithout, Hl. by eexists.
Qed.

Lemma trim_spec max c : sound c -> 0 <= max ->
  sound (trim max c) /\ Z.of_nat (length (order (trim max c))) <= max /\
  order (trim max c) `prefix_of` order c.
Proof. intros. by apply trim_go_spec. Qed.

Lemma trim_elem max c x : sound c -> 0 <= max -> x ∈ order (trim max c) -> x ∈ order c.
Proof. intros Hs Hmax Hin. destruct (trim_spec max c Hs Hmax) as (_ & _ & [l Hl]). rewrite Hl. set_solver. Qed.
End Operations.
