(* ===== verification/AuthPolicy.v ===== *)
(** * internal/authpolicy/postgresql.go: policy from a database

    The lookups of clients, users, trust issuers and trust bindings, the strict decoding
    of their results and the two bounded caches.  A query is a call of the database
    ([PolicyDB]); a call of [PostgreSQL] runs alone, so that a singleflight group calls
    its function.  Logging is left out. *)

From S2P Require Import Prelude Runtime Sha256 Json Config TrustPolicy TrustConfig Lru Services.

(** ** Query results *)

#[local] Set Warnings "-register-all".

(** The values pgx scans into: [any] of the columns. *)
Inductive dbvalue :=
  | VNil
  | VBool (b : bool)
  | VText (s : string)
  | VBytes (s : string)
  | VInt (z : Z)
  | VTexts (l : list string)
  | VAny (l : list dbvalue).

(** [queryResult] *)
Record queryResult := { columns : list string; rows : list (list dbvalue) }.

(** A query with its arguments under the configured timeout, the clock, and
    [json.Unmarshal] into a map of raw messages, nil for a JSON null. *)
Class PolicyDB (D : Type) := {
  query : string -> list string -> D -> (queryResult * option error) * D;
  policy_now : D -> time * D;
  unmarshal_object : string -> option (option (gmap string string))
}.

Module TrustRow.

(** [authpolicy.DynamicTrustRow] *)
Record DynamicTrustRow := {
  ClientID : string;
  IssuerID : string;
  BindingID : string;
  Subject : string;
  RequiredClaims : gmap string string;
  PolicyClaims : gmap string string;
  BindingClaims : gmap string string;
  Groups : list string
}.

End TrustRow.

Module Compiled.

(** [authpolicy.CompiledBinding] *)
Record CompiledBinding := {
  ID : string;
  Subject : string;
  DiagnosticKey : string;
  Groups : list string;
  Schema_ : Schema
}.

End Compiled.

Definition indeterminate (err : error) : error := IndeterminateError err.

(** ** Wire limits *)

Definition maxBackendMessageBody : Z := Z.shiftl 64 20.

Definition group_wire (cfg : PolicyDB.PolicyDatabaseConfig) : Z :=
  2 + PolicyDB.MaxGroups cfg * (2 * PolicyDB.MaxGroupBytes cfg + 4).

Definition rawRowBudget (cfg : PolicyDB.PolicyDatabaseConfig) : Z :=
  4 * 256 + group_wire cfg + PolicyDB.MaxJSONBytes cfg + 4096.

Definition backendMessageBodyLimit (cfg : PolicyDB.PolicyDatabaseConfig) : Z :=
  Z.min maxBackendMessageBody (rawRowBudget cfg + 8 * 4 + Z.shiftl 64 10).

Definition resultByteLimit (cfg : PolicyDB.PolicyDatabaseConfig) : Z :=
  Z.min maxBackendMessageBody
    (PolicyDB.MaxJSONBytes cfg + group_wire cfg + 4 * 256 + Z.shiftl 64 10).

Definition quote_char : ascii := "034".
Definition byte_at (value : string) (i : nat) : ascii := default "000"%char (String.get i value).

(** [strings.EqualFold(s, "NULL")]: no letter of NULL folds to a non-ASCII one. *)
Definition is_null_word (s : string) : bool := (string_map lower_byte s =? "null")%string.

(** One element from position [i]: the position after it, the bytes decoded and whether
    a quoted element was closed. *)
Fixpoint scan_element (fuel : nat) (value : string) (quoted : bool) (i : nat) (decoded : Z)
  : (nat * Z * bool) + error :=
  let last := (String.length value - 1)%nat in
  match fuel with
  | O => inl (i, decoded, negb quoted)
  | S fuel =>
      if (i <? last)%nat then
        let c := byte_at value i in
        if Ascii.eqb c "\" then
          if (last <=? S i)%nat then inr (Errorf "malformed groups array escape")
          else scan_element fuel value quoted (S (S i)) (decoded + 1)
        else if quoted then
          if Ascii.eqb c quote_char then inl (S i, decoded, true)
          else scan_element fuel value quoted (S i) (decoded + 1)
        else if Ascii.eqb c "," then inl (i, decoded, true)
        else if Ascii.eqb c quote_char || Ascii.eqb c "{" || Ascii.eqb c "}"
        then inr (Errorf "nested or malformed groups array")
        else scan_element fuel value quoted (S i) (decoded + 1)
      else inl (i, decoded, negb quoted)
  end.

(** The bytes of [value] from [i] to [j]. *)
Definition slice (value : string) (i j : nat) : string := take_bytes (j - i) (drop_bytes i value).

(** The elements from position [i]; a turn passes at least one byte, so the length of
    the value is fuel enough. *)
Fixpoint scan_elements (fuel : nat) (value : string) (maxElements maxElementBytes : Z)
    (i : nat) (elements : Z) : option error :=
  let last := (String.length value - 1)%nat in
  match fuel with
  | O => None
  | S fuel =>
      if (i <? last)%nat then
        if maxElements <? elements + 1 then Some (Errorf "group limit exceeded")
        else
          let quoted := Ascii.eqb (byte_at value i) quote_char in
          let start := if quoted then S i else i in
          match scan_element (String.length value) value quoted start 0 with
          | inr err => Some err
          | inl (j, decoded, closed) =>
              if negb closed || (decoded <? 1) || (maxElementBytes <? decoded)
              then Some (Errorf "invalid group element")
              else if negb quoted && is_null_word (slice value start j)
              then Some (Errorf "null group element")
              else if (j =? last)%nat then None
              else if negb (Ascii.eqb (byte_at value j) ",")
              then Some (Errorf "malformed groups array separator")
              else if (S j =? last)%nat then Some (Errorf "malformed groups array")
              else scan_elements fuel value maxElements maxElementBytes (S j) (elements + 1)
          end
      else None
  end.

Definition validateTextArrayWire (value : string) (maxElements maxElementBytes : Z) : option error :=
  if (len value <? 2) || negb (Ascii.eqb (byte_at value 0) "{")
     || negb (Ascii.eqb (byte_at value (String.length value - 1)) "}")
  then Some (Errorf "groups must use one-dimensional text array syntax")
  else if len value =? 2 then None
  else scan_elements (String.length value) value maxElements maxElementBytes 1 0.

Definition quoted_text (s : string) : string := String quote_char s +:+ String quote_char "".

Example text_array_examples :
  map (fun s => is_nil (validateTextArrayWire s 2 3))
    ["{}"; "{a}"; "{a,b}"; "{a,b,c}"; "{abcd}"; "{" +:+ quoted_text "a,b" +:+ "}"; "{nul}"; "{a,}"; "{,a}";
     "{{a}}"; "{" +:+ String quote_char "a}"; "{" +:+ quoted_text "a" +:+ "b}"; "a"; ""; "{\a}"; "{a\}"]
  = [true; true; true; false; false; true; true; false; false;
     false; false; false; false; false; true; false].
Proof. vm_compute. reflexivity. Qed.

Example null_is_not_an_element :
  map (fun s => is_nil (validateTextArrayWire s 2 4)) ["{null}"; "{Null,a}"; "{" +:+ quoted_text "NULL" +:+ "}"]
  = [false; false; true].
Proof. vm_compute. reflexivity. Qed.

Definition column_limit (cfg : PolicyDB.PolicyDatabaseConfig) (name value : string) : option error :=
  if mem name ["client_id"; "issuer_id"; "subject"]
  then guard_err (256 <? len value) "identity column exceeds limit"
  else if (name =? "provider")%string then guard_err (16 <? len value) "provider column exceeds limit"
  else if (name =? "issuer_url")%string then guard_err (2048 <? len value) "issuer URL exceeds limit"
  else if (name =? "binding_id")%string
  then guard_err (64 <? len value) "binding identifier exceeds limit"
  else if (name =? "groups")%string
  then and_then (guard_err (group_wire cfg <? len value) "groups wire value exceeds limit")
         (validateTextArrayWire value (PolicyDB.MaxGroups cfg) (PolicyDB.MaxGroupBytes cfg))
  else if (name =? "signing_algs")%string
  then match validateTextArrayWire value 16 16 with
       | Some err => Some (Wrapped "invalid signing algorithms" err)
       | None => None
       end
  else if (name =? "max_token_age_seconds")%string
  then guard_err (19 <? len value) "token age exceeds limit"
  else None.

Definition is_json_column (name : string) : bool :=
  mem name ["required_claims"; "policy_claims"; "binding_claims"].

(** The loop over the columns: the bytes and the JSON bytes of the row. *)
Fixpoint check_cells (cfg : PolicyDB.PolicyDatabaseConfig) (cells : list (string * option string))
    (total jsonTotal : Z) : (Z * Z) + error :=
  match cells with
  | [] => inl (total, jsonTotal)
  | (_, None) :: _ => inr (Errorf "policy database columns must be non-null")
  | (name, Some value) :: cells =>
      match column_limit cfg name value with
      | Some err => inr err
      | None => check_cells cfg cells (total + len value)
                  (if is_json_column name then jsonTotal + len value else jsonTotal)
      end
  end.

Definition checkRawRow (cfg : PolicyDB.PolicyDatabaseConfig) (columns : list string)
    (raw : list (option string)) : (Z * Z) + error :=
  if negb (length raw =? length columns)%nat then inr (Errorf "unexpected row width")
  else match check_cells cfg (zip columns raw) 0 0 with
       | inr err => inr err
       | inl (total, jsonTotal) =>
           if (PolicyDB.MaxJSONBytes cfg <? jsonTotal) || (rawRowBudget cfg <? total)
           then inr (Errorf "policy database row exceeds limit")
           else inl (total, jsonTotal)
       end.

(** ** pgx: the rows of a query

    What the code reads of [pgx.Rows]: the fields (name, type, whether in text format),
    the raw values of the rows the stream yields and the error it ends with.  [scan]
    decodes the cells of a row of the given kinds. *)

Inductive kind := KBool | KText | KTextArray | KInt8 | KJSON.

Record pgx_field := { field_name : string; DataTypeOID : Z; text_format : bool }.
Record pgx_rows := { fields_ : list pgx_field; early_error : option error;
                     raw_rows : list (list (option string)); final_error : option error }.
Class PgxPool (D : Type) := {
  pool_query : string -> list string -> D -> (pgx_rows + error) * D;
  scan : list kind -> list (option string) -> list dbvalue + error;
  pool_now : D -> time * D;
  pool_unmarshal : string -> option (option (gmap string string))
}.

Definition accepted_oids (k : kind) : list Z :=
  match k with
  | KBool => [16]
  | KText => [25]
  | KTextArray => [1009]
  | KInt8 => [20]
  | KJSON => [114; 3802]
  end.

Definition text_kinds (names : list string) : list (string * kind) := map (fun name => (name, KText)) names.

(** The columns of each query and its row limit. *)
Definition query_contract (cfg : PolicyDB.PolicyDatabaseConfig) (sql : string)
  : option (list (string * kind) * Z) :=
  let queries := PolicyDB.Queries_ cfg in
  if (sql =? Queries.ClientExists queries)%string then Some ([("exists", KBool)], 1)
  else if (sql =? Queries.UserAccess queries)%string
  then Some ([("allowed", KBool); ("groups", KTextArray)], 1)
  else if (sql =? Queries.TrustIssuer queries)%string
  then Some (text_kinds ["issuer_id"; "provider"; "issuer_url"]
             ++ [("signing_algs", KTextArray); ("max_token_age_seconds", KInt8)], 1)
  else if (sql =? Queries.TrustBindings queries)%string
  then Some (text_kinds ["client_id"; "issuer_id"; "binding_id"; "subject"]
             ++ [("required_claims", KJSON); ("policy_claims", KJSON); ("binding_claims", KJSON);
                 ("groups", KTextArray)], PolicyDB.MaxTrustRows cfg)
  else None.

Definition field_ok (column : string * kind) (field : pgx_field) : bool :=
  (field_name field =? column.1)%string
  && existsb (Z.eqb (DataTypeOID field)) (accepted_oids column.2) && text_format field.

Definition no_rows : queryResult := {| columns := []; rows := [] |}.

Section Wire.
Context {D : Type} `{!PgxPool D} (cfg : PolicyDB.PolicyDatabaseConfig).

(** The loop over the rows. *)
Fixpoint read_rows (contract : list (string * kind)) (limit : Z) (raws : list (list (option string)))
    (final : option error) (out : list (list dbvalue)) (messageBytes jsonBytes : Z)
  : queryResult * option error :=
  let result out := {| columns := contract.*1; rows := out |} in
  match raws with
  | [] => (result out, final)
  | raw :: raws =>
      if limit <=? Z.of_nat (length out)
      then (result (out ++ [[]]), Some (Errorf "policy database result row limit exceeded"))
      else match checkRawRow cfg contract.*1 raw with
      | inr err => (result out, Some err)
      | inl (rowBytes, rowJSONBytes) =>
          let messageBytes := messageBytes + rowBytes in
          let jsonBytes := jsonBytes + rowJSONBytes in
          if (PolicyDB.MaxJSONBytes cfg <? jsonBytes) || (resultByteLimit cfg <? messageBytes)
          then (result out, Some (Errorf "policy database result exceeds aggregate limit"))
          else match scan contract.*2 raw with
               | inr err => (result out, Some err)
               | inl values => read_rows contract limit raws final (out ++ [values]) messageBytes jsonBytes
               end
      end
  end.

Definition queryPostgreSQL (sql : string) (args : list string) (d : D) : (queryResult * option error) * D :=
  match query_contract cfg sql with
  | None => ((no_rows, Some (Errorf "unknown policy database query")), d)
  | Some (contract, limit) =>
      match pool_query sql args d with
      | (inr err, d) => ((no_rows, Some err), d)
      | (inl result, d) =>
          match early_error result with
          | Some err => ((no_rows, Some err), d)
          | None =>
              if negb (length (fields_ result) =? length contract)%nat
              then match raw_rows result, final_error result with
                   | [], Some err => ((no_rows, Some err), d)
                   | _, _ => ((no_rows, Some (Errorf "unexpected column count")), d)
                   end
              else if negb (forallb (fun cf => field_ok cf.1 cf.2) (zip contract (fields_ result)))
              then ((no_rows, Some (Errorf "unexpected column contract")), d)
              else (read_rows contract limit (raw_rows result) (final_error result) [] 0 0, d)
          end
      end
  end.

(** The query function [NewPostgreSQL] installs. *)
#[global] Instance postgresql_database : PolicyDB D :=
  {| query := queryPostgreSQL; policy_now := pool_now; unmarshal_object := pool_unmarshal |}.
End Wire.

(** ** Decoding *)

Definition decodeTextArray (value : dbvalue) : list string + error :=
  match value with
  | VTexts l => inl l
  | VAny l =>
      (fix texts l := match l with
                      | [] => inl []
                      | VText s :: l => match texts l with
                                        | inl out => inl (s :: out)
                                        | inr err => inr err
                                        end
                      | _ :: _ => inr (Errorf "null or non-text array element")
                      end) l
  | _ => inr (Errorf "not a text array")
  end.

(** The column contract, and the width of every row. *)
Definition exact (result : queryResult) (want : list string) (count : option Z) : option error :=
  if negb (length (columns result) =? length want)%nat then Some (Errorf "unexpected column count")
  else if negb (forallb (fun cw => (cw.1 =? cw.2)%string) (zip (columns result) want))
  then Some (Errorf "unexpected column contract")
  else if match count with
          | Some n => negb (Z.of_nat (length (rows result)) =? n)
          | None => false
          end
  then Some (Errorf "unexpected row count")
  else first_error (fun row => guard_err (negb (length row =? length want)%nat) "unexpected row width")
         (rows result).

Definition nul_byte : ascii := "000".
Definition validDynamicClientID (id : string) : bool :=
  negb (is_empty id) && (len id <=? 256) && negb (contains_byte id nul_byte).

Definition jsonBytes (source : gmap string string) : Z :=
  map_fold (fun k v total => total + (len k + len v)) 0 source.

(** [row[i]] *)
Definition column (row : list dbvalue) (i : nat) : dbvalue := nth i row VNil.
Definition as_text (value : dbvalue) : option string :=
  match value with VText s => Some s | _ => None end.
Definition as_bool (value : dbvalue) : option bool :=
  match value with VBool b => Some b | _ => None end.

Section Decoding.
Context {D : Type} `{!PolicyDB D}.

Definition claims_column (value : dbvalue) : option (gmap string string) :=
  match value with
  | VBytes raw | VText raw => mjoin (unmarshal_object raw)
  | _ => None
  end.

Definition decodeTrustRow (v : list dbvalue) : TrustRow.DynamicTrustRow + error :=
  if negb (length v =? 8)%nat then inr (Errorf "invalid trust row width")
  else match as_text (column v 0), as_text (column v 1), as_text (column v 2), as_text (column v 3) with
  | Some client, Some issuer, Some binding, Some subject =>
      match claims_column (column v 4), claims_column (column v 5), claims_column (column v 6) with
      | Some required, Some policy, Some claims =>
          match decodeTextArray (column v 7) with
          | inr _ => inr (Errorf "trust groups must be non-null text array")
          | inl groups =>
              inl {| TrustRow.ClientID := client; TrustRow.IssuerID := issuer;
                     TrustRow.BindingID := binding; TrustRow.Subject := subject;
                     TrustRow.RequiredClaims := required; TrustRow.PolicyClaims := policy;
                     TrustRow.BindingClaims := claims; TrustRow.Groups := groups |}
          end
      | _, _, _ => inr (Errorf "trust claim columns must be JSON objects")
      end
  | _, _, _, _ => inr (Errorf "trust identity columns must be non-null text")
  end.

Fixpoint decode_rows (l : list (list dbvalue)) : list TrustRow.DynamicTrustRow + error :=
  match l with
  | [] => inl []
  | values :: l =>
      match decodeTrustRow values with
      | inr err => inr (indeterminate err)
      | inl row => match decode_rows l with
                   | inr err => inr err
                   | inl out => inl (row :: out)
                   end
      end
  end.
End Decoding.

(** ** The policy database *)

Module Cache.

(** [authpolicy.cacheEntry] and [authpolicy.schemaEntry] *)
Record cacheEntry := { key : string; value : bool; expires : time }.
Record schemaEntry := { schema_key : string; schema : Schema }.

End Cache.

(** [authpolicy.PostgreSQL]: its caches, and the database behind its query function. *)
Record PostgreSQL (D : Type) := {
  clients : lru Cache.cacheEntry;
  schemas : lru Cache.schemaEntry;
  database : D
}.
#[global] Arguments clients {D} _.
#[global] Arguments schemas {D} _.
#[global] Arguments database {D} _.
#[global] Arguments Build_PostgreSQL {D} _ _ _.

Definition with_clients {D} (r : PostgreSQL D) (c : lru Cache.cacheEntry) : PostgreSQL D :=
  {| clients := c; schemas := schemas r; database := database r |}.
Definition with_schemas {D} (r : PostgreSQL D) (c : lru Cache.schemaEntry) : PostgreSQL D :=
  {| clients := clients r; schemas := c; database := database r |}.
Definition with_database {D} (r : PostgreSQL D) (d : D) : PostgreSQL D :=
  {| clients := clients r; schemas := schemas r; database := d |}.

Definition newPostgreSQL {D} (d : D) : PostgreSQL D :=
  {| clients := empty_cache; schemas := empty_cache; database := d |}.

Definition missing_bool (what : string) : error := Errorf (what +:+ " must be non-null boolean").

Fixpoint hex_go (s : string) : string :=
  let digit (z : Z) := z_byte (if z <? 10 then 48 + z else 87 + z) in
  match s with
  | EmptyString => EmptyString
  | String c s => String (digit (byte_z c / 16)) (String (digit (byte_z c mod 16)) (hex_go s))
  end.
(** [hex.EncodeToString] *)
Definition hex (s : string) : string := hex_go s.

Example hex_example : hex "Az0" = "417a30".
Proof. reflexivity. Qed.

Section Database.
Context {D : Type} `{!PolicyDB D} `{!URLs} `{!JSONLib} `{!Env}.
Context (cfg : PolicyDB.PolicyDatabaseConfig) (issuers : gmap string Issuer.TrustIssuerConfig).

Abbreviation db := (PostgreSQL D).
Abbreviation queries := (PolicyDB.Queries_ cfg).

(** A call of the database. *)
Definition on_database {B} (f : D -> B * D) (r : db) : B * db :=
  let (b, d) := f (database r) in (b, with_database r d).

Definition db_now {R} : go db R time := call (on_database policy_now).

Definition run_query (sql : string) (args : list string) : db -> (queryResult * option error) * db := run (
  '(result, err) ← call (on_database (query sql args));
  match err with
  | Some err => mret (result, Some (indeterminate (Wrapped "policy database query" err)))
  | None => mret (result, None)
  end).

Definition removeClient (i : nat) (e : Cache.cacheEntry) (r : db) : db :=
  with_clients r (remove_entry Cache.key i e (clients r)).

Definition putClient (key : string) (value : bool) (expires : time) (r : db) : unit * db :=
  let r := match find_entry key (clients r) with
           | Some (i, old) => removeClient i old r
           | None => r
           end in
  let c := PushFront Cache.key
             {| Cache.key := key; Cache.value := value; Cache.expires := expires |} (clients r) in
  (tt, with_clients r (trim Cache.key (Lookup.MaxEntries (PolicyDB.ClientLookupCache cfg)) c)).

(** The cached answer at [now], which becomes the most recently used; an expired entry
    is removed. *)
Definition cached_client (clientID : string) (now : time) (r : db) : option bool * db :=
  match find_entry clientID (clients r) with
  | Some (i, entry) =>
      if before now (Cache.expires entry)
      then (Some (Cache.value entry), with_clients r (MoveToFront i (clients r)))
      else (None, removeClient i entry r)
  | None => (None, r)
  end.

(** The function of the singleflight group. *)
Definition query_client (clientID : string) (cached : bool) : db -> (bool * option error) * db := run (
  '(result, err) ← call (run_query (Queries.ClientExists queries) [clientID]);
  match err with
  | Some err => return_ (false, Some err)
  | None =>
      match exact result ["exists"] (Some 1) with
      | Some err => return_ (false, Some (indeterminate err))
      | None =>
          match as_bool (column (hd [] (rows result)) 0) with
          | None => return_ (false, Some (indeterminate (missing_bool "exists")))
          | Some exists_ =>
              let ttl := if exists_ then Lookup.TTL (PolicyDB.ClientLookupCache cfg)
                         else Lookup.NegativeTTL (PolicyDB.ClientLookupCache cfg) in
              when cached (now ← db_now; call (putClient clientID exists_ (add now ttl))) ;;
              mret (exists_, None)
          end
      end
  end).

Definition clientExists (clientID : string) (cached : bool) : db -> (bool * option error) * db := run (
  return_if (negb (validDynamicClientID clientID))
    (false, Some (indeterminate (Errorf "invalid dynamic client identifier"))) ;;
  return_if (is_empty (Queries.ClientExists queries)) (false, None) ;;
  now ← db_now;
  hit ← (if cached then call (cached_client clientID now) else mret None : go db (bool * option error) (option bool));
  match hit with
  | Some value => return_ (value, None)
  | None => call (query_client clientID cached)
  end).

Definition ClientExists (clientID : string) : db -> (bool * option error) * db := clientExists clientID true.

(** Validated, distinct and in order. *)
Definition groups (value : dbvalue) : list string + error :=
  match decodeTextArray value with
  | inr _ => inr (indeterminate (Errorf "groups must be non-null text array"))
  | inl groups =>
      if PolicyDB.MaxGroups cfg <? Z.of_nat (length groups)
      then inr (indeterminate (Errorf "group limit exceeded"))
      else if existsb (fun group => is_empty group || (PolicyDB.MaxGroupBytes cfg <? len group)) groups
      then inr (indeterminate (Errorf "invalid group"))
      else inl (sort_strings (remove_dups groups))
  end.

Definition resolve_user (clientID subject : string) (requireUserGroupsFromPolicy : bool)
  : db -> (Resolved.ResolvedUser * option error) * db := run (
  let fail err : go db (Resolved.ResolvedUser * option error) (Resolved.ResolvedUser * option error) :=
    return_ (zero_resolved_user, Some err) in
  return_if (negb (validDynamicClientID clientID))
    (zero_resolved_user, Some (indeterminate (Errorf "invalid dynamic client identifier"))) ;;
  return_if (is_empty (Queries.UserAccess queries)) (zero_resolved_user, Some ErrDenied) ;;
  '(result, err) ← call (run_query (Queries.UserAccess queries) [clientID; to_lower subject]);
  match err with
  | Some err => fail err
  | None =>
      match exact result ["allowed"; "groups"] (Some 1) with
      | Some err => fail (indeterminate err)
      | None =>
          match as_bool (column (hd [] (rows result)) 0) with
          | None => fail (indeterminate (missing_bool "allowed"))
          | Some allowed =>
              match groups (column (hd [] (rows result)) 1) with
              | inr err => fail err
              | inl groups =>
                  return_if (negb allowed
                             || (requireUserGroupsFromPolicy && (Z.of_nat (length groups) =? 0)))
                    (zero_resolved_user, Some ErrDenied) ;;
                  mret ({| Resolved.Groups := groups |}, None)
              end
          end
      end
  end).

(** ** Trust *)

Definition no_issuer : string * Issuer.TrustIssuerConfig := ("", zero_issuer).

(** The issuer of a row, validated. *)
Definition decode_issuer (issuerURL : string) (values : list dbvalue)
  : (string * Issuer.TrustIssuerConfig) + error :=
  match as_text (column values 0) with
  | None => inr (Errorf "issuer_id must be non-null text")
  | Some issuerID =>
      if negb (is_nil (issuers !! issuerID))
      then inr (Errorf "database issuer_id conflicts with service_token_issuers")
      else match as_text (column values 1) with
      | None => inr (Errorf "provider must be non-null text")
      | Some provider =>
          match as_text (column values 2) with
          | None => inr (Errorf "issuer_url must exactly match the lookup")
          | Some url =>
              if negb (url =? issuerURL)%string then inr (Errorf "issuer_url must exactly match the lookup")
              else match decodeTextArray (column values 3) with
              | inr _ => inr (Errorf "signing_algs must be non-null text array")
              | inl algs =>
                  match column values 4 with
                  | VInt seconds =>
                      if (seconds <=? 0) || (max_int64 / second <? seconds)
                      then inr (Errorf "max_token_age_seconds must be a positive bigint duration")
                      else
                        let issuer := {| Issuer.Provider := provider; Issuer.IssuerURL := url;
                                         Issuer.SigningAlgs := algs;
                                         Issuer.MaxTokenAge := wrap64 (seconds * second) |} in
                        match ValidateDynamicTrustIssuer issuerID issuer with
                        | Some err => inr err
                        | None => inl (issuerID, issuer)
                        end
                  | _ => inr (Errorf "max_token_age_seconds must be a positive bigint duration")
                  end
              end
          end
      end
  end.

Definition issuer_columns : list string :=
  ["issuer_id"; "provider"; "issuer_url"; "signing_algs"; "max_token_age_seconds"].

Definition resolve_trust_issuer (clientID issuerURL : string)
  : db -> (string * Issuer.TrustIssuerConfig * option error) * db := run (
  let fail err : go db (string * Issuer.TrustIssuerConfig * option error)
                       (string * Issuer.TrustIssuerConfig * option error) :=
    return_ (no_issuer, Some err) in
  return_if (negb (validDynamicClientID clientID) || (2048 <? len issuerURL))
    (no_issuer, Some (indeterminate (Errorf "invalid dynamic trust issuer lookup"))) ;;
  return_if (is_empty (trim_space (Queries.TrustIssuer queries))) (no_issuer, Some ErrDenied) ;;
  '(result, err) ← call (run_query (Queries.TrustIssuer queries) [clientID; issuerURL]);
  match err with
  | Some err => fail err
  | None =>
      match exact result issuer_columns None with
      | Some err => fail (indeterminate err)
      | None =>
          match rows result with
          | [] => fail ErrDenied
          | [values] =>
              match decode_issuer issuerURL values with
              | inr err => fail (indeterminate err)
              | inl issuer => mret (issuer, None)
              end
          | _ => fail (indeterminate (Errorf "unexpected trust issuer row count"))
          end
      end
  end).

(** The schema of a key, compiled on a miss; the recheck inside the singleflight group
    finds nothing new when the call runs alone. *)
Definition compiledSchema (key canonical : string) (r : db) : (Schema + error) * db :=
  match find_entry key (schemas r) with
  | Some (i, entry) => (inl (Cache.schema entry), with_schemas r (MoveToFront i (schemas r)))
  | None =>
      match CompileCanonicalSchema canonical with
      | inr err => (inr err, r)
      | inl compiled =>
          let c := PushFront Cache.schema_key
                     {| Cache.schema_key := key; Cache.schema := compiled |} (schemas r) in
          (inl compiled, with_schemas r (trim Cache.schema_key (PolicyDB.PolicyBuildCache cfg) c))
      end
  end.

(** The checks on one row and its canonical schema. *)
Definition check_row (clientID issuerID : string) (issuer : Issuer.TrustIssuerConfig)
    (row : TrustRow.DynamicTrustRow) (seen : list string) (totalJSONBytes : Z)
  : (list string * string * Z) + error :=
  if negb (TrustRow.ClientID row =? clientID)%string || negb (TrustRow.IssuerID row =? issuerID)%string
     || negb (ValidTrustBindingID (TrustRow.BindingID row)) || mem (TrustRow.BindingID row) seen
  then inr (indeterminate (Errorf "invalid trust row identity"))
  else if negb (has_prefix (TrustRow.Subject row) "trusted:") || (256 <? len (TrustRow.Subject row))
  then inr (indeterminate (Errorf "invalid trust subject"))
  else match groups (VTexts (TrustRow.Groups row)) with
  | inr err => inr err
  | inl [] => inr (indeterminate (Errorf "trust groups empty"))
  | inl groups =>
      let total := totalJSONBytes + (jsonBytes (TrustRow.RequiredClaims row)
                     + jsonBytes (TrustRow.PolicyClaims row) + jsonBytes (TrustRow.BindingClaims row)) in
      if PolicyDB.MaxJSONBytes cfg <? total
      then inr (indeterminate (Errorf "trust JSON limit exceeded"))
      else
        let claims := TrustRow.BindingClaims row ∪ TrustRow.PolicyClaims row in
        match and_then (validate_names (Issuer.Provider issuer) (map_to_list claims).*1)
                (validate_names (Issuer.Provider issuer) (map_to_list (TrustRow.RequiredClaims row)).*1) with
        | Some err => inr (indeterminate err)
        | None =>
            match BuildSchema claims (TrustRow.RequiredClaims row) with
            | inr err => inr (indeterminate (Wrapped "build dynamic trust schema" err))
            | inl canonical => inl (groups, canonical, total)
            end
        end
  end.

Definition schema_key (clientID issuerID bindingID canonical : string) : string :=
  clientID +:+ "/" +:+ issuerID +:+ "/" +:+ bindingID +:+ "/" +:+ hex (sha256 canonical).

Fixpoint compile_rows (clientID issuerID : string) (issuer : Issuer.TrustIssuerConfig)
    (l : list TrustRow.DynamicTrustRow) (seen : list string) (totalJSONBytes : Z) (r : db)
  : (list Compiled.CompiledBinding + error) * db :=
  match l with
  | [] => (inl [], r)
  | row :: l =>
      match check_row clientID issuerID issuer row seen totalJSONBytes with
      | inr err => (inr err, r)
      | inl (groups, canonical, total) =>
          let key := schema_key clientID issuerID (TrustRow.BindingID row) canonical in
          match compiledSchema key canonical r with
          | (inr err, r) => (inr (indeterminate (Wrapped "compile dynamic trust schema" err)), r)
          | (inl schema, r) =>
              match compile_rows clientID issuerID issuer l (TrustRow.BindingID row :: seen) total r with
              | (inr err, r) => (inr err, r)
              | (inl out, r) =>
                  (inl ({| Compiled.ID := TrustRow.BindingID row; Compiled.Subject := TrustRow.Subject row;
                           Compiled.DiagnosticKey := key; Compiled.Groups := groups;
                           Compiled.Schema_ := schema |} :: out), r)
              end
          end
      end
  end.

Definition compileBindings (clientID issuerID : string) (issuer : Issuer.TrustIssuerConfig)
    (l : list TrustRow.DynamicTrustRow) (r : db) : (list Compiled.CompiledBinding + error) * db :=
  if PolicyDB.MaxTrustRows cfg <? Z.of_nat (length l)
  then (inr (indeterminate (Errorf "trust row limit exceeded")), r)
  else compile_rows clientID issuerID issuer l [] 0 r.

Definition binding_columns : list string :=
  ["client_id"; "issuer_id"; "binding_id"; "subject"; "required_claims"; "policy_claims";
   "binding_claims"; "groups"].

Definition resolve_trust_bindings (clientID issuerID : string) (issuer : Issuer.TrustIssuerConfig)
  : db -> (list Compiled.CompiledBinding + error) * db := run (
  let fail err : go db (list Compiled.CompiledBinding + error) (list Compiled.CompiledBinding + error) :=
    return_ (inr err) in
  return_if (negb (validDynamicClientID clientID))
    (inr (indeterminate (Errorf "invalid dynamic client identifier"))) ;;
  return_if (is_empty (Queries.TrustBindings queries)) (inr ErrDenied) ;;
  '(result, err) ← call (run_query (Queries.TrustBindings queries) [clientID; issuerID]);
  match err with
  | Some err => fail err
  | None =>
      match exact result binding_columns None with
      | Some err => fail (indeterminate err)
      | None =>
          return_if (PolicyDB.MaxTrustRows cfg <? Z.of_nat (length (rows result)))
            (inr (indeterminate (Errorf "trust row limit exceeded"))) ;;
          match decode_rows (rows result) with
          | inr err => fail err
          | inl l => call (compileBindings clientID issuerID issuer l)
          end
      end
  end).
End Database.
