(* ===== verification/Resolver.v ===== *)
(** * internal/authpolicy/resolver.go and static.go: the policy resolver

    Static clients take precedence over the policy database.  The resolver is the value
    [NewResolver] returns for a configuration and an optional database; a resolved
    client carries the identity of the resolver it came from.  The resolver implements
    the interfaces the services are written against. *)

From S2P Require Import Prelude Runtime Json Config TrustPolicy TrustConfig Lru Services AuthPolicy.

(** ** Static policy *)

Section Static.
Context `{Env}.

Definition resolveStaticGroups (mappings : gmap string (gmap string (list string)))
    (mappingID subject : string) : list string :=
  if is_empty mappingID then []
  else
    let groups := default [] (default ∅ (mappings !! mappingID) !! to_lower (trim_space subject)) in
    sort_strings (remove_dups groups).

Definition resolveStaticUser (cfg : Config.Config) (policy : Client.ClientConfig) (subject : string)
  : Resolved.ResolvedUser * option error :=
  let static := Config.StaticPolicy cfg in
  let groups := resolveStaticGroups (Static.UserGroupMappings static)
                  (Client.UserGroupMapping policy) subject in
  if ShouldRequireUserGroupsFromPolicy policy (Static.RequireUserGroupsFromPolicy static)
     && (Z.of_nat (length groups) =? 0)
  then (zero_resolved_user, Some ErrDenied)
  else ({| Resolved.Groups := groups |}, None).
End Static.

Definition resolveStaticTrust (policy : Client.ClientConfig) (issuerID : string)
  : list Effective.EffectiveTrustBinding :=
  omap (fun binding => effective ← Binding.Effective_ binding;
                       if (Effective.Issuer effective =? issuerID)%string then Some effective else None)
    (Client.TrustBindings policy).

(** ** The resolver *)

Definition unavailable (what : string) : error := IndeterminateError (Errorf what).

Section Resolver.
Context {D : Type} `{!PolicyDB D} `{!URLs} `{!JSONLib} `{!Env}.
(** [settings] and [known] are what the policy database was constructed with. *)
Context (cfg : Config.Config) (self : nat).
Context (settings : PolicyDB.PolicyDatabaseConfig) (known : gmap string Issuer.TrustIssuerConfig).

(** The resolver's [policyDatabase] field is the state. *)
Abbreviation resolver := (option (PostgreSQL D)).

(** A call of the policy database the resolver has. *)
Definition on_policy {B} (absent : B) (f : PostgreSQL D -> B * PostgreSQL D) (r : resolver) : B * resolver :=
  match r with
  | Some db => let (b, db) := f db in (b, Some db)
  | None => (absent, None)
  end.

Definition static_client (clientID : string) : option Client.ClientConfig :=
  static_clients (Config.StaticPolicy cfg) !! clientID.

(** The configuration of a client of the database. *)
Definition database_client (policy : PolicyDB.PolicyDatabaseConfig) : Client.ClientConfig :=
  let defaults := PolicyDB.ClientDefaults policy in
  {| Client.RedirectURIs := PolicyDB.RedirectURIs policy; Client.UserGroupMapping := "";
     Client.RequireUserGroupsFromPolicy := Defaults.RequireUserGroupsFromPolicy defaults;
     Client.RefreshTokens := Defaults.RefreshTokens defaults; Client.TrustBindings := [];
     Client.DPoP := Defaults.DPoP defaults; Client.RequirePAR := Defaults.RequirePAR defaults |}.

Definition resolve_client (clientID : string) (fresh : bool) (r : resolver)
  : (Resolved.ResolvedClient * option error) * resolver :=
  let static := Config.StaticPolicy cfg in
  match static_client clientID with
  | Some client =>
      let client := if Z.of_nat (length (Client.RedirectURIs client)) =? 0
                    then client <| Client.RedirectURIs := default_redirects static |>
                    else client in
      (({| Resolved.Config := client; Resolved.id := clientID; Resolved.source := clientSourceStatic;
           Resolved.owner := self |}, None), r)
  | None =>
      if negb (validDynamicClientID clientID) then ((zero_resolved_client, Some ErrDenied), r)
      else match r, Config.PolicyDatabase cfg with
      | Some _, Some policy =>
          match on_policy (false, None)
                  (if fresh then clientExists settings clientID false else ClientExists settings clientID) r with
          | ((_, Some err), r) => ((zero_resolved_client, Some err), r)
          | ((false, None), r) => ((zero_resolved_client, Some ErrDenied), r)
          | ((true, None), r) =>
              (({| Resolved.Config := database_client policy; Resolved.id := clientID;
                   Resolved.source := clientSourceDatabase; Resolved.owner := self |}, None), r)
          end
      | _, _ => ((zero_resolved_client, Some ErrDenied), r)
      end
  end.

Definition resolver_user (client : Resolved.ResolvedClient) (subject : string) (r : resolver)
  : (Resolved.ResolvedUser * option error) * resolver :=
  let fail what := ((zero_resolved_user, Some (unavailable what)), r) in
  if negb (Resolved.owner client =? self)%nat then fail "invalid resolved client"
  else match Resolved.source client with
  | clientSourceStatic =>
      match static_client (Resolved.id client) with
      | None => fail "resolved client policy unavailable"
      | Some policy => (resolveStaticUser cfg policy subject, r)
      end
  | clientSourceDatabase =>
      match r, Config.PolicyDatabase cfg with
      | Some _, Some policy =>
          let client_policy := zero_client <| Client.RequireUserGroupsFromPolicy :=
            Defaults.RequireUserGroupsFromPolicy (PolicyDB.ClientDefaults policy) |> in
          on_policy (zero_resolved_user, None)
            (resolve_user settings (Resolved.id client) subject
               (ShouldRequireUserGroupsFromPolicy client_policy None)) r
      | _, _ => fail "policy database unavailable"
      end
  | NoSource => fail "invalid resolved client"
  end.

(** The configured issuer of a URL. *)
Fixpoint find_issuer (issuerURL : string) (l : list (string * Issuer.TrustIssuerConfig))
  : option (string * Issuer.TrustIssuerConfig) :=
  match l with
  | [] => None
  | (id, issuer) :: l =>
      if (Issuer.IssuerURL issuer =? issuerURL)%string then Some (id, issuer) else find_issuer issuerURL l
  end.

Definition resolver_issuer (client : Resolved.ResolvedClient) (issuerURL : string) (r : resolver)
  : (Resolved.ResolvedTrustIssuer * option error) * resolver :=
  let result id issuer dynamic :=
    {| Resolved.ID := id; Resolved.IssuerConfig := issuer; Resolved.Dynamic := dynamic;
       Resolved.clientID := Resolved.id client; Resolved.issuer_owner := self |} in
  if negb (Resolved.owner client =? self)%nat
  then ((zero_resolved_issuer, Some (unavailable "invalid resolved client")), r)
  else match find_issuer issuerURL (map_to_list (Config.ServiceTokenIssuers cfg)) with
  | Some (id, issuer) => ((result id issuer false, None), r)
  | None =>
      match Resolved.source client with
      | clientSourceDatabase =>
          match r with
          | None => ((zero_resolved_issuer, Some (unavailable "policy database unavailable")), r)
          | Some _ =>
              match on_policy (no_issuer, None)
                      (resolve_trust_issuer settings known
                         (Resolved.id client) issuerURL) r with
              | ((_, Some err), r) => ((zero_resolved_issuer, Some err), r)
              | (((id, issuer), None), r) => ((result id issuer true, None), r)
              end
          end
      | _ => ((zero_resolved_issuer, Some ErrDenied), r)
      end
  end.

(** The bindings of the database as effective rules. *)
Definition effective_of (issuerID : string) (binding : Compiled.CompiledBinding)
  : Effective.EffectiveTrustBinding :=
  {| Effective.ID := Compiled.ID binding; Effective.Policy := ""; Effective.Issuer := issuerID;
     Effective.Subject := Compiled.Subject binding; Effective.Groups := Compiled.Groups binding;
     Effective.Schema_ := Compiled.Schema_ binding |}.

Definition resolver_bindings (client : Resolved.ResolvedClient) (issuer : Resolved.ResolvedTrustIssuer)
    (r : resolver) : (list Effective.EffectiveTrustBinding * option error) * resolver :=
  let fail what := (([], Some (unavailable what)), r) in
  if negb (Resolved.owner client =? self)%nat || negb (Resolved.issuer_owner issuer =? self)%nat
     || negb (Resolved.clientID issuer =? Resolved.id client)%string
  then fail "invalid resolved trust issuer"
  else match Resolved.source client with
  | clientSourceStatic =>
      match static_client (Resolved.id client) with
      | None => fail "resolved client policy unavailable"
      | Some policy => ((resolveStaticTrust policy (Resolved.ID issuer), None), r)
      end
  | clientSourceDatabase =>
      match r with
      | None => fail "policy database unavailable"
      | Some _ =>
          match on_policy (inl [])
                  (resolve_trust_bindings settings (Resolved.id client) (Resolved.ID issuer)
                     (Resolved.IssuerConfig issuer)) r with
          | (inr err, r) => (([], Some err), r)
          | (inl compiled, r) => ((effective_of (Resolved.ID issuer) <$> compiled, None), r)
          end
      end
  | NoSource => fail "invalid resolved client"
  end.

(** The resolver implements what the services call. *)
#[global] Instance resolver_policy : PolicyResolver resolver :=
  {| ResolveClient := resolve_client; ResolveUser := resolver_user |}.
#[global] Instance resolver_trust : TrustResolver resolver :=
  {| ResolveTrustIssuer := resolver_issuer; ResolveTrustBindings := resolver_bindings |}.
End Resolver.
