(* ===== verification/AuthSafety.v ===== *)
(** * What the policy database operations do

    Definite answers of the database, the verdicts they lead to, and the invariants of
    the client cache and of the schema cache. *)

From S2P Require Import Prelude Runtime Sha256 Json Config TrustPolicy SchemaSafety TrustConfig TrustProperties Lru Services AuthPolicy.

(** ** Answers *)

(** The one-row result of a contract. *)
Definition one_row (want : list string) (row : list dbvalue) : queryResult :=
  {| columns := want; rows := [row] |}.

Lemma zip_equal (l want : list string) :
  length l = length want -> forallb (fun cw => (cw.1 =? cw.2)%string) (zip l want) = true -> l = want.
Proof.
  revert want. induction l as [|x l IH]; intros [|y want]; cbn; try done.
  intros [= Hl] [->%String.eqb_eq Hz]%andb_true_iff. f_equal. auto.
Qed.
Lemma zip_self (l : list string) : forallb (fun cw => (cw.1 =? cw.2)%string) (zip l l) = true.
Proof. induction l; cbn; [done|]. by rewrite String.eqb_refl. Qed.

(** Every row has the width of the contract. *)
Lemma widths_none (l : list (list dbvalue)) (want : list string) :
  first_error (fun row => guard_err (negb (length row =? length want)%nat) "unexpected row width") l = None
  <-> Forall (fun row => length row = length want) l.
Proof.
  rewrite first_error_none. apply Forall_proper; [|done]. intros row.
  by rewrite guard_err_none, negb_false_iff, Nat.eqb_eq.
Qed.

Lemma exact_one result want :
  exact result want (Some 1) = None <-> exists row, result = one_row want row /\ length row = length want.
Proof.
  unfold exact. destruct result as [cols rs]. cbn. split.
  - destruct (Nat.eqb_spec (length cols) (length want)) as [Hl|]; cbn [negb]; [|done].
    destruct (forallb _ _) eqn:Hz; cbn [negb]; [|done].
    destruct (Z.eqb_spec (Z.of_nat (length rs)) 1) as [H1|]; cbn [negb]; [|done].
    rewrite widths_none. destruct rs as [|row [|]]; cbn in H1; [lia | | lia].
    intros [Hrow _]%Forall_cons. exists row. by rewrite (zip_equal cols want Hl Hz).
  - intros (row & [= -> ->] & Hrow). rewrite Nat.eqb_refl, zip_self. cbn [negb length Z.of_nat Pos.of_succ_nat Z.eqb Pos.eqb].
    apply widths_none. by constructor.
Qed.

Lemma exact_columns result want :
  exact result want None = None ->
  columns result = want /\ Forall (fun row => length row = length want) (rows result).
Proof.
  unfold exact. destruct (Nat.eqb_spec (length (columns result)) (length want)) as [Hl|]; cbn [negb]; [|done].
  destruct (forallb _ _) eqn:Hz; cbn [negb]; [|done]. intros Hr. split; [by apply zip_equal|].
  by apply widths_none.
Qed.

(** A failed lookup that a caller may retry. *)
Definition retryable (err : option error) : Prop := exists e, err = Some (IndeterminateError e).

Section Lookups.
Context {D : Type} `{!PolicyDB D} `{!URLs} `{!JSONLib} `{!Env}.
Context (cfg : PolicyDB.PolicyDatabaseConfig).
Abbreviation queries := (PolicyDB.Queries_ cfg).

(** The database, asked about a client, answers. *)
Definition client_answer (d : D) (clientID : string) (exists_ : bool) : Prop :=
  (query (Queries.ClientExists queries) [clientID] d).1 = (one_row ["exists"] [VBool exists_], None).

Lemma run_query_eq sql args (r : PostgreSQL D) :
  run_query sql args r =
  (match query sql args (database r) with
   | ((result, Some err), d) =>
       ((result, Some (indeterminate (Wrapped "policy database query" err))), with_database r d)
   | ((result, None), d) => ((result, None), with_database r d)
   end).
Proof.
  unfold run_query, run, call, on_database. cbn [mbind go_bind].
  unfold mbind, go_bind. by destruct (query sql args (database r)) as [[result [err|]] d].
Qed.

(** The time to live of an answer. *)
Definition time_to_live (exists_ : bool) : duration :=
  if exists_ then Lookup.TTL (PolicyDB.ClientLookupCache cfg)
  else Lookup.NegativeTTL (PolicyDB.ClientLookupCache cfg).

Lemma definite_or_not d clientID :
  (exists b, client_answer d clientID b) \/ (forall b, ~ client_answer d clientID b).
Proof.
  unfold client_answer, one_row. destruct (query _ _ d).1 as [[cols rs] qerr].
  destruct qerr; [right; intros ? ?; simplify_eq|].
  destruct (decide (cols = ["exists"])) as [->|]; [|right; intros ? ?; simplify_eq].
  destruct rs as [|[|v [|]] [|]]; try (right; intros ? ?; by simplify_eq).
  destruct v; try (right; intros ? ?; by simplify_eq). left. eauto.
Qed.

(** What the query function of the singleflight group does. *)
Lemma query_client_answer clientID cached (r : PostgreSQL D) b :
  client_answer (database r) clientID b ->
  query_client cfg clientID cached r =
  ((b, None),
   let d := (query (Queries.ClientExists queries) [clientID] (database r)).2 in
   if cached
   then (putClient cfg clientID b (add (policy_now d).1 (time_to_live b))
           (with_database r (policy_now d).2)).2
   else with_database r d).
Proof.
  unfold client_answer, query_client, run, call, mbind, go_bind. rewrite run_query_eq.
  destruct (query _ _ (database r)) as [[result qerr] d]. cbn [fst snd]. intros [= -> ->].
  change (exact (one_row ["exists"] [VBool b]) ["exists"] (Some 1)) with (@None error).
  cbv beta iota. destruct cached; [|done]. cbn [when as_bool column nth hd rows one_row].
  unfold db_now, call, on_database, mret, go_ret. cbn [database with_database].
  destruct (policy_now d) as [t d']. unfold time_to_live. by destruct b.
Qed.

Lemma query_client_failure clientID cached (r : PostgreSQL D) :
  (forall b, ~ client_answer (database r) clientID b) ->
  exists e, query_client cfg clientID cached r =
    ((false, Some (IndeterminateError e)),
     with_database r (query (Queries.ClientExists queries) [clientID] (database r)).2).
Proof.
  unfold client_answer, query_client, run, call, mbind, go_bind. rewrite run_query_eq.
  destruct (query _ _ (database r)) as [[result qerr] d]. cbn. intros Hnot.
  destruct qerr as [err|]; cbn; [eauto|].
  destruct (exact result ["exists"] (Some 1)) as [err|] eqn:Hexact; cbn; [eauto|].
  apply exact_one in Hexact as (row & -> & Hlen). destruct row as [|v [|]]; try done. cbn.
  destruct v; cbn; eauto. by destruct (Hnot b).
Qed.

(** ** The cache of clients *)

(** The entry is sound for the states [history] the database has been asked in: one of
    them answered it, at most its time to live before it expires. *)
Definition justified (history : list D) (e : Cache.cacheEntry) : Prop :=
  exists d, d ∈ history /\ client_answer d (Cache.key e) (Cache.value e) /\
    let d' := (query (Queries.ClientExists queries) [Cache.key e] d).2 in
    Cache.expires e = add (policy_now d').1 (time_to_live (Cache.value e)).

Definition cache_invariant (history : list D) (r : PostgreSQL D) : Prop :=
  sound Cache.key (clients r) /\
  Z.of_nat (length (order (clients r))) <= Lookup.MaxEntries (PolicyDB.ClientLookupCache cfg) /\
  forall i e, (i, e) ∈ order (clients r) -> justified history e.

Lemma justified_more history d e : justified history e -> justified (d :: history) e.
Proof. intros (d' & Hin & Hrest). exists d'. split; [by right | done]. Qed.

Hypothesis Hmax : 0 <= Lookup.MaxEntries (PolicyDB.ClientLookupCache cfg).

Lemma without_le {V} i (l : list (nat * V)) : (length (without i l) <= length l)%nat.
Proof. induction l as [|[j v] l IH]; cbn; [lia|]. destruct (j =? i)%nat; cbn; lia. Qed.

Lemma removeClient_invariant history i e r :
  cache_invariant history r -> (i, e) ∈ order (clients r) -> cache_invariant history (removeClient i e r).
Proof.
  intros (Hs & Hlen & Hj) Hin. unfold removeClient. split_and!; cbn.
  - by apply (remove_entry_sound Cache.key).
  - pose proof (without_le i (order (clients r))). lia.
  - intros k e' Hk. apply (without_elem Cache.key) in Hk as [Hk _]; [eauto | apply Hs].
Qed.

Lemma putClient_invariant history key b t r :
  cache_invariant history r ->
  justified history {| Cache.key := key; Cache.value := b; Cache.expires := t |} ->
  cache_invariant history (putClient cfg key b t r).2.
Proof.
  intros Hinv Hnew. unfold putClient. cbn [snd].
  set (r0 := match find_entry key (clients r) with Some (i, old) => removeClient i old r | None => r end).
  assert (cache_invariant history r0 /\ find_entry key (clients r0) = None) as [Hinv0 Hnone].
  { subst r0. destruct (find_entry key (clients r)) as [[i old]|] eqn:Hf; [|done].
    pose proof Hinv as [Hs _]. apply (find_entry_spec Cache.key) in Hf as [Hin Hk]; [|done].
    pose proof (removeClient_invariant _ i old _ Hinv Hin) as Hinv'.
    split; [done|]. apply (find_entry_none Cache.key); [apply Hinv'|].
    intros j e Hj Hke. apply (without_elem Cache.key) in Hj as [Hj Hne]; [|apply Hs].
    assert (find_entry key (clients r) = Some (j, e)) as Hf by by apply (find_entry_spec Cache.key).
    assert (find_entry key (clients r) = Some (i, old)) as Hf' by by apply (find_entry_spec Cache.key).
    congruence. }
  destruct Hinv0 as (Hs & Hlen & Hj).
  pose proof (PushFront_sound Cache.key
    {| Cache.key := key; Cache.value := b; Cache.expires := t |} _ Hs Hnone) as Hs'.
  destruct (trim_spec Cache.key _ _ Hs' Hmax) as (Ht & Hlen' & _).
  split_and!; cbn [with_clients clients]; [done..|].
  intros i e Hin. apply (trim_elem Cache.key) in Hin; [|done..].
  apply elem_of_cons in Hin as [[= -> ->]|Hin]; [done | eauto].
Qed.

Lemma with_database_invariant history d r :
  cache_invariant history (with_database r d) <-> cache_invariant history r.
Proof. done. Qed.

Lemma cache_invariant_more history d r : cache_invariant history r -> cache_invariant (d :: history) r.
Proof. intros (Hs & Hlen & Hj). split_and!; [done..|]. intros. eapply justified_more; eauto. Qed.

(** The state in which a lookup asks the database: after its reading of the clock. *)
Definition asked (r : PostgreSQL D) : D := (policy_now (database r)).2.

Lemma query_client_invariant history clientID cached r :
  cache_invariant history r ->
  cache_invariant (database r :: history) (query_client cfg clientID cached r).2.
Proof.
  intros Hinv. apply (cache_invariant_more _ (database r)) in Hinv.
  destruct (definite_or_not (database r) clientID) as [[b Hb]|Hnot].
  - rewrite (query_client_answer _ _ _ _ Hb). cbn [snd]. destruct cached; [|by apply with_database_invariant].
    apply putClient_invariant; [by apply with_database_invariant|].
    exists (database r). split; [by left|]. done.
  - destruct (query_client_failure clientID cached r Hnot) as [e ->]. by apply with_database_invariant.
Qed.

Lemma cached_client_invariant history clientID now r :
  cache_invariant history r -> cache_invariant history (cached_client clientID now r).2.
Proof.
  intros Hinv. pose proof Hinv as (Hs & Hlen & Hj). unfold cached_client.
  destruct (find_entry clientID (clients r)) as [[i e]|] eqn:Hf; [|done].
  apply (find_entry_spec Cache.key) in Hf as [Hin Hk]; [|done].
  destruct (before now (Cache.expires e)); [|by apply removeClient_invariant].
  split_and!; cbn [snd with_clients clients].
  - by apply MoveToFront_sound.
  - by rewrite (MoveToFront_length Cache.key).
  - intros j e' Hin'. apply (MoveToFront_elem Cache.key) in Hin'; [eauto | done].
Qed.

Lemma clientExists_eq clientID cached (r : PostgreSQL D) :
  validDynamicClientID clientID = true -> is_empty (Queries.ClientExists queries) = false ->
  clientExists cfg clientID cached r =
  (let r1 := with_database r (asked r) in
   if cached
   then match cached_client clientID (policy_now (database r)).1 r1 with
        | (Some value, r2) => ((value, None), r2)
        | (None, r2) => query_client cfg clientID true r2
        end
   else query_client cfg clientID false r1).
Proof.
  intros Hvalid Hquery. unfold clientExists. rewrite Hvalid, Hquery.
  unfold run, return_if, db_now, call, on_database, asked, mbind, go_bind, mret, go_ret. cbn [negb].
  destruct (policy_now (database r)) as [now d]. cbn [fst snd]. destruct cached.
  - destruct (cached_client clientID now (with_database r d)) as [[value|] r2]; [done|].
    by destruct (query_client cfg clientID true r2).
  - by destruct (query_client cfg clientID false (with_database r d)).
Qed.

Lemma clientExists_closed clientID cached (r : PostgreSQL D) :
  validDynamicClientID clientID && negb (is_empty (Queries.ClientExists queries)) = false ->
  (clientExists cfg clientID cached r).2 = r.
Proof.
  unfold clientExists, run, return_if, mbind, go_bind.
  destruct (validDynamicClientID clientID); cbn [negb andb]; [|done].
  by destruct (is_empty (Queries.ClientExists queries)).
Qed.

Lemma cached_client_database clientID now (r : PostgreSQL D) : database (cached_client clientID now r).2 = database r.
Proof.
  unfold cached_client. destruct (find_entry clientID (clients r)) as [[i e]|]; [|done].
  by destruct (before now (Cache.expires e)).
Qed.

Lemma clientExists_invariant history clientID cached r :
  cache_invariant history r ->
  cache_invariant (asked r :: history) (clientExists cfg clientID cached r).2.
Proof.
  intros Hinv. destruct (validDynamicClientID clientID && negb (is_empty (Queries.ClientExists queries))) eqn:Hopen.
  2:{ rewrite clientExists_closed by done. by apply cache_invariant_more. }
  apply andb_true_iff in Hopen as [Hvalid Hquery%negb_true_iff].
  rewrite clientExists_eq by done. cbn zeta. destruct cached.
  - pose proof (cached_client_invariant history clientID (policy_now (database r)).1 (with_database r (asked r)) Hinv)
      as Hhit.
    pose proof (cached_client_database clientID (policy_now (database r)).1 (with_database r (asked r))) as Hdb.
    destruct (cached_client _ _ _) as [[value|] r2]; cbn [snd database with_database] in *.
    + by apply cache_invariant_more.
    + rewrite <- Hdb. by apply query_client_invariant.
  - by apply (query_client_invariant _ _ _ (with_database r (asked r))).
Qed.

(** The schema cache is not touched. *)
Lemma clientExists_schemas clientID cached (r : PostgreSQL D) :
  schemas (clientExists cfg clientID cached r).2 = schemas r.
Proof.
  destruct (validDynamicClientID clientID && negb (is_empty (Queries.ClientExists queries))) eqn:Hopen.
  2:{ by rewrite clientExists_closed. }
  apply andb_true_iff in Hopen as [Hvalid Hquery%negb_true_iff].
  rewrite clientExists_eq by done. cbn zeta.
  assert (forall c r0, schemas (query_client cfg clientID c r0).2 = schemas r0) as Hq.
  { intros c r0. destruct (definite_or_not (database r0) clientID) as [[b Hb]|Hnot].
    - rewrite (query_client_answer _ _ _ _ Hb). cbn [snd]. destruct c; [|done]. unfold putClient. cbn [snd].
      by destruct (find_entry _ _) as [[? ?]|].
    - by destruct (query_client_failure clientID c r0 Hnot) as [e ->]. }
  destruct cached; [|by rewrite Hq]. unfold cached_client.
  destruct (find_entry _ _) as [[i e]|]; [|by rewrite Hq]. destruct (before _ _); [done | by rewrite Hq].
Qed.

(** What a cached lookup answers: the database now, or an entry of the cache. *)
Lemma query_client_success clientID cached (r : PostgreSQL D) value :
  (query_client cfg clientID cached r).1 = (value, None) -> client_answer (database r) clientID value.
Proof.
  destruct (definite_or_not (database r) clientID) as [[b Hb]|Hnot].
  - rewrite (query_client_answer _ _ _ _ Hb). by intros [= ->].
  - by destruct (query_client_failure clientID cached r Hnot) as [e ->].
Qed.

Lemma ClientExists_answer history clientID r value :
  validDynamicClientID clientID = true -> is_empty (Queries.ClientExists queries) = false ->
  cache_invariant history r ->
  (ClientExists cfg clientID r).1 = (value, None) ->
  client_answer (asked r) clientID value \/
  exists d, d ∈ history /\ client_answer d clientID value /\
    let d' := (query (Queries.ClientExists queries) [clientID] d).2 in
    (policy_now (database r)).1 < add (policy_now d').1 (time_to_live value).
Proof.
  intros Hvalid Hquery (Hs & _ & Hj). unfold ClientExists. rewrite clientExists_eq by done. cbn zeta.
  pose proof (cached_client_database clientID (policy_now (database r)).1 (with_database r (asked r))) as Hdb.
  unfold cached_client in *. cbn [clients with_database] in *.
  destruct (find_entry clientID (clients r)) as [[i e]|] eqn:Hf.
  1: apply (find_entry_spec Cache.key) in Hf as [Hin Hk]; [|done].
  1: destruct (before _ (Cache.expires e)) eqn:Hbefore.
  { intros [= <-]. right. destruct (Hj _ _ Hin) as (d & Hd & Ha & He). rewrite Hk in *.
    exists d. split_and!; try done. cbn zeta. unfold before in Hbefore. apply Z.ltb_lt in Hbefore.
    cbn zeta in He. lia. }
  all: intros Hq%query_client_success; left; exact Hq.
Qed.

(** ** Groups *)

(** The groups of a text array within the limits: distinct and in order. *)
Definition group_list (value : dbvalue) (out : list string) : Prop :=
  exists l, decodeTextArray value = inl l /\
    Z.of_nat (length l) <= PolicyDB.MaxGroups cfg /\
    Forall (fun group => group <> "" /\ len group <= PolicyDB.MaxGroupBytes cfg) l /\
    out = sort_strings (remove_dups l).

Lemma groups_ok value out : groups cfg value = inl out <-> group_list value out.
Proof.
  unfold groups, group_list. destruct (decodeTextArray value) as [l|]; [|naive_solver].
  destruct (Z.ltb_spec (PolicyDB.MaxGroups cfg) (Z.of_nat (length l))).
  { split; [done|]. intros (? & [= <-] & ? & _). lia. }
  destruct (existsb _ l) eqn:Hbad.
  - split; [done|]. intros (? & [= <-] & _ & Hall & _).
    apply existsb_exists in Hbad as (g & Hg%list_elem_of_In & Hbad). rewrite Forall_forall in Hall.
    destruct (Hall _ Hg) as [Hne Hle]. apply orb_true_iff in Hbad as [He|Hlt%Z.ltb_lt]; [|lia].
    by apply String.eqb_eq in He.
  - assert (Forall (fun g => g <> "" /\ len g <= PolicyDB.MaxGroupBytes cfg) l) as Hall.
    { apply Forall_forall. intros g Hg. apply not_true_iff_false in Hbad. split.
      - intros ->. destruct Hbad. apply existsb_exists. exists "". split; [by apply list_elem_of_In | done].
      - apply Z.nlt_ge. intros Hlt. destruct Hbad. apply existsb_exists. exists g.
        split; [by apply list_elem_of_In|]. apply orb_true_iff. right. by apply Z.ltb_lt. }
    naive_solver.
Qed.

Lemma groups_failure value err : groups cfg value = inr err -> retryable (Some err).
Proof.
  unfold groups, retryable, indeterminate. destruct (decodeTextArray value); [|intros [= <-]; eauto].
  destruct (_ <? _); [intros [= <-]; eauto|]. destruct (existsb _ _); [intros [= <-]; eauto | done].
Qed.

(** The groups of an answer are those of the text array, each once and in order. *)
Lemma group_list_sorted value out :
  group_list value out -> NoDup out /\ StronglySorted String.le out.
Proof.
  intros (l & _ & _ & _ & ->). split.
  - unfold sort_strings. rewrite merge_sort_Permutation. apply NoDup_remove_dups.
  - apply StronglySorted_merge_sort; apply _.
Qed.

(** ** Users *)

(** The database, asked about a user of a client, answers. *)
Definition user_answer (d : D) (clientID subject : string) (allowed : bool) (value : dbvalue) : Prop :=
  (query (Queries.UserAccess queries) [clientID; to_lower subject] d).1
  = (one_row ["allowed"; "groups"] [VBool allowed; value], None).

Lemma resolve_user_spec clientID subject required (r : PostgreSQL D) :
  validDynamicClientID clientID = true -> is_empty (Queries.UserAccess queries) = false ->
  let d := database r in
  exists user err,
    resolve_user cfg clientID subject required r =
      ((user, err), with_database r (query (Queries.UserAccess queries) [clientID; to_lower subject] d).2) /\
    ((err = None /\ exists value, user_answer d clientID subject true value /\
        group_list value (Resolved.Groups user) /\ (required = true -> Resolved.Groups user <> [])) \/
     (err = Some ErrDenied /\ exists allowed value out, user_answer d clientID subject allowed value /\
        group_list value out /\ (allowed = false \/ required = true /\ out = [])) \/
     (retryable err /\ forall allowed value out,
        user_answer d clientID subject allowed value -> ~ group_list value out)).
Proof.
  intros Hvalid Hquery d. unfold user_answer, resolve_user, run, call, mbind, go_bind, return_if.
  rewrite Hvalid, Hquery. subst d. unfold mret, go_ret. cbn beta iota zeta delta [negb].
  rewrite run_query_eq. destruct (query _ _ (database r)) as [[result qerr] d].
  destruct qerr as [qerr|]; [eexists _, _; split; [done|]; right; right; split; [eexists; done|by intros ??? [=]]|].
  cbn [fst snd]. destruct (exact result ["allowed"; "groups"] (Some 1)) as [e|] eqn:Hexact.
  { eexists _, _. split; [done|]. right. right. split; [eexists; done|]. intros ??? [= ->].
    assert (exact (one_row ["allowed"; "groups"] [VBool allowed; value]) ["allowed"; "groups"] (Some 1) = None)
      by (apply exact_one; eauto). congruence. }
  apply exact_one in Hexact as (row & -> & Hlen). destruct row as [|v [|value [|]]]; try done.
  cbn [column nth hd rows one_row]. destruct (as_bool v) as [allowed|] eqn:Hv.
  2:{ eexists _, _. split; [done|]. right. right. split; [eexists; done|]. by intros ??? [= -> ->]. }
  destruct v; try done. injection Hv as ->. destruct (groups cfg value) as [out|e] eqn:Hgroups.
  2:{ eexists _, _. split; [done|]. right. right. split; [by eapply groups_failure|].
      intros ? ? out [= -> ->] Hout%groups_ok. congruence. }
  apply groups_ok in Hgroups as Hout.
  destruct (negb allowed || required && (Z.of_nat (length out) =? 0)) eqn:Hdenied;
    eexists _, _; (split; [done|]).
  - right. left. split; [done|]. exists allowed, value, out. split_and!; [done..|].
    destruct allowed; [right | by left]. apply andb_true_iff in Hdenied as [-> Hnil%Z.eqb_eq].
    by destruct out.
  - left. apply orb_false_iff in Hdenied as [Ha Hreq]. apply negb_false_iff in Ha as ->.
    split; [done|]. exists value. split_and!; [done..|]. intros ->. cbn in Hreq. by destruct out.
Qed.
End Lookups.

(** ** Dynamic trust bindings *)

Lemma hex_digit_inj x y :
  0 <= x < 16 -> 0 <= y < 16 ->
  z_byte (if x <? 10 then 48 + x else 87 + x) = z_byte (if y <? 10 then 48 + y else 87 + y) -> x = y.
Proof.
  intros Hx Hy E. apply (f_equal byte_z) in E.
  destruct (Z.ltb_spec x 10), (Z.ltb_spec y 10); rewrite !byte_z_byte in E by lia; lia.
Qed.

Lemma length_hex s : String.length (hex s) = (2 * String.length s)%nat.
Proof. unfold hex. induction s as [|c s IH]; [done|]. cbn [hex_go String.length]. rewrite IH. lia. Qed.

Lemma hex_inj s s' : hex s = hex s' -> s = s'.
Proof.
  unfold hex. revert s'. induction s as [|c s IH]; intros [|c' s']; cbn [hex_go]; try done.
  intros [= E1 E2 E]. pose proof (byte_z_bound c). pose proof (byte_z_bound c').
  apply hex_digit_inj in E1, E2; try (split; [apply Z.div_pos || apply Z.mod_pos_bound; lia|];
    apply Z.div_lt_upper_bound || apply Z.mod_pos_bound; lia).
  f_equal; [|by apply IH].
  rewrite <- (z_byte_z c), <- (z_byte_z c'). f_equal.
  rewrite (Z.div_mod (byte_z c) 16), (Z.div_mod (byte_z c') 16) by lia. lia.
Qed.

Section Bindings.
Context {D : Type} `{!PolicyDB D} `{!URLs} `{!JSONLib} `{!Env}.
Context (cfg : PolicyDB.PolicyDatabaseConfig).
Hypothesis Hmax : 0 <= PolicyDB.PolicyBuildCache cfg.

(** A schema of the cache was compiled from a text of the digest its key ends with. *)
Definition schema_entry_ok (e : Cache.schemaEntry) : Prop :=
  exists prefix text, compiles text = true /\ Cache.schema e = {| compiled_from := text |} /\
    Cache.schema_key e = prefix +:+ hex (sha256 text).

Definition schemas_invariant (r : PostgreSQL D) : Prop :=
  sound Cache.schema_key (schemas r) /\
  Z.of_nat (length (order (schemas r))) <= PolicyDB.PolicyBuildCache cfg /\
  forall i e, (i, e) ∈ order (schemas r) -> schema_entry_ok e.

(** The schema was compiled from a text of the digest of [canonical]. *)
Definition compiled_as (canonical : string) (schema : Schema) : Prop :=
  exists text, compiles text = true /\ schema = {| compiled_from := text |} /\
    sha256 text = sha256 canonical.

Lemma compiledSchema_spec prefix canonical (r : PostgreSQL D) x r' :
  schemas_invariant r ->
  compiledSchema cfg (prefix +:+ hex (sha256 canonical)) canonical r = (x, r') ->
  schemas_invariant r' /\ clients r' = clients r /\ database r' = database r /\
  forall schema, x = inl schema -> compiled_as canonical schema.
Proof.
  intros (Hs & Hlen & Hok). unfold compiledSchema. set (key := prefix +:+ _).
  destruct (find_entry key (schemas r)) as [[i e]|] eqn:Hf.
  - intros [= <- <-]. apply (find_entry_spec Cache.schema_key) in Hf as [Hin Hk]; [|done].
    split; [|split_and!; try done].
    + split_and!; cbn [with_schemas schemas].
      * by apply MoveToFront_sound.
      * by rewrite (MoveToFront_length Cache.schema_key).
      * intros j e' Hj. apply (MoveToFront_elem Cache.schema_key) in Hj; [eauto | done].
    + intros schema [= <-]. destruct (Hok _ _ Hin) as (p & text & Hc & -> & Hkey). exists text.
      split_and!; [done..|]. apply hex_inj. rewrite Hk in Hkey.
      symmetry. eapply append_inv_suffix; [|exact Hkey]. by rewrite !length_hex, !length_sha256.
  - unfold CompileCanonicalSchema. destruct (compiles canonical) eqn:Hc; intros [= <- <-]; [|by split_and!].
    set (e := {| Cache.schema_key := key; Cache.schema := _ |}).
    pose proof (PushFront_sound Cache.schema_key e _ Hs Hf) as Hs'.
    destruct (trim_spec Cache.schema_key _ _ Hs' Hmax) as (Ht & Hlen' & _).
    split; [split_and!; cbn [with_schemas schemas]; try done | split_and!; try done].
    + intros j e' Hin. apply (trim_elem Cache.schema_key) in Hin; [|done..].
      apply elem_of_cons in Hin as [[= -> ->]|Hin]; [|eauto]. by exists prefix, canonical.
    + intros schema [= <-]. by exists canonical.
Qed.

(** The compiled rule of a row. *)
Definition row_rule (clientID issuerID : string) (row : TrustRow.DynamicTrustRow)
    (binding : Compiled.CompiledBinding) : Prop :=
  TrustRow.ClientID row = clientID /\ TrustRow.IssuerID row = issuerID /\
  Compiled.ID binding = TrustRow.BindingID row /\
  Compiled.Subject binding = TrustRow.Subject row /\
  has_prefix (Compiled.Subject binding) "trusted:" = true /\
  group_list cfg (VTexts (TrustRow.Groups row)) (Compiled.Groups binding) /\ Compiled.Groups binding <> [] /\
  exists canonical,
    BuildSchema (TrustRow.BindingClaims row ∪ TrustRow.PolicyClaims row) (TrustRow.RequiredClaims row)
      = inl canonical /\
    compiled_as canonical (Compiled.Schema_ binding).

Lemma check_row_ok clientID issuerID issuer row seen total out canonical total' :
  check_row cfg clientID issuerID issuer row seen total = inl (out, canonical, total') ->
  TrustRow.ClientID row = clientID /\ TrustRow.IssuerID row = issuerID /\
  mem (TrustRow.BindingID row) seen = false /\
  has_prefix (TrustRow.Subject row) "trusted:" = true /\
  group_list cfg (VTexts (TrustRow.Groups row)) out /\ out <> [] /\
  BuildSchema (TrustRow.BindingClaims row ∪ TrustRow.PolicyClaims row) (TrustRow.RequiredClaims row)
    = inl canonical.
Proof.
  unfold check_row.
  destruct (negb (_ =? clientID)%string || _ || _ || _) eqn:Hid; [done|].
  rewrite !orb_false_iff, !negb_false_iff, !String.eqb_eq in Hid.
  destruct Hid as (((Hclient & Hissuer) & _) & Hseen).
  destruct (negb (has_prefix _ _) || _) eqn:Hsub; [done|].
  rewrite orb_false_iff, negb_false_iff in Hsub. destruct Hsub as [Hsubject _].
  destruct (groups cfg _) as [[|g l]|] eqn:Hg; [done| |done].
  destruct (_ <? _); [done|]. destruct (and_then _ _); [done|].
  destruct (BuildSchema _ _) eqn:Hb; [|done]. intros [= <- <- <-].
  split_and!; try done. by apply groups_ok.
Qed.

Lemma compile_rows_spec clientID issuerID issuer l seen total (r : PostgreSQL D) x r' :
  schemas_invariant r ->
  compile_rows cfg clientID issuerID issuer l seen total r = (x, r') ->
  schemas_invariant r' /\ clients r' = clients r /\
  (forall out, x = inl out ->
     Forall2 (row_rule clientID issuerID) l out /\ NoDup (Compiled.ID <$> out) /\
     forall id, id ∈ Compiled.ID <$> out -> id ∉ seen) /\
  (forall err, x = inr err -> retryable (Some err)).
Proof.
  revert seen total r x r'.
  induction l as [|row l IH]; intros seen total r x r' Hinv; cbn [compile_rows].
  { intros [= <- <-]. split_and!; try done. intros ? [= <-]. split_and!; [constructor..|set_solver]. }
  destruct (check_row _ _ _ _ _ _ _) as [[[gs canonical] total']|err] eqn:Hcheck.
  2:{ intros [= <- <-]. split_and!; try done. intros ? [= <-].
      revert Hcheck. unfold check_row, retryable, indeterminate.
      repeat first [destruct (groups cfg _) as [[|? ?]|] eqn:Hg | case_match];
        intros [= <-]; try (by eexists). by eapply groups_failure. }
  apply check_row_ok in Hcheck as (Hc & Hi & Hseen & Hsubj & Hgs & Hne & Hbuild).
  unfold schema_key.
  pose proof (compiledSchema_spec (clientID +:+ "/" +:+ issuerID +:+ "/" +:+ TrustRow.BindingID row +:+ "/")
                canonical r) as Hspec.
  rewrite !append_assoc in Hspec.
  destruct (compiledSchema _ _ _ r) as [[schema|err] r1].
  2:{ intros [= <- <-]. destruct (Hspec _ _ Hinv eq_refl) as (? & ? & ? & _). split_and!; try done.
      intros ? [= <-]. by eexists. }
  destruct (Hspec _ _ Hinv eq_refl) as (Hinv1 & Hcl & _ & Hschema).
  destruct (compile_rows _ _ _ _ l _ _ _) as [y r2] eqn:Hrest.
  destruct (IH _ _ _ _ _ Hinv1 Hrest) as (Hinv2 & Hcl2 & Hout & Herr).
  rewrite Hcl in Hcl2.
  destruct y as [out|err]; intros [= <- <-]; (split; [done|]; split; [done|]; split); try done.
  intros ? [= <-]. destruct (Hout out eq_refl) as (Hall & Hnd & Hnew). split_and!.
  - constructor; [|done]. unfold row_rule. cbn. split_and!; try done. exists canonical. split; [done|]. by apply Hschema.
  - rewrite fmap_cons. constructor; [|done]. intros Hin. apply (Hnew _ Hin). by left.
  - intros id. rewrite fmap_cons. intros [->|Hin]%elem_of_cons; [by apply mem_false|].
    specialize (Hnew _ Hin). set_solver.
Qed.
End Bindings.
