(* ===== verification/AuthProperties.v ===== *)
(** * Properties of policy resolution

    What a required fresh check of a client or a user depends on, how stale a cached
    answer can be, and what a dynamic trust binding accepts. *)

From S2P Require Import Prelude Runtime Sha256 Json Config TrustPolicy SchemaSafety TrustConfig TrustProperties Lru Services AuthPolicy AuthSafety Resolver.

(** ** Fresh checks *)

Section Fresh.
Context {D : Type} `{!PolicyDB D} `{!URLs} `{!JSONLib} `{!Env}.
Context (cfg : Config.Config) (self : nat).
Context (settings : PolicyDB.PolicyDatabaseConfig) (policy : PolicyDB.PolicyDatabaseConfig).

(** The resolved client of the database. *)
Definition database_resolved (clientID : string) : Resolved.ResolvedClient :=
  {| Resolved.Config := database_client policy; Resolved.id := clientID;
     Resolved.source := clientSourceDatabase; Resolved.owner := self |}.

(** A fresh lookup of a client that is not static is decided by the database's
    answer to this very lookup: it resolves when the database answers that the client
    exists, it is denied only when the database answers that it does not, and any other
    outcome (a failing query, a result of another shape) is a retryable error, never a
    denial.  The caches are neither read nor changed. *)
Theorem fresh_client_decided_by_database clientID (r : PostgreSQL D) :
  static_client cfg clientID = None ->
  validDynamicClientID clientID = true ->
  is_empty (Queries.ClientExists (PolicyDB.Queries_ settings)) = false ->
  Config.PolicyDatabase cfg = Some policy ->
  let d := asked r in
  exists outcome,
    resolve_client cfg self settings clientID true (Some r) =
      (outcome, Some (with_database r
         (query (Queries.ClientExists (PolicyDB.Queries_ settings)) [clientID] d).2)) /\
    (client_answer settings d clientID true -> outcome = (database_resolved clientID, None)) /\
    (client_answer settings d clientID false -> outcome.2 = Some ErrDenied) /\
    ((forall b, ~ client_answer settings d clientID b) -> retryable outcome.2).
Proof.
  intros Hstatic Hvalid Hquery Hpolicy d. unfold resolve_client.
  rewrite Hstatic, Hvalid, Hpolicy. cbn [negb]. unfold on_policy.
  rewrite clientExists_eq by done. cbn zeta.
  destruct (definite_or_not settings d clientID) as [[b Hb]|Hnot].
  - rewrite (query_client_answer settings clientID false (with_database r (asked r)) b Hb).
    cbn [database with_database]. destruct b; eexists; split_and!; try done.
    + intros Hf. unfold client_answer in *. rewrite Hb in Hf. done.
    + intros Hno. by destruct (Hno true).
    + intros Ht. unfold client_answer in *. rewrite Hb in Ht. done.
    + intros Hno. by destruct (Hno false).
  - destruct (query_client_failure settings clientID false (with_database r (asked r)) Hnot) as [e ->].
    eexists. split_and!; [done|..].
    + intros Ht. by destruct (Hnot true).
    + intros Hf. by destruct (Hnot false).
    + intros _. by eexists.
Qed.

(** The policy check of a user of a database client is decided by the database's
    answer to this very check: the user gets exactly the distinct groups of the answer,
    in order, when the database allows the user and no group is missing; the check is
    denied only on a well-formed answer that does not allow the user, or that has no
    groups where groups are required; every failure is a retryable error, never a
    denial.  The caches are not changed. *)
Theorem user_decided_by_database clientID subject (client : Resolved.ResolvedClient) (r : PostgreSQL D) :
  client = database_resolved clientID ->
  validDynamicClientID clientID = true ->
  is_empty (Queries.UserAccess (PolicyDB.Queries_ settings)) = false ->
  Config.PolicyDatabase cfg = Some policy ->
  let required := default true (Defaults.RequireUserGroupsFromPolicy (PolicyDB.ClientDefaults policy)) in
  let d := database r in
  exists user err,
    resolver_user cfg self settings client subject (Some r) =
      ((user, err), Some (with_database r
         (query (Queries.UserAccess (PolicyDB.Queries_ settings)) [clientID; to_lower subject] d).2)) /\
    ((err = None /\ exists value, user_answer settings d clientID subject true value /\
        group_list settings value (Resolved.Groups user) /\
        NoDup (Resolved.Groups user) /\ StronglySorted String.le (Resolved.Groups user) /\
        (required = true -> Resolved.Groups user <> [])) \/
     (err = Some ErrDenied /\ exists allowed value out, user_answer settings d clientID subject allowed value /\
        group_list settings value out /\ (allowed = false \/ required = true /\ out = [])) \/
     (retryable err /\ forall allowed value out,
        user_answer settings d clientID subject allowed value -> ~ group_list settings value out)).
Proof.
  intros -> Hvalid Hquery Hpolicy required d. unfold resolver_user. cbn [Resolved.owner Resolved.source Resolved.id database_resolved].
  rewrite Nat.eqb_refl, Hpolicy. cbn [negb]. unfold on_policy, ShouldRequireUserGroupsFromPolicy. cbn [Client.RequireUserGroupsFromPolicy upd zero_client].
  replace (match _ with Some b => b | None => true end) with required
    by (subst required; by destruct (Defaults.RequireUserGroupsFromPolicy _)).
  destruct (resolve_user_spec settings clientID subject required r Hvalid Hquery) as (user & err & -> & Hcases).
  exists user, err. split; [done|].
  destruct Hcases as [(-> & value & Ha & Hg & Hr)|[?|?]]; [left|by right; left|by right; right].
  split; [done|]. exists value. destruct (group_list_sorted settings _ _ Hg). by split_and!.
Qed.
End Fresh.

(** ** The caches over time *)

Section Histories.
Context {D : Type} `{!PolicyDB D} `{!URLs} `{!JSONLib} `{!Env}.
Context (settings : PolicyDB.PolicyDatabaseConfig) (known : gmap string Issuer.TrustIssuerConfig).
Context (Hclients : 0 <= Lookup.MaxEntries (PolicyDB.ClientLookupCache settings)).
Context (Hschemas : 0 <= PolicyDB.PolicyBuildCache settings).

(** The states of a policy database object between calls, with the states of the
    database in which its lookups of clients have asked it.  Between calls the database
    changes as it likes. *)
Inductive reachable : list D -> PostgreSQL D -> Prop :=
  | reach_new d : reachable [] (newPostgreSQL d)
  | reach_elsewhere h r d : reachable h r -> reachable h (with_database r d)
  | reach_client h r clientID cached :
      reachable h r -> reachable (asked r :: h) (clientExists settings clientID cached r).2
  | reach_user h r clientID subject required :
      reachable h r -> reachable h (resolve_user settings clientID subject required r).2
  | reach_issuer h r clientID issuerURL :
      reachable h r -> reachable h (resolve_trust_issuer settings known clientID issuerURL r).2
  | reach_bindings h r clientID issuerID issuer :
      reachable h r -> reachable h (resolve_trust_bindings settings clientID issuerID issuer r).2.

Lemma resolve_user_state clientID subject required (r : PostgreSQL D) :
  exists d, (resolve_user settings clientID subject required r).2 = with_database r d.
Proof.
  assert (r = with_database r (database r)) as Hself by by destruct r.
  destruct (validDynamicClientID clientID) eqn:Hvalid.
  1: destruct (is_empty (Queries.UserAccess (PolicyDB.Queries_ settings))) eqn:Hquery.
  2: destruct (resolve_user_spec settings clientID subject required r Hvalid Hquery) as (? & ? & -> & _); by eexists.
  all: exists (database r); rewrite <- Hself; unfold resolve_user, run, mbind, go_bind, return_if; by rewrite Hvalid, ?Hquery.
Qed.

Lemma resolve_trust_issuer_state clientID issuerURL (r : PostgreSQL D) :
  exists d, (resolve_trust_issuer settings known clientID issuerURL r).2 = with_database r d.
Proof.
  assert (r = with_database r (database r)) as Hself by by destruct r.
  unfold resolve_trust_issuer, run, mbind, go_bind, return_if, call, mret, go_ret, return_.
  destruct (_ || _); [exists (database r); by rewrite <- Hself|].
  destruct (is_empty _); [exists (database r); by rewrite <- Hself|].
  rewrite run_query_eq. destruct (query _ _ (database r)) as [[result [e|]] d]; [by exists d|].
  exists d. destruct (exact result _ _); [done|]. destruct (rows result) as [|values [|]]; [done| |done].
  by destruct (decode_issuer _ _ _).
Qed.

Lemma resolve_trust_bindings_state clientID issuerID issuer (r : PostgreSQL D) :
  schemas_invariant settings r ->
  schemas_invariant settings (resolve_trust_bindings settings clientID issuerID issuer r).2 /\
  clients (resolve_trust_bindings settings clientID issuerID issuer r).2 = clients r.
Proof.
  intros Hinv. unfold resolve_trust_bindings, run, mbind, go_bind, return_if, call, mret, go_ret, return_.
  destruct (negb _); [done|]. destruct (is_empty _); [done|].
  rewrite run_query_eq. destruct (query _ _ (database r)) as [[result [e|]] d]; [done|].
  destruct (exact result _ _); [done|]. destruct (_ <? _); [done|].
  destruct (decode_rows _) as [l|]; [|done].
  destruct (compileBindings settings clientID issuerID issuer l (with_database r d)) as [x r'] eqn:Hc.
  revert Hc. unfold compileBindings. destruct (_ <? _); [by intros [= <- <-]|]. intros Hc.
  apply compile_rows_spec in Hc as (? & ? & _); done.
Qed.

Lemma reachable_invariant h r :
  reachable h r -> cache_invariant settings h r /\ schemas_invariant settings r.
Proof.
  induction 1 as [d|h r d _ [IHc IHs]|h r clientID cached _ [IHc IHs]|h r clientID subject required _ [IHc IHs]
                 |h r clientID issuerURL _ [IHc IHs]|h r clientID issuerID issuer _ [IHc IHs]].
  - split; (split; [apply sound_empty | split; [done | by intros ?? ?%not_elem_of_nil]]).
  - done.
  - split; [by apply clientExists_invariant|].
    pose proof (clientExists_schemas settings clientID cached r) as Hs.
    destruct IHs as (? & ? & ?). unfold schemas_invariant. by rewrite Hs.
  - destruct (resolve_user_state clientID subject required r) as [d ->]. done.
  - destruct (resolve_trust_issuer_state clientID issuerURL r) as [d ->]. done.
  - destruct (resolve_trust_bindings_state clientID issuerID issuer r IHs) as [Hs Hc]. split; [|done].
    destruct IHc as (? & ? & ?). unfold cache_invariant. by rewrite Hc.
Qed.

(** The client cache never holds more than its configured entries, and a cached
    lookup is never staler than the time to live: whatever calls were made before,
    a cached lookup that answers without an error gives the answer the database gives
    now, or one it gave in an earlier lookup of the same client less than the time to
    live of that answer before the present reading of the clock. *)
Theorem cached_client_never_stale h (r : PostgreSQL D) clientID value :
  reachable h r ->
  validDynamicClientID clientID = true ->
  is_empty (Queries.ClientExists (PolicyDB.Queries_ settings)) = false ->
  (ClientExists settings clientID r).1 = (value, None) ->
  Z.of_nat (length (order (clients r))) <= Lookup.MaxEntries (PolicyDB.ClientLookupCache settings) /\
  (client_answer settings (asked r) clientID value \/
   exists d, d ∈ h /\ client_answer settings d clientID value /\
     let d' := (query (Queries.ClientExists (PolicyDB.Queries_ settings)) [clientID] d).2 in
     (policy_now (database r)).1 < (policy_now d').1 + time_to_live settings value).
Proof.
  intros Hreach Hvalid Hquery Hans. destruct (reachable_invariant _ _ Hreach) as [Hinv _].
  split; [apply Hinv|]. exact (ClientExists_answer settings h clientID r value Hvalid Hquery Hinv Hans).
Qed.

(** ** Dynamic bindings *)

Context {holds : json -> json -> Prop} `{!JSONSchemaLaws holds}.
#[local] Abbreviation has_claim := (has_claim (holds := holds)).

(** The claims a row asks for. *)
Definition row_accepts (row : TrustRow.DynamicTrustRow) (v : json) : Prop :=
  exists members, v = JObject members /\
    (forall name raw, TrustRow.RequiredClaims row !! name = Some raw -> has_claim members name raw) /\
    (forall name raw, TrustRow.BindingClaims row !! name = Some raw -> has_claim members name raw) /\
    (forall name raw, TrustRow.PolicyClaims row !! name = Some raw ->
       TrustRow.BindingClaims row !! name = None -> has_claim members name raw).

(** The binding is the one of the row: the schema accepts exactly what the row asks for,
    unless it was compiled from a different text with the SHA-256 digest of the row's. *)
Definition row_binding (clientID issuerID : string) (row : TrustRow.DynamicTrustRow)
    (binding : Compiled.CompiledBinding) : Prop :=
  TrustRow.ClientID row = clientID /\ TrustRow.IssuerID row = issuerID /\
  Compiled.ID binding = TrustRow.BindingID row /\
  Compiled.Subject binding = TrustRow.Subject row /\
  has_prefix (Compiled.Subject binding) "trusted:" = true /\
  group_list settings (VTexts (TrustRow.Groups row)) (Compiled.Groups binding) /\
  Compiled.Groups binding <> [] /\
  ((forall v, Validate (Compiled.Schema_ binding) v = true <-> row_accepts row v) \/
   exists text canonical,
     BuildSchema (TrustRow.BindingClaims row ∪ TrustRow.PolicyClaims row) (TrustRow.RequiredClaims row)
       = inl canonical /\
     Compiled.Schema_ binding = {| compiled_from := text |} /\
     text <> canonical /\ sha256 text = sha256 canonical).

Lemma row_rule_binding clientID issuerID row binding :
  row_rule settings clientID issuerID row binding -> row_binding clientID issuerID row binding.
Proof.
  intros (? & ? & ? & ? & ? & ? & ? & canonical & Hbuild & text & Hcompiles & Hschema & Hsha).
  unfold row_binding. split_and!; try done.
  destruct (decide (text = canonical)) as [->|Hne]; [left | right; by exists text, canonical].
  assert (CompileSchema (TrustRow.BindingClaims row ∪ TrustRow.PolicyClaims row) (TrustRow.RequiredClaims row)
          = inl (canonical, Compiled.Schema_ binding)) as Hcompile.
  { unfold CompileSchema, CompileCanonicalSchema. by rewrite Hbuild, Hcompiles, Hschema. }
  intros v. rewrite (CompileSchema_accepts _ _ _ _ _ Hcompile). apply exist_proper. intros members.
  apply and_iff_compat_l. setoid_rewrite lookup_union_Some_raw. naive_solver.
Qed.

(** The trust bindings resolved from the database are those of the rows of the
    database's answer to this very call, whatever the schema cache holds from earlier
    ones: one binding per row, with distinct identifiers, for the client and the issuer
    asked for, with the row's subject and its groups, and with a schema that accepts
    exactly the claims the row asks for (up to a SHA-256 collision in the cache key). *)
Theorem dynamic_bindings_are_the_rows h (r r' : PostgreSQL D) clientID issuerID issuer out :
  reachable h r ->
  resolve_trust_bindings settings clientID issuerID issuer r = (inl out, r') ->
  exists result l,
    (query (Queries.TrustBindings (PolicyDB.Queries_ settings)) [clientID; issuerID] (database r)).1
      = (result, None) /\
    columns result = binding_columns /\
    Forall2 (fun values row => decodeTrustRow values = inl row) (rows result) l /\
    Forall2 (row_binding clientID issuerID) l out /\ NoDup (Compiled.ID <$> out).
Proof.
  intros Hreach. destruct (reachable_invariant _ _ Hreach) as [_ Hinv].
  unfold resolve_trust_bindings, run, mbind, go_bind, return_if, call, mret, go_ret, return_.
  destruct (negb _); [done|]. destruct (is_empty _); [done|].
  rewrite run_query_eq. destruct (query _ _ (database r)) as [[result [e|]] d]; [done|].
  destruct (exact result _ _) eqn:Hexact; [done|]. destruct (_ <? _); [done|].
  destruct (decode_rows _) as [l|] eqn:Hdecode; [|done].
  destruct (compileBindings settings clientID issuerID issuer l (with_database r d)) as [x r2] eqn:Hc.
  intros [= -> <-]. revert Hc. unfold compileBindings. destruct (_ <? _); [done|]. intros Hc.
  apply compile_rows_spec in Hc as (_ & _ & Hout & _); [|done..].
  destruct (Hout out eq_refl) as (Hall & Hnd & _).
  exists result, l. split_and!; [done|by apply exact_columns in Hexact as [? _]| |by eapply Forall2_impl, row_rule_binding|done].
  clear -Hdecode. revert l Hdecode. induction (rows result) as [|values vs IH]; intros l; cbn [decode_rows].
  { intros [= <-]. constructor. }
  destruct (decodeTrustRow values) as [row|] eqn:Hrow; [|done].
  destruct (decode_rows vs) as [l'|]; [|done]. intros [= <-]. constructor; [done | by apply IH].
Qed.
End Histories.

(** ** A sample database *)

Module SampleDB.
Import Demo.

#[export] Instance sample_env : Env := {|
  stmt_fault _ := false; clock n := Z.of_nat n; entropy _ := "0"%char; entropy_fault _ := false;
  unicode_lower s := s; unicode_trim s := s; unicode_fields _ := []; sqlite := false; local_offset := 0
|}.

Definition queries : Queries.PolicyQueries :=
  {| Queries.ClientExists := "exists"; Queries.UserAccess := "user"; Queries.TrustIssuer := "issuer";
     Queries.TrustBindings := "bindings" |}.
Definition settings : PolicyDB.PolicyDatabaseConfig :=
  {| PolicyDB.Driver := "postgresql"; PolicyDB.ConnectionStringSecret := "s";
     PolicyDB.RedirectURIs := ["https://app.example/cb"];
     PolicyDB.ClientDefaults := {| Defaults.RequireUserGroupsFromPolicy := None;
       Defaults.RefreshTokens := zero_refresh_config;
       Defaults.DPoP := {| DPoPc.Mode := ""; DPoPc.SigningAlgorithm := "" |};
       Defaults.RequirePAR := false |};
     PolicyDB.Queries_ := queries;
     PolicyDB.ClientLookupCache := {| Lookup.TTL := 60; Lookup.NegativeTTL := 10; Lookup.MaxEntries := 2 |};
     PolicyDB.PolicyBuildCache := 2; PolicyDB.QueryTimeout := second; PolicyDB.MaxConnections := 4;
     PolicyDB.MaxTrustRows := 10; PolicyDB.MaxGroups := 10; PolicyDB.MaxGroupBytes := 64;
     PolicyDB.MaxJSONBytes := 4096 |}.
Definition cfg : Config.Config := zero_config <| Config.PolicyDatabase := Some settings |>.

(** A clock of one tick a reading; one known client. *)
#[export] Instance sample_database : PolicyDB time := {|
  query sql args t :=
    (if (sql =? "exists")%string
     then one_row ["exists"] [VBool (mem "app" args)]
     else if (sql =? "user")%string
     then one_row ["allowed"; "groups"] [VBool true; VTexts ["b"; "a"; "b"]]
     else {| columns := binding_columns;
             rows := [[VText "app"; VText "ci"; VText "b1"; VText "trusted:deploy";
                       VBytes "sub"; VBytes ""; VBytes ""; VTexts ["deploy"]]] |}, None, t);
  policy_now t := (t, t + 1);
  unmarshal_object raw := Some (Some (if is_empty raw then ∅ else {[ raw := Sample.const "repo:a" ]}))
|}.

Definition started : PostgreSQL time := newPostgreSQL 100.
End SampleDB.
Import Demo Sample SampleDB.

Lemma fresh_client_decided_by_database_witness :
  (static_client SampleDB.cfg "app" = None /\ validDynamicClientID "app" = true /\
   client_answer SampleDB.settings (asked SampleDB.started) "app" true) /\
  exists outcome,
    resolve_client SampleDB.cfg 1 SampleDB.settings "app" true (Some SampleDB.started) =
      (outcome, Some (with_database SampleDB.started
         (query (Queries.ClientExists (PolicyDB.Queries_ SampleDB.settings)) ["app"]
            (asked SampleDB.started)).2)) /\
    (client_answer SampleDB.settings (asked SampleDB.started) "app" true ->
       outcome = (database_resolved 1 SampleDB.settings "app", None)) /\
    (client_answer SampleDB.settings (asked SampleDB.started) "app" false -> outcome.2 = Some ErrDenied) /\
    ((forall b, ~ client_answer SampleDB.settings (asked SampleDB.started) "app" b) -> retryable outcome.2).
Proof.
  split; [by split_and!|].
  apply (fresh_client_decided_by_database SampleDB.cfg 1 SampleDB.settings SampleDB.settings); reflexivity.
Defined.

Lemma user_decided_by_database_witness :
  validDynamicClientID "app" = true /\
  exists user err,
    resolver_user SampleDB.cfg 1 SampleDB.settings (database_resolved 1 SampleDB.settings "app") "u@x"
      (Some SampleDB.started) = ((user, err), Some (with_database SampleDB.started 100)) /\
    Resolved.Groups user = ["a"; "b"].
Proof.
  split; [reflexivity|].
  destruct (user_decided_by_database SampleDB.cfg 1 SampleDB.settings SampleDB.settings "app" "u@x"
              (database_resolved 1 SampleDB.settings "app") SampleDB.started eq_refl eq_refl eq_refl eq_refl)
    as (user & err & Heq & _).
  exists user, err. split; [exact Heq|]. vm_compute in Heq. by injection Heq as <- _.
Defined.

Lemma cached_client_never_stale_witness :
  exists h r, reachable SampleDB.settings ∅ h r /\
    (ClientExists SampleDB.settings "app" r).1 = (true, None) /\
    Z.of_nat (length (order (clients r))) <= Lookup.MaxEntries (PolicyDB.ClientLookupCache SampleDB.settings) /\
    (client_answer SampleDB.settings (asked r) "app" true \/
     exists d, d ∈ h /\ client_answer SampleDB.settings d "app" true /\
       let d' := (query (Queries.ClientExists (PolicyDB.Queries_ SampleDB.settings)) ["app"] d).2 in
       (policy_now (database r)).1 < (policy_now d').1 + time_to_live SampleDB.settings true).
Proof.
  pose proof (reach_client SampleDB.settings ∅ [] SampleDB.started "app" true (reach_new _ _ 100)) as Hreach.
  eexists _, _. split; [exact Hreach|]. split; [vm_compute; reflexivity|].
  refine (cached_client_never_stale SampleDB.settings ∅ _ _ _ _ "app" true Hreach eq_refl eq_refl _);
    [by vm_compute | by vm_compute | vm_compute; reflexivity].
Defined.

Definition sample_issuer : Issuer.TrustIssuerConfig := zero_issuer <| Issuer.Provider := "oidc" |>.

Lemma dynamic_bindings_are_the_rows_witness :
  exists out r', resolve_trust_bindings SampleDB.settings "app" "ci" sample_issuer SampleDB.started = (inl out, r') /\
  length out = 1%nat /\
  exists result l,
    (query (Queries.TrustBindings (PolicyDB.Queries_ SampleDB.settings)) ["app"; "ci"]
       (database SampleDB.started)).1 = (result, None) /\
    columns result = binding_columns /\
    Forall2 (fun values row => decodeTrustRow (D := time) values = inl row) (rows result) l /\
    Forall2 (row_binding (holds := fun s v => Demo.holdsb s v = true) SampleDB.settings "app" "ci") l out /\
    NoDup (Compiled.ID <$> out).
Proof.
  destruct (resolve_trust_bindings SampleDB.settings "app" "ci" sample_issuer SampleDB.started)
    as [[out|err] r'] eqn:Hrun.
  2:{ apply (f_equal (fun x => match x.1 with inl _ => true | inr _ => false end)) in Hrun.
      vm_compute in Hrun. discriminate. }
  exists out, r'. split; [reflexivity|]. split.
  { apply (f_equal (fun x => match x.1 with inl l => length l | inr _ => O end)) in Hrun.
    vm_compute in Hrun. by symmetry. }
  refine (@dynamic_bindings_are_the_rows _ _ _ _ _ SampleDB.settings ∅ _ _ _ Demo.demo_laws [] SampleDB.started r'
            "app" "ci" sample_issuer out (reach_new _ _ _) Hrun); by vm_compute.
Defined.
