(* ===== verification/Durations.v ===== *)
(** * Numbers with a point and durations

    Go's [float64] is IEEE 754 binary64 with rounding to nearest even, here the
    computable floats of the Standard Library; [ParseFloat] is strconv's, correctly
    rounded, on the decimal texts of JSON numbers.  Then [time.ParseDuration], which computes with them. *)

From Stdlib Require Import Floats.SpecFloat.
From S2P Require Import Prelude Runtime.

Abbreviation float64 := spec_float (only parsing).

Definition prec64 : Z := 53.
Definition emax64 : Z := 1024.

(** [float64(n)] of an int64. *)
Definition of_int (n : Z) : float64 := binary_normalize prec64 emax64 n 0 false.

Definition fadd : float64 -> float64 -> float64 := SFadd prec64 emax64.
Definition fsub : float64 -> float64 -> float64 := SFsub prec64 emax64.
Definition fmul : float64 -> float64 -> float64 := SFmul prec64 emax64.
Definition fdiv : float64 -> float64 -> float64 := SFdiv prec64 emax64.
Definition flt : float64 -> float64 -> bool := SFltb.
Definition is_inf (x : float64) : bool := match x with S754_infinity _ => true | _ => false end.

(** The value of a decimal [(-1)^negative * m * 10^e], rounded once. *)
Definition of_decimal (negative : bool) (m e : Z) : float64 :=
  match m with
  | Z.pos p =>
      if 0 <=? e
      then match m * 10 ^ e with
           | Z.pos n => binary_round prec64 emax64 negative n 0
           | _ => S754_nan
           end
      else
        let '(mz, ez, lz) := SFdiv_core_binary prec64 emax64 m 0 (10 ^ (- e)) 0 in
        binary_round_aux prec64 emax64 negative mz ez lz
  | _ => S754_zero negative
  end.

(** The digits at the head of a text: their value, their number and the rest. *)
Fixpoint digit_run (s : string) (acc : Z) (count : Z) : Z * Z * string :=
  match s with
  | String c t =>
      match digit c with
      | Some d => digit_run t (10 * acc + d) (count + 1)
      | None => (acc, count, s)
      end
  | EmptyString => (acc, count, s)
  end.

(** The exponent of a number, 0 when it has none. *)
Definition exponent (s : string) : option Z :=
  let unsigned (sign : Z) (t : string) :=
    let '(e, n, rest) := digit_run t 0 0 in
    if (n =? 0) || negb (is_empty rest) then None else Some (sign * e) in
  match s with
  | EmptyString => Some 0
  | String c t =>
      if negb (Ascii.eqb c "e" || Ascii.eqb c "E") then None
      else match t with
           | String d u => if Ascii.eqb d "+" then unsigned 1 u
                           else if Ascii.eqb d "-" then unsigned (-1) u else unsigned 1 t
           | EmptyString => None
           end
  end.

(** [strconv.ParseFloat(s, 64)]; [None] is a syntax or range error. *)
Definition ParseFloat (s : string) : option float64 :=
  let negative := match s with String c _ => Ascii.eqb c "-" | EmptyString => false end in
  let s := if negative then drop_bytes 1 s else s in
  let '(whole, n, s) := digit_run s 0 0 in
  if n =? 0 then None
  else
    let '(m, fraction, s) :=
      match s with
      | String c t => if Ascii.eqb c "." then digit_run t whole 0 else (whole, 0, s)
      | EmptyString => (whole, 0, s)
      end in
    e ← exponent s;
    let x := of_decimal negative m (e - fraction) in
    if is_inf x then None else Some x.

Example parse_float_examples :
  ParseFloat "0.5" = Some (of_decimal false 5 (-1)) /\
  ParseFloat "1700000000" = Some (of_int 1700000000) /\
  ParseFloat "1.7e9" = Some (of_int 1700000000) /\
  ParseFloat "-2" = Some (of_int (-2)) /\
  ParseFloat "9007199254740993" = Some (of_int 9007199254740992) /\
  ParseFloat "25E-1" = Some (of_decimal false 25 (-1)) /\
  ParseFloat "1e400" = None /\ ParseFloat "1e" = None /\ ParseFloat "x" = None.
Proof. vm_compute. by split_and!. Qed.

(** [time.Duration.Seconds] and the conversion of the result to int64. *)
Definition Seconds (d : Z) : float64 :=
  fadd (of_int (Z.quot d second)) (fdiv (of_int (Z.rem d second)) (of_int second)).
Definition trunc64 (x : float64) : Z :=
  match x with
  | S754_finite negative m e =>
      let z := if 0 <=? e then Z.pos m * 2 ^ e else Z.pos m / 2 ^ (- e) in
      if negative then - z else z
  | _ => 0
  end.

Example seconds_examples :
  map (fun d => trunc64 (Seconds d)) [3600 * second; 3599999999999; 999999999; -1500000000; 0]
  = [3600; 3599; 0; -1; 0].
Proof. vm_compute. reflexivity. Qed.

(** * internal/config/types.go: durations

    [time.ParseDuration] with its uint64 and float64 arithmetic, and the positive
    durations of the configuration. *)

(** ** time.ParseDuration *)

Definition two63 : Z := 2 ^ 63.

(** [leadingInt]: the digits at the head as a uint64 of at most 2^63, and the rest. *)
Fixpoint leadingInt (s : string) (x : Z) : option (Z * string) :=
  match s with
  | String c t =>
      match digit c with
      | Some d =>
          if two63 / 10 <? x then None
          else let x := x * 10 + d in if two63 <? x then None else leadingInt t x
      | None => Some (x, s)
      end
  | EmptyString => Some (x, s)
  end.

(** [leadingFraction]: the digits at the head, as many as fit, with their scale. *)
Fixpoint leadingFraction (s : string) (x : Z) (scale : float64) (overflow : bool) : Z * float64 * string :=
  match s with
  | String c t =>
      match digit c with
      | Some d =>
          if overflow || (max_int64 / 10 <? x) then leadingFraction t x scale true
          else let y := x * 10 + d in
               if two63 <? y then leadingFraction t x scale true
               else leadingFraction t y (fmul scale (of_int 10)) false
      | None => (x, scale, s)
      end
  | EmptyString => (x, scale, s)
  end.

(** The unit at the head: everything before the next digit or point. *)
Fixpoint unit_text (s : string) : string * string :=
  match s with
  | String c t =>
      if Ascii.eqb c "." || is_some (digit c) then ("", s)
      else let '(u, rest) := unit_text t in (String c u, rest)
  | EmptyString => ("", "")
  end.

(** [unitMap]; the two signs of micro are U+00B5 and U+03BC. *)
Definition micro_sign : string := String "194" (String "181" "").
Definition greek_mu : string := String "206" (String "188" "").
Definition duration_unit (u : string) : option Z :=
  if (u =? "ns")%string then Some nanosecond
  else if (u =? "us")%string || (u =? micro_sign +:+ "s")%string || (u =? greek_mu +:+ "s")%string
  then Some 1000
  else if (u =? "ms")%string then Some 1000000
  else if (u =? "s")%string then Some second
  else if (u =? "m")%string then Some minute
  else if (u =? "h")%string then Some hour
  else None.

(** The number at the head: its whole part, its fraction with its scale, and the rest.
    There is at least one digit, before or after the point. *)
Definition duration_number (s : string) : option (Z * Z * float64 * string) :=
  if match s with String c _ => negb (Ascii.eqb c "." || is_some (digit c)) | EmptyString => true end
  then None
  else
    '(v, t) ← leadingInt s 0;
    let pre := negb (String.length s =? String.length t)%nat in
    let '(f, scale, rest, post) :=
      match t with
      | String c u =>
          if Ascii.eqb c "."
          then let '(f, scale, rest) := leadingFraction u 0 (of_int 1) false in
               (f, scale, rest, negb (String.length u =? String.length rest)%nat)
          else (0, of_int 1, t, false)
      | EmptyString => (0, of_int 1, t, false)
      end in
    if negb pre && negb post then None else Some (v, f, scale, rest).

(** The nanoseconds of one number with its unit. *)
Definition duration_value (v f : Z) (scale : float64) (unit : Z) : option Z :=
  if two63 / unit <? v then None
  else
    let v := v * unit in
    if f <=? 0 then Some v
    else let v := v + trunc64 (fmul (of_int f) (fdiv (of_int unit) scale)) in
         if two63 <? v then None else Some v.

(** The loop over numbers and units; each round reads at least one byte, so that the
    length of the text bounds the rounds. *)
Fixpoint duration_parts (fuel : nat) (s : string) (d : Z) : option Z :=
  if is_empty s then Some d
  else match fuel with
  | O => None
  | S fuel =>
      '(v, f, scale, t) ← duration_number s;
      let '(u, rest) := unit_text t in
      unit ← duration_unit u;
      v ← duration_value v f scale unit;
      let d := (d + v) mod 2 ^ 64 in
      if two63 <? d then None else duration_parts fuel rest d
  end.

(** [time.ParseDuration] *)
Definition time_parse_duration (s : string) : option duration :=
  let '(neg, s) :=
    match s with
    | String c t => if Ascii.eqb c "-" then (true, t) else if Ascii.eqb c "+" then (false, t) else (false, s)
    | EmptyString => (false, s)
    end in
  if (s =? "0")%string then Some 0
  else if is_empty s then None
  else
    d ← duration_parts (String.length s) s 0;
    if (neg : bool) then Some (- d) else if max_int64 <? d then None else Some d.

Example time_parse_duration_examples :
  map time_parse_duration ["15m"; "1h30m"; "1.5h"; "-2s"; "0"; "100ms"; ".5s"; "1h1"; ""; "5"; "1d"; "."; "2540400h"; "9223372036854775807ns"; "9223372036854775808ns"; "-9223372036854775808ns"]
  = [Some (15 * minute); Some (90 * minute); Some (90 * minute); Some (-2 * second); Some 0; Some 100000000;
     Some 500000000; None; None; None; None; None; Some (2540400 * hour); Some max_int64; None; Some min_int64].
Proof. vm_compute. reflexivity. Qed.

(** ** The durations of the configuration *)

(** [ParseDuration] *)
Definition ParseDuration (value : string) : duration + error :=
  match time_parse_duration value with
  | None => inr (Wrapped "invalid duration" (Errorf "time"))
  | Some parsed => if parsed <=? 0 then inr (Errorf "duration must be positive") else inl parsed
  end.

Lemma duration_parts_nonneg fuel s d n : 0 <= d -> duration_parts fuel s d = Some n -> 0 <= n.
Proof.
  revert s d. induction fuel as [|fuel IH]; intros s d Hd; cbn [duration_parts];
    destruct (is_empty s); try (by intros [= <-]).
  destruct (duration_number s) as [[[[v f] scale] t]|]; [cbn [mbind option_bind]|done].
  destruct (unit_text t) as [u rest]. destruct (duration_unit u) as [unit|]; [cbn [mbind option_bind]|done].
  destruct (duration_value v f scale unit) as [v'|]; [cbn [mbind option_bind]|done].
  destruct (two63 <? _); [done|]. apply IH. apply Z.mod_pos_bound. lia.
Qed.

(** A configured duration is positive and fits int64. *)
Lemma ParseDuration_positive value d : ParseDuration value = inl d -> 0 < d <= max_int64.
Proof.
  unfold ParseDuration. destruct (time_parse_duration value) as [p|] eqn:Hp; [|done].
  destruct (Z.leb_spec p 0); [done|]. intros [= <-]. split; [done|]. revert Hp. unfold time_parse_duration.
  set (sign := match value with String c t => _ | EmptyString => _ end). destruct sign as [neg s].
  destruct (s =? "0")%string; [intros [= <-]; unfold max_int64; lia|]. destruct (is_empty s); [done|].
  destruct (duration_parts _ s 0) as [n|] eqn:Hn; [cbn [mbind option_bind]|done].
  apply duration_parts_nonneg in Hn; [|lia].
  destruct neg; [intros [= <-]; lia|]. destruct (Z.ltb_spec max_int64 n); [done|]. by intros [= <-].
Qed.

Example ParseDuration_examples :
  map ParseDuration ["15m"; "0s"; "-1s"; ""; "x"]
  = [inl (15 * minute); inr (Errorf "duration must be positive"); inr (Errorf "duration must be positive");
     inr (Wrapped "invalid duration" (Errorf "time")); inr (Wrapped "invalid duration" (Errorf "time"))].
Proof. vm_compute. reflexivity. Qed.
