(* ===== verification/Rounding.v ===== *)
(** * Rounding

    What a float64 operation of Durations.v computes: between the results of operations on
    positive numbers of ordinary size and the exact results there is no float.  A number is
    described by its value, an integer multiple of [2 ^ -60].  The acceptance window of DPoP
    proofs, whose arithmetic is rounded four times, is bounded with it (DpopProperties.v). *)

From Stdlib Require Import Floats.SpecFloat.
From stdpp Require Import pretty.
From S2P Require Import Prelude Runtime Durations.

(** A normal positive number of exponent -60 to 60, and its value times [2 ^ 60]. *)
Definition normal (x : float64) (v : Z) : Prop :=
  exists m e, x = S754_finite false m e /\ 2 ^ 52 <= Z.pos m < 2 ^ 53 /\ -60 <= e <= 60 /\ v = Z.pos m * 2 ^ (e + 60).

(** ** Digits *)

Lemma pow_pos n : 0 < 2 ^ Z.max 0 n.
Proof. apply Z.pow_pos_nonneg; lia. Qed.

Lemma digits_bounds p : 2 ^ (Z.pos (digits2_pos p) - 1) <= Z.pos p < 2 ^ Z.pos (digits2_pos p).
Proof.
  induction p as [p IH|p IH|]; [| |done]; cbn [digits2_pos]; rewrite Pos2Z.inj_succ.
  all: replace (Z.succ (Z.pos (digits2_pos p)) - 1) with (Z.succ (Z.pos (digits2_pos p) - 1)) by lia.
  all: rewrite !Z.pow_succ_r by lia; lia.
Qed.

Lemma digits_unique p d : 2 ^ (d - 1) <= Z.pos p < 2 ^ d -> Z.pos (digits2_pos p) = d.
Proof.
  intros [Hl Hu]. pose proof (digits_bounds p) as [Hl' Hu']. set (d' := Z.pos (digits2_pos p)) in *.
  assert (0 < d) by (destruct (Z.lt_ge_cases 0 d); [done|]; rewrite (Z.pow_neg_r 2 (d - 1)) in Hl by lia;
    destruct (Z.eq_dec d 0) as [->|]; [cbn in Hu; lia|rewrite Z.pow_neg_r in Hu; lia]).
  assert (d' - 1 < d) by (apply (Z.pow_lt_mono_r_iff 2); lia).
  assert (d - 1 < d') by (apply (Z.pow_lt_mono_r_iff 2); lia). lia.
Qed.

Lemma digits_at_least p d : 0 <= d -> 2 ^ d <= Z.pos p -> d < Z.pos (digits2_pos p).
Proof.
  intros Hd Hp. pose proof (digits_bounds p). apply (Z.pow_lt_mono_r_iff 2); lia.
Qed.

(** ** Shifting *)

(** Nothing was shifted out. *)
Definition exact_record (r : shr_record) : Prop := shr_r r = false /\ shr_s r = false.

Lemma shr_1_spec r :
  0 <= shr_m r ->
  shr_m (shr_1 r) = shr_m r / 2 /\ (exact_record r -> (2 | shr_m r) -> exact_record (shr_1 r)).
Proof.
  destruct r as [m b s]. cbn [shr_m]. intros Hm. destruct m as [|p|p]; [by split; [|intros []; cbn in *; subst]| |lia].
  split.
  - destruct p as [p|p|]; cbn [shr_1 shr_m]; [|apply Z.div_unique_exact; lia|done].
    rewrite <- (Z.div_unique (Z.pos p~1) 2 (Z.pos p) 1); lia.
  - intros [Hb Hs] [q Hq]. cbn in Hb, Hs. subst. destruct p as [p|p|]; [lia|done|lia].
Qed.

Lemma iter_shr_spec n r :
  0 <= shr_m r ->
  let r' := SpecFloat.iter_pos shr_1 n r in
  shr_m r' = shr_m r / 2 ^ Z.pos n /\ (exact_record r -> (2 ^ Z.pos n | shr_m r) -> exact_record r').
Proof.
  revert r.
  assert (forall a b r f g, 0 <= a -> 0 <= b -> 0 <= shr_m r ->
    (forall r, 0 <= shr_m r -> shr_m (f r) = shr_m r / 2 ^ a /\ (exact_record r -> (2 ^ a | shr_m r) -> exact_record (f r))) ->
    (forall r, 0 <= shr_m r -> shr_m (g r) = shr_m r / 2 ^ b /\ (exact_record r -> (2 ^ b | shr_m r) -> exact_record (g r))) ->
    shr_m (g (f r)) = shr_m r / 2 ^ (a + b) /\ (exact_record r -> (2 ^ (a + b) | shr_m r) -> exact_record (g (f r)))) as Hcomp.
  { intros a b r f g Ha Hb Hr Hf Hg. destruct (Hf r Hr) as [Ef Xf].
    assert (0 < 2 ^ a) by (apply Z.pow_pos_nonneg; lia). assert (0 < 2 ^ b) by (apply Z.pow_pos_nonneg; lia).
    assert (0 <= shr_m (f r)) as Hf0 by (rewrite Ef; apply Z.div_pos; lia).
    destruct (Hg (f r) Hf0) as [Eg Xg]. rewrite Z.pow_add_r by lia. split; [rewrite Eg, Ef, Z.div_div by lia; done|].
    intros Hx [q Hq]. apply Xg; [apply Xf; [done|]; exists (q * 2 ^ b); lia|].
    exists q. rewrite Ef, Hq. symmetry. apply Z.div_unique_exact; lia. }
  induction n as [n IH|n IH|]; intros r Hr; cbn [SpecFloat.iter_pos]; cbv zeta in *.
  - replace (Z.pos n~1) with ((1 + Z.pos n) + Z.pos n) by lia.
    apply (Hcomp _ _ r (fun r => SpecFloat.iter_pos shr_1 n (shr_1 r))); [lia|lia|done| |apply IH].
    intros r1 Hr1. apply (Hcomp 1 (Z.pos n) r1 shr_1 (SpecFloat.iter_pos shr_1 n)); [lia|lia|done|apply shr_1_spec|apply IH].
  - replace (Z.pos n~0) with (Z.pos n + Z.pos n) by lia. apply (Hcomp _ _ r (SpecFloat.iter_pos shr_1 n)); [lia|lia|done|apply IH..].
  - by apply shr_1_spec.
Qed.

Lemma shr_spec r e n :
  0 <= shr_m r -> 0 <= n ->
  exists r', shr r e n = (r', e + n) /\ shr_m r' = shr_m r / 2 ^ n /\
    (exact_record r -> (2 ^ n | shr_m r) -> exact_record r').
Proof.
  intros Hr Hn. destruct n as [|n|n]; [| |lia]; cbn [shr].
  - exists r. rewrite Z.add_0_r, Z.div_1_r. done.
  - destruct (iter_shr_spec n r Hr) as [E X]. by exists (SpecFloat.iter_pos shr_1 n r).
Qed.

(** ** Rounding to a float *)

(** [mx * 2 ^ ex], and something less than [2 ^ ex] above it when the location is inexact,
    is at most the bound. *)
Definition at_most_bound (mx ex : Z) (l : location) (bound : Z) : Prop :=
  match l with
  | loc_Exact => mx * 2 ^ (ex + 60) <= bound
  | loc_Inexact _ => mx * 2 ^ (ex + 60) < bound
  end.

Lemma record_of_loc m l : shr_m (shr_record_of_loc m l) = m.
Proof. by destruct l as [|[]]. Qed.
Lemma record_exact m l : l = loc_Exact -> exact_record (shr_record_of_loc m l).
Proof. by intros ->. Qed.
Lemma loc_of_exact r : exact_record r -> loc_of_shr_record r = loc_Exact.
Proof. destruct r. by intros [Hr Hs]; cbn in *; subst. Qed.

Lemma round_even_bounds m l : 
  m <= round_nearest_even m l <= m + 1 /\ (l = loc_Exact -> round_nearest_even m l = m).
Proof. destruct l as [|[]]; cbn; repeat case_match; (split; [lia|done]). Qed.

Lemma fexp_normal d : -1000 <= d -> fexp prec64 emax64 d = d - 53.
Proof. unfold fexp, emin, prec64, emax64. lia. Qed.

(** A mantissa that was rounded up to [2 ^ 53] is shifted once. *)
Lemma renormalize q e :
  2 ^ 52 <= q <= 2 ^ 53 -> -60 <= e <= 47 ->
  normal (let '(r, e') := shr_fexp prec64 emax64 q e loc_Exact in
          match shr_m r with
          | Z0 => S754_zero false
          | Zpos m => if Z.leb e' (emax64 - prec64) then S754_finite false m e' else S754_infinity false
          | _ => S754_nan
          end) (q * 2 ^ (e + 60)).
Proof.
  intros Hq He. unfold shr_fexp. cbn [shr_record_of_loc]. destruct (Z.eq_dec q (2 ^ 53)) as [->|Hne].
  - change (Zdigits2 (2 ^ 53)) with 54. rewrite fexp_normal by lia. replace (54 + e - 53 - e) with 1 by lia.
    cbn [shr SpecFloat.iter_pos]. change (shr_1 _) with {| shr_m := 2 ^ 52; shr_r := false; shr_s := false |}. cbn [shr_m Z.pow].
    rewrite (proj2 (Z.leb_le _ _)) by (unfold emax64, prec64; lia).
    eexists _, _. split; [reflexivity|]. split; [lia|]. split; [lia|].
    replace (e + 1 + 60) with (1 + (e + 60)) by lia. rewrite (Z.pow_add_r 2 1) by lia. lia.
  - destruct q as [|q|q]; [lia| |lia]. cbn [Zdigits2]. rewrite (digits_unique q 53) by lia. rewrite fexp_normal by lia.
    replace (53 + e - 53 - e) with 0 by lia. cbn [shr shr_m].
    rewrite (proj2 (Z.leb_le _ _)) by (unfold emax64, prec64; lia).
    eexists _, _. split; [reflexivity|]. split; [lia|]. by split; [lia|].
Qed.

(** The mantissa that results is that of the exact number, cut at 53 digits, or the next
    one; it is that of the exact number when nothing is cut. *)
Lemma round_mantissa mx ex lx :
  2 ^ 52 <= mx -> -60 <= ex -> mx * 2 ^ (ex + 60) < 2 ^ 160 ->
  exists k r, 0 <= k /\ 2 ^ (52 + k) <= mx < 2 ^ (53 + k) /\
    mx / 2 ^ k <= r <= mx / 2 ^ k + 1 /\ (lx = loc_Exact -> (2 ^ k | mx) -> r = mx / 2 ^ k) /\
    normal (binary_round_aux prec64 emax64 false mx ex lx) (r * 2 ^ (ex + k + 60)).
Proof.
  intros Hmx Hex Hmax. destruct mx as [|p|p]; [lia| |lia]. pose proof (digits_bounds p) as [Hl Hu].
  pose proof (digits_at_least p 52 ltac:(lia) Hmx) as Hd. set (d := Z.pos (digits2_pos p)) in *.
  assert (0 < 2 ^ (ex + 60)) as Hp by (apply Z.pow_pos_nonneg; lia).
  assert (d + ex <= 100) as Hde.
  { assert (2 ^ (d - 1 + (ex + 60)) < 2 ^ 160) as Hlt by (rewrite Z.pow_add_r by lia; nia).
    apply Z.pow_lt_mono_r_iff in Hlt; lia. }
  unfold binary_round_aux, shr_fexp. cbn [Zdigits2]. fold d. rewrite fexp_normal by lia.
  replace (d + ex - 53 - ex) with (d - 53) by lia.
  destruct (shr_spec (shr_record_of_loc (Z.pos p) lx) ex (d - 53)) as (r & -> & Er & Xr); [by rewrite record_of_loc|lia|].
  rewrite record_of_loc in Er, Xr. rewrite Er.
  destruct (round_even_bounds (Z.pos p / 2 ^ (d - 53)) (loc_of_shr_record r)) as [Hb He].
  set (q := round_nearest_even _ _) in *. exists (d - 53), q.
  replace (52 + (d - 53)) with (d - 1) by lia. replace (53 + (d - 53)) with d by lia.
  assert (0 < 2 ^ (d - 53)) as Hk by (apply Z.pow_pos_nonneg; lia).
  assert (2 ^ 52 <= Z.pos p / 2 ^ (d - 53) < 2 ^ 53) as Hq.
  { split; [apply Z.div_le_lower_bound|apply Z.div_lt_upper_bound]; try done;
      rewrite <- Z.pow_add_r by lia; [by replace (d - 53 + 52) with (d - 1) by lia|by replace (d - 53 + 53) with d by lia]. }
  split; [lia|]. split; [done|]. split; [lia|]. split.
  { intros Hx Hdiv. apply He, loc_of_exact, Xr; [by apply record_exact|done]. }
  apply renormalize; lia.
Qed.

(** Between the exact number and the result there is no multiple of the unit that numbers
    below [2 ^ j] have, so no bound of such a form is crossed. *)
Lemma round_within mx ex lx :
  2 ^ 52 <= mx -> -60 <= ex -> mx * 2 ^ (ex + 60) < 2 ^ 160 ->
  exists v, normal (binary_round_aux prec64 emax64 false mx ex lx) v /\
    forall j bound, -7 <= j -> mx * 2 ^ (ex + 60) < 2 ^ (j + 60) -> (2 ^ (j + 7) | bound) ->
      (bound <= mx * 2 ^ (ex + 60) -> bound <= v) /\ (at_most_bound mx ex lx bound -> v <= bound).
Proof.
  intros Hmx Hex Hmax. destruct (round_mantissa mx ex lx Hmx Hex Hmax) as (k & r & Hk & [Hl Hu] & Hr & Hexact & Hn).
  eexists. split; [exact Hn|]. intros j bound Hj Hlt Hdiv.
  assert (0 < 2 ^ (ex + 60)) as Hp by (apply Z.pow_pos_nonneg; lia). assert (0 < 2 ^ k) as Hpk by (apply Z.pow_pos_nonneg; lia).
  assert (ex + k + 60 <= j + 7) as Hunit.
  { assert (2 ^ (52 + k + (ex + 60)) < 2 ^ (j + 60)) as H2 by (rewrite Z.pow_add_r by lia; nia).
    apply Z.pow_lt_mono_r_iff in H2; lia. }
  destruct Hdiv as [c ->]. replace (j + 7) with ((j + 7 - (ex + k + 60)) + k + (ex + 60)) by lia.
  rewrite (Z.pow_add_r 2 _ (ex + 60)), (Z.pow_add_r 2 _ k) by lia. set (f := c * 2 ^ (j + 7 - (ex + k + 60))).
  replace (c * (2 ^ (j + 7 - (ex + k + 60)) * 2 ^ k * 2 ^ (ex + 60))) with (f * 2 ^ k * 2 ^ (ex + 60)) by (unfold f; ring).
  replace (ex + k + 60) with (k + (ex + 60)) by lia. rewrite (Z.pow_add_r 2 k), Z.mul_assoc by lia.
  pose proof (Z.div_mod mx (2 ^ k) ltac:(lia)) as Hdm. pose proof (Z.mod_pos_bound mx (2 ^ k) Hpk) as Hmod.
  set (q := mx / 2 ^ k) in *. split.
  - intros Hb. apply Z.mul_le_mono_nonneg_r; [lia|]. assert (f * 2 ^ k <= mx) by nia.
    assert (f < q + 1) by (apply (Z.mul_lt_mono_pos_r (2 ^ k)); lia). apply Z.mul_le_mono_nonneg_r; lia.
  - intros Hb. apply Z.mul_le_mono_nonneg_r; [lia|]. destruct (Z.eq_dec (mx mod 2 ^ k) 0) as [Hz|Hz].
    + destruct lx as [|c']; cbn in Hb.
      * rewrite (Hexact eq_refl) by (exists q; lia). assert (mx <= f * 2 ^ k) by nia.
        assert (q <= f) by (apply (Z.mul_le_mono_pos_r q f (2 ^ k)); lia). apply Z.mul_le_mono_nonneg_r; lia.
      * assert (mx < f * 2 ^ k) by nia.
        assert (q < f) by (apply (Z.mul_lt_mono_pos_r (2 ^ k)); lia). apply Z.mul_le_mono_nonneg_r; lia.
    + assert (mx <= f * 2 ^ k) by (destruct lx; cbn in Hb; nia).
      assert (q < f) by (apply (Z.mul_lt_mono_pos_r (2 ^ k)); lia). apply Z.mul_le_mono_nonneg_r; lia.
Qed.

(** ** The operations *)

Lemma iter_xO p n : Z.pos (Pos.iter xO p n) = Z.pos p * 2 ^ Z.pos n.
Proof.
  induction n as [|n IH] using Pos.peano_ind; [cbn; lia|].
  rewrite Pos.iter_succ, Pos2Z.inj_succ, Z.pow_succ_r, Pos2Z.inj_xO, IH by lia. lia.
Qed.

(** The exponent is lowered, never raised; the value stays. *)
Lemma shl_align_spec p ex ex' :
  exists m, shl_align p ex ex' = (m, Z.min ex ex') /\ Z.pos m = Z.pos p * 2 ^ (ex - Z.min ex ex').
Proof.
  unfold shl_align. destruct (ex' - ex) as [|n|n] eqn:E.
  - exists p. rewrite Z.min_l, Z.sub_diag by lia. split; [done|lia].
  - exists p. rewrite Z.min_l, Z.sub_diag by lia. split; [done|lia].
  - exists (Pos.iter xO p n). rewrite Z.min_r, iter_xO by lia. split; [done|]. by replace (ex - ex') with (Z.pos n) by lia.
Qed.

(** An integer times a power of two, rounded: within the bounds of [round_within]. *)
Lemma normalize_within z ex :
  0 < z -> -60 <= ex -> 2 ^ 52 <= z * 2 ^ (ex + 60) < 2 ^ 160 ->
  exists v, normal (binary_normalize prec64 emax64 z ex false) v /\
    forall j bound, -7 <= j -> z * 2 ^ (ex + 60) < 2 ^ (j + 60) -> (2 ^ (j + 7) | bound) ->
      (bound <= z * 2 ^ (ex + 60) -> bound <= v) /\ (z * 2 ^ (ex + 60) <= bound -> v <= bound).
Proof.
  intros Hz Hex [Hl Hu]. destruct z as [|p|p]; [lia| |lia]. cbn [binary_normalize]. unfold binary_round.
  assert (0 < 2 ^ (ex + 60)) as Hp by (apply Z.pow_pos_nonneg; lia). pose proof (digits_bounds p) as [Hdl Hdu].
  set (d := Z.pos (digits2_pos p)) in *.
  assert (52 < d + (ex + 60)) as Hd.
  { apply (Z.pow_lt_mono_r_iff 2); [lia|lia|]. rewrite Z.pow_add_r by lia. nia. }
  rewrite fexp_normal by lia. destruct (shl_align_spec p ex (d + ex - 53)) as (m & -> & Em).
  set (e := Z.min ex (d + ex - 53)) in *. assert (-60 <= e) as He by lia.
  assert (Z.pos m * 2 ^ (e + 60) = Z.pos p * 2 ^ (ex + 60)) as Ev.
  { rewrite Em, <- Z.mul_assoc, <- Z.pow_add_r by lia. do 2 f_equal. lia. }
  destruct (round_within (Z.pos m) e loc_Exact) as (v & Hn & Hv); [|lia|lia|].
  - rewrite Em. destruct (Z.le_gt_cases 53 d) as [H53|H53].
    + replace (ex - e) with 0 by lia. rewrite Z.mul_1_r. trans (2 ^ (d - 1)); [|lia]. apply Z.pow_le_mono_r; lia.
    + replace (ex - e) with (53 - d) by lia. trans (2 ^ (d - 1) * 2 ^ (53 - d)).
      * rewrite <- Z.pow_add_r by lia. apply Z.pow_le_mono_r; lia.
      * apply Z.mul_le_mono_nonneg_r; [apply Z.pow_nonneg|]; lia.
  - exists v. split; [done|]. cbn in Hv. by rewrite <- Ev.
Qed.

(** [float64(n)]: exact below [2 ^ 53], and always within the bounds. *)
Lemma of_int_within n :
  0 < n < 2 ^ 90 ->
  exists v, normal (of_int n) v /\
    forall j bound, -7 <= j -> n < 2 ^ j -> (2 ^ (j + 7) | bound) ->
      (bound <= n * 2 ^ 60 -> bound <= v) /\ (n * 2 ^ 60 <= bound -> v <= bound).
Proof.
  intros Hn. destruct (normalize_within n 0) as (v & Hv & Hb); [lia|lia|lia|].
  exists v. split; [done|]. intros j bound Hj Hlt Hdiv. apply (Hb j bound Hj); [|done].
  assert (0 <= j) by (destruct (Z.lt_ge_cases j 0); [rewrite Z.pow_neg_r in Hlt by lia; lia|done]).
  rewrite (Z.pow_add_r 2 j 60) by lia. lia.
Qed.

Lemma of_int_exact n : 0 < n < 2 ^ 53 -> normal (of_int n) (n * 2 ^ 60).
Proof.
  intros Hn. destruct (of_int_within n) as (v & Hv & Hb); [lia|].
  destruct (Hb 53 (n * 2 ^ 60)) as [H1 H2]; [lia|lia|exists n; done|].
  replace (n * 2 ^ 60) with v by lia. done.
Qed.

(** Floats compare as their values. *)
Lemma flt_spec x v y u : normal x v -> normal y u -> flt x y = (v <? u).
Proof.
  intros (m1 & e1 & -> & H1 & He1 & ->) (m2 & e2 & -> & H2 & He2 & ->). unfold flt, SFltb. cbn [SFcompare].
  assert (forall m m' e e', 2 ^ 52 <= m -> m' < 2 ^ 53 -> -60 <= e' < e -> m' * 2 ^ (e' + 60) < m * 2 ^ (e + 60)) as Hexp.
  { intros m m' e e' Hm Hm' He. assert (0 < 2 ^ (e' + 60)) by (apply Z.pow_pos_nonneg; lia).
    replace (e + 60) with (1 + (e - e' - 1) + (e' + 60)) by lia.
    rewrite (Z.pow_add_r 2 _ (e' + 60)), (Z.pow_add_r 2 1) by lia.
    assert (0 < 2 ^ (e - e' - 1)) by (apply Z.pow_pos_nonneg; lia).
    apply Z.lt_le_trans with (2 ^ 53 * 2 ^ (e' + 60)); [apply Z.mul_lt_mono_pos_r; lia|].
    rewrite Z.mul_assoc. apply Z.mul_le_mono_nonneg_r; [lia|]. nia. }
  destruct (Z.compare_spec e1 e2) as [->|Hlt|Hgt].
  - change (Pos.compare_cont Eq m1 m2) with (Pos.compare m1 m2). assert (0 < 2 ^ (e2 + 60)) by (apply Z.pow_pos_nonneg; lia).
    destruct (Pos.compare_spec m1 m2); destruct (Z.ltb_spec (Z.pos m1 * 2 ^ (e2 + 60)) (Z.pos m2 * 2 ^ (e2 + 60))); subst; try done; nia.
  - specialize (Hexp (Z.pos m2) (Z.pos m1) e2 e1). symmetry. apply Z.ltb_lt. lia.
  - specialize (Hexp (Z.pos m1) (Z.pos m2) e1 e2). symmetry. apply Z.ltb_ge. lia.
Qed.

(** The mantissas of a sum or difference at the smaller exponent. *)
Lemma aligned (m1 : positive) (e1 e2 : Z) :
  -60 <= e1 -> -60 <= e2 ->
  Z.pos (fst (shl_align m1 e1 (Z.min e1 e2))) * 2 ^ (Z.min e1 e2 + 60) = Z.pos m1 * 2 ^ (e1 + 60).
Proof.
  intros H1 H2. destruct (shl_align_spec m1 e1 (Z.min e1 e2)) as (m & -> & Em). cbn [fst].
  rewrite Em, <- Z.mul_assoc, <- Z.pow_add_r by lia. do 2 f_equal. lia.
Qed.

(** [x - y] of floats with [y] below [x] by more than [2 ^ -8]. *)
Lemma fsub_within x v y u :
  normal x v -> normal y u -> 2 ^ 52 <= v - u < 2 ^ 160 ->
  exists r, normal (fsub x y) r /\
    forall j bound, -7 <= j -> v - u < 2 ^ (j + 60) -> (2 ^ (j + 7) | bound) ->
      (bound <= v - u -> bound <= r) /\ (v - u <= bound -> r <= bound).
Proof.
  intros (m1 & e1 & -> & H1 & He1 & ->) (m2 & e2 & -> & H2 & He2 & ->) Hd. unfold fsub. cbn [SFsub cond_Zopp].
  pose proof (aligned m1 e1 e2 ltac:(lia) ltac:(lia)) as E1.
  pose proof (aligned m2 e2 e1 ltac:(lia) ltac:(lia)) as E2. rewrite (Z.min_comm e2 e1) in E2.
  set (e := Z.min e1 e2) in *. set (z := _ - _ : Z).
  assert (z * 2 ^ (e + 60) = Z.pos m1 * 2 ^ (e1 + 60) - Z.pos m2 * 2 ^ (e2 + 60)) as Ez
    by (unfold z; rewrite Z.mul_sub_distr_r; lia).
  assert (0 < 2 ^ (e + 60)) by (apply Z.pow_pos_nonneg; lia).
  destruct (normalize_within z e) as (r & Hn & Hb); [apply (Z.mul_pos_cancel_r z (2 ^ (e + 60))); lia|lia|lia|].
  rewrite Ez in Hb. by exists r.
Qed.

Lemma fadd_within x v y u :
  normal x v -> normal y u -> 2 ^ 52 <= v + u < 2 ^ 160 ->
  exists r, normal (fadd x y) r /\
    forall j bound, -7 <= j -> v + u < 2 ^ (j + 60) -> (2 ^ (j + 7) | bound) ->
      (bound <= v + u -> bound <= r) /\ (v + u <= bound -> r <= bound).
Proof.
  intros (m1 & e1 & -> & H1 & He1 & ->) (m2 & e2 & -> & H2 & He2 & ->) Hd. unfold fadd. cbn [SFadd cond_Zopp].
  pose proof (aligned m1 e1 e2 ltac:(lia) ltac:(lia)) as E1.
  pose proof (aligned m2 e2 e1 ltac:(lia) ltac:(lia)) as E2. rewrite (Z.min_comm e2 e1) in E2.
  set (e := Z.min e1 e2) in *. set (z := _ + _ : Z).
  assert (z * 2 ^ (e + 60) = Z.pos m1 * 2 ^ (e1 + 60) + Z.pos m2 * 2 ^ (e2 + 60)) as Ez
    by (unfold z; rewrite Z.mul_add_distr_r; lia).
  assert (0 < 2 ^ (e + 60)) by (apply Z.pow_pos_nonneg; lia).
  destruct (normalize_within z e) as (r & Hn & Hb); [apply (Z.mul_pos_cancel_r z (2 ^ (e + 60))); lia|lia|lia|].
  rewrite Ez in Hb. by exists r.
Qed.

(** [x / 1e9]; the float of [second] is [m2 * 2 ^ -23]. *)
Definition billion : positive := 8388608000000000.
Lemma of_int_second : of_int second = S754_finite false billion (-23).
Proof. reflexivity. Qed.

(** The quotient of the mantissas against a bound of the exact quotient. *)
Lemma quotient_bounds m q r f p :
  m * 2 ^ 53 = second * 2 ^ 23 * q + r -> 0 <= r < second * 2 ^ 23 -> 0 < p ->
  (f * p * second <= m * 2 ^ 30 * p -> f <= q) /\
  (m * 2 ^ 30 * p <= f * p * second -> q <= f /\ (r <> 0 -> q < f)).
Proof.
  unfold second. cbn [Z.pow Z.pow_pos Pos.iter Z.mul Pos.mul]. intros Hdm Hmod Hp. split; intros Hb.
  - assert (f * 1000000000 <= m * 1073741824) by nia. lia.
  - assert (m * 1073741824 <= f * 1000000000) by nia. split; lia.
Qed.

Lemma fdiv_second_within x v j :
  normal x v -> -7 <= j -> 2 ^ 90 <= v < second * 2 ^ (j + 60) -> j <= 90 ->
  exists q, normal (fdiv x (of_int second)) q /\
    forall bound, (2 ^ (j + 7) | bound) -> (bound * second <= v -> bound <= q) /\ (v <= bound * second -> q <= bound).
Proof.
  intros (m & e & -> & Hm & He & Ev) Hj Hv Hj'. rewrite of_int_second. unfold fdiv. cbn [SFdiv xorb].
  unfold SFdiv_core_binary. cbn [Zdigits2]. rewrite (digits_unique m 53) by lia. change (Z.pos (digits2_pos billion)) with 53.
  assert (-23 <= e) as He'.
  { destruct (Z.le_gt_cases (-23) e); [done|]. assert (2 ^ (e + 60) <= 2 ^ 36) by (apply Z.pow_le_mono_r; lia). nia. }
  rewrite fexp_normal by lia. replace (Z.min _ _) with (e - 30) by lia. replace (e - -23 - (e - 30)) with 53 by lia.
  cbn iota. rewrite Z.shiftl_mul_pow2 by lia.
  pose proof (Z.div_mod (Z.pos m * 2 ^ 53) (Z.pos billion) ltac:(lia)) as Hdm.
  pose proof (Z.mod_pos_bound (Z.pos m * 2 ^ 53) (Z.pos billion) ltac:(lia)) as Hmod.
  unfold Z.div, Z.modulo in Hdm, Hmod. destruct (Z.div_eucl _ (Z.pos billion)) as [q r].
  change (Z.pos billion) with (second * 2 ^ 23) in *.
  assert (0 < 2 ^ (e - 30 + 60)) as Hp by (apply Z.pow_pos_nonneg; lia). set (p := 2 ^ (e - 30 + 60)) in *.
  assert (v = Z.pos m * 2 ^ 30 * p) as Ep.
  { unfold p. rewrite Ev, <- Z.mul_assoc, <- Z.pow_add_r by lia. do 2 f_equal. lia. }
  assert (q * p * second <= v) as Hq by (rewrite Ep; unfold second in *; nia).
  destruct (round_within q (e - 30) (new_location (second * 2 ^ 23) r)) as (u & Hn & Hb); [unfold second in Hdm, Hmod; lia|lia| |].
  { fold p. assert (2 ^ (j + 60) <= 2 ^ 150) by (apply Z.pow_le_mono_r; lia). unfold second in *. lia. }
  exists u. split; [done|]. intros bound Hdiv. fold p in Hb.
  assert (q * p < 2 ^ (j + 60)) as Hlt by (unfold second in *; lia).
  assert (e - 30 + 60 <= j + 7) as Hunit.
  { assert (2 ^ (52 + (e - 30 + 60)) < 2 ^ (j + 60)) as H2
      by (rewrite Z.pow_add_r by lia; fold p; unfold second in Hdm, Hmod; nia).
    apply Z.pow_lt_mono_r_iff in H2; lia. }
  destruct (Hb j bound Hj Hlt Hdiv) as [Hge Hle]. destruct Hdiv as [c ->].
  replace (j + 7) with (j + 7 - (e - 30 + 60) + (e - 30 + 60)) in * by lia.
  rewrite (Z.pow_add_r 2 _ (e - 30 + 60)), Z.mul_assoc in * by lia. fold p in Hge, Hle |- *.
  set (f := c * 2 ^ (j + 7 - (e - 30 + 60))) in *. rewrite Ep.
  destruct (quotient_bounds (Z.pos m) q r f p Hdm Hmod Hp) as [Hlow Hup]. split; intros Hbound.
  - apply Hge, Z.mul_le_mono_nonneg_r; [lia|]. by apply Hlow.
  - destruct (Hup Hbound) as [Hqf Hrf]. apply Hle. unfold at_most_bound. fold p.
    change (new_location _ r) with (new_location_even (second * 2 ^ 23) r). unfold new_location_even.
    destruct (Z.eqb_spec r 0) as [->|Hr]; [apply Z.mul_le_mono_nonneg_r; lia|].
    apply (proj1 (Z.mul_lt_mono_pos_r p q f Hp)). by apply Hrf.
Qed.

(** ** Integers as texts *)

Lemma digit_pretty (x : N) : (x < 10)%N -> digit (pretty_N_char x) = Some (Z.of_N x).
Proof.
  intros Hx. assert (x ∈ [0; 1; 2; 3; 4; 5; 6; 7; 8; 9]%N) as Hin by (rewrite !elem_of_cons; lia).
  repeat (apply elem_of_cons in Hin as [->|Hin]; [reflexivity|]). set_solver.
Qed.

Lemma digit_run_pretty (x : N) s :
  exists k, (x = 0%N \/ 0 < k) /\ 0 <= k /\ forall acc count,
    digit_run (pretty_N_go x s) acc count = digit_run s (acc * 10 ^ k + Z.of_N x) (count + k).
Proof.
  revert s. induction x as [x IH] using (well_founded_induction N.lt_wf_0). intros s.
  destruct (decide (x = 0%N)) as [->|Hx].
  - exists 0. split; [by left|]. split; [done|]. intros. rewrite pretty_N_go_0. f_equal; lia.
  - rewrite pretty_N_go_step by lia. destruct (IH (x / 10)%N (N.div_lt x 10 ltac:(lia) ltac:(lia)) (String (pretty_N_char (x mod 10)) s)) as (k & _ & Hk & E).
    exists (k + 1). split; [lia|]. split; [lia|]. intros acc count. rewrite E. cbn [digit_run].
    rewrite digit_pretty by (apply N.mod_lt; lia). pose proof (N.div_mod x 10 ltac:(lia)) as Hdm.
    rewrite Z.pow_add_r by lia. f_equal; [|lia]. apply (f_equal Z.of_N) in Hdm. lia.
Qed.

(** The text of a positive integer parses to its float. *)
Lemma ParseFloat_pretty n : 0 < n < 2 ^ 53 -> ParseFloat (pretty n) = Some (of_int n).
Proof.
  intros Hn. destruct n as [|p|p]; [lia| |lia]. change (pretty (Z.pos p)) with (pretty_N_go (N.pos p) EmptyString).
  destruct (digit_run_pretty (N.pos p) "") as (k & Hk & Hk0 & E).
  assert (match pretty_N_go (N.pos p) "" with String c _ => Ascii.eqb c "-" | EmptyString => false end = false) as Hneg.
  { destruct (pretty_N_go (N.pos p) "") as [|c t] eqn:Ep; [done|]. destruct (Ascii.eqb_spec c "-") as [->|]; [|done].
    exfalso. apply (pretty_N_go_ne_dash (N.pos p) "" t); [done|]. by rewrite Ep. }
  unfold ParseFloat. rewrite Hneg, E. cbn [digit_run]. rewrite (proj2 (Z.eqb_neq _ _)) by lia. cbn [exponent mbind option_bind].
  replace (0 * 10 ^ k + Z.of_N (N.pos p)) with (Z.pos p) by lia. cbn [of_decimal].
  change (0 <=? 0 - 0) with true. change (10 ^ (0 - 0)) with 1. rewrite Z.mul_1_r. cbn iota.
  destruct (of_int_exact (Z.pos p) Hn) as (m & e & Ef & _). unfold of_int, binary_normalize in Ef |- *. by rewrite Ef.
Qed.
