(* ===== verification/ConfigDecode.v ===== *)
(** * internal/config/types.go and trust.go: decoding the configuration

    encoding/json on the structs of the configuration, unknown fields disallowed.  A
    decoder takes a JSON value and the value decoded into; [None] is an error, of which
    the code reports the first.  A document keeps its members in textual order,
    duplicates included: a later member is decoded into what the earlier one left.  A
    [json.RawMessage] is the text of its value.  A slice is decoded from its zero
    elements. *)

From S2P Require Import Prelude Runtime Json Config Durations TrustPolicy.

Definition decoder (A : Type) : Type := json -> A -> option A.

(** ** Field names *)

(** The lower case of a name under simple Unicode folding, as far as it can meet an ASCII
    name: the Kelvin sign (U+212A) folds to k and the long s (U+017F) to s. *)
Fixpoint fold_text (s : string) : string :=
  match s with
  | EmptyString => ""
  | String a t =>
      match t with
      | String b u =>
          if (byte_z a =? 197) && (byte_z b =? 191) then String "s" (fold_text u)
          else match u with
               | String c w =>
                   if (byte_z a =? 226) && (byte_z b =? 132) && (byte_z c =? 170)
                   then String "k" (fold_text w) else String (lower_byte a) (fold_text t)
               | EmptyString => String (lower_byte a) (fold_text t)
               end
      | EmptyString => String (lower_byte a) ""
      end
  end.

(** [strings.EqualFold(name, canonical)] for an ASCII name in lower case. *)
Definition equal_fold (name canonical : string) : bool := (fold_text name =? canonical)%string.

Example equal_fold_examples :
  (equal_fold "Mode" "mode", equal_fold "mode_" "mode", equal_fold "CLIENT_EXI" "client_exi",
   equal_fold (String "226" (String "132" (String "170" "ey"))) "key",
   equal_fold (String "197" (String "191" "ub")) "sub") = (true, false, true, true, true).
Proof. vm_compute. reflexivity. Qed.

(** ** Decoders *)

Definition dec_string : decoder string := fun v old =>
  match v with JString s => Some s | JNull => Some old | _ => None end.
Definition dec_bool : decoder bool := fun v old =>
  match v with JBool b => Some b | JNull => Some old | _ => None end.
(** An integer type of the given range. *)
Definition dec_range (lo hi : Z) : decoder Z := fun v old =>
  match v with
  | JNumber text => n ← parse_int64 text; if (lo <=? n) && (n <=? hi) then Some n else None
  | JNull => Some old
  | _ => None
  end.
Definition dec_int : decoder Z := dec_range min_int64 max_int64.
Definition dec_int32 : decoder Z := dec_range (- 2 ^ 31) (2 ^ 31 - 1).

(** [Duration.UnmarshalJSON]; a null is the empty text, which is no duration. *)
Definition dec_duration : decoder duration := fun v _ =>
  text ← dec_string v "";
  match ParseDuration text with inl d => Some d | inr _ => None end.

Definition dec_raw `{JSONLib} : decoder string := fun v _ => Some (marshal_json v).

Section Containers.
Context {A : Type} (zero : A) (d : decoder A).

Definition dec_ptr : decoder (option A) := fun v old =>
  match v with JNull => Some None | _ => Some <$> d v (default zero old) end.

(** A slice whose nil is told from the empty one, and one of which it is not. *)
Definition dec_slice : decoder (option (list A)) := fun v _ =>
  match v with
  | JNull => Some None
  | JArray items => Some <$> mapM (fun item => d item zero) items
  | _ => None
  end.
Definition dec_list : decoder (list A) := fun v old => default [] <$> dec_slice v (Some old).

Fixpoint dec_members (members : list (string * json)) (m : gmap string A) : option (gmap string A) :=
  match members with
  | [] => Some m
  | (key, v) :: members => x ← d v zero; dec_members members (<[key := x]> m)
  end.
Definition dec_nilable_map : decoder (option (gmap string A)) := fun v old =>
  match v with
  | JNull => Some None
  | JObject members => Some <$> dec_members members (default ∅ old)
  | _ => None
  end.
Definition dec_map : decoder (gmap string A) := fun v old => default ∅ <$> dec_nilable_map v (Some old).
End Containers.

(** A field of a struct: its name and how its value is decoded into the struct. *)
Definition field {R A} (proj : R -> A) `{!Setter proj} (name : string) (d : decoder A) : string * decoder R :=
  (name, fun v r => (fun a => upd proj a r) <$> d v (proj r)).

(** The field of a key: the one of that exact name, else the one of that folded name. *)
Definition field_named {R} (fields : list (string * decoder R)) (key : string) : option (decoder R) :=
  match List.find (fun f => (f.1 =? key)%string) fields with
  | Some f => Some f.2
  | None => snd <$> List.find (fun f => equal_fold key f.1) fields
  end.

Fixpoint dec_fields {R} (fields : list (string * decoder R)) (members : list (string * json)) (r : R) : option R :=
  match members with
  | [] => Some r
  | (key, v) :: members => d ← field_named fields key; r ← d v r; dec_fields fields members r
  end.
Definition dec_struct {R} (fields : list (string * decoder R)) : decoder R := fun v old =>
  match v with
  | JNull => Some old
  | JObject members => dec_fields fields members old
  | _ => None
  end.

(** A struct decoded without refusing unknown fields. *)
Fixpoint dec_known {R} (fields : list (string * decoder R)) (members : list (string * json)) (r : R) : option R :=
  match members with
  | [] => Some r
  | (key, v) :: members =>
      match field_named fields key with
      | Some d => r ← d v r; dec_known fields members r
      | None => dec_known fields members r
      end
  end.
Definition dec_lenient {R} (fields : list (string * decoder R)) : decoder R := fun v old =>
  match v with JNull => Some old | JObject members => dec_known fields members old | _ => None end.

(** ** The structs *)

Definition dec_strings : decoder (list string) := dec_list "" dec_string.
Definition dec_wrapped (name : string) : decoder string :=
  dec_struct [(name, dec_string)].

Definition dec_serving : decoder Serving.ServingCertificateConfig := dec_struct [
  field Serving.CertificateFile "certificate_file" dec_string;
  field Serving.PrivateKeyFile "private_key_file" dec_string].
Definition dec_dpop : decoder DPoPc.DPoPConfig := dec_struct [
  field DPoPc.Mode "mode" dec_string; field DPoPc.SigningAlgorithm "signing_algorithm" dec_string].
Definition dec_refresh : decoder Refreshc.RefreshTokenConfig := dec_struct [
  field Refreshc.Enabled "enabled" dec_bool;
  field Refreshc.AllowOfflineAccess "allow_offline_access" dec_bool;
  field Refreshc.SessionIdleTTL "session_idle_ttl" dec_duration;
  field Refreshc.SessionAbsoluteTTL "session_absolute_ttl" dec_duration;
  field Refreshc.OfflineIdleTTL "offline_idle_ttl" dec_duration;
  field Refreshc.OfflineAbsoluteTTL "offline_absolute_ttl" dec_duration].
Definition dec_issuer : decoder Issuer.TrustIssuerConfig := dec_struct [
  field Issuer.Provider "provider" dec_string; field Issuer.IssuerURL "issuer_url" dec_string;
  field Issuer.SigningAlgs "signing_algs" dec_strings; field Issuer.MaxTokenAge "max_token_age" dec_duration].

Section Trust.
Context `{JSONLib}.

Definition dec_policy : decoder Policy.TrustPolicyConfig := dec_struct [
  field Policy.Issuer "issuer" dec_string; field Policy.Subject "subject" dec_string;
  field Policy.Groups "groups" dec_strings;
  field Policy.RequiredClaims "required_claims" (dec_map "" dec_raw);
  field Policy.Claims "claims" (dec_map "" dec_raw)].
Definition zero_binding : Binding.TrustBindingConfig :=
  {| Binding.ID := ""; Binding.TrustPolicy := ""; Binding.Subject := None; Binding.Groups := None;
     Binding.Claims := ∅; Binding.Effective_ := None |}.
Definition dec_binding : decoder Binding.TrustBindingConfig := dec_struct [
  field Binding.ID "id" dec_string; field Binding.TrustPolicy "trust_policy" dec_string;
  field Binding.Subject "subject" (dec_ptr "" dec_string);
  field Binding.Groups "groups" (dec_slice "" dec_string);
  field Binding.Claims "claims" (dec_map "" dec_raw)].
Definition dec_client : decoder Client.ClientConfig := dec_struct [
  field Client.RedirectURIs "redirect_uris" dec_strings;
  field Client.UserGroupMapping "user_group_mapping" dec_string;
  field Client.RequireUserGroupsFromPolicy "require_user_groups_from_policy" (dec_ptr false dec_bool);
  field Client.RefreshTokens "refresh_tokens" dec_refresh;
  field Client.TrustBindings "trust_bindings" (dec_list zero_binding dec_binding);
  field Client.DPoP "dpop" dec_dpop; field Client.RequirePAR "require_par" dec_bool].
Definition dec_static : decoder Static.StaticPolicyConfig := dec_struct [
  field Static.RequireUserGroupsFromPolicy "require_user_groups_from_policy" (dec_ptr false dec_bool);
  field Static.DefaultRedirectURIs "default_redirect_uris" (dec_slice "" dec_string);
  field Static.UserGroupMappings "user_group_mappings" (dec_map ∅ (dec_map [] dec_strings));
  field Static.TrustPolicies "trust_policies" (dec_map zero_policy dec_policy);
  field Static.Clients "clients" (dec_nilable_map zero_client dec_client)].
End Trust.

Definition dec_state : decoder StateDB.StateDatabaseConfig := dec_struct [
  field StateDB.Driver "driver" dec_string; field StateDB.Path "path" dec_string;
  field StateDB.ConnectionStringSecret "connection_string_secret" dec_string;
  field StateDB.MaxConnections "max_connections" dec_int;
  field StateDB.QueryTimeout "query_timeout" dec_duration;
  field StateDB.Migrations "migrations" (dec_ptr "" (dec_wrapped "connection_string_secret"))].
Definition dec_defaults : decoder Defaults.PolicyClientDefaults := dec_struct [
  field Defaults.RequireUserGroupsFromPolicy "require_user_groups_from_policy" (dec_ptr false dec_bool);
  field Defaults.RefreshTokens "refresh_tokens" dec_refresh;
  field Defaults.DPoP "dpop" dec_dpop; field Defaults.RequirePAR "require_par" dec_bool].
Definition dec_queries : decoder Queries.PolicyQueries := dec_struct [
  field Queries.ClientExists "client_exists" dec_string; field Queries.UserAccess "user_access" dec_string;
  field Queries.TrustIssuer "trust_issuer" dec_string; field Queries.TrustBindings "trust_bindings" dec_string].
Definition dec_lookup : decoder Lookup.ClientLookupCacheConfig := dec_struct [
  field Lookup.TTL "ttl" dec_duration; field Lookup.NegativeTTL "negative_ttl" dec_duration;
  field Lookup.MaxEntries "max_entries" dec_int].
Definition dec_policy_database : decoder PolicyDB.PolicyDatabaseConfig := dec_struct [
  field PolicyDB.Driver "driver" dec_string;
  field PolicyDB.ConnectionStringSecret "connection_string_secret" dec_string;
  field PolicyDB.RedirectURIs "redirect_uris" dec_strings;
  field PolicyDB.ClientDefaults "client_defaults" dec_defaults;
  field PolicyDB.Queries_ "queries" dec_queries;
  field PolicyDB.ClientLookupCache "client_lookup_cache" dec_lookup;
  field PolicyDB.PolicyBuildCache "policy_build_cache" (dec_struct [("max_entries", dec_int)]);
  field PolicyDB.QueryTimeout "query_timeout" dec_duration;
  field PolicyDB.MaxConnections "max_connections" dec_int32;
  field PolicyDB.MaxTrustRows "max_trust_rows" dec_int; field PolicyDB.MaxGroups "max_groups" dec_int;
  field PolicyDB.MaxGroupBytes "max_group_bytes" dec_int; field PolicyDB.MaxJSONBytes "max_json_bytes" dec_int].

Definition dec_secrets : decoder Secretsc.SecretsConfig := dec_struct [
  field Secretsc.Provider "provider" dec_string;
  field Secretsc.SigningKeyName "signing_key_name" dec_string;
  field Secretsc.EncryptionKeyName "encryption_key_name" dec_string;
  field Secretsc.AWSRegion "aws_region" dec_string;
  field Secretsc.AzureKeyVaultURL "azure_keyvault_url" dec_string;
  field Secretsc.FileDirectory "file_directory" dec_string].

(** [GenericRefreshConfig] is the pair of its fields. *)
Definition dec_generic_refresh : decoder (list string * gmap string string) := dec_struct [
  ("scopes", fun v r => (fun scopes => (scopes, r.2)) <$> dec_strings v r.1);
  ("authorization_params", fun v r => (fun params => (r.1, params)) <$> dec_map "" dec_string v r.2)].
Definition zero_generic : Generic.GenericConfig :=
  {| Generic.AuthorizationURL := ""; Generic.TokenURL := ""; Generic.UserinfoURL := "";
     Generic.EmailField := ""; Generic.EmailVerifiedField := ""; Generic.SubjectField := "";
     Generic.Refresh := None |}.
Definition dec_generic : decoder Generic.GenericConfig := dec_struct [
  field Generic.AuthorizationURL "authorization_url" dec_string;
  field Generic.TokenURL "token_url" dec_string; field Generic.UserinfoURL "userinfo_url" dec_string;
  field Generic.EmailField "email_field" dec_string;
  field Generic.EmailVerifiedField "email_verified_field" dec_string;
  field Generic.SubjectField "subject_field" dec_string;
  field Generic.Refresh "refresh" (dec_ptr ([], ∅) dec_generic_refresh)].
Definition zero_connector : Connectorc.ConnectorConfig :=
  {| Connectorc.Type_ := ""; Connectorc.DisplayName := ""; Connectorc.Order := 0;
     Connectorc.CredentialsSecret := ""; Connectorc.Scopes := []; Connectorc.Google := None;
     Connectorc.GitHub := None; Connectorc.Generic_ := None |}.
Definition dec_connector : decoder Connectorc.ConnectorConfig := dec_struct [
  field Connectorc.Type_ "type" dec_string; field Connectorc.DisplayName "display_name" dec_string;
  field Connectorc.Order "order" dec_int;
  field Connectorc.CredentialsSecret "credentials_secret" dec_string;
  field Connectorc.Scopes "scopes" dec_strings;
  field Connectorc.Google "google" (dec_ptr "" (dec_wrapped "hd"));
  field Connectorc.GitHub "github" (dec_ptr "" (dec_wrapped "hostname"));
  field Connectorc.Generic_ "generic" (dec_ptr zero_generic dec_generic)].

Definition zero_smtp : SMTPc.SMTPConfig :=
  {| SMTPc.Host := ""; SMTPc.Port := 0; SMTPc.FromName := ""; SMTPc.FromAddress := "";
     SMTPc.CredentialsSecret := ""; SMTPc.TLSMode := "" |}.
Definition dec_smtp : decoder SMTPc.SMTPConfig := dec_struct [
  field SMTPc.Host "host" dec_string; field SMTPc.Port "port" dec_int;
  field SMTPc.FromName "from_name" dec_string; field SMTPc.FromAddress "from_address" dec_string;
  field SMTPc.CredentialsSecret "credentials_secret" dec_string;
  field SMTPc.TLSMode "tls_mode" dec_string].
Definition dec_remote_ip : decoder RemoteIPc.TurnstileRemoteIPConfig := dec_struct [
  field RemoteIPc.Source "source" dec_string; field RemoteIPc.Header "header" dec_string].
Definition zero_turnstile : Turnstilec.TurnstileConfig :=
  {| Turnstilec.SiteKey := ""; Turnstilec.SecretName := ""; Turnstilec.RemoteIP := None |}.
Definition dec_turnstile : decoder Turnstilec.TurnstileConfig := dec_struct [
  field Turnstilec.SiteKey "site_key" dec_string; field Turnstilec.SecretName "secret_name" dec_string;
  field Turnstilec.RemoteIP "remote_ip"
    (dec_ptr {| RemoteIPc.Source := ""; RemoteIPc.Header := "" |} dec_remote_ip)].
Definition zero_email : Email.EmailConfig :=
  {| Email.VerificationMode := ""; Email.OTPSecretName := ""; Email.OTPTTL := 0; Email.SMTP := None;
     Email.Turnstile := None |}.
Definition dec_email : decoder Email.EmailConfig := dec_struct [
  field Email.VerificationMode "verification_mode" dec_string;
  field Email.OTPSecretName "otp_secret_name" dec_string;
  field Email.OTPTTL "otp_ttl" dec_duration;
  field Email.SMTP "smtp" (dec_ptr zero_smtp dec_smtp);
  field Email.Turnstile "turnstile" (dec_ptr zero_turnstile dec_turnstile)].

Definition zero_dpop : DPoPc.DPoPConfig := {| DPoPc.Mode := ""; DPoPc.SigningAlgorithm := "" |}.
Definition zero_policy_database : PolicyDB.PolicyDatabaseConfig :=
  {| PolicyDB.Driver := ""; PolicyDB.ConnectionStringSecret := ""; PolicyDB.RedirectURIs := [];
     PolicyDB.ClientDefaults :=
       {| Defaults.RequireUserGroupsFromPolicy := None; Defaults.RefreshTokens := zero_refresh_config;
          Defaults.DPoP := zero_dpop; Defaults.RequirePAR := false |};
     PolicyDB.Queries_ := {| Queries.ClientExists := ""; Queries.UserAccess := "";
                             Queries.TrustIssuer := ""; Queries.TrustBindings := "" |};
     PolicyDB.ClientLookupCache := {| Lookup.TTL := 0; Lookup.NegativeTTL := 0; Lookup.MaxEntries := 0 |};
     PolicyDB.PolicyBuildCache := 0; PolicyDB.QueryTimeout := 0; PolicyDB.MaxConnections := 0;
     PolicyDB.MaxTrustRows := 0; PolicyDB.MaxGroups := 0; PolicyDB.MaxGroupBytes := 0;
     PolicyDB.MaxJSONBytes := 0 |}.
Definition zero_state : StateDB.StateDatabaseConfig :=
  {| StateDB.Driver := ""; StateDB.Path := ""; StateDB.ConnectionStringSecret := "";
     StateDB.MaxConnections := 0; StateDB.QueryTimeout := 0; StateDB.Migrations := None |}.

Definition dec_config `{JSONLib} : decoder Config.Config := dec_struct [
  field Config.Schema_ "$schema" dec_string; field Config.IssuerURL "issuer_url" dec_string;
  field Config.HomepageURL "homepage_url" dec_string;
  field Config.HTTPListenAddr "http_listen_addr" dec_string;
  field Config.ServingCertificate "serving_certificate"
    (dec_ptr {| Serving.CertificateFile := ""; Serving.PrivateKeyFile := "" |} dec_serving);
  field Config.SigningAlgorithm "signing_algorithm" dec_string;
  field Config.JWKSKID "jwks_kid" dec_string;
  field Config.AccessTokenTTL "access_token_ttl" dec_duration;
  field Config.IDTokenTTL "id_token_ttl" dec_duration;
  field Config.Secrets_ "secrets" dec_secrets;
  field Config.UserLoginConnectors "user_login_connectors" (dec_map zero_connector dec_connector);
  field Config.ServiceTokenIssuers "service_token_issuers" (dec_map zero_issuer dec_issuer);
  field Config.TemplatesDir "templates_dir" dec_string;
  field Config.Email_ "email" (dec_ptr zero_email dec_email);
  field Config.StaticPolicy "static_policy" dec_static;
  field Config.StateDatabase "state_database" (dec_ptr zero_state dec_state);
  field Config.PolicyDatabase "policy_database" (dec_ptr zero_policy_database dec_policy_database)].
