(* ===== verification/LoaderFields.v ===== *)
(** * internal/config/loader.go: the fields of the document

    The checks that look at the document itself and not at the decoded configuration:
    names that only case-insensitive matching accepts, explicit nulls, and explicit zero
    values of the state database.  The object a [json.RawMessage] holds is a map from
    names to values, the last member of a name winning. *)

From stdpp Require Import pretty.
From S2P Require Import Prelude Runtime Json Config ConfigDecode.

(** [json.Unmarshal(raw, &fields)] into a [map[string]json.RawMessage] *)
Definition raw_object (raw : json) : option (gmap string json) :=
  match raw with
  | JNull => Some ∅
  | JObject members => Some (list_to_map (rev members))
  | _ => None
  end.
Definition is_null (raw : json) : bool := match raw with JNull => true | _ => false end.

Definition decodePolicyObject (raw : json) (path : string) : gmap string json + error :=
  if is_null raw then inr (Errorf (path +:+ " must be an object"))
  else match raw_object raw with
       | None => inr (Wrapped (path +:+ ": decode fields") (Errorf "json"))
       | Some fields => inl fields
       end.

(** The checks of an object, when it is one. *)
Definition with_object (raw : json) (path : string) (f : gmap string json -> option error) : option error :=
  match decodePolicyObject raw path with inr err => Some err | inl fields => f fields end.
(** The checks of a field, when it is present. *)
Definition if_present (fields : gmap string json) (name : string) (f : json -> option error) : option error :=
  match fields !! name with None => None | Some raw => f raw end.

Definition rejectNullPolicyFields (fields : gmap string json) (path : string) (names : list string) : option error :=
  first_error (fun name => if_present fields name (fun raw =>
    guard_err (is_null raw) (path +:+ "." +:+ name +:+ " must not be null"))) names.

Definition validateCanonicalPolicyFields (fields : gmap string json) (path : string) (canonical : list string)
  : option error :=
  first_error (fun name => first_error (fun expected =>
    guard_err (equal_fold name expected && negb (name =? expected)%string)
      (path +:+ "." +:+ expected +:+ " must use its canonical field name")) canonical)
    (map_to_list fields).*1.

(** An object whose named fields are canonical and not null. *)
Definition strict_fields (fields : gmap string json) (path : string) (names : list string) : option error :=
  and_then (validateCanonicalPolicyFields fields path names) (rejectNullPolicyFields fields path names).

Definition validateServiceTokenIssuerFields (raw : json) : option error :=
  with_object raw "service_token_issuers" (fun issuers =>
  first_error (fun kv : string * json =>
    let path := "service_token_issuers." +:+ kv.1 in
    with_object kv.2 path (fun issuer =>
      strict_fields issuer path ["provider"; "issuer_url"; "signing_algs"; "max_token_age"]))
    (map_to_list issuers)).

Definition validateDPoPFields (raw : json) (path : string) : option error :=
  with_object raw path (fun dpop => strict_fields dpop path ["mode"; "signing_algorithm"]).

Definition validateUserGroupMappingFields (raw : json) : option error :=
  with_object raw "static_policy.user_group_mappings" (fun mappings =>
  first_error (fun kv : string * json =>
    let path := "static_policy.user_group_mappings." +:+ kv.1 in
    with_object kv.2 path (fun mapping =>
      first_error (fun sg : string * json =>
        guard_err (is_null sg.2) (path +:+ "." +:+ sg.1 +:+ " must not be null")) (map_to_list mapping)))
    (map_to_list mappings)).

Definition validateTrustPolicyFields (raw : json) : option error :=
  with_object raw "static_policy.trust_policies" (fun policies =>
  first_error (fun kv : string * json =>
    let path := "static_policy.trust_policies." +:+ kv.1 in
    with_object kv.2 path (fun policy =>
      strict_fields policy path ["issuer"; "subject"; "groups"; "required_claims"; "claims"]))
    (map_to_list policies)).

(** The elements of a [[]json.RawMessage]; null is the empty one. *)
Definition raw_entries (raw : json) : option (list json) :=
  match raw with JNull => Some [] | JArray items => Some items | _ => None end.

Definition validateTrustBindingFields (raw : json) (path : string) : option error :=
  match raw_entries raw with
  | None => Some (Wrapped (path +:+ ": decode entries") (Errorf "json"))
  | Some bindings =>
      first_error (fun ib : nat * json =>
        let bindingPath := path +:+ "[" +:+ pretty (Z.of_nat ib.1) +:+ "]" in
        with_object ib.2 bindingPath (fun binding =>
          strict_fields binding bindingPath ["id"; "trust_policy"; "subject"; "groups"; "claims"]))
        (imap pair bindings)
  end.

Definition client_fields : list string :=
  ["redirect_uris"; "user_group_mapping"; "require_user_groups_from_policy"; "refresh_tokens";
   "trust_bindings"; "dpop"; "require_par"].
Definition refresh_fields : list string :=
  ["enabled"; "allow_offline_access"; "session_idle_ttl"; "session_absolute_ttl"; "offline_idle_ttl";
   "offline_absolute_ttl"].

(** The checks of one static client. *)
Definition validate_client_fields (id : string) (raw : json) : option error :=
  let path := "static_policy.clients." +:+ id in
  with_object raw path (fun client =>
    and_then (strict_fields client path client_fields)
    (and_then (if_present client "dpop" (fun dpop => validateDPoPFields dpop (path +:+ ".dpop")))
    (and_then (if_present client "refresh_tokens" (fun raw =>
                 with_object raw (path +:+ ".refresh_tokens") (fun refresh =>
                   strict_fields refresh (path +:+ ".refresh_tokens") refresh_fields)))
              (if_present client "trust_bindings" (fun bindings =>
                 validateTrustBindingFields bindings (path +:+ ".trust_bindings")))))).

Definition static_fields : list string :=
  ["require_user_groups_from_policy"; "default_redirect_uris"; "user_group_mappings"; "trust_policies"; "clients"].

Definition validateStaticPolicyFields (raw : json) : option error :=
  with_object raw "static_policy" (fun fields =>
    and_then (strict_fields fields "static_policy" static_fields)
    (and_then (if_present fields "user_group_mappings" validateUserGroupMappingFields)
    (and_then (if_present fields "trust_policies" validateTrustPolicyFields)
      (if_present fields "clients" (fun raw =>
         with_object raw "static_policy.clients" (fun clients =>
           first_error (fun kv : string * json => validate_client_fields kv.1 kv.2) (map_to_list clients))))))).

Definition defaults_fields : list string :=
  ["require_user_groups_from_policy"; "refresh_tokens"; "dpop"; "require_par"].

Definition validatePolicyDatabaseFields (raw : json) : option error :=
  with_object raw "policy_database" (fun database =>
    and_then (validateCanonicalPolicyFields database "policy_database" ["client_defaults"])
    (if_present database "client_defaults" (fun raw =>
       let path := "policy_database.client_defaults" in
       with_object raw path (fun defaults =>
         and_then (strict_fields defaults path defaults_fields)
           (if_present defaults "dpop" (fun dpop => validateDPoPFields dpop (path +:+ ".dpop"))))))).

Definition validatePolicyFields (data : json) : option error :=
  match raw_object data with
  | None => Some (Wrapped "decode policy fields" (Errorf "json"))
  | Some document =>
      and_then (validateCanonicalPolicyFields document "configuration"
                  ["service_token_issuers"; "static_policy"; "policy_database"])
      (and_then (if_present document "service_token_issuers" validateServiceTokenIssuerFields)
      (and_then (if_present document "static_policy" validateStaticPolicyFields)
                (if_present document "policy_database" validatePolicyDatabaseFields)))
  end.

(** ** The state database *)

Section State.
Context `{Env}.

Definition state_fields : list string :=
  ["connection_string_secret"; "driver"; "max_connections"; "migrations"; "path"; "query_timeout"].

Definition blank (s : string) : bool := is_empty (trim_space s).
Definition has (fields : gmap string json) (name : string) : bool := is_some (fields !! name).

Definition migration_fields (database : StateDB.StateDatabaseConfig) (raw : json) : option error :=
  match StateDB.Migrations database with
  | None => Some (Errorf "state_database: migrations must be an object")
  | Some secret =>
      match raw_object raw with
      | None => Some (Wrapped "state_database: decode migrations fields" (Errorf "json"))
      | Some fields =>
          and_then (first_error (fun name =>
                      guard_err (negb (name =? "connection_string_secret")%string)
                        "state_database: migrations: unknown field") (map_to_list fields).*1)
            (guard_err (has fields "connection_string_secret" && blank secret)
               "state_database: migrations.connection_string_secret must not be empty")
      end
  end.

Definition sqlite_fields (fields : gmap string json) (database : StateDB.StateDatabaseConfig) : option error :=
  and_then (first_error (fun field => guard_err (has fields field)
              ("state_database: " +:+ field +:+ " is not valid for sqlite"))
              ["connection_string_secret"; "max_connections"; "query_timeout"; "migrations"])
    (guard_err (has fields "path" && blank (StateDB.Path database)) "state_database: path must not be empty").

Definition postgresql_fields (fields : gmap string json) (database : StateDB.StateDatabaseConfig) : option error :=
  and_then (guard_err (has fields "path") "state_database: path is not valid for postgresql")
  (and_then (guard_err (has fields "max_connections" && (StateDB.MaxConnections database <=? 0))
               "state_database: max_connections must be positive")
  (and_then (guard_err (has fields "query_timeout" && (StateDB.QueryTimeout database <=? 0))
               "state_database: query_timeout must be positive")
            (if_present fields "migrations" (migration_fields database)))).

(** The checks on the fields of the state database, by its driver. *)
Definition driver_fields (fields : gmap string json) (database : StateDB.StateDatabaseConfig) : option error :=
  let driver := if is_empty (StateDB.Driver database) then "sqlite" else StateDB.Driver database in
  if (driver =? "sqlite")%string then sqlite_fields fields database
  else if (driver =? "postgresql")%string then postgresql_fields fields database
  else None.

Definition validateStateDatabaseFields (data : json) (database : option StateDB.StateDatabaseConfig)
  : option error :=
  match raw_object data with
  | None => Some (Wrapped "state_database: decode fields" (Errorf "json"))
  | Some document =>
      and_then (first_error (fun name =>
                  guard_err (equal_fold name "state_database" && negb (name =? "state_database")%string)
                    "state_database must use its canonical field name") (map_to_list document).*1)
      (if_present document "state_database" (fun raw =>
         match database with
         | None => Some (Errorf "state_database must be an object")
         | Some database =>
             match raw_object raw with
             | None => Some (Wrapped "state_database: decode fields" (Errorf "json"))
             | Some fields =>
                 and_then (first_error (fun name =>
                             guard_err (negb (mem name state_fields)) "state_database: unknown field")
                             (map_to_list fields).*1)
                 (and_then (guard_err (has fields "driver" && blank (StateDB.Driver database))
                              "state_database: driver must not be empty")
                           (driver_fields fields database))
             end
         end))
  end.
End State.
