(* ===== verification/Loader.v ===== *)
(** * internal/config/loader.go: loading the configuration

    Reading and parsing a configuration document, the defaults of omitted fields and the
    validation of the whole.  hujson ([Standardize]) and the JSON syntax of the document,
    net/url and net/mail are classes.  Loops over maps run in some order of the keys; the
    order decides only which error is reported. *)

From S2P Require Import Prelude Runtime Json Config ConfigDecode LoaderFields TrustPolicy TrustConfig.

(** [hujson.Standardize] with the JSON syntax of its result; and [mail.ParseAddress],
    the address it finds. *)
Class ConfigText := {
  standardize : string -> option json;
  mail_address : string -> option string
}.

(** The next step when the one before succeeded. *)
Definition ok_then {A B} (a : A + error) (f : A -> B + error) : B + error :=
  match a with inl a => f a | inr err => inr err end.
Notation "x ?← a ; b" := (ok_then a (fun x => b)) (at level 100, a at level 200, b at level 200, right associativity,
  format "x  ?←  a ;  '/' b") : go_scope.
Definition checked (err : option error) : unit + error :=
  match err with Some err => inr err | None => inl tt end.
Definition wrapped (msg : string) (err : option error) : option error := Wrapped msg <$> err.

(** ** Defaults *)

Definition millisecond : duration := 1000000.
Definition defaultClientExistsQuery : string :=
  "SELECT EXISTS (SELECT 1 FROM truster_policy.clients WHERE client_id = $1) AS exists".
Definition defaultUserAccessQuery : string :=
  "SELECT users.subject IS NOT NULL AS allowed, COALESCE(users.groups, ARRAY[]::text[]) AS groups FROM (VALUES ($1::text, $2::text)) AS input(client_id, subject) LEFT JOIN truster_policy.users USING (client_id, subject)".
Definition defaultTrustIssuerQuery : string :=
  "SELECT issuer_id, provider, issuer_url, signing_algs, max_token_age_seconds FROM truster_policy.trust_issuers WHERE client_id = $1 AND issuer_url = $2".
Definition defaultTrustBindingsQuery : string :=
  "SELECT client_id, issuer_id, binding_id, subject, required_claims, policy_claims, binding_claims, groups FROM truster_policy.trust_bindings WHERE client_id = $1 AND issuer_id = $2 ORDER BY binding_id".
Definition DefaultSigningAlgorithm : string := "RS256".

Definition applyDurationDefault (value fallback : duration) : duration := if value =? 0 then fallback else value.
Definition or_else (value fallback : string) : string := if is_empty value then fallback else value.
Definition count_default (value fallback : Z) : Z := if value =? 0 then fallback else value.

Definition applyRefreshDefaults (policy : Refreshc.RefreshTokenConfig) : Refreshc.RefreshTokenConfig :=
  policy
    <| Refreshc.SessionIdleTTL := applyDurationDefault (Refreshc.SessionIdleTTL policy) (30 * minute) |>
    <| Refreshc.SessionAbsoluteTTL := applyDurationDefault (Refreshc.SessionAbsoluteTTL policy) (10 * hour) |>
    <| Refreshc.OfflineIdleTTL := applyDurationDefault (Refreshc.OfflineIdleTTL policy) (30 * 24 * hour) |>
    <| Refreshc.OfflineAbsoluteTTL := applyDurationDefault (Refreshc.OfflineAbsoluteTTL policy) (90 * 24 * hour) |>.

Definition applyDPoPDefaults (dpop : DPoPc.DPoPConfig) : DPoPc.DPoPConfig :=
  let dpop := dpop <| DPoPc.Mode := or_else (DPoPc.Mode dpop) "disabled" |> in
  if (DPoPc.Mode dpop =? "required")%string
  then dpop <| DPoPc.SigningAlgorithm := or_else (DPoPc.SigningAlgorithm dpop) "ES256" |>
  else dpop.

Definition client_defaults (client : Client.ClientConfig) : Client.ClientConfig :=
  client <| Client.RefreshTokens := applyRefreshDefaults (Client.RefreshTokens client) |>
         <| Client.DPoP := applyDPoPDefaults (Client.DPoP client) |>.

Definition clients_defaults (clients : gmap string Client.ClientConfig) : gmap string Client.ClientConfig :=
  client_defaults <$> clients.

Definition connector_defaults (connector : Connectorc.ConnectorConfig) : Connectorc.ConnectorConfig :=
  match Connectorc.Generic_ connector with
  | Some generic =>
      connector <| Connectorc.Generic_ := Some (generic <| Generic.SubjectField :=
                                                  or_else (Generic.SubjectField generic) "sub" |>) |>
  | None => connector
  end.

Section Load.
Context `{Env} `{!JSONLib} `{!URLs} `{!ConfigText}.

(** *** The queries of the policy database *)

(** The value of [policy_database.queries], absent when there is none. *)
Definition raw_queries : decoder (option json) :=
  dec_lenient [("policy_database", dec_lenient [("queries", fun v _ => Some (Some v))])].

(** One query: the default when it is omitted, disabled by null, else its text. *)
Definition query_default (fields : gmap string json) (name value fallback : string) : string + error :=
  match fields !! name with
  | None => inl fallback
  | Some JNull => inl ""
  | Some _ => if blank value
              then inr (Errorf ("policy_database.queries." +:+ name +:+ " must be non-empty SQL or null"))
              else inl value
  end.

Definition applyPolicyQueryDefaults (data : json) (queries : Queries.PolicyQueries)
  : Queries.PolicyQueries + error :=
  match raw_queries data None with
  | None => inr (Wrapped "decode policy queries" (Errorf "json"))
  | Some document =>
      fields ?← (match document with
                 | Some raw => decodePolicyObject raw "policy_database.queries"
                 | None => inl ∅
                 end);
      _ ?← checked (validateCanonicalPolicyFields fields "policy_database.queries"
                      ["client_exists"; "user_access"; "trust_issuer"; "trust_bindings"]);
      exists_ ?← query_default fields "client_exists" (Queries.ClientExists queries) defaultClientExistsQuery;
      access ?← query_default fields "user_access" (Queries.UserAccess queries) defaultUserAccessQuery;
      issuer ?← query_default fields "trust_issuer" (Queries.TrustIssuer queries) defaultTrustIssuerQuery;
      bindings ?← query_default fields "trust_bindings" (Queries.TrustBindings queries) defaultTrustBindingsQuery;
      inl {| Queries.ClientExists := exists_; Queries.UserAccess := access; Queries.TrustIssuer := issuer;
             Queries.TrustBindings := bindings |}
  end.

Definition lookup_defaults (cache : Lookup.ClientLookupCacheConfig) : Lookup.ClientLookupCacheConfig :=
  {| Lookup.TTL := applyDurationDefault (Lookup.TTL cache) (5 * minute);
     Lookup.NegativeTTL := applyDurationDefault (Lookup.NegativeTTL cache) (30 * second);
     Lookup.MaxEntries := count_default (Lookup.MaxEntries cache) 10000 |}.

Definition policy_database_defaults (data : json) (policyDatabase : PolicyDB.PolicyDatabaseConfig)
  : PolicyDB.PolicyDatabaseConfig + error :=
  queries ?← applyPolicyQueryDefaults data (PolicyDB.Queries_ policyDatabase);
  let defaults := PolicyDB.ClientDefaults policyDatabase in
  inl (policyDatabase
    <| PolicyDB.Queries_ := queries |>
    <| PolicyDB.ClientDefaults :=
         defaults <| Defaults.RefreshTokens := applyRefreshDefaults (Defaults.RefreshTokens defaults) |>
                  <| Defaults.DPoP := applyDPoPDefaults (Defaults.DPoP defaults) |> |>
    <| PolicyDB.ClientLookupCache := lookup_defaults (PolicyDB.ClientLookupCache policyDatabase) |>
    <| PolicyDB.QueryTimeout := applyDurationDefault (PolicyDB.QueryTimeout policyDatabase) (500 * millisecond) |>
    <| PolicyDB.PolicyBuildCache := count_default (PolicyDB.PolicyBuildCache policyDatabase) 10000 |>
    <| PolicyDB.MaxConnections := count_default (PolicyDB.MaxConnections policyDatabase) 4 |>
    <| PolicyDB.MaxTrustRows := count_default (PolicyDB.MaxTrustRows policyDatabase) 100 |>
    <| PolicyDB.MaxGroups := count_default (PolicyDB.MaxGroups policyDatabase) 100 |>
    <| PolicyDB.MaxGroupBytes := count_default (PolicyDB.MaxGroupBytes policyDatabase) 256 |>
    <| PolicyDB.MaxJSONBytes := count_default (PolicyDB.MaxJSONBytes policyDatabase) 65536 |>).

Definition state_database_defaults (database : option StateDB.StateDatabaseConfig) : StateDB.StateDatabaseConfig :=
  let stateDatabase := default zero_state database in
  let stateDatabase := stateDatabase <| StateDB.Driver := or_else (StateDB.Driver stateDatabase) "sqlite" |> in
  let stateDatabase :=
    if (StateDB.Driver stateDatabase =? "sqlite")%string
    then stateDatabase <| StateDB.Path := or_else (StateDB.Path stateDatabase) "data/truster-state.db" |>
    else stateDatabase in
  if (StateDB.Driver stateDatabase =? "postgresql")%string
  then stateDatabase
         <| StateDB.QueryTimeout := applyDurationDefault (StateDB.QueryTimeout stateDatabase) (5 * second) |>
         <| StateDB.MaxConnections := count_default (StateDB.MaxConnections stateDatabase) 16 |>
  else stateDatabase.

Definition email_defaults (email : Email.EmailConfig) : Email.EmailConfig :=
  email <| Email.VerificationMode := or_else (Email.VerificationMode email) "disabled" |>
        <| Email.OTPTTL := applyDurationDefault (Email.OTPTTL email) (5 * minute) |>.

(** The defaults [Parse] applies; [override] is the environment's TRUSTER_TEMPLATES_DIR. *)
Definition apply_defaults (data : json) (override : string) (cfg : Config.Config) : Config.Config + error :=
  let static := Config.StaticPolicy cfg in
  let cfg := cfg
    <| Config.AccessTokenTTL := applyDurationDefault (Config.AccessTokenTTL cfg) (15 * minute) |>
    <| Config.IDTokenTTL := applyDurationDefault (Config.IDTokenTTL cfg) (15 * minute) |>
    <| Config.SigningAlgorithm := or_else (Config.SigningAlgorithm cfg) DefaultSigningAlgorithm |>
    <| Config.TemplatesDir := or_else override (Config.TemplatesDir cfg) |>
    <| Config.Email_ := email_defaults <$> Config.Email_ cfg |>
    <| Config.UserLoginConnectors := connector_defaults <$> Config.UserLoginConnectors cfg |>
    <| Config.StaticPolicy := static <| Static.Clients := option_map clients_defaults (Static.Clients static) |> |> in
  policyDatabase ?← (match Config.PolicyDatabase cfg with
                     | None => inl None
                     | Some database => database ?← policy_database_defaults data database; inl (Some database)
                     end);
  inl (cfg <| Config.PolicyDatabase := policyDatabase |>
           <| Config.StateDatabase := Some (state_database_defaults (Config.StateDatabase cfg)) |>).

(** ** Validation *)

Definition validateHomepageURL (homepage : string) : option error :=
  match parse_url homepage with
  | None => Some (Wrapped "invalid URL" (Errorf "url"))
  | Some u =>
      and_then (guard_err (is_empty (Scheme u) || is_empty (Host u)) "must be absolute and include a host")
      (and_then (guard_err (HasUser u) "must not contain userinfo")
      (if (Scheme u =? "http")%string
       then guard_err (negb (local_host (Hostname u))) "http scheme only allowed for localhost in development"
       else guard_err (negb (Scheme u =? "https")%string) "scheme must be http or https"))
  end.

Definition validateRedirectURI (uri : string) : option error :=
  match parse_url uri with
  | None => Some (Errorf "url")
  | Some u =>
      if (Scheme u =? "http")%string
      then guard_err (negb (mem (Hostname u) ["localhost"; "127.0.0.1"]))
             "http redirect URIs only allowed for localhost"
      else guard_err (negb (Scheme u =? "https")%string) "scheme must be http (localhost only) or https"
  end.

Definition validateSecretsProvider (provider : string) : option error :=
  guard_err (negb (mem provider ["aws-secrets-manager"; "aws-parameter-store"; "google-secret-manager"; "azure"; "env"; "file"]))
    "must be one of: aws-secrets-manager, aws-parameter-store, google-secret-manager, azure, env, file".

Definition validateDPoP (dpop : DPoPc.DPoPConfig) : option error :=
  let mode := or_else (DPoPc.Mode dpop) "disabled" in
  if negb (mem mode ["disabled"; "required"]) then Some (Errorf "dpop.mode must be disabled or required")
  else if (mode =? "disabled")%string
  then guard_err (negb (is_empty (DPoPc.SigningAlgorithm dpop))) "dpop.signing_algorithm requires mode required"
  else guard_err (negb (mem (or_else (DPoPc.SigningAlgorithm dpop) "ES256") ["ES256"; "ES512"]))
         "dpop.signing_algorithm must be ES256 or ES512".

(** *** Connectors *)

(** [strings.ContainsAny(scope, " \t\r\n")] *)
Definition is_scope_space (c : ascii) : bool := mem (String c "") [" "; String "009" ""; String "013" ""; String "010" ""].

Definition owned_parameters : list string :=
  ["client_id"; "redirect_uri"; "response_type"; "scope"; "state"; "nonce"; "code_challenge"; "code_challenge_method"].

Definition validate_generic_refresh (refresh : list string * gmap string string) : option error :=
  and_then (first_error (fun key =>
      and_then (guard_err (mem key owned_parameters)
                  "generic.refresh.authorization_params may not set a Truster-owned parameter")
               (guard_err (is_empty key) "generic.refresh.authorization_params keys must not be empty"))
      (map_to_list refresh.2).*1)
    (first_error (fun scope => guard_err (blank scope || negb (string_forallb (fun c => negb (is_scope_space c)) scope))
       "generic.refresh.scopes must contain nonempty individual scope values") refresh.1).

Definition url_field (name url : string) : option error :=
  match parse_url url with
  | None => Some (Wrapped (name +:+ " is not a valid URL") (Errorf "url"))
  | Some _ => None
  end.

Definition validate_generic (generic : Generic.GenericConfig) : option error :=
  and_then (guard_err (is_empty (Generic.AuthorizationURL generic)) "generic.authorization_url is required")
  (and_then (guard_err (is_empty (Generic.TokenURL generic)) "generic.token_url is required")
  (and_then (guard_err (is_empty (Generic.UserinfoURL generic)) "generic.userinfo_url is required")
  (and_then (url_field "generic.authorization_url" (Generic.AuthorizationURL generic))
  (and_then (url_field "generic.token_url" (Generic.TokenURL generic))
  (and_then (url_field "generic.userinfo_url" (Generic.UserinfoURL generic))
  match Generic.Refresh generic with
  | Some refresh => validate_generic_refresh refresh
  | None => None
  end))))).

Definition validateConnector (c : Connectorc.ConnectorConfig) : option error :=
  and_then (guard_err (negb (mem (Connectorc.Type_ c) ["google"; "github"; "generic"; "email"]))
              "type must be google, github, generic, or email")
  (if (Connectorc.Type_ c =? "generic")%string
   then match Connectorc.Generic_ c with
        | None => Some (Errorf "generic configuration is required for type generic")
        | Some generic => validate_generic generic
        end
   else None).

(** [idPattern]: an alphanumeric byte and at most 63 of the alphanumeric bytes, the
    underscore and the hyphen. *)
Definition is_id_byte (c : ascii) : bool := is_alnum c || contains_byte "_-" c.
Definition path_safe (id : string) : bool :=
  match id with
  | String c t => is_alnum c && (len t <=? 63) && string_forallb is_id_byte t
  | EmptyString => false
  end.

Definition is_email (connector : Connectorc.ConnectorConfig) : bool :=
  (Connectorc.Type_ connector =? "email")%string.

(** The checks of one connector. *)
Definition validate_login_connector (kv : string * Connectorc.ConnectorConfig) : option error :=
  let '(id, connector) := kv in
  and_then (guard_err (negb (path_safe id)) "connector ID is not path-safe")
  (and_then (wrapped "connector" (validateConnector connector))
  (and_then (guard_err (is_empty (Connectorc.DisplayName connector)) "connector: display_name is required")
            (guard_err (negb (is_email connector) && is_empty (Connectorc.CredentialsSecret connector))
               "connector: credentials_secret is required"))).

Definition refresh_enabled (cfg : Config.Config) : bool :=
  match Config.PolicyDatabase cfg with
  | Some database => Refreshc.Enabled (Defaults.RefreshTokens (PolicyDB.ClientDefaults database))
  | None => false
  end
  || existsb (fun kv : string * Client.ClientConfig => Refreshc.Enabled (Client.RefreshTokens kv.2))
       (map_to_list (static_clients (Config.StaticPolicy cfg))).

Definition needs_encryption (cfg : Config.Config) : bool :=
  existsb (fun kv : string * Connectorc.ConnectorConfig =>
    (Connectorc.Type_ kv.2 =? "github")%string || (refresh_enabled cfg && negb (is_email kv.2)))
    (map_to_list (Config.UserLoginConnectors cfg)).
Definition has_email_connector (cfg : Config.Config) : bool :=
  existsb (fun kv : string * Connectorc.ConnectorConfig => is_email kv.2)
    (map_to_list (Config.UserLoginConnectors cfg)).

(** *** Mail *)

(** [textproto.CanonicalMIMEHeaderKey] of a valid header name. *)
Definition upper_byte (c : ascii) : ascii :=
  let z := byte_z c in if (97 <=? z) && (z <=? 122) then z_byte (z - 32) else c.
Fixpoint canonical_header (upper : bool) (s : string) : string :=
  match s with
  | EmptyString => ""
  | String c t => String (if upper then upper_byte c else lower_byte c) (canonical_header (Ascii.eqb c "-") t)
  end.
Definition is_header_byte (c : ascii) : bool := is_alnum c || contains_byte "!#$%&'*+.^_`|~-" c.
Definition header_name (s : string) : bool := negb (is_empty s) && string_forallb is_header_byte s.

Definition validate_smtp (smtp : SMTPc.SMTPConfig) : SMTPc.SMTPConfig + error :=
  if is_empty (SMTPc.Host smtp) || (SMTPc.Port smtp <? 1) || (65535 <? SMTPc.Port smtp)
     || is_empty (SMTPc.FromAddress smtp)
  then inr (Errorf "complete email.smtp configuration is required")
  else if negb (bool_decide (mail_address (SMTPc.FromAddress smtp) = Some (SMTPc.FromAddress smtp)))
  then inr (Errorf "email.smtp.from_address must be a bare email address")
  else
    let smtp := smtp <| SMTPc.TLSMode := or_else (SMTPc.TLSMode smtp) "starttls" |> in
    if negb (mem (SMTPc.TLSMode smtp) ["starttls"; "implicit"; "plaintext"])
    then inr (Errorf "email.smtp.tls_mode must be starttls, implicit, or plaintext")
    else if (SMTPc.TLSMode smtp =? "plaintext")%string && negb (SMTPc.Host smtp =? "localhost")%string
    then inr (Errorf "email.smtp.tls_mode plaintext is only permitted when host is localhost")
    else inl smtp.

Definition validate_remote_ip (remoteIP : RemoteIPc.TurnstileRemoteIPConfig)
  : RemoteIPc.TurnstileRemoteIPConfig + error :=
  if (RemoteIPc.Source remoteIP =? "remote_addr")%string
  then if negb (is_empty (RemoteIPc.Header remoteIP))
       then inr (Errorf "email.turnstile.remote_ip.header is only valid for the header source")
       else inl remoteIP
  else if (RemoteIPc.Source remoteIP =? "header")%string
  then if negb (header_name (RemoteIPc.Header remoteIP))
       then inr (Errorf "email.turnstile.remote_ip.header must be a valid HTTP header name")
       else inl (remoteIP <| RemoteIPc.Header := canonical_header true (RemoteIPc.Header remoteIP) |>)
  else inr (Errorf "email.turnstile.remote_ip.source must be remote_addr or header").

Definition validate_turnstile (turnstile : Turnstilec.TurnstileConfig) : Turnstilec.TurnstileConfig + error :=
  if xorb (is_empty (Turnstilec.SiteKey turnstile)) (is_empty (Turnstilec.SecretName turnstile))
  then inr (Errorf "email.turnstile site_key and secret_name must be set together")
  else match Turnstilec.RemoteIP turnstile with
  | None => inl turnstile
  | Some remoteIP =>
      remoteIP ?← validate_remote_ip remoteIP;
      inl (turnstile <| Turnstilec.RemoteIP := Some remoteIP |>)
  end.

(** A check of an optional part. *)
Definition optional {A} (check : A -> A + error) (o : option A) : option A + error :=
  match o with None => inl None | Some a => a ?← check a; inl (Some a) end.

(** Whether mail must be delivered. *)
Definition needs_delivery (hasEmailConnector : bool) (email : Email.EmailConfig) : bool :=
  hasEmailConnector || mem (Email.VerificationMode email) ["provider"; "strict"].

Definition validate_email (hasEmailConnector : bool) (email : Email.EmailConfig) : Email.EmailConfig + error :=
  let needsEmailDelivery := needs_delivery hasEmailConnector email in
  let otpTTL := Email.OTPTTL email in
  _ ?← checked (and_then
    (guard_err (negb (mem (Email.VerificationMode email) ["disabled"; "provider"; "strict"]))
       "email.verification_mode must be disabled, provider, or strict")
    (and_then (guard_err (needsEmailDelivery && is_empty (Email.OTPSecretName email))
       "email.otp_secret_name is required when email verification can occur")
    (and_then (guard_err (needsEmailDelivery && is_nil (Email.SMTP email))
       "complete email.smtp configuration is required")
    (guard_err (needsEmailDelivery && ((otpTTL <? minute) || (10 * minute <? otpTTL) || negb (Z.rem otpTTL minute =? 0)))
       "email.otp_ttl must be a whole number of minutes from 1m through 10m"))));
  smtp ?← optional validate_smtp (Email.SMTP email);
  turnstile ?← optional validate_turnstile (Email.Turnstile email);
  inl (email <| Email.SMTP := smtp |> <| Email.Turnstile := turnstile |>).

(** *** Databases *)

Definition validateStateDatabase (database : StateDB.StateDatabaseConfig) : option error :=
  if (StateDB.Driver database =? "sqlite")%string
  then and_then (guard_err (blank (StateDB.Path database)) "path is required for sqlite")
         (guard_err (negb (is_empty (StateDB.ConnectionStringSecret database))
                     || negb (StateDB.MaxConnections database =? 0) || negb (StateDB.QueryTimeout database =? 0)
                     || is_some (StateDB.Migrations database)) "PostgreSQL settings are not valid for sqlite")
  else if (StateDB.Driver database =? "postgresql")%string
  then and_then (guard_err (negb (is_empty (StateDB.Path database))) "path is not valid for postgresql")
       (and_then (guard_err (blank (StateDB.ConnectionStringSecret database))
                    "connection_string_secret is required for postgresql")
       (and_then (guard_err (StateDB.MaxConnections database <=? 0) "max_connections must be positive")
       (and_then (guard_err (StateDB.QueryTimeout database <=? 0) "query_timeout must be positive")
                 (guard_err match StateDB.Migrations database with
                            | Some secret => negb (is_empty secret) && blank secret
                            | None => false
                            end "migrations.connection_string_secret must not be blank"))))
  else Some (Errorf "driver must be sqlite or postgresql").

Definition outside (lo hi v : Z) : bool := (v <? lo) || (hi <? v).

Definition validatePolicyDatabase (policyDatabase : PolicyDB.PolicyDatabaseConfig) : option error :=
  let defaults := PolicyDB.ClientDefaults policyDatabase in
  let r := Defaults.RefreshTokens defaults in
  let cache := PolicyDB.ClientLookupCache policyDatabase in
  and_then (guard_err (negb (PolicyDB.Driver policyDatabase =? "postgresql")%string) "driver must be postgresql")
  (and_then (guard_err (blank (PolicyDB.ConnectionStringSecret policyDatabase))
               "connection_string_secret is required")
  (and_then (guard_err (length (PolicyDB.RedirectURIs policyDatabase) =? 0)%nat "redirect_uris must not be empty")
  (and_then (first_error (fun redirect => wrapped "redirect_uris" (validateRedirectURI redirect))
               (PolicyDB.RedirectURIs policyDatabase))
  (and_then (guard_err (Refreshc.AllowOfflineAccess r && negb (Refreshc.Enabled r))
               "client_defaults.refresh_tokens.allow_offline_access requires enabled")
  (and_then (wrapped "client_defaults" (validateDPoP (Defaults.DPoP defaults)))
  (and_then (guard_err ((Refreshc.SessionAbsoluteTTL r <? Refreshc.SessionIdleTTL r)
                        || (Refreshc.OfflineAbsoluteTTL r <? Refreshc.OfflineIdleTTL r))
               "client_defaults refresh idle TTL must not exceed absolute TTL")
  (and_then (guard_err (outside (10 * millisecond) (30 * second) (PolicyDB.QueryTimeout policyDatabase))
               "query_timeout must be between 10ms and 30s")
  (and_then (guard_err ((hour <? Lookup.TTL cache) || (hour <? Lookup.NegativeTTL cache))
               "client lookup cache TTLs must not exceed 1h")
  (and_then (guard_err (outside 1 100000 (Lookup.MaxEntries cache)
                        || outside 1 100000 (PolicyDB.PolicyBuildCache policyDatabase))
               "cache max_entries must be between 1 and 100000")
  (and_then (guard_err (outside 1 32 (PolicyDB.MaxConnections policyDatabase))
               "max_connections must be between 1 and 32")
            (guard_err (outside 1 1000 (PolicyDB.MaxTrustRows policyDatabase)
                        || outside 1 1000 (PolicyDB.MaxGroups policyDatabase)
                        || outside 1 4096 (PolicyDB.MaxGroupBytes policyDatabase)
                        || outside 1024 1048576 (PolicyDB.MaxJSONBytes policyDatabase))
               "result limits are outside safe bounds"))))))))))).

(** *** Clients *)

Definition validateClient (clientID : string) (c : Client.ClientConfig) (defaultRedirectURIs : list string)
    (mappings : gmap string (gmap string (list string))) : option error :=
  let redirectURIs := if (length (Client.RedirectURIs c) =? 0)%nat then defaultRedirectURIs else Client.RedirectURIs c in
  and_then (guard_err (is_empty clientID) "client_id cannot be empty")
  (and_then (guard_err (length redirectURIs =? 0)%nat
               "redirect_uris must be specified either per-client or as default_redirect_uris")
  (and_then (first_error (fun uri => wrapped "invalid redirect_uri" (validateRedirectURI uri)) redirectURIs)
  (and_then (guard_err (negb (is_empty (Client.UserGroupMapping c)) && is_nil (mappings !! Client.UserGroupMapping c))
               "user_group_mapping not found in user_group_mappings")
            (validateDPoP (Client.DPoP c))))).

Definition validate_static_client (static : Static.StaticPolicyConfig) (kv : string * Client.ClientConfig)
  : option error :=
  let '(clientID, client) := kv in
  let r := Client.RefreshTokens client in
  and_then (guard_err (Refreshc.AllowOfflineAccess r && negb (Refreshc.Enabled r))
              "client: refresh_tokens.allow_offline_access requires refresh_tokens.enabled")
  (and_then (guard_err (Refreshc.SessionAbsoluteTTL r <? Refreshc.SessionIdleTTL r)
               "client: refresh_tokens.session_idle_ttl must not exceed session_absolute_ttl")
  (and_then (guard_err (Refreshc.OfflineAbsoluteTTL r <? Refreshc.OfflineIdleTTL r)
               "client: refresh_tokens.offline_idle_ttl must not exceed offline_absolute_ttl")
            (wrapped "client" (validateClient clientID client (default_redirects static)
                                 (Static.UserGroupMappings static))))).

(** [emailRegex]: a local part, an at sign, and a domain that ends in a point and at least
    two letters. *)
Definition is_letter (c : ascii) : bool :=
  let z := byte_z c in ((65 <=? z) && (z <=? 90)) || ((97 <=? z) && (z <=? 122)).
Definition is_local_byte (c : ascii) : bool := is_alnum c || contains_byte "._%+-" c.
Definition is_domain_byte (c : ascii) : bool := is_alnum c || contains_byte ".-" c.
Definition email_format (s : string) : bool :=
  match split_on "@" s with
  | [local; domain] =>
      negb (is_empty local) && string_forallb is_local_byte local && string_forallb is_domain_byte domain
      && match rev (split_on "." domain) with
         | top :: rest => (2 <=? len top) && string_forallb is_letter top
                          && (negb (is_empty (join "." (rev rest))))
         | [] => false
         end
  | _ => false
  end.

Definition validateUserGroupMappings (mappings : gmap string (gmap string (list string))) : option error :=
  first_error (fun kv : string * gmap string (list string) =>
    and_then (guard_err (is_empty kv.1) "mapping key cannot be empty")
      (first_error (fun email => guard_err (negb (email_format email)) "invalid email format in mapping")
         (map_to_list kv.2).*1)) (map_to_list mappings).

(** *** The whole *)

Definition validate_certificate (certificate : Serving.ServingCertificateConfig) : option error :=
  and_then (guard_err (blank (Serving.CertificateFile certificate)) "serving_certificate.certificate_file is required")
           (guard_err (blank (Serving.PrivateKeyFile certificate)) "serving_certificate.private_key_file is required").

Definition validate_secrets (secrets : Secretsc.SecretsConfig) : option error :=
  and_then (wrapped "secrets.provider" (validateSecretsProvider (Secretsc.Provider secrets)))
  (and_then (guard_err (is_empty (Secretsc.SigningKeyName secrets)) "secrets.signing_key_name is required")
  (and_then (guard_err ((Secretsc.Provider secrets =? "azure")%string && is_empty (Secretsc.AzureKeyVaultURL secrets))
               "secrets.azure_keyvault_url is required for Azure provider")
            (guard_err ((Secretsc.Provider secrets =? "file")%string && is_empty (Secretsc.FileDirectory secrets))
               "secrets.file_directory is required for file provider"))).

(** The process settings. *)
Definition validate_process (cfg : Config.Config) : option error :=
  and_then (wrapped "issuer_url" (validateIssuerURL (Config.IssuerURL cfg)))
  (and_then (if is_empty (Config.HomepageURL cfg) then None
             else wrapped "homepage_url" (validateHomepageURL (Config.HomepageURL cfg)))
  (and_then (guard_err (is_empty (Config.HTTPListenAddr cfg)) "http_listen_addr is required")
  (and_then match Config.ServingCertificate cfg with
            | Some certificate => validate_certificate certificate
            | None => None
            end
  (and_then (guard_err (negb (isTrustAlg (Config.SigningAlgorithm cfg)))
               "signing_algorithm must be one of RS256, RS384, RS512, ES256, ES384, ES512, PS256, PS384, PS512, or EdDSA")
            (validate_secrets (Config.Secrets_ cfg)))))).

(** The login connectors. *)
Definition validate_connectors (cfg : Config.Config) : option error :=
  and_then (guard_err (size (Config.UserLoginConnectors cfg) =? 0)%nat
              "at least one user login connector must be configured")
  (and_then (first_error validate_login_connector (map_to_list (Config.UserLoginConnectors cfg)))
            (guard_err (needs_encryption cfg && is_empty (Secretsc.EncryptionKeyName (Config.Secrets_ cfg)))
               "secrets.encryption_key_name is required when a refresh-enabled client can use a non-email connector")).

(** The policies and the databases. *)
Definition validate_policies (cfg : Config.Config) : option error :=
  let static := Config.StaticPolicy cfg in
  and_then (guard_err match Static.Clients static with Some clients => (size clients =? 0)%nat | None => false end
              "static_policy.clients must not be empty")
  (and_then match Static.DefaultRedirectURIs static with
            | Some defaults =>
                and_then (guard_err (length defaults =? 0)%nat "static_policy.default_redirect_uris must not be empty")
                  (first_error (fun redirect =>
                     wrapped "static_policy.default_redirect_uris" (validateRedirectURI redirect)) defaults)
            | None => None
            end
  (and_then (guard_err ((size (static_clients static) =? 0)%nat && is_nil (Config.PolicyDatabase cfg))
               "static_policy.clients or policy_database must configure at least one client")
  (and_then match Config.PolicyDatabase cfg with
            | Some database => wrapped "policy_database" (validatePolicyDatabase database)
            | None => None
            end
  (and_then match Config.StateDatabase cfg with
            | Some database => wrapped "state_database" (validateStateDatabase database)
            | None => None
            end
  (and_then (first_error (validate_static_client static) (map_to_list (static_clients static)))
            (wrapped "static_policy.user_group_mappings"
               (validateUserGroupMappings (Static.UserGroupMappings static)))))))).

Definition validate (cfg : Config.Config) : Config.Config + error :=
  _ ?← checked (validate_process cfg);
  _ ?← checked (validate_connectors cfg);
  email ?← (match Config.Email_ cfg with
            | None => if has_email_connector cfg
                      then inr (Errorf "email configuration is required when an email connector is configured")
                      else inl None
            | Some email => email ?← validate_email (has_email_connector cfg) email; inl (Some email)
            end);
  let cfg := cfg <| Config.Email_ := email |> in
  _ ?← checked (validate_policies cfg);
  match validateTrust cfg with
  | inl cfg => inl cfg
  | inr err => inr (Wrapped "trust configuration" err)
  end.

(** ** Parsing and loading *)

Definition invalid (err : error) : error := Wrapped "config validation failed" err.
Definition invalid_or {A} (a : A + error) : A + error :=
  match a with inl a => inl a | inr err => inr (invalid err) end.

Definition Parse (data override : string) : Config.Config + error :=
  match standardize data with
  | None => inr (Wrapped "failed to parse config" (Errorf "hujson"))
  | Some document =>
      match dec_config document zero_config with
      | None => inr (Wrapped "failed to parse config" (Errorf "json"))
      | Some cfg =>
          _ ?← invalid_or (checked (validatePolicyFields document));
          _ ?← invalid_or (checked (validateStateDatabaseFields document (Config.StateDatabase cfg)));
          cfg ?← invalid_or (apply_defaults document override cfg);
          invalid_or (validate cfg)
      end
  end.

(** [Load]; [read] is [os.ReadFile]. *)
Definition Load (read : string -> string + error) (override path : string) : Config.Config + error :=
  if is_empty path then inr (Errorf "config path is required")
  else match read path with
  | inr err => inr (Wrapped "failed to read config file" err)
  | inl data => Parse data override
  end.
End Load.
