(* ===== verification/LoaderSafety.v ===== *)
(** * What a loaded configuration satisfies

    The values a decoder can reach, what the validators have checked when they pass, and
    the invariants of the configuration that follow. *)

From S2P Require Import Prelude Runtime Json Config Durations ConfigDecode LoaderFields TrustPolicy TrustConfig Loader.

(** ** Decoders keep invariants *)

Definition keeps {A} (P : A -> Prop) (d : decoder A) : Prop :=
  forall v old r, P old -> d v old = Some r -> P r.

Lemma keeps_true {A} (d : decoder A) : keeps (fun _ => True) d.
Proof. done. Qed.

Lemma keeps_duration : keeps (fun n => 0 <= n) dec_duration.
Proof.
  intros v old r _. unfold dec_duration. destruct (dec_string v "") as [text|]; [cbn|done].
  destruct (ParseDuration text) as [d|] eqn:Hd; [|done]. intros [= <-].
  apply ParseDuration_positive in Hd. lia.
Qed.

Section Containers.
Context {A : Type} (P : A -> Prop) (zero : A) (d : decoder A) (Hzero : P zero) (Hd : keeps P d).

Lemma keeps_ptr : keeps (fun o => forall a, o = Some a -> P a) (dec_ptr zero d).
Proof.
  intros v old r Hold Hr a ->. unfold dec_ptr in Hr.
  assert (P (default zero old)) as Hp by (destruct old; [by apply Hold | done]).
  destruct v; try done; apply fmap_Some in Hr as (x & Hx & [= ->]); by eapply Hd.
Qed.

Lemma dec_members_keep members m r :
  map_Forall (fun _ => P) m -> dec_members zero d members m = Some r -> map_Forall (fun _ => P) r.
Proof.
  revert m. induction members as [|[k v] members IH]; intros m Hm; cbn [dec_members]; [by intros [= <-]|].
  destruct (d v zero) as [x|] eqn:Hx; [cbn [mbind option_bind]|done]. apply IH, map_Forall_insert_2; [|done].
  by eapply Hd.
Qed.

Lemma keeps_nilable_map : keeps (fun o => forall m, o = Some m -> map_Forall (fun _ => P) m) (dec_nilable_map zero d).
Proof.
  intros v old r Hold Hr m ->. unfold dec_nilable_map in Hr. destruct v; try done.
  apply fmap_Some in Hr as (x & Hx & [= ->]). eapply dec_members_keep; [|done].
  destruct old; [by apply Hold | cbn; apply map_Forall_empty].
Qed.

Lemma keeps_map : keeps (map_Forall (fun _ => P)) (dec_map zero d).
Proof.
  intros v old r Hold Hr. unfold dec_map in Hr. apply fmap_Some in Hr as (o & Ho & ->).
  apply keeps_nilable_map in Ho; [|by intros ? [= <-]]. destruct o; [by apply Ho | cbn; apply map_Forall_empty].
Qed.
End Containers.

Lemma field_named_elem {R} (fields : list (string * decoder R)) key d :
  field_named fields key = Some d -> exists name, (name, d) ∈ fields.
Proof.
  unfold field_named. destruct (List.find _ fields) as [f|] eqn:Hf.
  - intros [= <-]. exists f.1. apply find_some in Hf as [Hf _]. apply list_elem_of_In. by destruct f.
  - intros (f & Hff & ->)%fmap_Some. exists f.1. apply find_some in Hff as [Hff _]. apply list_elem_of_In. by destruct f.
Qed.

Lemma keeps_struct {R} (P : R -> Prop) (fields : list (string * decoder R)) :
  Forall (fun f => keeps P f.2) fields -> keeps P (dec_struct fields).
Proof.
  intros Hf v old r Hold. unfold dec_struct. destruct v; try done; [by intros [= <-]|].
  revert old Hold. induction members as [|[k v] members IH]; intros old Hold; cbn [dec_fields]; [by intros [= <-]|].
  destruct (field_named fields k) as [d|] eqn:Hd; [cbn [mbind option_bind]|done].
  destruct (d v old) as [r1|] eqn:Hr; [cbn [mbind option_bind]|done]. apply IH.
  apply field_named_elem in Hd as (name & Hin). rewrite Forall_forall in Hf. by eapply (Hf _ Hin).
Qed.

Lemma keeps_field {R A} (P : R -> Prop) (Q : A -> Prop) (proj : R -> A) `{!Setter proj} name (d : decoder A) :
  keeps Q d -> (forall r, P r -> Q (proj r)) -> (forall a r, Q a -> P r -> P (upd proj a r)) ->
  keeps P (field proj name d).2.
Proof.
  intros Hd Hproj Hupd v old r Hold Hr. unfold field in Hr. cbn [snd] in Hr.
  apply fmap_Some in Hr as (a & Ha & ->). apply Hupd; [|done]. eapply Hd; [|done]. by apply Hproj.
Qed.

(** A field the invariant does not look at. *)
Lemma keeps_other {R A} (P : R -> Prop) (proj : R -> A) `{!Setter proj} name (d : decoder A) :
  (forall a r, P r -> P (upd proj a r)) -> keeps P (field proj name d).2.
Proof. intros Hupd. apply (keeps_field P (fun _ => True)); [apply keeps_true | done | by intros; apply Hupd]. Qed.

Ltac by_fields :=
  repeat (apply Forall_cons; split; [first
    [ apply keeps_other; by intros ? [] ?
    | idtac ] |]); try apply Forall_nil_2.

(** ** The durations of a decoded configuration *)

Definition refresh_nonneg (r : Refreshc.RefreshTokenConfig) : Prop :=
  0 <= Refreshc.SessionIdleTTL r /\ 0 <= Refreshc.SessionAbsoluteTTL r /\
  0 <= Refreshc.OfflineIdleTTL r /\ 0 <= Refreshc.OfflineAbsoluteTTL r.

Lemma keeps_refresh : keeps refresh_nonneg dec_refresh.
Proof.
  apply keeps_struct. by_fields;
    apply (keeps_field _ (fun n => 0 <= n)); try apply keeps_duration; unfold refresh_nonneg; cbn; tauto.
Qed.

Definition client_nonneg (c : Client.ClientConfig) : Prop := refresh_nonneg (Client.RefreshTokens c).
Definition static_nonneg (s : Static.StaticPolicyConfig) : Prop :=
  forall clients, Static.Clients s = Some clients -> map_Forall (fun _ => client_nonneg) clients.
Definition defaults_nonneg (d : Defaults.PolicyClientDefaults) : Prop := refresh_nonneg (Defaults.RefreshTokens d).
Definition lookup_nonneg (l : Lookup.ClientLookupCacheConfig) : Prop :=
  0 <= Lookup.TTL l /\ 0 <= Lookup.NegativeTTL l.
Definition database_nonneg (d : PolicyDB.PolicyDatabaseConfig) : Prop :=
  defaults_nonneg (PolicyDB.ClientDefaults d) /\ lookup_nonneg (PolicyDB.ClientLookupCache d) /\
  0 <= PolicyDB.QueryTimeout d.
Definition config_nonneg (c : Config.Config) : Prop :=
  0 <= Config.AccessTokenTTL c /\ 0 <= Config.IDTokenTTL c /\ static_nonneg (Config.StaticPolicy c) /\
  forall d, Config.PolicyDatabase c = Some d -> database_nonneg d.

Lemma refresh_nonneg_zero : refresh_nonneg zero_refresh_config.
Proof. by split_and!. Qed.

(** The field that carries the invariant [Q]. *)
Ltac by_field lemma := eapply keeps_field; [apply lemma | cbn; tauto | cbn; tauto].

Lemma keeps_client `{!JSONLib} : keeps client_nonneg dec_client.
Proof. apply keeps_struct. by_fields. by_field keeps_refresh. Qed.

Lemma keeps_static `{!JSONLib} : keeps static_nonneg dec_static.
Proof.
  apply keeps_struct. by_fields. unfold static_nonneg.
  by_field (keeps_nilable_map client_nonneg zero_client dec_client refresh_nonneg_zero keeps_client).
Qed.

Lemma keeps_defaults : keeps defaults_nonneg dec_defaults.
Proof. apply keeps_struct. by_fields. by_field keeps_refresh. Qed.

Lemma keeps_lookup : keeps lookup_nonneg dec_lookup.
Proof. apply keeps_struct. by_fields; unfold lookup_nonneg; by_field keeps_duration. Qed.

Lemma keeps_database : keeps database_nonneg dec_policy_database.
Proof.
  apply keeps_struct. by_fields; unfold database_nonneg.
  - by_field keeps_defaults.
  - by_field keeps_lookup.
  - by_field keeps_duration.
Qed.

Lemma database_nonneg_zero : database_nonneg zero_policy_database.
Proof. split_and!; done. Qed.

Lemma keeps_config `{!JSONLib} : keeps config_nonneg dec_config.
Proof.
  apply keeps_struct. by_fields; unfold config_nonneg.
  - by_field keeps_duration.
  - by_field keeps_duration.
  - by_field keeps_static.
  - by_field (keeps_ptr database_nonneg zero_policy_database dec_policy_database database_nonneg_zero keeps_database).
Qed.

Lemma decoded_nonneg `{!JSONLib} document cfg : dec_config document zero_config = Some cfg -> config_nonneg cfg.
Proof. apply keeps_config. by split_and!. Qed.

(** ** What a sound configuration is *)

Definition lifetimes_sound (r : Refreshc.RefreshTokenConfig) : Prop :=
  0 < Refreshc.SessionIdleTTL r <= Refreshc.SessionAbsoluteTTL r /\
  0 < Refreshc.OfflineIdleTTL r <= Refreshc.OfflineAbsoluteTTL r /\
  (Refreshc.AllowOfflineAccess r = true -> Refreshc.Enabled r = true).

(** No binding, or a binding to keys of one supported algorithm. *)
Definition dpop_sound (d : DPoPc.DPoPConfig) : Prop :=
  (DPoPc.Mode d = "disabled" /\ DPoPc.SigningAlgorithm d = "") \/
  (DPoPc.Mode d = "required" /\ DPoPc.SigningAlgorithm d ∈ ["ES256"; "ES512"]).

Section Sound.
Context `{Env} `{!JSONLib} `{!URLs} `{!ConfigText}.

(** A code is sent to it over TLS or to the same machine. *)
Definition redirect_sound (uri : string) : Prop :=
  exists u, parse_url uri = Some u /\
    (Scheme u = "https" \/ (Scheme u = "http" /\ Hostname u ∈ ["localhost"; "127.0.0.1"])).

Record client_sound (c : Client.ClientConfig) : Prop := {
  cl_redirects : Client.RedirectURIs c <> [] /\ Forall redirect_sound (Client.RedirectURIs c);
  cl_lifetimes : lifetimes_sound (Client.RefreshTokens c);
  cl_dpop : dpop_sound (Client.DPoP c)
}.

Definition issuer_url_sound (issuer : string) : Prop :=
  exists u, parse_url issuer = Some u /\ Host u <> "" /\ HasUser u = false /\ RawQuery u = "" /\ Fragment u = "" /\
    (Scheme u = "https" \/ (Scheme u = "http" /\ local_host (Hostname u) = true)).

Record smtp_sound (smtp : SMTPc.SMTPConfig) : Prop := {
  sm_host : SMTPc.Host smtp <> "";
  sm_port : 1 <= SMTPc.Port smtp <= 65535;
  sm_from : mail_address (SMTPc.FromAddress smtp) = Some (SMTPc.FromAddress smtp);
  sm_tls : SMTPc.TLSMode smtp ∈ ["starttls"; "implicit"]
           \/ (SMTPc.TLSMode smtp = "plaintext" /\ SMTPc.Host smtp = "localhost")
}.

(** Mail can be sent and its codes live one to ten whole minutes. *)
Record mail_sound (email : Email.EmailConfig) : Prop := {
  ml_secret : Email.OTPSecretName email <> "";
  ml_ttl : exists minutes, Email.OTPTTL email = minutes * minute /\ 1 <= minutes <= 10;
  ml_smtp : exists smtp, Email.SMTP email = Some smtp /\ smtp_sound smtp
}.

(** A client may be given refresh tokens. *)
Definition refresh_used (cfg : Config.Config) : Prop :=
  (exists d, Config.PolicyDatabase cfg = Some d /\
     Refreshc.Enabled (Defaults.RefreshTokens (PolicyDB.ClientDefaults d)) = true) \/
  (exists id c, static_clients (Config.StaticPolicy cfg) !! id = Some c /\
     Refreshc.Enabled (Client.RefreshTokens c) = true).

Record connector_sound (cfg : Config.Config) (id : string) (c : Connectorc.ConnectorConfig) : Prop := {
  cn_id : path_safe id = true;
  cn_type : Connectorc.Type_ c ∈ ["google"; "github"; "generic"; "email"];
  cn_generic : Connectorc.Type_ c = "generic" ->
    exists generic, Connectorc.Generic_ c = Some generic /\ Generic.AuthorizationURL generic <> "" /\
      Generic.TokenURL generic <> "" /\ Generic.UserinfoURL generic <> "";
  cn_credentials : Connectorc.Type_ c <> "email" -> Connectorc.CredentialsSecret c <> "";
  cn_mail : Connectorc.Type_ c = "email" -> exists email, Config.Email_ cfg = Some email /\ mail_sound email;
  cn_encryption : Connectorc.Type_ c = "github" \/ (refresh_used cfg /\ Connectorc.Type_ c <> "email") ->
    Secretsc.EncryptionKeyName (Config.Secrets_ cfg) <> ""
}.

(** The policy database is bounded: caches, connections, times and results. *)
Record policy_database_sound (d : PolicyDB.PolicyDatabaseConfig) : Prop := {
  pd_redirects : PolicyDB.RedirectURIs d <> [] /\ Forall redirect_sound (PolicyDB.RedirectURIs d);
  pd_lifetimes : lifetimes_sound (Defaults.RefreshTokens (PolicyDB.ClientDefaults d));
  pd_dpop : dpop_sound (Defaults.DPoP (PolicyDB.ClientDefaults d));
  pd_timeout : 10 * millisecond <= PolicyDB.QueryTimeout d <= 30 * second;
  pd_ttl : 0 < Lookup.TTL (PolicyDB.ClientLookupCache d) <= hour;
  pd_negative : 0 < Lookup.NegativeTTL (PolicyDB.ClientLookupCache d) <= hour;
  pd_entries : 1 <= Lookup.MaxEntries (PolicyDB.ClientLookupCache d) <= 100000;
  pd_builds : 1 <= PolicyDB.PolicyBuildCache d <= 100000;
  pd_connections : 1 <= PolicyDB.MaxConnections d <= 32;
  pd_rows : 1 <= PolicyDB.MaxTrustRows d <= 1000;
  pd_groups : 1 <= PolicyDB.MaxGroups d <= 1000;
  pd_group_bytes : 1 <= PolicyDB.MaxGroupBytes d <= 4096;
  pd_json : 1024 <= PolicyDB.MaxJSONBytes d <= 1048576
}.

Definition state_database_sound (d : StateDB.StateDatabaseConfig) : Prop :=
  (StateDB.Driver d = "sqlite" /\ blank (StateDB.Path d) = false) \/
  (StateDB.Driver d = "postgresql" /\ blank (StateDB.ConnectionStringSecret d) = false /\
   0 < StateDB.MaxConnections d /\ 0 < StateDB.QueryTimeout d).

Record config_sound (cfg : Config.Config) : Prop := {
  cf_ttls : 0 < Config.AccessTokenTTL cfg /\ 0 < Config.IDTokenTTL cfg;
  cf_issuer : issuer_url_sound (Config.IssuerURL cfg);
  cf_algorithm : Config.SigningAlgorithm cfg ∈ supportedSigningAlgorithms;
  cf_connectors : Config.UserLoginConnectors cfg <> ∅ /\
    map_Forall (connector_sound cfg) (Config.UserLoginConnectors cfg);
  cf_mail : forall email, Config.Email_ cfg = Some email ->
    Email.VerificationMode email ∈ ["disabled"; "provider"; "strict"] /\
    (Email.VerificationMode email <> "disabled" -> mail_sound email);
  cf_clients : static_clients (Config.StaticPolicy cfg) <> ∅ \/ is_Some (Config.PolicyDatabase cfg);
  cf_database : forall d, Config.PolicyDatabase cfg = Some d -> policy_database_sound d;
  cf_state : exists d, Config.StateDatabase cfg = Some d /\ state_database_sound d
}.
End Sound.

(** ** What the validators have checked *)

Lemma wrapped_none msg err : wrapped msg err = None <-> err = None.
Proof. destruct err; by split. Qed.
Lemma checked_ok err : checked err = inl tt <-> err = None.
Proof. destruct err; by split. Qed.
Lemma ok_then_ok {A B} (a : A + error) (f : A -> B + error) r :
  ok_then a f = inl r <-> exists x, a = inl x /\ f x = inl r.
Proof. destruct a; naive_solver. Qed.
Lemma empty_false s : is_empty s = false <-> s <> "".
Proof. unfold is_empty. by rewrite String.eqb_neq. Qed.
Lemma empty_true s : is_empty s = true <-> s = "".
Proof. unfold is_empty. by rewrite String.eqb_eq. Qed.
Lemma and_false (a b : bool) : a && b = false <-> (a = true -> b = false).
Proof. destruct a, b; naive_solver. Qed.
Lemma length_zero_false {A} (l : list A) : (length l =? 0)%nat = false <-> l <> [].
Proof. by destruct l. Qed.
Lemma outside_false lo hi v : outside lo hi v = false <-> lo <= v <= hi.
Proof. unfold outside. destruct (Z.ltb_spec v lo), (Z.ltb_spec hi v); cbn; split; try done; lia. Qed.

Create Rewrite HintDb passed.
#[export] Hint Rewrite and_then_none @guard_err_none wrapped_none empty_false empty_true mem_true String.eqb_eq @length_zero_false
  outside_false orb_false_iff and_false @first_error_none Z.ltb_ge Z.leb_gt negb_false_iff : passed.
Ltac passed H := autorewrite with passed in H.

Section Validated.
Context `{Env} `{!JSONLib} `{!URLs} `{!ConfigText}.

Lemma validateRedirectURI_sound uri : validateRedirectURI uri = None -> redirect_sound uri.
Proof.
  unfold validateRedirectURI. destruct (parse_url uri) as [u|] eqn:Hu; [|done].
  destruct (String.eqb_spec (Scheme u) "http") as [Hs|_]; intros Hp; passed Hp; exists u; (split; [done|]).
  - right. by split.
  - left. done.
Qed.

Lemma validateDPoP_sound d : DPoPc.Mode d <> "" ->
  (DPoPc.Mode d = "required" -> DPoPc.SigningAlgorithm d <> "") -> validateDPoP d = None -> dpop_sound d.
Proof.
  intros Hm Ha. unfold validateDPoP, or_else. apply empty_false in Hm. rewrite Hm.
  destruct (negb _) eqn:Hin; [done|]. passed Hin.
  destruct (String.eqb_spec (DPoPc.Mode d) "disabled") as [Hd|Hd]; intros Hp; passed Hp.
  - left. split; [done|]. done.
  - right. assert (DPoPc.Mode d = "required") as Hr by set_solver. split; [done|].
    specialize (Ha Hr). apply empty_false in Ha. by rewrite Ha in Hp.
Qed.
Lemma validateIssuerURL_sound issuer : validateIssuerURL issuer = None -> issuer_url_sound issuer.
Proof.
  unfold validateIssuerURL. destruct (is_empty issuer); [done|]. destruct (parse_url issuer) as [u|] eqn:Hu; [|done].
  intros Hp; passed Hp. destruct Hp as ((? & ?) & ((? & ?) & ?) & Hs & Hl). exists u. split_and!; try done.
  - apply list_elem_of_In in Hs as [Hs|[Hs|[]]]; [by left | right; by auto].
Qed.

Lemma validate_smtp_sound smtp smtp' : validate_smtp smtp = inl smtp' -> smtp_sound smtp'.
Proof.
  unfold validate_smtp. destruct (is_empty (SMTPc.Host smtp) || _ || _ || _) eqn:Hc; [done|]. passed Hc.
  destruct Hc as [[[Hh Hlo] Hhi] Hf]. destruct (bool_decide _) eqn:Ha; [apply bool_decide_eq_true in Ha|done].
  cbn [negb]. set (smtp1 := smtp <| SMTPc.TLSMode := _ |>).
  destruct (negb (mem (SMTPc.TLSMode smtp1) _)) eqn:Hm; [done|]. passed Hm.
  destruct (_ && _) eqn:Hp; [done|]. passed Hp. intros [= <-]. constructor; try done.
  change (SMTPc.Host smtp1) with (SMTPc.Host smtp) in *.
  apply list_elem_of_In in Hm as [Hm|[Hm|[Hm|[]]]]; [left; set_solver..|]. right. split; [done|]. by apply Hp.
Qed.

Lemma whole_minutes d : minute <= d <= 10 * minute /\ (Z.rem d minute =? 0) = true ->
  exists minutes, d = minutes * minute /\ 1 <= minutes <= 10.
Proof.
  intros [Hd Hm]. apply Z.eqb_eq, Z.rem_divide in Hm; [|done].
  destruct Hm as [k ->]. exists k. split; [done|]. unfold minute, second in Hd. lia.
Qed.

Lemma validate_email_sound has_connector email email' : validate_email has_connector email = inl email' ->
  Email.VerificationMode email' = Email.VerificationMode email /\
  Email.VerificationMode email' ∈ ["disabled"; "provider"; "strict"] /\
  (needs_delivery has_connector email = true -> mail_sound email').
Proof.
  unfold validate_email. intros ([] & Hc & Hr)%ok_then_ok. apply checked_ok in Hc. passed Hc.
  apply ok_then_ok in Hr as (smtp & Hsmtp & Hr). apply ok_then_ok in Hr as (turnstile & Hturnstile & [= <-]).
  destruct Hc as (Hmode & Hsecret & Hnil & Httl). cbn. split_and!; [done|done|].
  intros Hneeds. constructor; cbn; [by apply Hsecret | by apply whole_minutes, Httl |].
  destruct (Email.SMTP email) as [s|]; [|by specialize (Hnil Hneeds)].
  cbn in Hsmtp. apply ok_then_ok in Hsmtp as (s' & Hs & [= <-]). exists s'. split; [done|].
  by eapply validate_smtp_sound.
Qed.
(** Defaults leave no empty mode and no absent lifetime. *)
Definition dpop_filled (d : DPoPc.DPoPConfig) : Prop :=
  DPoPc.Mode d <> "" /\ (DPoPc.Mode d = "required" -> DPoPc.SigningAlgorithm d <> "").
Definition refresh_filled (r : Refreshc.RefreshTokenConfig) : Prop :=
  0 < Refreshc.SessionIdleTTL r /\ 0 < Refreshc.SessionAbsoluteTTL r /\
  0 < Refreshc.OfflineIdleTTL r /\ 0 < Refreshc.OfflineAbsoluteTTL r.

Lemma or_else_nonempty value fallback : fallback <> "" -> or_else value fallback <> "".
Proof. intros Hf. unfold or_else. destruct (is_empty value) eqn:He; [done|]. by passed He. Qed.
Lemma applyDPoPDefaults_filled d : dpop_filled (applyDPoPDefaults d).
Proof.
  unfold dpop_filled, applyDPoPDefaults. set (d1 := d <| DPoPc.Mode := _ |>).
  assert (DPoPc.Mode d1 <> "") as Hm by by apply or_else_nonempty.
  destruct (String.eqb_spec (DPoPc.Mode d1) "required") as [Hr|Hr]; cbn; (split; [done|]); [|done].
  intros _. by apply or_else_nonempty.
Qed.
Lemma applyDurationDefault_positive value fallback : 0 <= value -> 0 < fallback -> 0 < applyDurationDefault value fallback.
Proof. unfold applyDurationDefault. destruct (Z.eqb_spec value 0); lia. Qed.
Lemma applyRefreshDefaults_filled r : refresh_nonneg r -> refresh_filled (applyRefreshDefaults r).
Proof. intros (? & ? & ? & ?). split_and!; by apply applyDurationDefault_positive. Qed.

Lemma lifetimes_checked r : refresh_filled r ->
  (Refreshc.AllowOfflineAccess r = true -> Refreshc.Enabled r = true) ->
  Refreshc.SessionIdleTTL r <= Refreshc.SessionAbsoluteTTL r ->
  Refreshc.OfflineIdleTTL r <= Refreshc.OfflineAbsoluteTTL r -> lifetimes_sound r.
Proof. intros (? & ? & ? & ?) ???. by split_and!. Qed.

Lemma Forall_redirects (f : string -> option error) uris :
  (forall uri, f uri = None -> redirect_sound uri) -> Forall (fun uri => f uri = None) uris ->
  Forall redirect_sound uris.
Proof. intros Hf Hall. by eapply Forall_impl. Qed.

Lemma validatePolicyDatabase_sound d :
  refresh_filled (Defaults.RefreshTokens (PolicyDB.ClientDefaults d)) ->
  dpop_filled (Defaults.DPoP (PolicyDB.ClientDefaults d)) ->
  0 < Lookup.TTL (PolicyDB.ClientLookupCache d) -> 0 < Lookup.NegativeTTL (PolicyDB.ClientLookupCache d) ->
  validatePolicyDatabase d = None -> policy_database_sound d.
Proof.
  intros Hr [Hm Ha] Httl Hneg Hp. unfold validatePolicyDatabase in Hp. passed Hp.
  destruct Hp as (_ & _ & Hne & Hred & Hoff & Hdpop & [Hs Ho] & Hq & [Ht Hn] & [He Hb] & Hc & [[[Hrows Hg] Hgb] Hj]).
  constructor; try done.
  - split; [done|]. revert Hred. apply Forall_redirects. intros uri Hu. passed Hu. by apply validateRedirectURI_sound.
  - by apply lifetimes_checked.
  - by apply validateDPoP_sound.
Qed.

Lemma validateStateDatabase_sound d : validateStateDatabase d = None -> state_database_sound d.
Proof.
  unfold validateStateDatabase. destruct (String.eqb_spec (StateDB.Driver d) "sqlite") as [Hd|_];
    [|destruct (String.eqb_spec (StateDB.Driver d) "postgresql") as [Hd|_]; [|done]]; intros Hp; passed Hp.
  - left. by destruct Hp.
  - right. destruct Hp as (_ & Hs & Hc & Hq & _). by split_and!.
Qed.

(** The client the resolver hands out. *)
Definition with_redirects (static : Static.StaticPolicyConfig) (c : Client.ClientConfig) : Client.ClientConfig :=
  if Z.of_nat (length (Client.RedirectURIs c)) =? 0
  then c <| Client.RedirectURIs := default_redirects static |> else c.

Lemma validate_static_client_sound static id c :
  refresh_filled (Client.RefreshTokens c) -> dpop_filled (Client.DPoP c) ->
  validate_static_client static (id, c) = None -> client_sound (with_redirects static c).
Proof.
  intros Hr [Hm Ha] Hp. unfold validate_static_client, validateClient in Hp. passed Hp.
  destruct Hp as (Hoff & Hs & Ho & _ & Hne & Hred & _ & Hdpop).
  assert (Client.RedirectURIs (with_redirects static c)
          = if (length (Client.RedirectURIs c) =? 0)%nat then default_redirects static else Client.RedirectURIs c) as Huris
    by (unfold with_redirects; destruct (Client.RedirectURIs c) eqn:Hc; [done | exact Hc]).
  assert (Client.RefreshTokens (with_redirects static c) = Client.RefreshTokens c
          /\ Client.DPoP (with_redirects static c) = Client.DPoP c) as [Hrt Hdp]
    by (unfold with_redirects; by destruct (_ =? 0)).
  constructor.
  - rewrite Huris. split; [done|]. revert Hred. apply Forall_redirects. intros uri Hu. passed Hu.
    by apply validateRedirectURI_sound.
  - rewrite Hrt. by apply lifetimes_checked.
  - rewrite Hdp. by apply validateDPoP_sound.
Qed.
(** ** Compilation of the trust bindings changes nothing else *)

(** The clients of [m] are those of [base] but for their bindings. *)
Definition rebound (base m : gmap string Client.ClientConfig) : Prop :=
  (forall id c', m !! id = Some c' -> exists c bindings, base !! id = Some c /\ c' = c <| Client.TrustBindings := bindings |>) /\
  (forall id, is_Some (base !! id) -> is_Some (m !! id)).

Lemma rebound_refl m : rebound m m.
Proof. split; [|done]. intros id c Hc. exists c, (Client.TrustBindings c). split; [done|]. by destruct c. Qed.

Lemma compile_clients_rebound cfg issuers base l m m' :
  (forall id c, (id, c) ∈ l -> base !! id = Some c) -> rebound base m ->
  compile_clients cfg issuers l m = inl m' -> rebound base m'.
Proof.
  revert m. induction l as [|[k c] l IH]; intros m Hl Hm; cbn [compile_clients]; [by intros [= <-]|].
  destruct (_ <? _); [done|]. destruct (compile_client _ _ _ _) as [bs|]; [|done].
  apply IH; [intros; apply Hl; by right|]. destruct Hm as [Hback Hforth]. split.
  - intros id c' [[<- <-]|[Hne Hc]]%lookup_insert_Some; [|by apply Hback]. exists c, bs. split; [|done]. apply Hl. by left.
  - intros id Hid. destruct (decide (k = id)) as [->|Hne]; [by rewrite lookup_insert_eq|].
    rewrite lookup_insert_ne by done. by apply Hforth.
Qed.

Lemma validateTrust_rebound cfg cfg' : validateTrust cfg = inl cfg' ->
  exists (issuers : gmap string Issuer.TrustIssuerConfig) (clients : option (gmap string Client.ClientConfig)),
    cfg' = cfg <| Config.ServiceTokenIssuers := issuers |>
               <| Config.StaticPolicy := (Config.StaticPolicy cfg) <| Static.Clients := clients |> |> /\
    rebound (static_clients (Config.StaticPolicy cfg)) (default ∅ clients).
Proof.
  unfold validateTrust. destruct (check_issuers _ _ _) as [issuers|]; [|done]. destruct (first_error _ _); [done|].
  destruct (compile_clients _ _ _ _) as [clients|] eqn:Hc; [|done]. intros [= <-].
  eexists issuers, _. split; [done|]. unfold static_clients in *.
  destruct (Static.Clients (Config.StaticPolicy cfg)) as [base|]; cbn; [|apply rebound_refl].
  eapply compile_clients_rebound; [|apply rebound_refl|exact Hc]. intros id c. by rewrite elem_of_map_to_list.
Qed.

(** ** The connectors *)

Lemma validate_generic_urls generic : validate_generic generic = None ->
  Generic.AuthorizationURL generic <> "" /\ Generic.TokenURL generic <> "" /\ Generic.UserinfoURL generic <> "".
Proof. intros Hp. unfold validate_generic in Hp. passed Hp. tauto. Qed.

Lemma existsb_map {A} (f : string * A -> bool) (m : gmap string A) id x :
  m !! id = Some x -> f (id, x) = true -> existsb f (map_to_list m) = true.
Proof.
  intros Hm Hf. apply existsb_exists. exists (id, x). split; [|done]. by apply list_elem_of_In, elem_of_map_to_list.
Qed.

Lemma refresh_used_enabled cfg : refresh_used cfg -> refresh_enabled cfg = true.
Proof.
  unfold refresh_enabled. intros [(d & -> & ->)|(id & c & Hc & He)]; [done|].
  apply orb_true_iff. right. by apply (existsb_map _ _ id c).
Qed.

Lemma validate_connector_sound cfg id c :
  validate_connectors cfg = None ->
  (forall email, Config.Email_ cfg = Some email -> has_email_connector cfg = true -> mail_sound email) ->
  (Config.Email_ cfg = None -> has_email_connector cfg = false) ->
  Config.UserLoginConnectors cfg !! id = Some c -> connector_sound cfg id c.
Proof.
  intros Hp Hmail Hnone Hc. unfold validate_connectors in Hp. passed Hp. destruct Hp as (_ & Hall & Hkey).
  rewrite Forall_forall in Hall. specialize (Hall (id, c)). cbn in Hall.
  pose proof (Hall (proj2 (elem_of_map_to_list _ _ _) Hc)) as Hp. clear Hall. passed Hp.
  destruct Hp as (Hid & Hconn & _ & Hcred). unfold validateConnector in Hconn. passed Hconn.
  destruct Hconn as [Htype Hgen]. constructor; try done.
  - intros Hg. rewrite Hg in Hgen. cbn in Hgen. destruct (Connectorc.Generic_ c) as [generic|]; [|done].
    exists generic. split; [done|]. by apply validate_generic_urls.
  - intros Hne. apply Hcred. unfold is_email. by apply String.eqb_neq in Hne as ->.
  - intros He. assert (has_email_connector cfg = true) as Hh.
    { apply (existsb_map _ _ id c); [done|]. by apply String.eqb_eq. }
    destruct (Config.Email_ cfg) as [email|]; [|by rewrite Hnone in Hh]. exists email. split; [done|]. by apply Hmail.
  - intros Hused. apply Hkey. apply (existsb_map _ _ id c); [done|]. cbn. destruct Hused as [->|[Hr Hne]]; [done|].
    apply orb_true_iff. right. rewrite (refresh_used_enabled _ Hr). unfold is_email. by apply String.eqb_neq in Hne as ->.
Qed.
End Validated.
