(* ===== verification/LoaderProperties.v ===== *)
(** * Properties of the loaded configuration

    A configuration document that [Parse] accepts yields a configuration on which the
    services can rely, and every client the policy resolver resolves under it is sound. *)

From S2P Require Import Prelude Runtime Json Config Durations ConfigDecode LoaderFields TrustPolicy TrustConfig Loader LoaderSafety Lru Services AuthPolicy Resolver TrustProperties AuthProperties.

Section Loaded.
Context `{Env} `{!JSONLib} `{!URLs} `{!ConfigText}.

(** ** Defaults *)

Definition client_filled (c : Client.ClientConfig) : Prop :=
  refresh_filled (Client.RefreshTokens c) /\ dpop_filled (Client.DPoP c).
Record database_filled (d : PolicyDB.PolicyDatabaseConfig) : Prop := {
  df_refresh : refresh_filled (Defaults.RefreshTokens (PolicyDB.ClientDefaults d));
  df_dpop : dpop_filled (Defaults.DPoP (PolicyDB.ClientDefaults d));
  df_ttl : 0 < Lookup.TTL (PolicyDB.ClientLookupCache d);
  df_negative : 0 < Lookup.NegativeTTL (PolicyDB.ClientLookupCache d)
}.
Record config_filled (cfg : Config.Config) : Prop := {
  cd_ttls : 0 < Config.AccessTokenTTL cfg /\ 0 < Config.IDTokenTTL cfg;
  cd_clients : map_Forall (fun _ => client_filled) (static_clients (Config.StaticPolicy cfg));
  cd_database : forall d, Config.PolicyDatabase cfg = Some d -> database_filled d;
  cd_state : is_Some (Config.StateDatabase cfg)
}.

Lemma policy_database_filled data d d' : database_nonneg d -> policy_database_defaults data d = inl d' ->
  database_filled d'.
Proof.
  intros (Hr & [Ht Hn] & _). unfold policy_database_defaults. intros (q & _ & [= <-])%ok_then_ok.
  constructor; cbn; [by apply applyRefreshDefaults_filled | apply applyDPoPDefaults_filled |
                     by apply applyDurationDefault_positive..].
Qed.

Lemma apply_defaults_filled data override cfg cfg' : config_nonneg cfg ->
  apply_defaults data override cfg = inl cfg' -> config_filled cfg'.
Proof.
  intros (Ha & Hi & Hs & Hd). unfold apply_defaults. intros (database & Hdb & [= <-])%ok_then_ok.
  constructor; cbn; [split; by apply applyDurationDefault_positive | | | by eexists].
  - unfold static_clients. cbn. destruct (Static.Clients (Config.StaticPolicy cfg)) as [clients|] eqn:Hc; cbn;
      [|apply map_Forall_empty]. unfold clients_defaults. intros id c. rewrite lookup_fmap_Some.
    intros (c0 & <- & Hc0). specialize (Hs _ Hc id c0 Hc0).
    split; cbn; [by apply applyRefreshDefaults_filled | apply applyDPoPDefaults_filled].
  - intros d ->. cbn in Hdb. destruct (Config.PolicyDatabase cfg) as [d0|]; [|done].
    apply ok_then_ok in Hdb as (d1 & Hd1 & [= ->]). eapply policy_database_filled; [by apply Hd | done].
Qed.

(** ** Validation *)

Definition clients_sound (static : Static.StaticPolicyConfig) : Prop :=
  map_Forall (fun _ c => client_sound (with_redirects static c)) (static_clients static).

Lemma validate_policies_sound cfg : config_filled cfg -> validate_policies cfg = None ->
  clients_sound (Config.StaticPolicy cfg) /\
  (static_clients (Config.StaticPolicy cfg) <> ∅ \/ is_Some (Config.PolicyDatabase cfg)) /\
  (forall d, Config.PolicyDatabase cfg = Some d -> policy_database_sound d) /\
  (exists d, Config.StateDatabase cfg = Some d /\ state_database_sound d).
Proof.
  intros [_ Hcl Hdb [sd Hsd]] Hp. unfold validate_policies in Hp. rewrite Hsd in *. passed Hp.
  destruct Hp as (_ & _ & Hsome & Hd & Hstate & Hall & _). split_and!.
  - intros id c Hc. rewrite Forall_forall in Hall. destruct (Hcl _ _ Hc) as [Hr Hdp].
    apply (validate_static_client_sound _ id); [done..|]. by apply Hall, elem_of_map_to_list.
  - destruct (Config.PolicyDatabase cfg); [by right; eexists|]. left. intros He.
    rewrite He, map_size_empty in Hsome. by specialize (Hsome eq_refl).
  - intros d Hpd. rewrite Hpd in Hd. passed Hd. destruct (Hdb _ Hpd). by apply validatePolicyDatabase_sound.
  - exists sd. split; [done|]. by apply validateStateDatabase_sound.
Qed.

(** What validation has checked of the configuration before its trust bindings are compiled. *)
Lemma validate_stages cfg cfg' : validate cfg = inl cfg' ->
  exists email, let cfg1 := cfg <| Config.Email_ := email |> in
    validate_process cfg = None /\ validate_connectors cfg = None /\ validate_policies cfg1 = None /\
    validateTrust cfg1 = inl cfg' /\
    match Config.Email_ cfg with
    | None => has_email_connector cfg = false /\ email = None
    | Some before => exists after, validate_email (has_email_connector cfg) before = inl after /\ email = Some after
    end.
Proof.
  unfold validate. intros ([] & Hproc%checked_ok & ([] & Hconn%checked_ok & H3)%ok_then_ok)%ok_then_ok.
  apply ok_then_ok in H3 as (email & He & ([] & Hpol%checked_ok & Htrust)%ok_then_ok).
  exists email. cbn zeta. destruct (validateTrust _) as [c|] eqn:Ht; [|done]. injection Htrust as ->.
  split_and!; try done. destruct (Config.Email_ cfg) as [before|].
  - apply ok_then_ok in He as (after & Ha & [= <-]). by exists after.
  - destruct (has_email_connector cfg); [done|]. by injection He as <-.
Qed.

Lemma connector_sound_after cfg cfg' id c :
  Config.Email_ cfg' = Config.Email_ cfg -> Config.Secrets_ cfg' = Config.Secrets_ cfg ->
  (refresh_used cfg' -> refresh_used cfg) -> connector_sound cfg id c -> connector_sound cfg' id c.
Proof.
  intros He Hs Hu [? ? ? ? Hm Hk]. constructor; try done; [by rewrite He|]. rewrite Hs. naive_solver.
Qed.

Lemma rebound_refresh_used cfg issuers clients :
  rebound (static_clients (Config.StaticPolicy cfg)) (default ∅ clients) ->
  refresh_used (cfg <| Config.ServiceTokenIssuers := issuers |>
                    <| Config.StaticPolicy := (Config.StaticPolicy cfg) <| Static.Clients := clients |> |>) ->
  refresh_used cfg.
Proof.
  intros [Hback _] [?|(id & c & Hc & He)]; [by left|]. right.
  destruct (Hback id c Hc) as (c0 & bs & Hc0 & ->). by exists id, c0.
Qed.

Lemma validate_mail cfg email : 
  match Config.Email_ cfg with
  | None => has_email_connector cfg = false /\ email = None
  | Some before => exists after, validate_email (has_email_connector cfg) before = inl after /\ email = Some after
  end ->
  (forall e, email = Some e -> has_email_connector cfg = true -> mail_sound e) /\
  (email = None -> has_email_connector cfg = false) /\
  (forall e, email = Some e -> Email.VerificationMode e ∈ ["disabled"; "provider"; "strict"] /\
     (Email.VerificationMode e <> "disabled" -> mail_sound e)).
Proof.
  destruct (Config.Email_ cfg) as [before|]; [|by intros [-> ->]].
  intros (after & Hv & ->). apply validate_email_sound in Hv as (Hmode & Hin & Hsound). unfold needs_delivery in Hsound.
  split_and!; [|done|].
  - intros e [= <-] Hh. apply Hsound. by rewrite Hh.
  - intros e [= <-]. rewrite Hmode in *. split; [done|]. intros Hne. apply Hsound, orb_true_iff. right. apply mem_true.
    set_solver.
Qed.

Lemma validate_sound cfg cfg' : config_filled cfg -> validate cfg = inl cfg' ->
  config_sound cfg' /\ clients_sound (Config.StaticPolicy cfg').
Proof.
  intros Hf Hv. apply validate_stages in Hv as (email & Hproc & Hconn & Hpol & Htrust & He).
  destruct (validate_mail _ _ He) as (Hm1 & Hm2 & Hm3).
  set (cfg1 := cfg <| Config.Email_ := email |>) in *.
  assert (config_filled cfg1) as Hf1 by (destruct Hf; by constructor).
  destruct (validate_policies_sound _ Hf1 Hpol) as (Hcl & Hsome & Hdb & Hsd).
  destruct (validateTrust_rebound _ _ Htrust) as (issuers & clients & -> & Hre).
  destruct Hf1 as [Httl _ _ _]. unfold validate_process in Hproc. passed Hproc.
  destruct Hproc as (Hiss & _ & _ & _ & Halg & _). split.
  - constructor; cbn; try done.
    + by apply validateIssuerURL_sound.
    + by apply mem_true.
    + split.
      * unfold validate_connectors in Hconn. passed Hconn. destruct Hconn as (Hne & _). intros Hempty.
        rewrite Hempty, map_size_empty in Hne. done.
      * intros id c Hc. apply (connector_sound_after cfg1); [done..| exact (rebound_refresh_used cfg1 issuers clients Hre)|].
        apply (validate_connector_sound cfg1); done.
    + destruct Hsome as [Hne|Hpd]; [left|by right]. intros Hempty.
      apply map_choose in Hne as (id & c & Hc). destruct Hre as [_ Hforth].
      destruct (Hforth id) as [c' Hc']; [by eexists|]. unfold static_clients in Hempty. cbn in Hempty.
      by rewrite Hempty in Hc'.
  - intros id c Hc. destruct Hre as [Hback _]. destruct (Hback id c Hc) as (c0 & bs & Hc0 & ->).
    specialize (Hcl id c0 Hc0). cbn in Hcl. revert Hcl. unfold with_redirects. cbn.
    destruct (_ =? 0); by intros [? ? ?].
Qed.

Lemma invalid_or_ok {A} (a : A + error) r : invalid_or a = inl r <-> a = inl r.
Proof. destruct a; by split. Qed.

Lemma Parse_sound data override cfg : Parse data override = inl cfg ->
  config_sound cfg /\ clients_sound (Config.StaticPolicy cfg).
Proof.
  unfold Parse. destruct (standardize data) as [document|]; [|done].
  destruct (dec_config document zero_config) as [cfg0|] eqn:Hdec; [|done].
  intros (_ & _ & (_ & _ & (cfg1 & Hdef & Hval)%ok_then_ok)%ok_then_ok)%ok_then_ok.
  rewrite invalid_or_ok in Hdef, Hval. apply (validate_sound cfg1); [|done]. eapply apply_defaults_filled; [|exact Hdef]. by eapply decoded_nonneg.
Qed.

(** A client the resolver resolves under a sound configuration is sound. *)
Lemma resolve_client_sound {D} `{!PolicyDB D} cfg self settings clientID fresh (r r' : option (PostgreSQL D)) resolved :
  config_sound cfg -> clients_sound (Config.StaticPolicy cfg) ->
  resolve_client cfg self settings clientID fresh r = ((resolved, None), r') ->
  client_sound (Resolved.Config resolved).
Proof.
  intros Hs Hc. unfold resolve_client, static_client.
  destruct (static_clients (Config.StaticPolicy cfg) !! clientID) as [c|] eqn:Hid.
  { intros [= <- _]. apply (Hc _ _ Hid). }
  destruct (negb _); [done|]. destruct r as [db|]; [|done].
  destruct (Config.PolicyDatabase cfg) as [policy|] eqn:Hp; [|done].
  destruct (on_policy _ _ _) as [[[] []] ?]; try done. intros [= <- _].
  destruct (cf_database _ Hs _ Hp). by constructor.
Qed.

(** ** Properties *)

(** C14: A configuration the program starts with is sound: tokens live for a positive
    time; the issuer is a bare HTTPS URL, or HTTP on the local host; every connector has
    what its type needs, an email connector or a verification mode comes with a working
    mail transport and codes of one to ten whole minutes, and an encryption key is named
    whenever provider credentials are kept; some client can exist; the caches, the
    connections, the timeout and the results of a policy database are bounded; the state
    database is one of the two kinds with its own settings. *)
Theorem parsed_configuration_is_sound data override cfg :
  Parse data override = inl cfg -> config_sound cfg.
Proof. intros Hp. by apply (Parse_sound data override cfg). Qed.

(** C13: Under a configuration the program starts with, every client the policy resolver
    resolves, static or of the policy database, whatever its lookups answer, has at least
    one redirect URI, each of them HTTPS or local, positive idle lifetimes of refresh
    tokens within the absolute ones, offline access only with refresh tokens enabled, and
    one of the two DPoP profiles the verifiers implement. *)
Theorem resolved_clients_are_sound {D} `{!PolicyDB D} data override cfg self settings clientID fresh
    (r r' : option (PostgreSQL D)) resolved :
  Parse data override = inl cfg ->
  resolve_client cfg self settings clientID fresh r = ((resolved, None), r') ->
  client_sound (Resolved.Config resolved).
Proof. intros [Hs Hc]%Parse_sound. by apply resolve_client_sound. Qed.
End Loaded.

(** ** A document *)

Module Site.
Import Demo SampleDB.

(** The scheme is what precedes the colon; the host what follows the two slashes. *)
#[export] Instance site_urls : URLs := fun s =>
  match split_on ":" s with
  | [scheme; rest] =>
      let host := hd "" (split_on "/" (drop_bytes 2 rest)) in
      Some {| Scheme := scheme; Host := host; Hostname := host; HasUser := false; RawQuery := "";
              ForceQuery := false; Fragment := "" |}
  | _ => None
  end.

Definition texts (l : list string) : json := JArray (map JString l).
Definition binding : json :=
  JObject [("id", JString "b1"); ("trust_policy", JString "deploy");
           ("claims", JObject [("environment", JObject [("const", JString "prod")])])].
Definition document : json := JObject [
  ("issuer_url", JString "https://id.example");
  ("http_listen_addr", JString "127.0.0.1:8080");
  ("access_token_ttl", JString "5m");
  ("secrets", JObject [("provider", JString "env"); ("signing_key_name", JString "signing");
                       ("encryption_key_name", JString "encryption")]);
  ("user_login_connectors", JObject [
     ("mail", JObject [("type", JString "email"); ("display_name", JString "Mail"); ("scopes", texts [])]);
     ("hub", JObject [("type", JString "github"); ("display_name", JString "Hub"); ("scopes", texts ["user:email"]);
                      ("credentials_secret", JString "hub")])]);
  ("email", JObject [("verification_mode", JString "strict"); ("otp_secret_name", JString "otp");
     ("smtp", JObject [("host", JString "localhost"); ("port", JNumber "25"); ("from_name", JString "Id");
                       ("from_address", JString "id@id.example"); ("credentials_secret", JString "");
                       ("tls_mode", JString "plaintext")])]);
  ("service_token_issuers", JObject [("ci", JObject [("provider", JString "github")])]);
  ("static_policy", JObject [
     ("default_redirect_uris", texts ["http://localhost/cb"]);
     ("trust_policies", JObject [("deploy", JObject [("issuer", JString "ci"); ("subject", JString "trusted:deploy");
        ("groups", texts ["deployers"]);
        ("required_claims", JObject [("sub", JObject [("const", JString "repo:a")])])])]);
     ("clients", JObject [("app", JObject [
        ("refresh_tokens", JObject [("enabled", JBool true); ("session_idle_ttl", JString "1h30m")]);
        ("dpop", JObject [("mode", JString "required")]);
        ("trust_bindings", JArray [binding])])])]);
  ("policy_database", JObject [("driver", JString "postgresql"); ("connection_string_secret", JString "policy");
     ("redirect_uris", texts ["https://app.example/cb"]); ("queries", JObject [("trust_issuer", JNull)])])].

#[export] Instance site_text : ConfigText := {|
  standardize data := if (data =? "document")%string then Some document else None;
  mail_address s := Some s
|}.

Definition loaded : Config.Config :=
  match Parse "document" "" with inl cfg => cfg | inr _ => zero_config end.

(** The defaults, the presets and the compiled binding are in place. *)
Example loaded_values :
  Parse "document" "" = inl loaded /\
  (Config.AccessTokenTTL loaded, Config.IDTokenTTL loaded, Config.SigningAlgorithm loaded)
    = (5 * minute, 15 * minute, "RS256") /\
  (Client.DPoP <$> static_clients (Config.StaticPolicy loaded) !! "app")
    = Some {| DPoPc.Mode := "required"; DPoPc.SigningAlgorithm := "ES256" |} /\
  (Issuer.IssuerURL <$> Config.ServiceTokenIssuers loaded !! "ci")
    = Some "https://token.actions.githubusercontent.com" /\
  (fun d => (Queries.TrustIssuer (PolicyDB.Queries_ d), PolicyDB.MaxConnections d)) <$> Config.PolicyDatabase loaded
    = Some ("", 4) /\
  StateDB.Path <$> Config.StateDatabase loaded = Some "data/truster-state.db".
Proof. split_and!; vm_compute; reflexivity. Qed.

(** Documents that are refused: an unknown field, an alias of a name, a null, a
    lifetime that is no duration, and an open redirect. *)
Definition changed (name : string) (v : json) : json :=
  match document with JObject members => JObject (members ++ [(name, v)]) | _ => document end.
Definition parse_document (v : json) : option error :=
  match @Parse _ _ _ {| standardize _ := Some v; mail_address := mail_address |} "" "" with
  | inl _ => None | inr err => Some err
  end.
Example refused_documents :
  map parse_document
    [document; changed "unknown" JNull; changed "Policy_Database" JNull; changed "id_token_ttl" (JString "0s");
     changed "static_policy" (JObject [("clients", JNull)]);
     changed "static_policy" (JObject [("default_redirect_uris", texts ["http://evil.example/cb"])])]
  = [None; Some (Wrapped "failed to parse config" (Errorf "json"));
     Some (invalid (Errorf "configuration.policy_database must use its canonical field name"));
     Some (Wrapped "failed to parse config" (Errorf "json"));
     Some (invalid (Errorf "static_policy.clients must not be null"));
     Some (invalid (Wrapped "static_policy.default_redirect_uris" (Errorf "http redirect URIs only allowed for localhost")))].
Proof. vm_compute. reflexivity. Qed.
End Site.

Import Demo SampleDB Site.

Lemma parsed_configuration_is_sound_witness :
  Parse "document" "" = inl loaded /\ config_sound loaded.
Proof.
  assert (Parse "document" "" = inl loaded) as Hp by (vm_compute; reflexivity).
  split; [exact Hp|]. exact (parsed_configuration_is_sound "document" "" loaded Hp).
Defined.

Lemma resolved_clients_are_sound_witness :
  exists resolved r', resolve_client loaded 1 SampleDB.settings "app" true (Some SampleDB.started) = ((resolved, None), r') /\
  Client.RedirectURIs (Resolved.Config resolved) = ["http://localhost/cb"] /\ client_sound (Resolved.Config resolved).
Proof.
  assert (Parse "document" "" = inl loaded) as Hp by (vm_compute; reflexivity).
  destruct (resolve_client loaded 1 SampleDB.settings "app" true (Some SampleDB.started)) as [[resolved err] r'] eqn:Hr.
  assert (err = None) as ->.
  { change err with ((resolved, err), r').1.2. rewrite <- Hr. vm_compute. reflexivity. }
  exists resolved, r'. split; [done|]. split.
  - change resolved with ((resolved, @None error), r').1.1. rewrite <- Hr. vm_compute. reflexivity.
  - exact (resolved_clients_are_sound "document" "" loaded 1 SampleDB.settings "app" true _ _ _ Hp Hr).
Defined.
