(* ===== verification/Providers.v ===== *)
(** * internal/upstream: the login providers

    google.go, github.go and generic.go, and [NewConnector] of connector.go: the exchange
    of a code, the forced refresh of a credential and the identity a provider asserts.
    The oauth2 library and the HTTP client it makes are a class; the body of a response is
    its first JSON value, absent when there is none. *)

From stdpp Require Import pretty.
From S2P Require Import Prelude Runtime Json Config Durations ConfigDecode Upstream Services.

(** ** The oauth2 library *)

Module OAuth.

(** [oauth2.Config] *)
Record Config := {
  ClientID : string;
  ClientSecret : string;
  RedirectURL : string;
  Scopes : list string;
  AuthURL : string;
  TokenURL : string
}.

(** [http.Response], as far as the code reads it *)
Record Response := {
  StatusCode : Z;
  Header : string -> string;
  Body : option json
}.

End OAuth.

(** [Config.AuthCodeURL], [Config.Exchange], [TokenSource.Token], [Client.Get] and the
    clock.  A call that fails has no result. *)
Class OAuth2Lib (O : Type) := {
  auth_code_url : OAuth.Config -> string -> list (string * string) -> string;
  exchange_code : OAuth.Config -> string -> O -> (OAuth2.Token + error) * O;
  source_token : OAuth.Config -> OAuth2.Token -> O -> (OAuth2.Token + error) * O;
  client_get : OAuth.Config -> OAuth2.Token -> string -> O -> (OAuth.Response + error) * O;
  provider_now : O -> time * O
}.

(** The endpoints of the libraries' packages. *)
Class Endpoints := { google_auth_url : string; google_token_url : string; github_auth_url : string; github_token_url : string }.

(** ** The connectors *)

Inductive connector :=
  | GoogleConnector (config : OAuth.Config) (hostedDomain : string)
  | GitHubConnector (config : OAuth.Config) (hostname : string)
  | GenericConnector (config : OAuth.Config) (userinfoURL emailField verifiedField subjectField : string).

Definition oauth_config (c : connector) : OAuth.Config :=
  match c with GoogleConnector config _ | GitHubConnector config _ | GenericConnector config _ _ _ _ => config end.

Definition scopes_or (scopes defaults : list string) : list string :=
  if (length scopes =? 0)%nat then defaults else scopes.
Definition text_or (value fallback : string) : string := if is_empty value then fallback else value.

Section New.
Context `{Endpoints}.

Definition NewGoogleConnector (cfg : Connectorc.ConnectorConfig) (redirectURL clientID clientSecret : string) : connector :=
  GoogleConnector
    {| OAuth.ClientID := clientID; OAuth.ClientSecret := clientSecret; OAuth.RedirectURL := redirectURL;
       OAuth.Scopes := scopes_or (Connectorc.Scopes cfg) ["openid"; "email"; "profile"];
       OAuth.AuthURL := google_auth_url; OAuth.TokenURL := google_token_url |}
    (default "" (Connectorc.Google cfg)).

Definition NewGitHubConnector (cfg : Connectorc.ConnectorConfig) (redirectURL clientID clientSecret : string) : connector :=
  let hostname := text_or (default "" (Connectorc.GitHub cfg)) "github.com" in
  let enterprise := negb (hostname =? "github.com")%string in
  GitHubConnector
    {| OAuth.ClientID := clientID; OAuth.ClientSecret := clientSecret; OAuth.RedirectURL := redirectURL;
       OAuth.Scopes := scopes_or (Connectorc.Scopes cfg) ["user:email"];
       OAuth.AuthURL := if enterprise then "https://" +:+ hostname +:+ "/login/oauth/authorize" else github_auth_url;
       OAuth.TokenURL := if enterprise then "https://" +:+ hostname +:+ "/login/oauth/access_token" else github_token_url |}
    hostname.

(** [NewGenericConnector]; [None] is its panic on a missing configuration. *)
Definition NewGenericConnector (cfg : Connectorc.ConnectorConfig) (redirectURL clientID clientSecret : string)
  : option connector :=
  match Connectorc.Generic_ cfg with
  | None => None
  | Some generic =>
      Some (GenericConnector
        {| OAuth.ClientID := clientID; OAuth.ClientSecret := clientSecret; OAuth.RedirectURL := redirectURL;
           OAuth.Scopes := scopes_or (Connectorc.Scopes cfg) ["openid"; "email"];
           OAuth.AuthURL := Generic.AuthorizationURL generic; OAuth.TokenURL := Generic.TokenURL generic |}
        (Generic.UserinfoURL generic) (text_or (Generic.EmailField generic) "email")
        (text_or (Generic.EmailVerifiedField generic) "email_verified")
        (text_or (Generic.SubjectField generic) "sub"))
  end.

(** [NewConnector]: the connector, an error, or a panic. *)
Definition NewConnector (cfg : Connectorc.ConnectorConfig) (redirectURL clientID clientSecret : string)
  : option (connector + error) :=
  if (Connectorc.Type_ cfg =? "google")%string then Some (inl (NewGoogleConnector cfg redirectURL clientID clientSecret))
  else if (Connectorc.Type_ cfg =? "github")%string then Some (inl (NewGitHubConnector cfg redirectURL clientID clientSecret))
  else if (Connectorc.Type_ cfg =? "generic")%string then inl <$> NewGenericConnector cfg redirectURL clientID clientSecret
  else Some (inr (Errorf "unsupported connector type")).
End New.

(** ** The answers of a provider *)

Module GoogleUser.

(** [googleUserInfo] *)
Record googleUserInfo := { Subject : string; Email : string; EmailVerified : bool; HostedDomain : string }.
#[global] Instance eta_googleUserInfo : Eta googleUserInfo := fun x =>
  {| Subject := Subject x; Email := Email x; EmailVerified := EmailVerified x; HostedDomain := HostedDomain x |}.

End GoogleUser.

Module GitHubEmail.

(** [githubEmail] *)
Record githubEmail := { Email : string; Primary : bool; Verified : bool }.
#[global] Instance eta_githubEmail : Eta githubEmail := fun x =>
  {| Email := Email x; Primary := Primary x; Verified := Verified x |}.

End GitHubEmail.

Definition dec_google_user : decoder GoogleUser.googleUserInfo := dec_lenient [
  field GoogleUser.Subject "sub" dec_string; field GoogleUser.Email "email" dec_string;
  field GoogleUser.EmailVerified "email_verified" dec_bool; field GoogleUser.HostedDomain "hd" dec_string].
Definition dec_github_user : decoder Z := dec_lenient [("id", dec_int)].
Definition dec_github_emails : decoder (list GitHubEmail.githubEmail) :=
  dec_list {| GitHubEmail.Email := ""; GitHubEmail.Primary := false; GitHubEmail.Verified := false |}
    (dec_lenient [field GitHubEmail.Email "email" dec_string; field GitHubEmail.Primary "primary" dec_bool;
                  field GitHubEmail.Verified "verified" dec_bool]).

(** A value decodes into an [any] when its numbers are in the range of float64. *)
Fixpoint floats_fit (v : json) : bool :=
  match v with
  | JNumber text => is_some (ParseFloat text)
  | JArray items => forallb floats_fit items
  | JObject members => forallb (fun kv => floats_fit kv.2) members
  | _ => true
  end.

(** A [map[string]interface{}]; the last member of a name wins. *)
Definition dec_any_object (v : json) : option (gmap string json) :=
  match v with
  | JNull => Some ∅
  | JObject members => if floats_fit v then Some (list_to_map (rev members)) else None
  | _ => None
  end.

Definition no_identity : Identity.Identity := {| Identity.Subject := ""; Identity.Emails := [] |}.

(** [strings.HasSuffix] *)
Definition has_suffix (s suffix : string) : bool :=
  (String.length suffix <=? String.length s)%nat
  && (drop_bytes (String.length s - String.length suffix) s =? suffix)%string.

Section Identities.
Context `{Env}.

(** What Google's answer asserts. *)
Definition google_identity (hostedDomain : string) (body : option json) : Identity.Identity * option error :=
  let zero := {| GoogleUser.Subject := ""; GoogleUser.Email := ""; GoogleUser.EmailVerified := false;
                 GoogleUser.HostedDomain := "" |} in
  match v ← body; dec_google_user v zero with
  | None => (no_identity, ClassifyError "userinfo decode" (Some (Errorf "json")))
  | Some userInfo =>
      if is_empty (GoogleUser.Email userInfo) || is_empty (GoogleUser.Subject userInfo)
      then (no_identity, Some (Errorf "subject or email not provided by Google"))
      else if negb (is_empty hostedDomain) && negb (GoogleUser.HostedDomain userInfo =? hostedDomain)%string
      then (no_identity, Some (ConnectorError ErrorTerminal "" "hosted domain validation"))
      else ({| Identity.Subject := GoogleUser.Subject userInfo;
               Identity.Emails := [{| Identity.Address := GoogleUser.Email userInfo;
                                      Identity.Verified := GoogleUser.EmailVerified userInfo;
                                      Identity.Primary := false |}] |}, None)
  end.

(** GitHub's user identifier. *)
Definition github_user (body : option json) : option Z :=
  match v ← body; dec_github_user v 0 with
  | Some id => if id =? 0 then None else Some id
  | None => None
  end.

(** The addresses of GitHub's answer but those GitHub makes up. *)
Definition github_emails (hostname : string) (emails : list GitHubEmail.githubEmail) : list Identity.Email :=
  let noreplyDomain := "@users.noreply." +:+ to_lower hostname in
  omap (fun email =>
    if negb (is_empty (GitHubEmail.Email email)) && negb (has_suffix (to_lower (GitHubEmail.Email email)) noreplyDomain)
    then Some {| Identity.Address := GitHubEmail.Email email; Identity.Verified := GitHubEmail.Verified email;
                 Identity.Primary := GitHubEmail.Primary email |}
    else None) emails.

Definition github_identity (hostname : string) (id : Z) (body : option json) : Identity.Identity * option error :=
  match v ← body; dec_github_emails v [] with
  | None => (no_identity, Some (Wrapped "failed to decode emails" (Errorf "json")))
  | Some emails =>
      let found := github_emails hostname emails in
      if (length found =? 0)%nat then (no_identity, Some (Errorf "no email found"))
      else ({| Identity.Subject := pretty id; Identity.Emails := found |}, None)
  end.

Definition generic_identity (emailField verifiedField subjectField : string) (body : option json)
  : Identity.Identity * option error :=
  let fail msg := (no_identity, Some (Errorf msg)) in
  match v ← body; dec_any_object v with
  | None => (no_identity, ClassifyError "userinfo decode" (Some (Errorf "json")))
  | Some userInfo =>
      match userInfo !! emailField with
      | None => fail "email field not found in userinfo response"
      | Some (JString email) =>
          if is_empty email then fail "email not provided by provider"
          else
            let verified := match userInfo !! verifiedField with Some (JBool b) => b | _ => false end in
            match userInfo !! subjectField with
            | Some (JString subject) =>
                if is_empty subject then fail "subject field is missing or not a nonempty string"
                else ({| Identity.Subject := subject;
                         Identity.Emails := [{| Identity.Address := email; Identity.Verified := verified;
                                                Identity.Primary := false |}] |}, None)
            | _ => fail "subject field is missing or not a nonempty string"
            end
      | Some _ => fail "email field is not a string"
      end
  end.
End Identities.

(** [classifyGitHubStatus] *)
Definition classifyGitHubStatus (operation : string) (response : OAuth.Response) : error :=
  let retry := OAuth.Header response "Retry-After" in
  if (OAuth.StatusCode response =? 403)
     && (negb (is_empty retry) || (OAuth.Header response "X-RateLimit-Remaining" =? "0")%string
         || negb (is_empty (OAuth.Header response "X-RateLimit-Reset")))
  then ConnectorError ErrorRateLimit retry operation
  else ClassifyHTTPStatus operation (OAuth.StatusCode response) retry.

(** ** The operations *)

Section Operations.
Context {O : Type} `{!OAuth2Lib O} `{Env} `{!FloatConversion}.

Definition connector_url (c : connector) (state : string) (opts : list (string * string)) : string :=
  match c with
  | GoogleConnector config hostedDomain =>
      auth_code_url config state (if is_empty hostedDomain then opts else opts ++ [("hd", hostedDomain)])
  | GitHubConnector config _ | GenericConnector config _ _ _ _ => auth_code_url config state opts
  end.

(** Whether the access of a token without an expiry never expires. *)
Definition non_expiring (c : connector) (token : OAuth2.Token) : bool :=
  match c with GitHubConnector _ _ => is_empty (OAuth2.RefreshToken token) | _ => false end.

Definition connector_exchange (c : connector) (code : string) : O -> (option Cred.Credential * option error) * O := run (
  answer ← call (exchange_code (oauth_config c) code);
  match answer with
  | inr err => mret (None, ClassifyError "code exchange" (Some err))
  | inl token =>
      now ← call provider_now;
      mret (Some (NormalizeCredential token now (non_expiring c token)), None)
  end).

(** The token that forces a refresh: the refresh token alone. *)
Definition forced (credential : Cred.Credential) : OAuth2.Token :=
  let token := OAuthToken credential in
  {| OAuth2.AccessToken := ""; OAuth2.TokenType := OAuth2.TokenType token;
     OAuth2.RefreshToken := OAuth2.RefreshToken token; OAuth2.Expiry := zero_time; OAuth2.Extra := OAuth2.Extra token |}.

Definition with_refresh_token (token : OAuth2.Token) (refreshToken : string) : OAuth2.Token :=
  {| OAuth2.AccessToken := OAuth2.AccessToken token; OAuth2.TokenType := OAuth2.TokenType token;
     OAuth2.RefreshToken := text_or (OAuth2.RefreshToken token) refreshToken; OAuth2.Expiry := OAuth2.Expiry token;
     OAuth2.Extra := OAuth2.Extra token |}.

Definition is_github (c : connector) : bool := match c with GitHubConnector _ _ => true | _ => false end.

Definition connector_refresh (c : connector) (credential : Cred.Credential)
  : O -> (option Cred.Credential * option error) * O := run (
  return_if (is_github c && is_empty (Cred.RefreshToken credential)) (Some credential, None) ;;
  answer ← call (source_token (oauth_config c) (forced credential));
  match answer with
  | inr err => mret (None, ClassifyError "credential refresh" (Some err))
  | inl refreshed =>
      now ← call provider_now;
      mret (Some (NormalizeCredential (with_refresh_token refreshed (Cred.RefreshToken credential)) now false), None)
  end).

(** One request of the user information: its body when the answer is a 200. *)
Definition get_json {R} (c : connector) (token : OAuth2.Token) (url operation : string)
    (classify : string -> OAuth.Response -> error) (fail : option error -> R) : go O R (option json) :=
  answer ← call (client_get (oauth_config c) token url);
  match answer with
  | inr err => return_ (fail (ClassifyError operation (Some err)))
  | inl response =>
      return_if (negb (OAuth.StatusCode response =? 200)) (fail (Some (classify operation response))) ;;
      mret (OAuth.Body response)
  end.

Definition http_status (operation : string) (response : OAuth.Response) : error :=
  ClassifyHTTPStatus operation (OAuth.StatusCode response) (OAuth.Header response "Retry-After").

Definition google_userinfo_url : string := "https://openidconnect.googleapis.com/v1/userinfo".
Definition github_api (hostname : string) : string :=
  if (hostname =? "github.com")%string then "https://api." +:+ hostname else "https://" +:+ hostname +:+ "/api/v3".

Definition connector_identity (c : connector) (token : OAuth2.Token)
  : O -> (Identity.Identity * option error) * O := run (
  let fail err := (no_identity, err) in
  match c with
  | GoogleConnector _ hostedDomain =>
      body ← get_json c token google_userinfo_url "userinfo" http_status fail;
      mret (google_identity hostedDomain body)
  | GitHubConnector _ hostname =>
      body ← get_json c token (github_api hostname +:+ "/user") "user" classifyGitHubStatus fail;
      match github_user body with
      | None => mret (fail (Some (Errorf "invalid GitHub user")))
      | Some id =>
          body ← get_json c token (github_api hostname +:+ "/user/emails") "emails" classifyGitHubStatus fail;
          mret (github_identity hostname id body)
      end
  | GenericConnector _ userinfoURL emailField verifiedField subjectField =>
      body ← get_json c token userinfoURL "userinfo" http_status fail;
      mret (generic_identity emailField verifiedField subjectField body)
  end).

(** ** The interface of the services

    The connectors of the process by identifier; the callers look the connector up before
    they call it. *)
Context (connectors : gmap string connector).

Definition no_connector : error := Errorf "no connector".
Definition provider_connectors : Connectors O := {|
  has_connector id := is_some (connectors !! id);
  AuthCodeURL id state opts :=
    match connectors !! id with Some c => connector_url c state opts | None => "" end;
  Exchange id code o :=
    match connectors !! id with Some c => connector_exchange c code o | None => ((None, Some no_connector), o) end;
  Refresh id credential o :=
    match connectors !! id with Some c => connector_refresh c credential o | None => ((None, Some no_connector), o) end;
  GetIdentity id token o :=
    match connectors !! id with
    | Some c => connector_identity c token o
    | None => ((no_identity, Some no_connector), o)
    end
|}.
End Operations.
