(* ===== verification/ProviderProperties.v ===== *)
(** * The login providers: what their connectors promise

    What the services rely on of a provider, as a class, and its instance for the
    connectors of the code; and the identity a connector returns as the assertion of the
    provider's own answer. *)

From stdpp Require Import pretty.
From S2P Require Import Prelude Runtime Services Schema Json Config Durations ConfigDecode Upstream Providers.

(** ** The promises *)

(** A credential or an error, and never both. *)
Definition either_or {A} (answer : option A * option error) : Prop := is_some answer.1 = is_nil answer.2.

(** An identity has a subject and at least one address. *)
Definition well_formed_identity (identity : Identity.Identity) : Prop :=
  Identity.Subject identity <> "" /\ Identity.Emails identity <> [] /\
  Forall (fun email => Identity.Address email <> "") (Identity.Emails identity).

Class LawfulConnectors (P : Type) `{!Connectors P} := {
  Exchange_either : forall id code, produces either_or (Exchange id code);
  Refresh_either : forall id credential, produces either_or (Refresh id credential);
  Refresh_keeps : forall id credential, produces (fun answer => forall fresh, answer.1 = Some fresh ->
    Cred.RefreshToken credential <> "" -> Cred.RefreshToken fresh <> "") (Refresh id credential);
  GetIdentity_shape : forall id token, produces (fun answer =>
    answer.2 = None -> well_formed_identity answer.1) (GetIdentity id token)
}.

(** ** What a provider asserts *)

Section Assertions.
Context {O : Type} `{!OAuth2Lib O} `{Env} `{!FloatConversion}.

(** The provider answered a request made with the token by this body. *)
Definition asserts (config : OAuth.Config) (token : OAuth2.Token) (url : string) (body : json) : Prop :=
  exists o response o', client_get config token url o = (inl response, o') /\
    OAuth.StatusCode response = 200 /\ OAuth.Body response = Some body.

Definition google_zero : GoogleUser.googleUserInfo :=
  {| GoogleUser.Subject := ""; GoogleUser.Email := ""; GoogleUser.EmailVerified := false; GoogleUser.HostedDomain := "" |}.

(** The identity is what the answers assert, for each provider. *)
Definition asserted (c : connector) (token : OAuth2.Token) (identity : Identity.Identity) : Prop :=
  match c with
  | GoogleConnector config hostedDomain => exists body user,
      asserts config token "https://openidconnect.googleapis.com/v1/userinfo" body /\
      dec_google_user body google_zero = Some user /\
      (hostedDomain = "" \/ GoogleUser.HostedDomain user = hostedDomain) /\
      identity = {| Identity.Subject := GoogleUser.Subject user;
                    Identity.Emails := [{| Identity.Address := GoogleUser.Email user;
                                           Identity.Verified := GoogleUser.EmailVerified user;
                                           Identity.Primary := false |}] |}
  | GitHubConnector config hostname => exists user id body emails,
      asserts config token (github_api hostname +:+ "/user") user /\ dec_github_user user 0 = Some id /\ id <> 0 /\
      asserts config token (github_api hostname +:+ "/user/emails") body /\ dec_github_emails body [] = Some emails /\
      Identity.Subject identity = pretty id /\
      forall email, email ∈ Identity.Emails identity <->
        {| GitHubEmail.Email := Identity.Address email; GitHubEmail.Primary := Identity.Primary email;
           GitHubEmail.Verified := Identity.Verified email |} ∈ emails /\
        Identity.Address email <> "" /\
        has_suffix (to_lower (Identity.Address email)) ("@users.noreply." +:+ to_lower hostname) = false
  | GenericConnector config userinfoURL emailField verifiedField subjectField => exists body members email,
      asserts config token userinfoURL body /\ dec_any_object body = Some members /\
      Identity.Emails identity = [email] /\ Identity.Primary email = false /\
      members !! emailField = Some (JString (Identity.Address email)) /\
      (Identity.Verified email = true <-> members !! verifiedField = Some (JBool true)) /\
      members !! subjectField = Some (JString (Identity.Subject identity))
  end.

(** ** The identities *)

Lemma is_empty_iff s : is_empty s = true <-> s = "".
Proof. by destruct s. Qed.
Lemma nonempty_iff s : is_empty s = false <-> s <> "".
Proof. by destruct s. Qed.

Lemma pretty_digits n s : (String.length s <= String.length (pretty_N_go n s))%nat.
Proof.
  revert s. induction (N.lt_wf_0 n) as [n _ IH]. intros s.
  destruct (N.eq_dec n 0) as [->|Hn]; [by rewrite pretty_N_go_0|].
  rewrite pretty_N_go_step by lia. etrans; [|apply IH, N.div_lt; lia]. cbn. lia.
Qed.
Lemma pretty_nonempty (z : Z) : pretty z <> "".
Proof.
  assert (forall p, pretty (N.pos p) <> "") as Hpos.
  { intros p. unfold pretty, pretty_N. case_decide; [done|]. rewrite pretty_N_go_step by lia.
    intros He. pose proof (pretty_digits (N.pos p `div` 10) (String (pretty_N_char (N.pos p `mod` 10)) "")) as Hl.
    rewrite He in Hl. cbn in Hl. lia. }
  destruct z as [|p|p]; [done|apply Hpos|]. unfold pretty, pretty_Z. done.
Qed.

Lemma google_identity_ok hostedDomain body identity :
  google_identity hostedDomain body = (identity, None) ->
  exists v user, body = Some v /\ dec_google_user v google_zero = Some user /\
    (hostedDomain = "" \/ GoogleUser.HostedDomain user = hostedDomain) /\
    identity = {| Identity.Subject := GoogleUser.Subject user;
                  Identity.Emails := [{| Identity.Address := GoogleUser.Email user;
                                         Identity.Verified := GoogleUser.EmailVerified user;
                                         Identity.Primary := false |}] |} /\
    well_formed_identity identity.
Proof.
  unfold google_identity. fold google_zero. destruct body as [v|]; cbn [mbind option_bind]; [|done].
  destruct (dec_google_user v google_zero) as [user|] eqn:Hu; [|done].
  destruct (is_empty (GoogleUser.Email user)) eqn:He, (is_empty (GoogleUser.Subject user)) eqn:Hs; try done.
  rewrite nonempty_iff in He, Hs. cbn [orb].
  destruct (_ && _) eqn:Hd; [done|]. intros [= <-]. exists v, user.
  assert (hostedDomain = "" \/ GoogleUser.HostedDomain user = hostedDomain).
  { apply andb_false_iff in Hd as [Hd|Hd]; apply negb_false_iff in Hd; [left; by apply is_empty_iff|right; by apply String.eqb_eq]. }
  split_and!; [done..|]. split_and!; cbn; [done..|]. by apply Forall_singleton.
Qed.

Lemma github_emails_iff hostname emails email :
  email ∈ github_emails hostname emails <->
  {| GitHubEmail.Email := Identity.Address email; GitHubEmail.Primary := Identity.Primary email;
     GitHubEmail.Verified := Identity.Verified email |} ∈ emails /\
  Identity.Address email <> "" /\
  has_suffix (to_lower (Identity.Address email)) ("@users.noreply." +:+ to_lower hostname) = false.
Proof.
  unfold github_emails. rewrite list_elem_of_omap. split.
  - intros ([a p v] & Hin & Hf). cbn [GitHubEmail.Email GitHubEmail.Verified GitHubEmail.Primary] in Hf.
    destruct (is_empty a) eqn:Ha, (has_suffix _ _) eqn:Hs; try done.
    apply (inj Some) in Hf as <-. rewrite nonempty_iff in Ha. by split_and!.
  - intros (Hin & Ha & Hs). eexists. split; [done|]. cbn [GitHubEmail.Email GitHubEmail.Verified GitHubEmail.Primary].
    rewrite <- nonempty_iff in Ha. rewrite Ha, Hs. by destruct email.
Qed.

Lemma github_identity_ok hostname id body identity :
  github_identity hostname id body = (identity, None) ->
  exists v emails, body = Some v /\ dec_github_emails v [] = Some emails /\
    identity = {| Identity.Subject := pretty id; Identity.Emails := github_emails hostname emails |} /\
    well_formed_identity identity.
Proof.
  unfold github_identity. destruct body as [v|]; cbn [mbind option_bind]; [|done].
  destruct (dec_github_emails v []) as [emails|] eqn:He; [|done].
  destruct (length _ =? 0)%nat eqn:Hl; [done|]. intros [= <-]. apply Nat.eqb_neq in Hl.
  exists v, emails. split_and!; [done..|]. split_and!; cbn [Identity.Subject Identity.Emails]; [apply pretty_nonempty|intros Hn; by rewrite Hn in Hl|].
  apply Forall_forall. by intros email (_ & ? & _)%github_emails_iff.
Qed.

Lemma generic_identity_ok emailField verifiedField subjectField body identity :
  generic_identity emailField verifiedField subjectField body = (identity, None) ->
  exists v members email, body = Some v /\ dec_any_object v = Some members /\
    Identity.Emails identity = [email] /\ Identity.Primary email = false /\
    members !! emailField = Some (JString (Identity.Address email)) /\
    (Identity.Verified email = true <-> members !! verifiedField = Some (JBool true)) /\
    members !! subjectField = Some (JString (Identity.Subject identity)) /\
    well_formed_identity identity.
Proof.
  unfold generic_identity. destruct body as [v|]; cbn [mbind option_bind]; [|done].
  destruct (dec_any_object v) as [members|] eqn:Hm; [|done].
  destruct (members !! emailField) as [[| | |address| |]|] eqn:He; try done.
  destruct (is_empty address) eqn:Ha; [done|].
  destruct (members !! subjectField) as [[| | |subject| |]|] eqn:Hs; try done.
  destruct (is_empty subject) eqn:Hn; [done|]. cbn. intros [= <-]. rewrite nonempty_iff in Ha, Hn.
  eexists v, members, _. split_and!; [done..| | |]; cbn; [|done|].
  - destruct (members !! verifiedField) as [[| | | | |]|]; naive_solver.
  - split_and!; [done..|]. by apply Forall_singleton.
Qed.

Definition failed_identity (answer : Identity.Identity * option error) : Prop := answer.2 <> None.

Lemma get_json_gate c token url operation classify o :
  gate failed_identity (fun body _ => forall v, body = Some v -> asserts (oauth_config c) token url v)
    (get_json c token url operation classify (fun err => (no_identity, err))) o.
Proof.
  unfold get_json. apply gate_bind with (Post := fun answer o' => client_get (oauth_config c) token url o = (answer, o')).
  { by apply gate_call, ends_eq. }
  intros [response|err] o' Hr.
  - eapply gate_bind; [by apply gate_return_if|]. intros _ ? [-> Hs]. apply gate_ret. intros v Hv.
    apply negb_false_iff, Z.eqb_eq in Hs. by exists o, response, o'.
  - apply gate_return. unfold failed_identity. by destruct (ClassifyError_classified operation err) as (? & -> & ?).
Qed.
#[local] Hint Resolve get_json_gate : gates.

Lemma connector_identity_asserted c token :
  produces (fun answer => answer.2 = None -> asserted c token answer.1 /\ well_formed_identity answer.1)
    (connector_identity c token).
Proof.
  intros o. apply (gate_ends failed_identity (fun answer _ =>
    answer.2 = None -> asserted c token answer.1 /\ well_formed_identity answer.1)); [|by intros [? ?] ? ? ?].
  unfold connector_identity. destruct c as [config hosted|config hostname|config url emailField verifiedField subjectField].
  - gate_step. apply gate_ret. destruct (google_identity hosted a) as [identity err] eqn:Hi. cbn. intros ->.
    apply google_identity_ok in Hi as (v & user & -> & ? & ? & ? & ?). split; [|done]. exists v, user. split_and!; eauto.
  - gate_step. destruct a as [v|]; cbn [github_user mbind option_bind]; [|by apply gate_ret].
    unfold github_user. cbn [mbind option_bind].
    destruct (dec_github_user v 0) as [id|] eqn:Hd; [|by apply gate_ret].
    destruct (Z.eqb_spec id 0) as [|Hid]; [by apply gate_ret|].
    gate_step. apply gate_ret. destruct (github_identity hostname id a) as [identity err] eqn:Hi. cbn. intros ->.
    apply github_identity_ok in Hi as (v2 & emails & -> & ? & -> & ?). split; [|done]. exists v, id, v2, emails.
    split_and!; eauto using github_emails_iff.
  - gate_step. apply gate_ret. destruct (generic_identity _ _ _ a) as [identity err] eqn:Hi. cbn. intros ->.
    apply generic_identity_ok in Hi as (v & members & email & -> & ?). split; [|tauto]. exists v, members, email.
    naive_solver.
Qed.

(** ** The credentials *)

Lemma normalized_refresh_token token now nonExpiring :
  Cred.RefreshToken (NormalizeCredential token now nonExpiring) = OAuth2.RefreshToken token.
Proof. unfold NormalizeCredential. by repeat (case_match; try done). Qed.

Lemma connector_exchange_either c code : produces either_or (connector_exchange c code).
Proof. unfold connector_exchange. by repeat yields_step. Qed.

(** A refreshed credential is the one GitHub never asked to renew, or the answer of the
    provider to the refresh token alone, which is kept when the provider sends none. *)
Definition renewed (c : connector) (credential fresh : Cred.Credential) : Prop :=
  (is_github c = true /\ Cred.RefreshToken credential = "" /\ fresh = credential) \/
  exists o request token o', source_token (oauth_config c) request o = (inl token, o') /\
    OAuth2.AccessToken request = "" /\ OAuth2.RefreshToken request = Cred.RefreshToken credential /\
    Cred.AccessToken fresh = OAuth2.AccessToken token /\
    Cred.RefreshToken fresh = (if is_empty (OAuth2.RefreshToken token) then Cred.RefreshToken credential
                               else OAuth2.RefreshToken token).

Definition refresh_answer (c : connector) (credential : Cred.Credential)
    (answer : option Cred.Credential * option error) : Prop :=
  either_or answer /\ forall fresh, answer.1 = Some fresh -> renewed c credential fresh.

Lemma normalized_access_token token now nonExpiring :
  Cred.AccessToken (NormalizeCredential token now nonExpiring) = OAuth2.AccessToken token.
Proof. unfold NormalizeCredential. by repeat (case_match; try done). Qed.

Lemma connector_refresh_answers c credential : produces (refresh_answer c credential) (connector_refresh c credential).
Proof.
  intros o. apply (gate_ends (refresh_answer c credential) (fun answer _ => refresh_answer c credential answer)); [|done].
  unfold connector_refresh. destruct (is_github c && is_empty (Cred.RefreshToken credential)) eqn:Hg.
  - apply gate_return. split; [done|]. intros ? [= <-]. apply andb_true_iff in Hg as [? ?%is_empty_iff]. by left.
  - apply gate_bind with (Post := fun _ o1 => o1 = o); [by apply wp_return_if|]. intros _ ? ->.
    apply gate_bind with (Post := fun answer o' => source_token (oauth_config c) (forced credential) o = (answer, o')).
    { by apply gate_call, ends_eq. }
    intros [token|err] o' Ht.
    + gate_step. apply gate_ret. split; [done|]. intros ? [= <-]. right. exists o, (forced credential), token, o'.
      by rewrite normalized_access_token, normalized_refresh_token.
    + by apply gate_ret.
Qed.
End Assertions.

(** ** The connectors of the process *)

Section Lawful.
Context {O : Type} `{!OAuth2Lib O} `{Env} `{!FloatConversion} (connectors : gmap string connector).

#[export] Instance provider_connectors_lawful : LawfulConnectors O (Connectors0 := provider_connectors connectors).
Proof.
  split; intros id; cbn [Exchange Refresh GetIdentity provider_connectors]; destruct (connectors !! id) as [c|]; try done;
    intros what o; cbn.
  - apply connector_exchange_either.
  - apply (connector_refresh_answers c what o).
  - intros fresh Hf Hn. destruct (connector_refresh_answers c what o) as [_ Hr].
    destruct (Hr fresh Hf) as [(_ & ? & _)|(? & ? & token & ? & _ & _ & _ & _ & ->)]; [done|].
    by destruct (is_empty (OAuth2.RefreshToken token)) eqn:He; [|apply nonempty_iff].
  - intros Hn. by apply (connector_identity_asserted c what o).
Qed.

(** C30: An identity a connector returns is what the provider asserted: it answered 200 to
    a request made with the user's token, and subject, addresses and their verification are
    those of its body, never empty; a configured hosted domain is enforced and the
    addresses GitHub makes up are left out. *)
Theorem identity_is_asserted (id : string) (c : connector) (token : OAuth2.Token) (o o' : O) (identity : Identity.Identity)
    (Hc : connectors !! id = Some c)
    (Hi : GetIdentity (Connectors := provider_connectors connectors) id token o = ((identity, None), o')) :
  asserted c token identity /\ well_formed_identity identity.
Proof.
  cbn [GetIdentity provider_connectors] in Hi. rewrite Hc in Hi.
  pose proof (connector_identity_asserted c token o) as Ha. rewrite Hi in Ha. by apply Ha.
Qed.

(** A refresh answers with a credential or an error; the credential is the access
    token of the provider's answer to the refresh token alone, and the refresh token is
    never lost; only GitHub credentials without a refresh token stay as they are. *)
Theorem refreshed_credential_is_renewed (id : string) (c : connector) (credential fresh : Cred.Credential)
    (err : option error) (o o' : O) (Hc : connectors !! id = Some c)
    (Hr : Refresh (Connectors := provider_connectors connectors) id credential o = ((Some fresh, err), o')) :
  err = None /\ renewed c credential fresh /\
  (Cred.RefreshToken credential <> "" -> Cred.RefreshToken fresh <> "").
Proof.
  pose proof (Refresh_keeps (Connectors0 := provider_connectors connectors) id credential o) as Hk.
  cbn [Refresh provider_connectors] in Hr, Hk. rewrite Hc in Hr, Hk.
  destruct (connector_refresh_answers c credential o) as [He Ha]. rewrite Hr in He, Ha, Hk.
  unfold either_or in He. cbn in He. split_and!; [by destruct err|by apply Ha|by apply Hk].
Qed.
End Lawful.

(** ** A concrete provider *)

Module Site.

(** The state is the number of calls; GitHub answers user and addresses, the token
    endpoint renews without a new refresh token. *)
#[local] Instance site_oauth : OAuth2Lib Z := {|
  auth_code_url _ state _ := state;
  exchange_code _ _ o := (inr (Errorf "code"), o + 1);
  source_token _ request o :=
    (inl {| OAuth2.AccessToken := "fresh"; OAuth2.TokenType := "bearer"; OAuth2.RefreshToken := "";
            OAuth2.Expiry := 5; OAuth2.Extra := fun _ => AnyNil |}, o + 1);
  client_get _ _ url o :=
    (inl {| OAuth.StatusCode := 200; OAuth.Header := fun _ => "";
            OAuth.Body :=
              if (url =? "https://api.github.com/user")%string then Some (JObject [("id", JNumber "42")])
              else Some (JArray [JObject [("email", JString "42@users.noreply.github.com"); ("verified", JBool true)];
                                 JObject [("email", JString "ada@example.org"); ("verified", JBool true); ("primary", JBool true)]]) |},
     o + 1);
  provider_now o := (1000, o)
|}.

Definition github : connector :=
  GitHubConnector {| OAuth.ClientID := "id"; OAuth.ClientSecret := "secret"; OAuth.RedirectURL := "https://id.example/callback/github";
                     OAuth.Scopes := ["user:email"]; OAuth.AuthURL := "https://github.com/login/oauth/authorize";
                     OAuth.TokenURL := "https://github.com/login/oauth/access_token" |} "github.com".
Definition site : gmap string connector := {[ "github" := github ]}.
Definition user_token : OAuth2.Token := OAuthToken (zero_credential <| Cred.AccessToken := "t" |>).
Definition ada : Identity.Identity :=
  {| Identity.Subject := "42";
     Identity.Emails := [{| Identity.Address := "ada@example.org"; Identity.Verified := true; Identity.Primary := true |}] |}.

#[local] Instance site_env : Env := quiet_env 0.
#[local] Instance site_floats : FloatConversion := fun _ _ => 0.

Lemma github_says_ada :
  GetIdentity (Connectors := provider_connectors site) "github" user_token 0 = ((ada, None), 2).
Proof. vm_compute. reflexivity. Defined.

Definition stored : Cred.Credential := zero_credential <| Cred.AccessToken := "old" |> <| Cred.RefreshToken := "r" |>.
Definition renewed_credential : Cred.Credential :=
  stored <| Cred.AccessToken := "fresh" |> <| Cred.TokenType := "bearer" |> <| Cred.AccessExpiry := 5 |>.

Lemma github_renews :
  Refresh (Connectors := provider_connectors site) "github" stored 0 = ((Some renewed_credential, None), 1).
Proof. vm_compute. reflexivity. Defined.

End Site.

#[local] Existing Instances Site.site_oauth Site.site_env Site.site_floats.
Import Site.

Lemma identity_is_asserted_witness : asserted github user_token ada /\ well_formed_identity ada.
Proof. apply (identity_is_asserted site "github" github user_token 0 2 ada); [reflexivity|exact github_says_ada]. Defined.

Lemma refreshed_credential_is_renewed_witness :
  @None error = None /\ renewed github stored renewed_credential /\ ("r" <> "" -> "r" <> "").
Proof. exact (refreshed_credential_is_renewed site "github" github stored renewed_credential None 0 1 eq_refl github_renews). Defined.
