(* ===== verification/Dpop.v ===== *)
(** * internal/dpop/dpop.go: DPoP proofs

    Parsing and verification of a proof, its acceptance window in float64 arithmetic,
    the hash of the access token, the thumbprint and the replay hash.  The JOSE library
    (keys and signatures) and the texts of encoding/json are classes. *)

From S2P Require Import Prelude Runtime Base64 Sha256 ReplayCache RefreshToken Json Config TrustConfig Durations.

Definition maxProofSize : Z := 8 * 1024.

Module Dpop.

(** [dpop.Proof] *)
Record Proof_ := {
  Algorithm : string;
  Thumbprint : string;
  JTI : string;
  Method : string;
  Target : string;
  ATH : string
}.

End Dpop.

(** [dpop.signingProfile] *)
Record signingProfile := { algorithm : string; curveName : string }.

Definition profile (alg : string) : option signingProfile :=
  if (alg =? "ES256")%string then Some {| algorithm := "ES256"; curveName := "P-256" |}
  else if (alg =? "ES512")%string then Some {| algorithm := "ES512"; curveName := "P-521" |}
  else None.

(** encoding/json: [Unmarshal] into a map of raw messages (empty for null) and into a
    string (empty on another value), and a decoder with [UseNumber] that returns the
    object and the text after it. *)
Class ProofJSON := {
  unmarshal_members : string -> option (gmap string string);
  unmarshal_string : string -> string;
  decode_members : string -> option (list (string * json) * string)
}.

(** jwk, ecdsa and jws: a parsed key, its public key and uncompressed point, the point
    checked on a curve, the SHA-256 thumbprint, and the payload of a verified JWS. *)
Class JOSE := {
  jwk_key : Type;
  public_key : Type;
  ParseKey : string -> option jwk_key;
  Raw : jwk_key -> option public_key;
  PointBytes : public_key -> option string;
  ParseUncompressedPublicKey : string -> string -> option public_key;
  jwk_thumbprint : jwk_key -> option string;
  jws_verify : string -> string -> public_key -> option string
}.

(** [io.EOF] after a value: only JSON white space remains. *)
Definition is_json_space (c : ascii) : bool :=
  let z := byte_z c in (z =? 32) || (z =? 9) || (z =? 10) || (z =? 13).
Definition at_eof (rest : string) : bool := string_forallb is_json_space rest.

(** ** UTF-8 *)

Definition in_range (lo hi : Z) (c : ascii) : bool := (lo <=? byte_z c) && (byte_z c <=? hi).
Definition continuation (c : ascii) : bool := in_range 0x80 0xBF c.

(** [utf8.Valid]: no surrogate, no overlong form, nothing above U+10FFFF. *)
Fixpoint utf8_valid (s : string) : bool :=
  match s with
  | EmptyString => true
  | String a s1 =>
      if byte_z a <? 0x80 then utf8_valid s1
      else match s1 with
      | EmptyString => false
      | String b s2 =>
          if in_range 0xC2 0xDF a then continuation b && utf8_valid s2
          else match s2 with
          | EmptyString => false
          | String c s3 =>
              let second := if byte_z a =? 0xE0 then in_range 0xA0 0xBF b
                            else if byte_z a =? 0xED then in_range 0x80 0x9F b
                            else if byte_z a =? 0xF0 then in_range 0x90 0xBF b
                            else if byte_z a =? 0xF4 then in_range 0x80 0x8F b
                            else continuation b in
              if in_range 0xE0 0xEF a then second && continuation c && utf8_valid s3
              else if in_range 0xF0 0xF4 a
              then match s3 with
                   | String d s4 => second && continuation c && continuation d && utf8_valid s4
                   | EmptyString => false
                   end
              else false
          end
      end
  end.

(** ** The acceptance window *)

Definition seconds_of (now : time) : float64 := fdiv (of_int now) (of_int second).

(** [iat < now - 10 || iat > now + 5] in float64 seconds. *)
Definition outside_window (iat : float64) (now : time) : bool :=
  is_inf iat || flt iat (fsub (seconds_of now) (of_int 10))
  || flt (fadd (seconds_of now) (of_int 5)) iat.

(** ** Verification *)

Definition requiredString (claims : list (string * json)) (name : string) : string * bool :=
  match member name claims with
  | Some (JString value) => (value, negb (is_empty value))
  | _ => ("", false)
  end.

Section Verification.
Context `{!URLs} `{!ProofJSON} `{!JOSE}.

(** [stringValue(m[name])] *)
Definition stringValue (members : gmap string string) (name : string) : string :=
  match members !! name with
  | Some raw => unmarshal_string raw
  | None => ""
  end.

Definition validateExpectedURL (raw : string) : bool :=
  match parse_url raw with
  | None => false
  | Some u =>
      negb (is_empty (Scheme u)) && negb (is_empty (Host u)) && negb (HasUser u)
      && is_empty (RawQuery u) && negb (ForceQuery u) && is_empty (Fragment u)
      && mem (Scheme u) ["http"; "https"]
  end.

Definition has_member (members : gmap string string) (name : string) : bool :=
  negb (is_nil (members !! name)).

Definition parsePublicKey (data : string) (profile : signingProfile) : (public_key * string) + error :=
  match unmarshal_members data with
  | None => inr (Errorf "invalid JWK")
  | Some members =>
      if existsb (has_member members) ["d"; "k"; "p"; "q"; "dp"; "dq"; "qi"; "oth"]
      then inr (Errorf "private or symmetric key material")
      else if negb (stringValue members "kty" =? "EC")%string
              || negb (stringValue members "crv" =? curveName profile)%string
      then inr (Errorf "JWK curve does not match algorithm")
      else if has_member members "alg" && negb (stringValue members "alg" =? algorithm profile)%string
      then inr (Errorf "JWK algorithm mismatch")
      else match ParseKey data with
      | None => inr (Errorf "invalid JWK")
      | Some key =>
          match (Raw key ≫= PointBytes) ≫= ParseUncompressedPublicKey (curveName profile) with
          | None => inr (Errorf "invalid EC point")
          | Some validatedKey =>
              match jwk_thumbprint key with
              | None => inr (Errorf "JWK thumbprint failed")
              | Some thumb => inl (validatedKey, Base64.encode thumb)
              end
          end
      end
  end.

(** The claims of a verified payload, checked against the request. *)
Definition check_claims (claims : list (string * json)) (alg thumbprint method expectedURL : string)
    (now : time) : Dpop.Proof_ + error :=
  let '(jti, ok) := requiredString claims "jti" in
  if negb ok || (128 <? len jti) then inr (Errorf "invalid jti")
  else let '(htm, ok) := requiredString claims "htm" in
  if negb ok then inr (Errorf "invalid htm")
  else let '(htu, ok) := requiredString claims "htu" in
  if negb ok then inr (Errorf "invalid htu")
  else if negb (validateExpectedURL expectedURL) then inr (Errorf "invalid expected URL")
  else if negb (htm =? method)%string then inr (Errorf "method mismatch")
  else if negb (htu =? expectedURL)%string then inr (Errorf "target mismatch")
  else match member "iat" claims with
  | Some (JNumber text) =>
      match ParseFloat text with
      | None => inr (Errorf "iat outside acceptance window")
      | Some iat =>
          if outside_window iat now then inr (Errorf "iat outside acceptance window")
          else
            let result ath := inl {| Dpop.Algorithm := alg; Dpop.Thumbprint := thumbprint;
                                     Dpop.JTI := jti; Dpop.Method := htm; Dpop.Target := htu;
                                     Dpop.ATH := ath |} in
            match member "ath" claims with
            | None => result ""
            | Some (JString ath) => result ath
            | Some _ => inr (Errorf "ath must be a string")
            end
      end
  | _ => inr (Errorf "iat must be numeric")
  end.

Definition forbidden_headers : list string := ["crit"; "b64"; "jku"; "x5u"; "x5c"; "kid"].

Definition parseAndVerify (compact expectedAlgorithm method expectedURL : string) (now : time)
  : Dpop.Proof_ + error :=
  if maxProofSize <? len compact then inr (Errorf "proof exceeds 8 KiB")
  else match split_on "." compact with
  | [p0; p1; p2] =>
      if is_empty p0 || is_empty p1 || is_empty p2
      then inr (Errorf "compact JWS must have three nonempty segments")
      else match Base64.decode false p0 ≫= unmarshal_members with
      | None => inr (Errorf "invalid protected header")
      | Some header =>
          if negb (stringValue header "typ" =? "dpop+jwt")%string then inr (Errorf "invalid typ")
          else
            let alg := stringValue header "alg" in
            match profile alg with
            | None => inr (Errorf "algorithm is not allowed")
            | Some proofProfile =>
                if negb (is_empty expectedAlgorithm) && negb (alg =? expectedAlgorithm)%string
                then inr (Errorf "algorithm is not allowed")
                else if existsb (has_member header) forbidden_headers
                then inr (Errorf "forbidden protected header")
                else match header !! "jwk" with
                | None => inr (Errorf "jwk is required")
                | Some keyJSON =>
                    match parsePublicKey keyJSON proofProfile with
                    | inr err => inr err
                    | inl (publicKey, thumbprint) =>
                        match jws_verify compact (algorithm proofProfile) publicKey with
                        | None => inr (Errorf "verification failed")
                        | Some payload =>
                            if negb (utf8_valid payload) then inr (Errorf "invalid claims")
                            else match decode_members payload with
                            | None => inr (Errorf "invalid claims")
                            | Some (claims, rest) =>
                                if negb (at_eof rest) then inr (Errorf "invalid claims")
                                else check_claims claims alg thumbprint method expectedURL now
                            end
                        end
                    end
                end
            end
      end
  | _ => inr (Errorf "compact JWS must have three nonempty segments")
  end.

Definition ParseAndVerify (compact expectedAlgorithm method expectedURL : string) (now : time)
  : Dpop.Proof_ + error :=
  match profile expectedAlgorithm with
  | None => inr (Errorf "unsupported expected algorithm")
  | Some _ => parseAndVerify compact expectedAlgorithm method expectedURL now
  end.

Definition ParseAndVerifyBound (compact method expectedURL : string) (now : time) : Dpop.Proof_ + error :=
  parseAndVerify compact "" method expectedURL now.
End Verification.

(** ** Bindings *)

Definition VerifyAccessTokenHash (proof : Dpop.Proof_) (token : string) : option error :=
  if negb (is_ascii token) then Some (Errorf "token is not ASCII")
  else if is_empty (Dpop.ATH proof)
          || negb (Dpop.ATH proof =? Base64.encode (sha256 token))%string
  then Some (Errorf "ath mismatch") else None.

Definition VerifyThumbprint (proof : Dpop.Proof_) (expected : string) : option error :=
  if negb (Dpop.Thumbprint proof =? expected)%string then Some (Errorf "thumbprint mismatch") else None.

(** The text the replay hash is taken of. *)
Definition replay_input (thumbprint jti method target : string) : string :=
  String "001" (delimited thumbprint +:+ delimited jti +:+ delimited method +:+ delimited target).
Definition ReplayHash (thumbprint jti method target : string) : string :=
  sha256 (replay_input thumbprint jti method target).
