(* ===== verification/DpopProperties.v ===== *)
(** * Properties of DPoP proofs

    A relational description of the proofs the verifier accepts, the unambiguity of the
    text a replay hash is taken of, and the meeting of the acceptance window with the
    retention of the replay cache. *)

From S2P Require Import Prelude Runtime Base64 Sha256 ReplayCache RefreshToken Json TrustConfig Durations Rounding Dpop.

(** ** The proofs that are acceptable *)

(** The two signing profiles. *)
Inductive curve_of : string -> string -> Prop :=
  | curve_ES256 : curve_of "ES256" "P-256"
  | curve_ES512 : curve_of "ES512" "P-521".

Lemma profile_spec alg p :
  profile alg = Some p <-> curve_of alg (curveName p) /\ algorithm p = alg.
Proof.
  unfold profile. split.
  - destruct (String.eqb_spec alg "ES256") as [->|]; [intros [= <-]; split; [constructor|done]|].
    destruct (String.eqb_spec alg "ES512") as [->|]; [intros [= <-]; split; [constructor|done]|done].
  - destruct p as [a c]; cbn. intros [Hc ->]. by destruct Hc.
Qed.

Lemma existsb_false {A} (f : A -> bool) l : existsb f l = false <-> Forall (fun x => f x = false) l.
Proof.
  induction l as [|x l IH]; cbn; [by split; [constructor|]|].
  by rewrite orb_false_iff, IH, Forall_cons.
Qed.

Lemma has_member_false members name : has_member members name = false <-> members !! name = None.
Proof. unfold has_member. by destruct (members !! name). Qed.

Lemma no_members members names :
  existsb (has_member members) names = false <-> Forall (fun name => members !! name = None) names.
Proof. rewrite existsb_false. apply Forall_proper; [intros name; apply has_member_false | done]. Qed.

Section Accepted.
Context `{!URLs} `{!ProofJSON} `{!JOSE}.

(** The public key embedded in a proof for [alg]: on the curve of [alg], without private
    or symmetric members, with its RFC 7638 thumbprint. *)
Definition embedded_key (keyJSON alg : string) (pk : public_key) (thumbprint : string) : Prop :=
  exists members curve key raw point thumb,
    unmarshal_members keyJSON = Some members /\
    Forall (fun name => members !! name = None) ["d"; "k"; "p"; "q"; "dp"; "dq"; "qi"; "oth"] /\
    curve_of alg curve /\ stringValue members "kty" = "EC" /\ stringValue members "crv" = curve /\
    (members !! "alg" = None \/ stringValue members "alg" = alg) /\
    ParseKey keyJSON = Some key /\ Raw key = Some raw /\ PointBytes raw = Some point /\
    ParseUncompressedPublicKey curve point = Some pk /\
    jwk_thumbprint key = Some thumb /\ thumbprint = Base64.encode thumb.

(** Claims made for this request at this time. *)
Definition claims_for (claims : list (string * json)) (method url : string) (now : time)
    (proof : Dpop.Proof_) : Prop :=
  member "jti" claims = Some (JString (Dpop.JTI proof)) /\ 1 <= len (Dpop.JTI proof) <= 128 /\
  member "htm" claims = Some (JString method) /\ method <> "" /\ Dpop.Method proof = method /\
  member "htu" claims = Some (JString url) /\ url <> "" /\ Dpop.Target proof = url /\
  validateExpectedURL url = true /\
  (exists text iat, member "iat" claims = Some (JNumber text) /\ ParseFloat text = Some iat /\
     outside_window iat now = false) /\
  match member "ath" claims with
  | None => Dpop.ATH proof = ""
  | Some v => v = JString (Dpop.ATH proof)
  end.

(** A proof of possession for a request: what RFC 9449, section 4.3 asks for. *)
Definition proves (compact expected method url : string) (now : time) (proof : Dpop.Proof_) : Prop :=
  len compact <= maxProofSize /\
  exists p0 p1 p2 data header keyJSON pk payload claims rest,
    split_on "." compact = [p0; p1; p2] /\ p0 <> "" /\ p1 <> "" /\ p2 <> "" /\
    Base64.decode false p0 = Some data /\ unmarshal_members data = Some header /\
    stringValue header "typ" = "dpop+jwt" /\ stringValue header "alg" = Dpop.Algorithm proof /\
    (expected = "" \/ Dpop.Algorithm proof = expected) /\
    Forall (fun name => header !! name = None) forbidden_headers /\
    header !! "jwk" = Some keyJSON /\
    embedded_key keyJSON (Dpop.Algorithm proof) pk (Dpop.Thumbprint proof) /\
    jws_verify compact (Dpop.Algorithm proof) pk = Some payload /\
    utf8_valid payload = true /\ decode_members payload = Some (claims, rest) /\ at_eof rest = true /\
    claims_for claims method url now proof.

(** Tests of the code and what they establish. *)
Lemma is_empty_false s : is_empty s = false <-> s <> "".
Proof. unfold is_empty. by destruct (String.eqb_spec s ""). Qed.

Lemma neq_false (a b : string) : negb (a =? b)%string = false <-> a = b.
Proof. by destruct (String.eqb_spec a b). Qed.

Lemma requiredString_spec claims name s :
  requiredString claims name = (s, true) <-> member name claims = Some (JString s) /\ s <> "".
Proof.
  unfold requiredString. split.
  - destruct (member name claims) as [[]|]; try done. intros [= <- He].
    split; [done|]. apply is_empty_false. by destruct (is_empty _).
  - intros [-> Hs%is_empty_false]. by rewrite Hs.
Qed.

Lemma requiredString_ok claims name s ok :
  requiredString claims name = (s, ok) -> ok = true -> member name claims = Some (JString s) /\ s <> "".
Proof. intros Hs ->. by apply requiredString_spec. Qed.

Lemma parsePublicKey_spec keyJSON alg p pk thumbprint :
  profile alg = Some p ->
  parsePublicKey keyJSON p = inl (pk, thumbprint) <-> embedded_key keyJSON alg pk thumbprint.
Proof.
  intros Hp. apply profile_spec in Hp as [Hc Ha]. unfold parsePublicKey. split.
  - destruct (unmarshal_members keyJSON) as [members|] eqn:Hm; [|done].
    destruct (existsb _ _) eqn:Hpriv; [done|]. apply no_members in Hpriv.
    destruct (_ || _) eqn:Hkty; [done|]. apply orb_false_iff in Hkty as [Hkty%neq_false Hcrv%neq_false].
    destruct (_ && _) eqn:Halg; [done|].
    destruct (ParseKey keyJSON) as [key|] eqn:Hkey; [|done].
    destruct (Raw key) as [raw|] eqn:Hraw; [cbn|done].
    destruct (PointBytes raw) as [point|] eqn:Hpoint; [cbn|done].
    destruct (ParseUncompressedPublicKey _ point) as [pk'|] eqn:Hpk; [|done].
    destruct (jwk_thumbprint key) as [thumb|] eqn:Hthumb; [|done]. intros [= -> <-].
    eexists members, _, key, raw, point, thumb. split_and!; eauto.
    apply andb_false_iff in Halg as [Halg%has_member_false|Halg%neq_false]; [by left | right; congruence].
  - intros (members & curve & key & raw & point & thumb & -> & Hpriv & Hc' & Hkty & Hcrv & Halg & -> & Hraw &
            Hpoint & Hpk & Hthumb & ->).
    assert (curve = curveName p) as -> by (destruct Hc; inversion Hc'; congruence).
    apply no_members in Hpriv. rewrite Hpriv, Hkty, Hcrv, !String.eqb_refl. cbn [negb orb].
    replace (has_member members "alg" && negb (stringValue members "alg" =? algorithm p)%string) with false.
    2:{ symmetry. apply andb_false_iff. destruct Halg as [Halg|Halg].
        - left. by apply has_member_false.
        - right. apply neq_false. congruence. }
    rewrite Hraw. cbn [mbind option_bind]. rewrite Hpoint. cbn [mbind option_bind]. by rewrite Hpk, Hthumb.
Qed.

Lemma check_claims_spec claims alg thumbprint method url now proof :
  check_claims claims alg thumbprint method url now = inl proof <->
  claims_for claims method url now proof /\ Dpop.Algorithm proof = alg /\ Dpop.Thumbprint proof = thumbprint.
Proof.
  unfold check_claims. split.
  - destruct (requiredString claims "jti") as [jti ok1] eqn:Hjti.
    destruct ok1; [|done]. destruct (Z.ltb_spec 128 (len jti)); [done|cbn [negb orb]].
    destruct (requiredString claims "htm") as [htm ok2] eqn:Hhtm. destruct ok2; [cbn [negb]|done].
    destruct (requiredString claims "htu") as [htu ok3] eqn:Hhtu. destruct ok3; [cbn [negb]|done].
    apply requiredString_spec in Hjti as [Hjti Hj], Hhtm as [Hhtm Hm], Hhtu as [Hhtu Hu].
    destruct (validateExpectedURL url) eqn:Hurl; [cbn [negb]|done].
    destruct (String.eqb_spec htm method) as [->|]; [cbn [negb]|done].
    destruct (String.eqb_spec htu url) as [->|]; [cbn [negb]|done].
    destruct (member "iat" claims) as [[]|] eqn:Hiat; try done.
    destruct (ParseFloat text) as [iat|] eqn:Hf; [|done].
    destruct (outside_window iat now) eqn:Hw; [done|]. intros Hres.
    assert (1 <= len jti) by (destruct jti; [done|]; unfold len; cbn; lia).
    destruct (member "ath" claims) as [[]|] eqn:Hath; try done; injection Hres as <-;
      unfold claims_for; cbn [Dpop.JTI Dpop.Method Dpop.Target Dpop.ATH Dpop.Algorithm Dpop.Thumbprint];
      rewrite Hath; split_and!; eauto.
  - destruct proof as [a t j m u ath].
    unfold claims_for; cbn [Dpop.JTI Dpop.Method Dpop.Target Dpop.ATH Dpop.Algorithm Dpop.Thumbprint].
    intros ((Hjti & Hlen & Hhtm & Hm & -> & Hhtu & Hu & -> & Hurl & (text & iat & Hiat & Hf & Hw) & Hath) & -> & ->).
    assert (j <> "") by (intros ->; unfold len in Hlen; cbn in Hlen; lia).
    rewrite (proj2 (requiredString_spec claims "jti" j)), (proj2 (requiredString_spec claims "htm" method)),
      (proj2 (requiredString_spec claims "htu" url)) by done.
    destruct (Z.ltb_spec 128 (len j)); [lia|]. cbn [negb orb].
    rewrite Hurl, !String.eqb_refl, Hiat, Hf, Hw. cbn [negb].
    destruct (member "ath" claims); [by subst | by rewrite Hath].
Qed.

Lemma parseAndVerify_spec compact expected method url now proof :
  parseAndVerify compact expected method url now = inl proof <->
  proves compact expected method url now proof.
Proof.
  unfold parseAndVerify, proves. destruct (Z.ltb_spec maxProofSize (len compact)); [split; [done|lia]|].
  split.
  - destruct (split_on "." compact) as [|p0 [|p1 [|p2 []]]] eqn:Hsplit; try done.
    destruct (_ || _) eqn:Hne; [done|].
    rewrite !orb_false_iff, !is_empty_false in Hne. destruct Hne as [[Hp0 Hp1] Hp2].
    destruct (Base64.decode false p0) as [data|] eqn:Hdata; [cbn [mbind option_bind]|done].
    destruct (unmarshal_members data) as [header|] eqn:Hheader; [|done].
    destruct (negb _) eqn:Htyp; [done|]. apply neq_false in Htyp.
    destruct (profile _) as [p|] eqn:Hprofile; [|done].
    destruct (negb (is_empty expected) && _) eqn:Hexp; [done|].
    destruct (existsb (has_member header) _) eqn:Hforb; [done|]. apply no_members in Hforb.
    destruct (header !! "jwk") as [keyJSON|] eqn:Hjwk; [|done].
    destruct (parsePublicKey keyJSON p) as [[pk thumb]|] eqn:Hpk; [|done].
    destruct (jws_verify _ _ _) as [payload|] eqn:Hjws; [|done].
    destruct (utf8_valid payload) eqn:Hutf; [cbn [negb]|done].
    destruct (decode_members payload) as [[claims rest]|] eqn:Hdec; [|done].
    destruct (at_eof rest) eqn:Heof; [cbn [negb]|done].
    intros (Hclaims & Halg & Hthumb)%check_claims_spec. split; [done|].
    assert (algorithm p = Dpop.Algorithm proof) as Hpa by (apply profile_spec in Hprofile as [_ ->]; congruence).
    exists p0, p1, p2, data, header, keyJSON, pk, payload, claims, rest. split_and!; try done.
    + apply andb_false_iff in Hexp as [He|He%neq_false]; [|right; congruence].
      left. unfold is_empty in He. by destruct (String.eqb_spec expected "").
    + rewrite Halg, Hthumb. by apply (parsePublicKey_spec _ _ p).
    + congruence.
  - intros (_ & p0 & p1 & p2 & data & header & keyJSON & pk & payload & claims & rest & -> & Hp0 & Hp1 & Hp2 & Hdata &
      Hheader & Htyp & Halg & Hexp & Hforb & Hjwk & Hkey & Hjws & Hutf & Hdec & Heof & Hclaims).
    apply is_empty_false in Hp0, Hp1, Hp2. rewrite Hp0, Hp1, Hp2, Hdata. cbn [orb mbind option_bind].
    rewrite Hheader, Htyp, Halg. cbn [negb String.eqb].
    assert (exists p, profile (Dpop.Algorithm proof) = Some p /\ algorithm p = Dpop.Algorithm proof) as (p & Hp & Hpa).
    { destruct Hkey as (_ & c & _ & _ & _ & _ & _ & _ & Hc & _). by destruct Hc; eexists. }
    rewrite Hp. replace (negb (is_empty expected) && _) with false.
    2:{ destruct Hexp as [-> | <-]; [done|]. by rewrite String.eqb_refl, andb_false_r. }
    apply no_members in Hforb. apply (parsePublicKey_spec _ _ p) in Hkey; [|done].
    rewrite Hforb, Hjwk, Hkey, Hpa, Hjws, Hutf, Hdec, Heof. cbn [negb].
    by apply check_claims_spec.
Qed.
End Accepted.

(** The public verifiers on a proof. *)
Lemma verifier_accepts `{!URLs} `{!ProofJSON} `{!JOSE} compact expected curve method url now proof :
  curve_of expected curve -> proves compact expected method url now proof ->
  ParseAndVerify compact expected method url now = inl proof.
Proof.
  intros Hc Hp. unfold ParseAndVerify.
  destruct (profile expected) as [p|] eqn:E; [by apply parseAndVerify_spec|]. by destruct Hc.
Qed.

(** C37: The verifier of DPoP proofs accepts exactly the proofs of possession for the
    request: at most 8 KiB, three nonempty segments, type [dpop+jwt], one of the two
    profiles (the expected one where one is expected), no forbidden header, an embedded
    public key on the curve of the profile under which the signature verifies, and
    claims that name this method and this URL, an identifier of 1 to 128 bytes and an
    issue time in the acceptance window.  What it returns is what the proof says, with
    the thumbprint of the embedded key. *)
Theorem verifier_accepts_exactly_proofs `{!URLs} `{!ProofJSON} `{!JOSE} compact expected method url now proof :
  (ParseAndVerify compact expected method url now = inl proof <->
     (exists curve, curve_of expected curve) /\ proves compact expected method url now proof) /\
  (ParseAndVerifyBound compact method url now = inl proof <-> proves compact "" method url now proof).
Proof.
  split; [|apply parseAndVerify_spec]. unfold ParseAndVerify.
  destruct (profile expected) as [p|] eqn:Hp.
  - rewrite parseAndVerify_spec. apply profile_spec in Hp as [Hc _]. naive_solver.
  - split; [done|]. intros [[curve Hc] _]. by destruct Hc.
Qed.

(** ** Replay hashes *)

(** The text a replay hash is taken of determines the thumbprint, the identifier, the
    method and the URL of the proof: two proofs share a replay hash only when they agree
    on all four, or SHA-256 collides. *)
Theorem replay_input_injective t j m u t' j' m' u' :
  Forall (fun s => len s < 2 ^ 32) [t; j; m; u; t'; j'; m'; u'] ->
  replay_input t j m u = replay_input t' j' m' u' -> (t, j, m, u) = (t', j', m', u').
Proof.
  intros Hlen E. rewrite !Forall_cons in Hlen. unfold replay_input in E.
  apply (f_equal (drop_bytes 1)) in E. cbn [drop_bytes] in E. destruct Hlen as (Ht & Hj & Hm & Hu & Ht' & Hj' & Hm' & Hu' & _).
  apply delimited_inj in E as [-> E]; [|done..].
  apply delimited_inj in E as [-> E]; [|done..].
  apply delimited_inj in E as [-> E]; [|done..].
  apply (f_equal (fun s => s +:+ "")) in E. apply delimited_inj in E as [-> _]; done.
Qed.

Lemma replay_input_injective_witness :
  replay_input "t" "ab" "POST" "u" <> replay_input "ta" "b" "POST" "u".
Proof.
  intros E. apply replay_input_injective in E; [|repeat constructor]. discriminate E.
Defined.

(** ** The acceptance window

    The window is computed in float64 seconds: the clock is rounded to a float, divided by
    a billion and moved by ten or five seconds, each result rounded.  No rounding crosses a
    multiple of 512 nanoseconds, so an issue time of whole seconds has the window it is
    meant to have, up to less than 512 nanoseconds beyond its ends. *)

(** The clocks between 2006 and 2106. *)
Definition ordinary_clock (now : time) : Prop := 2 ^ 60 <= now <= (2 ^ 32 - 16) * second.

Lemma seconds_of_within now :
  ordinary_clock now ->
  exists q, normal (seconds_of now) q /\ 2 ^ 90 <= q <= (2 ^ 32 - 16) * 2 ^ 60 /\
    forall n bound, (512 | n) -> (2 ^ 39 | bound) ->
      (n <= now -> bound * second <= n * 2 ^ 60 -> bound <= q) /\ (now <= n -> n * 2 ^ 60 <= bound * second -> q <= bound).
Proof.
  unfold ordinary_clock, second. intros Hnow. destruct (of_int_within now) as (w & Hw & Hwb); [lia|].
  assert (forall n, (512 | n) -> (n <= now -> n * 2 ^ 60 <= w) /\ (now <= n -> w <= n * 2 ^ 60)) as Hwn.
  { intros n [c ->]. destruct (Hwb 62 (c * 512 * 2 ^ 60)) as [H1 H2]; [lia|lia|exists c; lia|]. split; intros; [apply H1|apply H2]; lia. }
  destruct (Hwn (2 ^ 60)) as [Hw1 _]; [exists (2 ^ 51); lia|]. destruct (Hwn ((2 ^ 32 - 16) * 1000000000)) as [_ Hw2]; [exists ((2 ^ 32 - 16) * 1953125); lia|].
  destruct (fdiv_second_within (of_int now) w 32) as (q & Hq & Hqb); [done|lia|unfold second; lia|lia|]. unfold second in Hqb.
  destruct (Hqb (2 ^ 90)) as [Hq1 _]; [exists (2 ^ 51); lia|].
  destruct (Hqb ((2 ^ 32 - 16) * 2 ^ 60)) as [_ Hq2]; [exists ((2 ^ 32 - 16) * 2 ^ 21); lia|].
  exists q. split; [done|]. split; [lia|]. intros n bound Hn Hb. destruct (Hwn n Hn) as [H1 H2]. destruct (Hqb bound Hb) as [H3 H4].
  split; intros; [apply H3|apply H4]; lia.
Qed.

(** The test of the window against the clock moved to it. *)
Lemma outside_window_within n now :
  ordinary_clock now -> 0 < n < 2 ^ 32 ->
  exists early late, outside_window (of_int n) now = (n * 2 ^ 60 <? early) || (late <? n * 2 ^ 60) /\
    forall m bound, (512 | m) -> (2 ^ 39 | bound) ->
      (m <= now -> bound * second <= m * 2 ^ 60 -> bound - 10 * 2 ^ 60 <= early /\ bound + 5 * 2 ^ 60 <= late) /\
      (now <= m -> m * 2 ^ 60 <= bound * second -> early <= bound - 10 * 2 ^ 60 /\ late <= bound + 5 * 2 ^ 60).
Proof.
  intros Hnow Hn. destruct (seconds_of_within now Hnow) as (q & Hq & Hqr & Hqb).
  pose proof (of_int_exact n ltac:(lia)) as Hin.
  destruct (fsub_within (seconds_of now) q (of_int 10) (10 * 2 ^ 60)) as (early & He & Heb); [done|by apply of_int_exact|lia|].
  destruct (fadd_within (seconds_of now) q (of_int 5) (5 * 2 ^ 60)) as (late & Hl & Hlb); [done|by apply of_int_exact|lia|].
  exists early, late. split.
  - unfold outside_window. rewrite (flt_spec _ _ _ _ Hin He), (flt_spec _ _ _ _ Hl Hin).
    by destruct Hin as (m & e & -> & _).
  - intros m bound Hm [c ->]. destruct (Hqb m (c * 2 ^ 39) Hm) as [H1 H2]; [by exists c|].
    destruct (Heb 32 (c * 2 ^ 39 - 10 * 2 ^ 60)) as [H3 H4]; [lia|lia|exists (c - 10 * 2 ^ 21); lia|].
    destruct (Hlb 32 (c * 2 ^ 39 + 5 * 2 ^ 60)) as [H5 H6]; [lia|lia|exists (c + 5 * 2 ^ 21); lia|].
    split; intros; split; lia.
Qed.

(** An issue time of whole seconds is accepted at every instant from five seconds before it
    to ten seconds after it, and refused from 512 nanoseconds beyond either end: rounding
    never shrinks the window and widens it by less than 512 nanoseconds at each end, for
    clocks between 2006 and 2106. *)
Theorem acceptance_window n now :
  ordinary_clock now -> 0 < n < 2 ^ 32 ->
  ((n - 5) * second <= now <= (n + 10) * second -> outside_window (of_int n) now = false) /\
  (now <= (n - 5) * second - 512 \/ (n + 10) * second + 512 <= now -> outside_window (of_int n) now = true).
Proof.
  intros Hnow Hn. destruct (outside_window_within n now Hnow Hn) as (early & late & -> & Hb). unfold second in *.
  assert (forall k : Z, (512 | k * 1000000000)) as Hs by (intros k; exists (k * 1953125); lia).
  assert (forall k : Z, (2 ^ 39 | k * 2 ^ 60)) as Hu by (intros k; exists (k * 2 ^ 21); lia). split.
  - intros Hw. apply orb_false_iff.
    destruct (Hb ((n - 5) * 1000000000) ((n - 5) * 2 ^ 60) (Hs _) (Hu _)) as [H1 _].
    destruct (Hb ((n + 10) * 1000000000) ((n + 10) * 2 ^ 60) (Hs _) (Hu _)) as [_ H2]. split; apply Z.ltb_ge; lia.
  - intros [Hw|Hw]; apply orb_true_iff.
    + destruct (Hb ((n - 5) * 1000000000 - 512) ((n - 5) * 2 ^ 60 - 2 ^ 39)) as [_ H];
        [exists ((n - 5) * 1953125 - 1); lia|exists ((n - 5) * 2 ^ 21 - 1); lia|]. right. apply Z.ltb_lt. lia.
    + destruct (Hb ((n + 10) * 1000000000 + 512) ((n + 10) * 2 ^ 60 + 2 ^ 39)) as [H _];
        [exists ((n + 10) * 1953125 + 1); lia|exists ((n + 10) * 2 ^ 21 + 1); lia|]. left. apply Z.ltb_lt. lia.
Qed.

Lemma acceptance_window_witness :
  outside_window (of_int 1700000000) (1700000010 * second) = false /\
  outside_window (of_int 1700000000) (1700000010 * second + 512) = true.
Proof.
  assert (ordinary_clock (1700000010 * second) /\ ordinary_clock (1700000010 * second + 512)) as [H1 H2]
    by (unfold ordinary_clock, second; lia).
  split; apply (acceptance_window 1700000000); try done; unfold second; lia.
Defined.

(** C38: A proof of possession issued at a whole second is accepted once, under clocks of the
    years 2006 to 2106: when the verifier found the proof in its window at two instants, and the replay cache, which reserved it at the first, reserved
    it again at the second after any other reservations no later than that, then the first
    instant was within 512 nanoseconds of the opening of the window and the second within
    512 nanoseconds of its close, fifteen seconds apart.  At every other pair of instants a
    proof that was accepted is refused, as outside its window or as a replay. *)
Theorem proof_accepted_again_only_at_the_ends n h c c1 l t1 t2 :
  ordinary_clock t1 -> ordinary_clock t2 -> 0 < n < 2 ^ 32 -> cache_ok c ->
  outside_window (of_int n) t1 = false -> Reserve h t1 c = (None, c1) ->
  Forall (fun x => x.2 <= t2) l ->
  outside_window (of_int n) t2 = false -> (Reserve h t2 (reserve_all l c1)).1 = None ->
  Z.abs (t1 - (n - 5) * second) < 512 /\ Z.abs (t2 - (n + 10) * second) < 512 /\ t1 + replayRetention <= t2.
Proof.
  intros Ht1 Ht2 Hn Hok Hw1 Hr1 Hl Hw2 Hr2.
  destruct (acceptance_window n t1 Ht1 Hn) as [_ Hout1]. destruct (acceptance_window n t2 Ht2 Hn) as [_ Hout2].
  assert ((n - 5) * second - 512 < t1 /\ t2 < (n + 10) * second + 512) as [H1 H2].
  { split; apply Z.nle_gt; intros H; [rewrite Hout1 in Hw1 by lia|rewrite Hout2 in Hw2 by lia]; done. }
  assert (t1 + replayRetention <= t2) as H3.
  { apply Z.nlt_ge. intros H. rewrite (accepted_proof_not_accepted_again h t1 c c1 l t2) in Hr2; try done.
    eapply Forall_impl; [exact Hl|]. intros x Hx. cbn in Hx. lia. }
  unfold replayRetention, second in *. lia.
Qed.

(** It is accepted again at the close of the window when it was accepted at the opening. *)
Lemma proof_accepted_again_only_at_the_ends_witness :
  exists c c1, NewReplayCache 4 = Some c /\ Reserve "p" (1700000000 * second) c = (None, c1) /\
    (Reserve "p" (1700000015 * second) (reserve_all [("q", 1700000001 * second)] c1)).1 = None /\
    1700000000 * second + replayRetention <= 1700000015 * second.
Proof.
  eexists _, _. split; [reflexivity|]. split; [vm_compute; reflexivity|]. split; [vm_compute; reflexivity|].
  eapply (proof_accepted_again_only_at_the_ends 1700000005 "p" _ _ [("q", 1700000001 * second)] (1700000000 * second) (1700000015 * second)).
  - unfold ordinary_clock, second. lia.
  - unfold ordinary_clock, second. lia.
  - lia.
  - apply (NewReplayCache_ok 4). reflexivity.
  - vm_compute. reflexivity.
  - vm_compute. reflexivity.
  - repeat constructor; unfold second; cbn; lia.
  - vm_compute. reflexivity.
  - vm_compute. reflexivity.
Defined.

(** ** The end of the acceptance window *)

(** Concrete libraries with one key, one header and one set of claims. *)
Module Demo.

#[export] Instance urls : URLs := fun _ =>
  Some {| Scheme := "https"; Host := "id.example"; Hostname := "id.example"; HasUser := false;
          RawQuery := ""; ForceQuery := false; Fragment := "" |}.

#[export] Instance json_texts : ProofJSON := {|
  unmarshal_members s :=
    if (s =? "head")%string
    then Some (list_to_map [("typ", "dpop+jwt"); ("alg", "ES256"); ("jwk", "key")])
    else if (s =? "key")%string then Some (list_to_map [("kty", "EC"); ("crv", "P-256")]) else None;
  unmarshal_string s := s;
  decode_members _ :=
    Some ([("jti", JString "id-1"); ("htm", JString "POST"); ("htu", JString "https://id.example/token");
           ("iat", JNumber "1700000005")], "")
|}.

#[export] Instance jose : JOSE := {|
  jwk_key := string; public_key := string;
  ParseKey := Some; Raw := Some; PointBytes := Some;
  ParseUncompressedPublicKey _ point := Some point;
  jwk_thumbprint := Some;
  jws_verify compact _ _ := if (compact =? "aGVhZA.cA.cw")%string then Some "claims" else None
|}.

Definition verify (now : time) : Dpop.Proof_ + error :=
  ParseAndVerify "aGVhZA.cA.cw" "ES256" "POST" "https://id.example/token" now.
End Demo.
Import Demo.

(** One such proof, accepted twice: at the first instant of its window, five seconds before
    its issue time, and at the last one, when the replay cache has forgotten it. *)
Example boundary_proof_accepted_twice :
  exists proof first second_ cache cache1,
    Demo.verify first = inl proof /\ Demo.verify second_ = inl proof /\ second_ = first + replayRetention /\
    let h := ReplayHash (Dpop.Thumbprint proof) (Dpop.JTI proof) (Dpop.Method proof) (Dpop.Target proof) in
    NewReplayCache 4 = Some cache /\
    Reserve h first cache = (None, cache1) /\ (Reserve h second_ cache1).1 = None.
Proof.
  eexists _, (1700000000 * second), (1700000015 * second), _, _.
  split; [vm_compute; reflexivity|]. split; [vm_compute; reflexivity|]. split; [reflexivity|].
  split; [reflexivity|]. split; vm_compute; reflexivity.
Qed.
