(* ===== verification/Trust.v ===== *)
(** * internal/trust/service.go: external identity tokens

    [VerifyAndEvaluate] takes an external token to the one trust binding whose schema
    its claims satisfy, after verifying it under a key of its issuer; issuer metadata
    and keys are cached.  The JWT, JWK and HTTP libraries are classes. *)

From S2P Require Import Prelude Runtime Base64 ReplayCache Schema Json Config Upstream Tokens TrustPolicy TrustConfig Dpop Services.

Definition MaxJWTBytes : Z := Z.shiftl 64 10.
Definition cacheTTL : duration := 5 * minute.
Definition refreshWait : duration := 30 * second.
Definition maxCachedIssuers : Z := 1024.

(** A key of a JWK set: its identifier, its algorithm if it has one, and the key. *)
Record JWK := { KeyID : string; KeyAlgorithm : option string; material : string }.

(** [trust.discoveryDocument] *)
Record discoveryDocument := { doc_issuer : string; JWKSURI : string }.

Module Issuers.

(** [trust.cachedIssuer]; the zero value has no keys. *)
Record cachedIssuer := {
  document : discoveryDocument;
  keys : option (list JWK);
  expires : time;
  lastRefresh : time
}.

#[global] Instance eta_cachedIssuer : Eta cachedIssuer := fun x =>
  {| document := document x; keys := keys x; expires := expires x; lastRefresh := lastRefresh x |}.

End Issuers.

Definition zero_issuer_entry : Issuers.cachedIssuer :=
  {| Issuers.document := {| doc_issuer := ""; JWKSURI := "" |}; Issuers.keys := None;
     Issuers.expires := zero_time; Issuers.lastRefresh := zero_time |}.

(** [trust.Diagnostic] *)
Record Diagnostic := { BindingID : string; Match_ : bool; Reason : string }.

Module Verified.

(** [trust.Result] *)
Record Result := {
  IssuerID : string;
  Issuer : string;
  UpstreamSubject : string;
  Claims : list (string * json);
  Binding : option Effective.EffectiveTrustBinding;
  Diagnostics : list Diagnostic
}.

#[global] Instance eta_Result : Eta Result := fun x =>
  {| IssuerID := IssuerID x; Issuer := Issuer x; UpstreamSubject := UpstreamSubject x;
     Claims := Claims x; Binding := Binding x; Diagnostics := Diagnostics x |}.

End Verified.

(** ** The peers of the server

    The state of the process outside the state database: the DPoP replay cache, the
    cache of issuers of the trust service and the rest (policy, login providers,
    network). *)

Record Peers (P : Type) := {
  replayCache : ReplayCache;
  issuer_cache : gmap string Issuers.cachedIssuer;
  outside : P
}.
#[global] Arguments replayCache {P} _.
#[global] Arguments issuer_cache {P} _.
#[global] Arguments outside {P} _.
#[global] Arguments Build_Peers {P} _ _ _.

Section Lifting.
Context {P : Type}.

Definition on_outside {B} (f : P -> B * P) (p : Peers P) : B * Peers P :=
  let (b, o) := f (outside p) in
  (b, {| replayCache := replayCache p; issuer_cache := issuer_cache p; outside := o |}).
Definition set_issuers (c : gmap string Issuers.cachedIssuer) (p : Peers P) : unit * Peers P :=
  (tt, {| replayCache := replayCache p; issuer_cache := c; outside := outside p |}).
Definition set_replay {B} (f : ReplayCache -> B * ReplayCache) (p : Peers P) : B * Peers P :=
  let (b, c) := f (replayCache p) in
  (b, {| replayCache := c; issuer_cache := issuer_cache p; outside := outside p |}).
End Lifting.

#[export] Instance peers_policy P `{!PolicyResolver P} : PolicyResolver (Peers P) :=
  {| ResolveClient id fresh := on_outside (ResolveClient id fresh);
     ResolveUser client subject := on_outside (ResolveUser client subject) |}.
#[export] Instance peers_trust P `{!TrustResolver P} : TrustResolver (Peers P) :=
  {| ResolveTrustIssuer client url := on_outside (ResolveTrustIssuer client url);
     ResolveTrustBindings client issuer := on_outside (ResolveTrustBindings client issuer) |}.
#[export] Instance peers_connectors P `{!Connectors P} : Connectors (Peers P) :=
  {| has_connector := has_connector; AuthCodeURL := AuthCodeURL;
     Exchange id code := on_outside (Exchange id code);
     Refresh id credential := on_outside (Refresh id credential);
     GetIdentity id token := on_outside (GetIdentity id token) |}.
#[export] Instance peers_contexts P `{!Contexts P} : Contexts (Peers P) :=
  on_outside ctx_done.

(** ** The libraries *)

(** jwx: the (algorithm, key id) of every signature of a JWS, a token parsed without
    verification, a token verified under an algorithm and a key, its validation at an
    instant with the subject, audience, expiration and issue time required, and a JWK
    set. *)
Class ExternalJWT := {
  jws_signatures : string -> option (list (string * string));
  parse_unverified : string -> option Token;
  parse_verified : string -> string -> JWK -> option Token;
  jwt_validate : time -> Token -> bool;
  jwk_parse : string -> option (list JWK)
}.

(** One GET through the client for static or for dynamic issuers: the status, the body
    as far as it is read and whether reading it failed. *)
Record http_response := { status_code : Z; http_body : string; read_failed : bool }.
Class HTTPClient (P : Type) := http_get : bool -> string -> P -> (http_response + error) * P.

(** encoding/json on the two documents. *)
Class MetadataJSON := {
  unmarshal_discovery : string -> option discoveryDocument;
  valid_json : string -> bool
}.

(** ** Pure checks *)

(** [IsIndeterminate]: a retryable error in the chain. *)
Fixpoint IsIndeterminate (err : error) : bool :=
  match err with
  | IndeterminateError _ => true
  | Wrapped _ err => IsIndeterminate err
  | _ => false
  end.

Fixpoint boundClaims (value : json) (depth : nat) : option error :=
  if (16 <? depth)%nat then Some (Errorf "claims exceed safe depth") else
  match value with
  | JObject members =>
      if 128 <? Z.of_nat (length members) then Some (Errorf "too many claims")
      else (fix bound_members l :=
        match l with
        | [] => None
        | (key, v) :: l =>
            if 256 <? len key then Some (Errorf "claim name too long")
            else match boundClaims v (S depth) with
                 | Some err => Some err
                 | None => bound_members l
                 end
        end) members
  | JArray items =>
      if 256 <? Z.of_nat (length items) then Some (Errorf "claim collection too large")
      else (fix bound_items l :=
        match l with
        | [] => None
        | v :: l => match boundClaims v (S depth) with
                    | Some err => Some err
                    | None => bound_items l
                    end
        end) items
  | JString s => if 8192 <? len s then Some (Errorf "claim string too long") else None
  | _ => None
  end.

(** The loop over the set: the key selected so far. *)
Fixpoint select_key (set_ : list JWK) (kid alg : string) (selected : option JWK) : JWK + error :=
  match set_ with
  | [] => match selected with
          | None => inr (Errorf "unknown kid")
          | Some key => inl key
          end
  | key :: set_ =>
      if negb (KeyID key =? kid)%string then select_key set_ kid alg selected
      else match selected with
      | Some _ => inr (Errorf "duplicate kid")
      | None =>
          let key_alg := default "" (KeyAlgorithm key) in
          if negb (is_empty key_alg) && negb (key_alg =? alg)%string
          then inr (Errorf "JWK algorithm mismatch")
          else select_key set_ kid alg (Some key)
      end
  end.
Definition selectKey (set_ : list JWK) (kid alg : string) : JWK + error := select_key set_ kid alg None.

Definition isLocal (host : string) : bool :=
  (host =? "localhost")%string || (host =? "127.0.0.1")%string || (host =? "::1")%string.

Definition trim_suffix_slash (s : string) : string :=
  let n := String.length s in
  if (drop_bytes (n - 1) s =? "/")%string then take_bytes (n - 1) s else s.

Section Pure.
Context `{!ExternalJWT} `{!URLs} `{!ProofJSON}.

Definition tokenHeaders (raw : string) : (string * string) + error :=
  match jws_signatures raw with
  | Some [(alg, kid)] => inl (alg, kid)
  | _ => inr (Errorf "invalid JWS")
  end.

Definition decodePayload (raw : string) : list (string * json) + error :=
  match split_on "." raw with
  | [_; payload; _] =>
      match Base64.decode false payload with
      | None => inr (Errorf "invalid payload")
      | Some data =>
          if MaxJWTBytes <? len data then inr (Errorf "invalid payload")
          else match decode_members data with
               | None => inr (Errorf "json")
               | Some (claims, _) => inl claims
               end
      end
  | _ => inr (Errorf "invalid compact JWS")
  end.

(** The checks after the library's validation at [now]. *)
Definition standard_claims (now : time) (token : Token) (clientID : string) : option error :=
  if negb (jwt_validate now token) then Some (Errorf "token verification failed")
  else if is_empty (tok_subject token)
          || negb (bool_decide (tok_audience token = [clientID]))
          || is_zero (tok_expiration token) || (unix (tok_expiration token) =? 0)
          || is_zero (tok_issued_at token) || (unix (tok_issued_at token) =? 0)
  then Some (Errorf "standard claims are invalid")
  else match tok_get token "azp" with
       | None => None
       | Some (JString value) =>
           if negb (value =? clientID)%string then Some (Errorf "authorized party is invalid") else None
       | Some _ => Some (Errorf "authorized party is invalid")
       end.

Definition jwks_uri_ok (issuer : string) (doc : discoveryDocument) : bool :=
  let https := match parse_url (JWKSURI doc) with
               | Some u => (Scheme u =? "https")%string
               | None => false
               end in
  https || match parse_url issuer, parse_url (JWKSURI doc) with
           | Some base, Some u =>
               (Scheme base =? "http")%string && isLocal (Hostname base)
               && (Scheme u =? "http")%string && isLocal (Hostname u)
           | _, _ => false
           end.

Definition check_discovery (issuer : Issuer.TrustIssuerConfig) (doc : discoveryDocument) : option error :=
  if negb (doc_issuer doc =? Issuer.IssuerURL issuer)%string
  then Some (Errorf "discovery issuer mismatch")
  else if negb (jwks_uri_ok (Issuer.IssuerURL issuer) doc)
  then Some (Errorf "jwks_uri must use HTTPS") else None.
End Pure.

(** The entry that expires first, in some order of the map. *)
Fixpoint oldest_entry (l : list (string * Issuers.cachedIssuer)) (oldest : option (string * time))
  : option string :=
  match l with
  | [] => fst <$> oldest
  | (key, entry) :: l =>
      oldest_entry l
        (match oldest with
         | Some (k, t) => if before (Issuers.expires entry) t then Some (key, Issuers.expires entry)
                          else Some (k, t)
         | None => Some (key, Issuers.expires entry)
         end)
  end.

(** Room for a new key. *)
Definition evict (cacheKey : string) (cache : gmap string Issuers.cachedIssuer)
  : gmap string Issuers.cachedIssuer :=
  if is_nil (cache !! cacheKey) && (maxCachedIssuers <=? Z.of_nat (size cache))
  then match oldest_entry (map_to_list cache) None with
       | Some key => delete key cache
       | None => cache
       end
  else cache.

Section Service.
Context `{Env} {P : Type} `{!PolicyResolver P} `{!TrustResolver P} `{!HTTPClient P}.
Context `{!ExternalJWT} `{!URLs} `{!ProofJSON} `{!MetadataJSON} `{!JSONLib}.

Abbreviation proc := (Process (Peers P)).

(** ** Fetching *)

Definition fetch {R} (dynamic : bool) (uri : string) : go proc R (http_response + error) :=
  call (on_peers (on_outside (http_get dynamic uri))).

(** The body of a bounded JSON GET, before it is unmarshalled. *)
Definition getJSON (dynamic : bool) (uri : string) (limit : Z) : proc -> (string + error) * proc := run (
  resp ← fetch dynamic uri;
  match resp with
  | inr err => mret (inr err)
  | inl resp =>
      return_if (negb (status_code resp =? 200)) (inr (Errorf "HTTP status")) ;;
      return_if (read_failed resp || (limit <? len (http_body resp))) (inr (Errorf "response too large")) ;;
      mret (inl (http_body resp))
  end).

Definition discovery (dynamic : bool) (issuer : Issuer.TrustIssuerConfig)
  : proc -> (discoveryDocument + error) * proc := run (
  let uri := trim_suffix_slash (Issuer.IssuerURL issuer) +:+ "/.well-known/openid-configuration" in
  data ← call (getJSON dynamic uri (Z.shiftl 32 10));
  match data with
  | inr err => mret (inr (Wrapped "discovery unavailable" err))
  | inl data =>
      match unmarshal_discovery data with
      | None => mret (inr (Wrapped "discovery unavailable" (Errorf "invalid JSON")))
      | Some doc =>
          match check_discovery issuer doc with
          | Some err => mret (inr err)
          | None => mret (inl doc)
          end
      end
  end).

Definition fetchJWKS (dynamic : bool) (uri : string) : proc -> (list JWK + error) * proc := run (
  data ← call (getJSON dynamic uri (Z.shiftl 128 10));
  match data with
  | inr err => mret (inr (Wrapped "JWKS unavailable" err))
  | inl data =>
      return_if (negb (valid_json data)) (inr (Wrapped "JWKS unavailable" (Errorf "invalid JSON"))) ;;
      match jwk_parse data with
      | None => mret (inr (Errorf "invalid JWKS"))
      | Some set_ => mret (inl set_)
      end
  end).

(** ** The cache of issuers *)

Definition cached_issuer {R} (cacheKey : string) : go proc R Issuers.cachedIssuer :=
  w ← get; mret (default zero_issuer_entry (issuer_cache (peers w) !! cacheKey)).
Definition put_issuers {R} (f : gmap string Issuers.cachedIssuer -> gmap string Issuers.cachedIssuer)
  : go proc R unit :=
  w ← get; call (on_peers (set_issuers (f (issuer_cache (peers w))))).

(** The entry serves the call at [now]. *)
Definition still_good (force : bool) (now : time) (entry : Issuers.cachedIssuer) : bool :=
  negb force && before now (Issuers.expires entry)
  || force && (sub now (Issuers.lastRefresh entry) <? refreshWait).

Definition cache_key (resolved : Resolved.ResolvedTrustIssuer) : string :=
  (if Resolved.Dynamic resolved then "dynamic:" else "static:")
  +:+ Issuer.IssuerURL (Resolved.IssuerConfig resolved).

(** The function of the singleflight group. *)
Definition load_keys (resolved : Resolved.ResolvedTrustIssuer) (force : bool)
  : proc -> (list JWK + error) * proc := run (
  let dynamic := Resolved.Dynamic resolved in
  let key := cache_key resolved in
  current ← cached_issuer key;
  match Issuers.keys current with
  | Some keys => now ← Now; return_if (still_good force now current) (inl keys)
  | None => mret tt
  end ;;
  current ← (if force : bool
             then now ← Now;
                  let current := current <| Issuers.lastRefresh := now |> in
                  when (negb (is_nil (Issuers.keys current))) (put_issuers (insert key current)) ;;
                  mret current
             else mret current);
  doc ← call (discovery dynamic (Resolved.IssuerConfig resolved));
  match doc with
  | inr err => return_ (inr err)
  | inl doc =>
      fetched ← call (fetchJWKS dynamic (JWKSURI doc));
      match fetched with
      | inr err => return_ (inr err)
      | inl keys =>
          now ← Now;
          put_issuers (fun cache =>
            <[key := {| Issuers.document := doc; Issuers.keys := Some keys;
                        Issuers.expires := add now cacheTTL;
                        Issuers.lastRefresh := Issuers.lastRefresh current |}]> (evict key cache)) ;;
          mret (inl keys)
      end
  end).

Definition loadIssuer (resolved : Resolved.ResolvedTrustIssuer) (force : bool)
  : proc -> (list JWK + error) * proc := run (
  now ← Now;
  cached ← cached_issuer (cache_key resolved);
  match Issuers.keys cached with
  | Some keys => return_if (still_good force now cached) (inl keys)
  | None => mret tt
  end ;;
  call (load_keys resolved force)).

(** ** Verification *)

Definition verdict : Type := option Verified.Result * option error.
Definition reject {A} (msg : string) : go proc verdict A := return_ (None, Some (Errorf msg)).

Definition validateStandardClaims (token : Token) (clientID : string) : proc -> option error * proc := run (
  now ← Now; mret (standard_claims now token clientID)).

(** The diagnostics of the bindings, their number of matches and the last match. *)
Fixpoint evaluate (bindings : list Effective.EffectiveTrustBinding) (claims : json)
  : list Diagnostic * nat * option Effective.EffectiveTrustBinding :=
  match bindings with
  | [] => ([], O, None)
  | binding :: bindings =>
      let '(diagnostics, matches, last) := evaluate bindings claims in
      let ok := Validate (Effective.Schema_ binding) claims in
      ({| BindingID := Effective.ID binding; Match_ := ok;
          Reason := if ok then "" else "claims did not satisfy policy" |} :: diagnostics,
       if ok then S matches else matches,
       match last with
       | Some _ => last
       | None => if ok then Some binding else None
       end)
  end.

(** The key for the token's header, after one forced refresh when it is not known. *)
Definition issuer_key (resolved : Resolved.ResolvedTrustIssuer) (kid alg : string)
  : go proc verdict JWK :=
  loaded ← call (loadIssuer resolved false);
  match loaded with
  | inr err => return_ (None, Some err)
  | inl set_ =>
      match selectKey set_ kid alg with
      | inl key => mret key
      | inr _ =>
          refreshed ← call (loadIssuer resolved true);
          match refreshed with
          | inr _ => reject "token verification failed"
          | inl set_ =>
              match selectKey set_ kid alg with
              | inl key => mret key
              | inr _ => reject "token verification failed"
              end
          end
      end
  end.

Definition policy_failure {A} (err : error) (msg : string) : go proc verdict A :=
  return_ (None, Some (if IsIndeterminate err then err else Errorf msg)).

Definition VerifyAndEvaluate (raw clientID : string) : proc -> verdict * proc := run (
  return_if ((len raw =? 0) || (MaxJWTBytes <? len raw)) (None, Some (Errorf "token size is invalid")) ;;
  match tokenHeaders raw with
  | inr _ => reject "unacceptable token header"
  | inl (alg, kid) =>
  return_if (is_empty kid) (None, Some (Errorf "unacceptable token header")) ;;
  match parse_unverified raw with
  | None => reject "malformed token"
  | Some unverified =>
  let issuerURL := tok_issuer unverified in
  return_if (is_empty issuerURL) (None, Some (Errorf "issuer is required")) ;;
  err ← call (validateStandardClaims unverified clientID);
  match err with
  | Some err => return_ (None, Some err)
  | None =>
  match decodePayload raw with
  | inr _ => reject "decoded claims exceed safe limits"
  | inl claims =>
  match boundClaims (JObject claims) 0 with
  | Some err => return_ (None, Some err)
  | None =>
  '(resolved, err) ← call (on_peers (ResolveClient clientID true));
  match err with
  | Some err => policy_failure err "unknown client"
  | None =>
  '(resolvedIssuer, err) ← call (on_peers (ResolveTrustIssuer resolved issuerURL));
  match err with
  | Some err => policy_failure err "untrusted issuer"
  | None =>
  let issuer := Resolved.IssuerConfig resolvedIssuer in
  return_if (negb (mem alg (Issuer.SigningAlgs issuer))) (None, Some (Errorf "unacceptable token header")) ;;
  key ← issuer_key resolvedIssuer kid alg;
  match parse_verified raw alg key with
  | None => reject "token verification failed"
  | Some verified =>
  return_if (negb (tok_issuer verified =? Issuer.IssuerURL issuer)%string)
    (None, Some (Errorf "token verification failed")) ;;
  err ← call (validateStandardClaims verified clientID);
  match err with
  | Some err => return_ (None, Some err)
  | None =>
  now ← Now;
  return_if (Issuer.MaxTokenAge issuer <? sub now (tok_issued_at verified))
    (None, Some (Errorf "standard claims are invalid")) ;;
  let result := {| Verified.IssuerID := Resolved.ID resolvedIssuer; Verified.Issuer := issuerURL;
                   Verified.UpstreamSubject := tok_subject verified; Verified.Claims := claims;
                   Verified.Binding := None; Verified.Diagnostics := [] |} in
  '(bindings, err) ← call (on_peers (ResolveTrustBindings resolved resolvedIssuer));
  match err with
  | Some err => return_ (Some result, Some err)
  | None =>
  let '(diagnostics, matches, last) := evaluate bindings (JObject claims) in
  let result := result <| Verified.Diagnostics := diagnostics |> in
  match matches with
  | O => mret (Some result, Some (Errorf "no trust binding matched"))
  | S O => mret (Some (result <| Verified.Binding := last |>), None)
  | _ => mret (Some result, Some (Errorf "multiple trust bindings matched"))
  end
  end end end end end end end end end end).
End Service.
