(* ===== verification/TrustServiceProperties.v ===== *)
(** * What the trust service does

    The cache of issuers, the provenance of the keys and the outcome of
    [VerifyAndEvaluate]. *)

From S2P Require Import Prelude Runtime ReplayCache Schema Json Config Upstream Tokens Services TrustPolicy TrustConfig Dpop Trust.

Section Safety.
Context `{Env} {P : Type} `{!PolicyResolver P} `{!TrustResolver P} `{!HTTPClient P}.
Context `{!ExternalJWT} `{!URLs} `{!ProofJSON} `{!MetadataJSON} `{!JSONLib}.
Abbreviation proc := (Process (Peers P)).
Implicit Types w : proc.

Abbreviation issuers_of w := (issuer_cache (peers w)).

(** ** Fetching leaves the caches alone *)

Definition frame w w' : Prop := issuers_of w' = issuers_of w /\ store w' = store w.

Lemma getJSON_frame dynamic uri limit w : frame w (getJSON dynamic uri limit w).2.
Proof.
  unfold getJSON, run, fetch, call, on_peers, on_outside, mbind, go_bind, return_if, return_, mret, go_ret.
  destruct (http_get dynamic uri (outside (peers w))) as [[resp|err] p]; [|done].
  destruct (negb _); [done|]. by destruct (_ || _).
Qed.

Lemma discovery_frame dynamic issuer w : frame w (discovery dynamic issuer w).2.
Proof.
  unfold discovery, run, call, mbind, go_bind, mret, go_ret.
  match goal with |- context [getJSON ?d ?u ?l w] => pose proof (getJSON_frame d u l w) as Hf end.
  destruct (getJSON _ _ _ w) as [[data|err] w1]; [|done].
  destruct (unmarshal_discovery data); [|done]. by destruct (check_discovery _ _).
Qed.

Lemma fetchJWKS_frame dynamic uri w : frame w (fetchJWKS dynamic uri w).2.
Proof.
  unfold fetchJWKS, run, call, mbind, go_bind, mret, go_ret, return_if, return_.
  pose proof (getJSON_frame dynamic uri (Z.shiftl 128 10) w) as Hf.
  destruct (getJSON _ _ _ w) as [[data|err] w1]; [|done].
  destruct (negb _); [done|]. by destruct (jwk_parse data).
Qed.

(** ** Provenance of keys *)

(** A GET of [uri] in the state [p] was answered in full with status 200 by [text]. *)
Definition got (dynamic : bool) (uri : string) (p : P) (text : string) (p' : P) : Prop :=
  exists resp, http_get dynamic uri p = (inl resp, p') /\ status_code resp = 200 /\ read_failed resp = false /\
    http_body resp = text.

(** Where an issuer publishes its discovery document. *)
Definition well_known (url : string) : string := trim_suffix_slash url +:+ "/.well-known/openid-configuration".

(** The keys were fetched from the issuer: the discovery document was got from its
    well-known location, names the issuer itself and a location of keys over HTTPS (or both
    on this host), and the keys are those got from that location right after. *)
Definition fetched_keys (dynamic : bool) (url : string) (keys : list JWK) : Prop :=
  exists doc p text p1 data p2,
    got dynamic (well_known url) p text p1 /\ unmarshal_discovery text = Some doc /\
    doc_issuer doc = url /\ jwks_uri_ok url doc = true /\
    got dynamic (JWKSURI doc) p1 data p2 /\ jwk_parse data = Some keys.

Lemma getJSON_got dynamic uri limit w data w1 :
  getJSON dynamic uri limit w = (inl data, w1) -> got dynamic uri (outside (peers w)) data (outside (peers w1)).
Proof.
  unfold getJSON, run, fetch, call, on_peers, on_outside, mbind, go_bind, return_if, return_, mret, go_ret, got.
  destruct (http_get dynamic uri (outside (peers w))) as [[resp|err] p]; [|done].
  destruct (negb (status_code resp =? 200)) eqn:Hs; [done|]. destruct (read_failed resp) eqn:Hr; [done|].
  destruct (_ || _); [done|]. intros [= <- <-]. exists resp. apply negb_false_iff, Z.eqb_eq in Hs. by split_and!.
Qed.

Lemma discovery_got dynamic issuer w doc w1 :
  discovery dynamic issuer w = (inl doc, w1) ->
  exists text, got dynamic (well_known (Issuer.IssuerURL issuer)) (outside (peers w)) text (outside (peers w1)) /\
    unmarshal_discovery text = Some doc /\
    doc_issuer doc = Issuer.IssuerURL issuer /\ jwks_uri_ok (Issuer.IssuerURL issuer) doc = true.
Proof.
  unfold discovery, run, call, mbind, go_bind, mret, go_ret.
  destruct (getJSON _ _ _ w) as [[data|err] w2] eqn:Hg; [|done]. apply getJSON_got in Hg.
  destruct (unmarshal_discovery data) as [doc'|] eqn:Hu; [|done].
  destruct (check_discovery issuer doc') eqn:Hc; [done|]. intros [= -> <-]. exists data. split; [done|]. split; [done|].
  revert Hc. unfold check_discovery.
  destruct (String.eqb_spec (doc_issuer doc) (Issuer.IssuerURL issuer)); cbn [negb]; [|done].
  by destruct (jwks_uri_ok _ _).
Qed.

Lemma fetchJWKS_got dynamic uri w keys w1 :
  fetchJWKS dynamic uri w = (inl keys, w1) ->
  exists data, got dynamic uri (outside (peers w)) data (outside (peers w1)) /\ jwk_parse data = Some keys.
Proof.
  unfold fetchJWKS, run, call, mbind, go_bind, mret, go_ret, return_if, return_.
  destruct (getJSON _ _ _ w) as [[data|err] w2] eqn:Hg; [|done]. apply getJSON_got in Hg.
  destruct (negb _); [done|]. destruct (jwk_parse data) as [set_|] eqn:Hp; [|done]. intros [= -> <-]. by exists data.
Qed.

Definition key_of (dynamic : bool) (url : string) : string :=
  (if dynamic then "dynamic:" else "static:") +:+ url.

Lemma key_of_inj d u d' u' : key_of d u = key_of d' u' -> d = d' /\ u = u'.
Proof. unfold key_of. destruct d, d'; cbn; intros E; simplify_eq; done. Qed.

(** What a load asks of the network, from [p] to [p']: nothing; or the discovery document of
    the issuer; or that and, when it names the issuer and a fit location, that location. *)
Definition reached (dynamic : bool) (url : string) (p p' : P) : Prop :=
  p' = p \/
  (exists answer, http_get dynamic (well_known url) p = (answer, p')) \/
  (exists text p1 doc answer, got dynamic (well_known url) p text p1 /\ unmarshal_discovery text = Some doc /\
     doc_issuer doc = url /\ jwks_uri_ok url doc = true /\ http_get dynamic (JWKSURI doc) p1 = (answer, p')).

Lemma getJSON_gets dynamic uri limit w :
  exists answer, http_get dynamic uri (outside (peers w)) = (answer, outside (peers (getJSON dynamic uri limit w).2)).
Proof.
  unfold getJSON, run, fetch, call, on_peers, on_outside, mbind, go_bind, return_if, return_, mret, go_ret.
  destruct (http_get dynamic uri (outside (peers w))) as [[resp|err] p]; [|by eexists].
  destruct (negb _); [by eexists|]. destruct (_ || _); by eexists.
Qed.
Lemma discovery_gets dynamic issuer w :
  exists answer, http_get dynamic (well_known (Issuer.IssuerURL issuer)) (outside (peers w))
    = (answer, outside (peers (discovery dynamic issuer w).2)).
Proof.
  unfold discovery, run, call, mbind, go_bind, mret, go_ret.
  destruct (getJSON_gets dynamic (well_known (Issuer.IssuerURL issuer)) (Z.shiftl 32 10) w) as [answer Hg]. exists answer.
  rewrite Hg. f_equal. unfold well_known. destruct (getJSON _ _ _ w) as [[data|err] w1]; [|done].
  destruct (unmarshal_discovery data); [|done]. by destruct (check_discovery _ _).
Qed.
Lemma fetchJWKS_gets dynamic uri w :
  exists answer, http_get dynamic uri (outside (peers w)) = (answer, outside (peers (fetchJWKS dynamic uri w).2)).
Proof.
  unfold fetchJWKS, run, call, mbind, go_bind, mret, go_ret, return_if, return_.
  destruct (getJSON_gets dynamic uri (Z.shiftl 128 10) w) as [answer Hg]. exists answer. rewrite Hg. f_equal.
  destruct (getJSON _ _ _ w) as [[data|err] w1]; [|done]. destruct (negb _); [done|]. by destruct (jwk_parse data).
Qed.

(** Entries have keys of their issuer, and there are at most as many as allowed. *)
Definition issuers_ok (cache : gmap string Issuers.cachedIssuer) : Prop :=
  Z.of_nat (size cache) <= maxCachedIssuers /\
  forall k entry, cache !! k = Some entry ->
    exists dynamic url keys, k = key_of dynamic url /\ Issuers.keys entry = Some keys /\
      fetched_keys dynamic url keys.

Lemma oldest_entry_elem l o k :
  oldest_entry l o = Some k -> k ∈ l.*1 \/ exists t, o = Some (k, t).
Proof.
  revert o. induction l as [|[k' e] l IH]; intros o; cbn [oldest_entry].
  - destruct o as [[k0 t]|]; cbn; [|done]. intros [= ->]. eauto.
  - intros Hk. destruct (IH _ Hk) as [Hin|[t Ht]]; [left; by right|].
    destruct o as [[k0 t0]|].
    + destruct (before _ t0); simplify_eq; [left; by left | eauto].
    + simplify_eq. left. by left.
Qed.

Lemma oldest_entry_some l o : l <> [] \/ o <> None -> exists k, oldest_entry l o = Some k.
Proof.
  revert o. induction l as [|[k e] l IH]; intros o Hne; cbn [oldest_entry].
  - destruct o as [[k t]|]; [cbn; eauto | naive_solver].
  - apply IH. right. destruct o as [[? ?]|]; [by destruct (before _ _) | done].
Qed.

Lemma evict_ok k cache :
  issuers_ok cache -> issuers_ok (evict k cache) /\
  (evict k cache !! k = cache !! k) /\
  (cache !! k = None -> Z.of_nat (size (evict k cache)) < maxCachedIssuers).
Proof.
  intros [Hsize Hok]. unfold evict.
  destruct (cache !! k) as [entry|] eqn:Hk; cbn [is_nil andb]; [by split_and!|].
  destruct (Z.leb_spec maxCachedIssuers (Z.of_nat (size cache))); [|by split_and!].
  destruct (oldest_entry_some (map_to_list cache) None) as [old Hold].
  { left. intros Hnil. apply map_to_list_empty_iff in Hnil as ->. unfold maxCachedIssuers in *.
    rewrite map_size_empty in *. lia. }
  rewrite Hold. destruct (oldest_entry_elem _ _ _ Hold) as [Hin|[t [=]]].
  apply list_elem_of_fmap in Hin as ([old' e] & -> & Hin). cbn in *. apply elem_of_map_to_list in Hin.
  assert (S (size (delete old' cache)) = size cache) as Hdel.
  { rewrite <- (insert_delete_id cache old' e Hin) at 2. by rewrite map_size_insert_None by apply lookup_delete_eq. }
  split_and!.
  - split; [lia|]. intros k' e' [_ He']%lookup_delete_Some. eauto.
  - rewrite lookup_delete_ne; [done|]. intros ->. congruence.
  - intros _. lia.
Qed.

Lemma insert_ok k entry cache dynamic url keys :
  issuers_ok cache -> k = key_of dynamic url -> Issuers.keys entry = Some keys -> fetched_keys dynamic url keys ->
  (cache !! k = None -> Z.of_nat (size cache) < maxCachedIssuers) ->
  issuers_ok (<[k := entry]> cache).
Proof.
  intros [Hsize Hok] Hk Hkeys Hf Hroom. split.
  - destruct (cache !! k) as [e|] eqn:He.
    + by rewrite map_size_insert_Some by eauto.
    + rewrite map_size_insert_None by done. specialize (Hroom eq_refl). lia.
  - intros k' e' [[<- <-]|[_ He']]%lookup_insert_Some; [|eauto]. by exists dynamic, url, keys.
Qed.

(** ** Loading *)

Abbreviation dynamic_of resolved := (Resolved.Dynamic resolved).
Abbreviation url_of resolved := (Issuer.IssuerURL (Resolved.IssuerConfig resolved)).

(** What a load leaves: a good cache, and keys of the issuer. *)
Definition loaded (resolved : Resolved.ResolvedTrustIssuer) (x : list JWK + error) (w : proc) : Prop :=
  issuers_ok (issuers_of w) /\
  forall keys, x = inl keys -> fetched_keys (dynamic_of resolved) (url_of resolved) keys.

Lemma cached_keys_fetched resolved w keys :
  issuers_ok (issuers_of w) ->
  Issuers.keys (default zero_issuer_entry (issuers_of w !! cache_key resolved)) = Some keys ->
  exists entry, issuers_of w !! cache_key resolved = Some entry /\ Issuers.keys entry = Some keys /\
    fetched_keys (dynamic_of resolved) (url_of resolved) keys.
Proof.
  intros [_ Hok]. destruct (issuers_of w !! cache_key resolved) as [entry|] eqn:He; [|done]. cbn. intros Hkeys.
  exists entry. split; [done|]. split; [done|].
  destruct (Hok _ _ He) as (d & u & keys' & Hk & Hkeys' & Hf).
  apply (key_of_inj (dynamic_of resolved) (url_of resolved)) in Hk as [-> ->]. congruence.
Qed.

(** The entry of the issuer was refreshed by force at [t]. *)
Definition refreshed_at (resolved : Resolved.ResolvedTrustIssuer) (t : time) w : Prop :=
  exists entry keys, issuers_of w !! cache_key resolved = Some entry /\
    Issuers.keys entry = Some keys /\ Issuers.lastRefresh entry = t.

(** The fetch that ends a load started from the entry [current]. *)
Abbreviation fetching resolved current :=
    (doc ← call (discovery (dynamic_of resolved) (Resolved.IssuerConfig resolved));
     match doc with
     | inr err => return_ (inr err)
     | inl doc =>
         fetched ← call (fetchJWKS (dynamic_of resolved) (JWKSURI doc));
         match fetched with
         | inr err => return_ (inr err)
         | inl keys =>
             now ← Now;
             put_issuers (fun cache =>
               <[cache_key resolved :=
                   {| Issuers.document := doc; Issuers.keys := Some keys;
                      Issuers.expires := add now cacheTTL;
                      Issuers.lastRefresh := Issuers.lastRefresh current |}]>
                 (evict (cache_key resolved) cache)) ;;
             mret (inl keys : list JWK + error)
         end
     end).

Lemma fetch_and_store resolved current w :
  issuers_ok (issuers_of w) ->
  wp (R := list JWK + error) (fetching resolved current) w
    (fun x w' => loaded resolved (merge x) w' /\
       w_slept (store w') = w_slept (store w) /\
       (c_tick (w_cnt (store w)) <= c_tick (w_cnt (store w')))%nat /\
       (refreshed_at resolved (Issuers.lastRefresh current) w ->
        refreshed_at resolved (Issuers.lastRefresh current) w')).
Proof.
  intros Hok. apply wp_bind, wp_call, ends_eq. intros doc w1 Hdoc.
  pose proof (discovery_frame (dynamic_of resolved) (Resolved.IssuerConfig resolved) w) as [Hf1 Hs1].
  rewrite Hdoc in Hf1, Hs1. cbn in Hf1, Hs1. unfold refreshed_at.
  destruct doc as [doc|err]; [|apply wp_return; unfold loaded; by rewrite Hf1, Hs1].
  apply discovery_got in Hdoc as (text & Hgot & Hdoc & Hiss & Huri).
  apply wp_bind, wp_call, ends_eq. intros fetched w2 Hfetched.
  pose proof (fetchJWKS_frame (dynamic_of resolved) (JWKSURI doc) w1) as [Hf2 Hs2].
  rewrite Hfetched in Hf2, Hs2. cbn in Hf2, Hs2. destruct fetched as [keys|err].
  2:{ apply wp_return. unfold loaded. by rewrite Hf2, Hs2, Hf1, Hs1. }
  assert (fetched_keys (dynamic_of resolved) (url_of resolved) keys) as Hkeys.
  { apply fetchJWKS_got in Hfetched as (data & Hgot2 & Hkeys).
    exists doc, (outside (peers w)), text, (outside (peers w1)), data, (outside (peers w2)). by split_and!. }
  apply wp_bind, wp_Now, wp_bind. unfold put_issuers. apply wp_bind, wp_get.
  apply wp_call. unfold ends, on_peers, set_issuers. cbn [fst snd peers store issuer_cache].
  apply wp_ret. unfold loaded. cbn [store peers issuer_cache merge]. rewrite Hf2, Hf1, Hs2, Hs1.
  destruct (evict_ok (cache_key resolved) _ Hok) as (Hev & Hsame & Hroom). split_and!.
  - eapply insert_ok; [done|done|done|exact Hkeys|]. rewrite Hsame. exact Hroom.
  - by intros ? [= <-].
  - done.
  - cbn. lia.
  - intros _. eexists _, keys. by rewrite lookup_insert_eq.
Qed.

(** Reading the clock changes the counters only. *)
Abbreviation ticked w := {| store := count_tick (store w); peers := peers w |}.

Lemma wp_cached_issuer {R} key w (Q : (R + Issuers.cachedIssuer) -> proc -> Prop) :
  Q (inr (default zero_issuer_entry (issuers_of w !! key))) w -> wp (cached_issuer key) w Q.
Proof. done. Qed.

Lemma fetch_reaches resolved current p w :
  outside (peers w) = p ->
  wp (R := list JWK + error) (fetching resolved current) w
    (fun _ w' => reached (dynamic_of resolved) (url_of resolved) p (outside (peers w'))).
Proof.
  intros <-. apply wp_bind, wp_call, ends_eq. intros doc w1 Hdoc.
  pose proof (discovery_gets (dynamic_of resolved) (Resolved.IssuerConfig resolved) w) as [answer Hd].
  rewrite Hdoc in Hd. cbn in Hd. destruct doc as [doc|err]; [|apply wp_return; right; left; by exists answer].
  apply discovery_got in Hdoc as (text & Hgot & Hu & Hiss & Huri).
  apply wp_bind, wp_call, ends_eq. intros fetched w2 Hfetched.
  pose proof (fetchJWKS_gets (dynamic_of resolved) (JWKSURI doc) w1) as [answer2 Hf]. rewrite Hfetched in Hf. cbn in Hf.
  assert (reached (dynamic_of resolved) (url_of resolved) (outside (peers w)) (outside (peers w2))) as Hr.
  { right. right. by exists text, (outside (peers w1)), doc, answer2. }
  destruct fetched as [keys|err]; [|by apply wp_return].
  apply wp_bind, wp_Now, wp_bind. unfold put_issuers. apply wp_bind, wp_get.
  apply wp_call. unfold ends, on_peers, set_issuers. by apply wp_ret.
Qed.

Lemma load_keys_reaches resolved force w :
  ends (load_keys resolved force) w (fun _ w' =>
    reached (dynamic_of resolved) (url_of resolved) (outside (peers w)) (outside (peers w'))).
Proof.
  unfold load_keys. apply ends_run, wp_bind, wp_cached_issuer.
  set (current := default zero_issuer_entry _). apply wp_bind.
  destruct (Issuers.keys current) as [keys|] eqn:Hkeys.
  - apply wp_bind, wp_Now, wp_return_if; intros _; [by left|].
    apply wp_bind. destruct force; [|by apply wp_ret, fetch_reaches].
    apply wp_bind, wp_Now, wp_bind. cbn [Issuers.keys upd]. rewrite Hkeys. cbn [is_nil negb when].
    unfold put_issuers. apply wp_bind, wp_get, wp_call. unfold ends, on_peers, set_issuers.
    by apply wp_ret, fetch_reaches.
  - apply wp_ret, wp_bind. destruct force; [|by apply wp_ret, fetch_reaches].
    apply wp_bind, wp_Now, wp_bind. cbn [Issuers.keys upd]. rewrite Hkeys. cbn [is_nil negb when].
    by apply wp_ret, wp_ret, fetch_reaches.
Qed.

(** A whole load asks the network for nothing, or for the documents of its issuer. *)
Lemma loadIssuer_reaches resolved force w :
  ends (loadIssuer resolved force) w (fun _ w' =>
    reached (dynamic_of resolved) (url_of resolved) (outside (peers w)) (outside (peers w'))).
Proof.
  unfold loadIssuer. apply ends_run, wp_bind, wp_Now, wp_bind, wp_cached_issuer. apply wp_bind.
  match goal with |- context [Issuers.keys ?c] => destruct (Issuers.keys c) as [keys|] end.
  - apply wp_return_if; intros _; [by left|]. apply wp_call. exact (load_keys_reaches resolved force _).
  - apply wp_ret, wp_call. exact (load_keys_reaches resolved force _).
Qed.

(** What all loads need of the fetch. *)
Ltac fetched_loaded :=
  eapply wp_mono; [apply fetch_and_store | by intros ? ? [? _]].

Lemma load_keys_loaded resolved force w :
  issuers_ok (issuers_of w) -> ends (load_keys resolved force) w (loaded resolved).
Proof.
  intros Hok. unfold load_keys. apply ends_run, wp_bind, wp_cached_issuer.
  pose proof (cached_keys_fetched resolved w) as Hcached.
  set (current := default zero_issuer_entry _) in *. apply wp_bind.
  destruct (Issuers.keys current) as [keys|] eqn:Hkeys.
  - apply wp_bind, wp_Now, wp_return_if; intros _.
    { split; [done|]. intros ? [= <-]. by destruct (Hcached _ Hok eq_refl) as (? & _ & _ & ?). }
    apply wp_bind. destruct force; [|apply wp_ret; by fetched_loaded].
    apply wp_bind, wp_Now, wp_bind. cbn [Issuers.keys upd]. rewrite Hkeys. cbn [is_nil negb when].
    unfold put_issuers. apply wp_bind, wp_get, wp_call. unfold ends, on_peers, set_issuers.
    cbn [fst snd peers store issuer_cache]. apply wp_ret. fetched_loaded. cbn [peers issuer_cache].
    destruct (Hcached keys Hok eq_refl) as (entry & Hentry & _ & Hf).
    eapply insert_ok; [done|done|reflexivity|exact Hf|]. intros Hnone. congruence.
  - apply wp_ret, wp_bind. destruct force; [|apply wp_ret; by fetched_loaded].
    apply wp_bind, wp_Now, wp_bind. cbn [Issuers.keys upd]. rewrite Hkeys. cbn [is_nil negb when].
    apply wp_ret, wp_ret; by fetched_loaded.
Qed.

Lemma loadIssuer_loaded resolved force w :
  issuers_ok (issuers_of w) -> ends (loadIssuer resolved force) w (loaded resolved).
Proof.
  intros Hok. unfold loadIssuer. apply ends_run, wp_bind, wp_Now, wp_bind, wp_cached_issuer.
  cbn [peers]. pose proof (cached_keys_fetched resolved w) as Hcached.
  set (cached := default zero_issuer_entry _) in *. apply wp_bind.
  destruct (Issuers.keys cached) as [keys|].
  - apply wp_return_if; intros _.
    + split; [done|]. intros ? [= <-]. by destruct (Hcached _ Hok eq_refl) as (? & _ & _ & ?).
    + apply wp_call. eapply ends_mono; [by apply load_keys_loaded|done].
  - apply wp_ret, wp_call. eapply ends_mono; [by apply load_keys_loaded|done].
Qed.
End Safety.

(** * Properties of the trust service

    An accepted external token is justified by a key fetched from its issuer, by the
    policy in force and by exactly one binding; the cache of issuers stays bounded and
    holds only keys of the issuer each entry is filed under; a forced refresh of the keys
    of an issuer is not repeated within [refreshWait]. *)

(** ** The pure steps *)

(** The key of a set for a header: the only one with its identifier, for its algorithm. *)
Definition key_for (keys : list JWK) (kid alg : string) (key : JWK) : Prop :=
  filter (fun k => KeyID k = kid) keys = [key] /\ default "" (KeyAlgorithm key) ∈ [""; alg].

Lemma select_key_spec keys kid alg selected key :
  select_key keys kid alg selected = inl key ->
  match selected with
  | None => key_for keys kid alg key
  | Some k => key = k /\ filter (fun k => KeyID k = kid) keys = []
  end.
Proof.
  revert selected. induction keys as [|k keys IH]; intros selected; cbn [select_key].
  - by destruct selected as [k|]; [intros [= ->]|].
  - unfold key_for. rewrite filter_cons.
    destruct (String.eqb_spec (KeyID k) kid) as [Hk|Hk]; cbn [negb].
    2:{ rewrite decide_False by done. apply IH. }
    rewrite decide_True by done. destruct selected as [k'|]; [done|].
    destruct (_ && _) eqn:Halg; [done|]. intros Hsel. apply IH in Hsel as [-> ->]. split; [done|].
    apply andb_false_iff in Halg as [Halg|Halg].
    + unfold is_empty in Halg. destruct (String.eqb_spec (default "" (KeyAlgorithm k)) ""); [|done]. set_solver.
    + destruct (String.eqb_spec (default "" (KeyAlgorithm k)) alg); [|done]. set_solver.
Qed.

Section Matching.
Context `{!JSONLib}.

Definition satisfies (claims : json) (b : Effective.EffectiveTrustBinding) : Prop :=
  Validate (Effective.Schema_ b) claims = true.

(** Exactly one binding of the list is satisfied. *)
Definition only_match (bindings : list Effective.EffectiveTrustBinding) (claims : json)
    (b : Effective.EffectiveTrustBinding) : Prop :=
  exists before after, bindings = before ++ b :: after /\ satisfies claims b /\
    Forall (fun b' => ~ satisfies claims b') (before ++ after).

Lemma evaluate_none bindings claims ds last :
  evaluate bindings claims = (ds, O, last) -> Forall (fun b => ~ satisfies claims b) bindings /\ last = None.
Proof.
  revert ds last. induction bindings as [|b bindings IH]; intros ds last; cbn [evaluate].
  - by intros [= _ <-].
  - destruct (evaluate bindings claims) as [[ds' n] l]. unfold satisfies in *.
    destruct (Validate (Effective.Schema_ b) claims) eqn:Hv; [done|]. intros [= _ -> <-].
    destruct (IH _ _ eq_refl) as [Hall ->]. split; [|done]. constructor; [congruence | done].
Qed.

Lemma evaluate_one bindings claims ds last :
  evaluate bindings claims = (ds, 1%nat, last) -> exists b, last = Some b /\ only_match bindings claims b.
Proof.
  revert ds last. induction bindings as [|b bindings IH]; intros ds last; cbn [evaluate]; [done|].
  destruct (evaluate bindings claims) as [[ds' n] l] eqn:He.
  destruct (Validate (Effective.Schema_ b) claims) eqn:Hv; intros [= _ -> Hl].
  - destruct (evaluate_none _ _ _ _ He) as [Hall ->]. subst last. exists b. split; [done|].
    by exists [], bindings.
  - destruct (IH _ _ eq_refl) as (b' & -> & before & after & -> & Hb' & Hrest). subst last. exists b'.
    split; [done|]. exists (b :: before), after. split_and!; [done|done|].
    constructor; [unfold satisfies; congruence | done].
Qed.
End Matching.

Section Service.
Context `{Env} {P : Type} `{!PolicyResolver P} `{!TrustResolver P} `{!HTTPClient P}.
Context `{!ExternalJWT} `{!URLs} `{!ProofJSON} `{!MetadataJSON} `{!JSONLib}.
Abbreviation proc := (Process (Peers P)).
Implicit Types w : proc.

(** The key that the header names, in the keys that loading answers in the state [w]: those
    at hand or, when none of them is the one, those of a forced refresh. *)
Definition key_found (resolved : Resolved.ResolvedTrustIssuer) (kid alg : string) w w' (key : JWK) : Prop :=
  exists keys,
    (loadIssuer resolved false w = (inl keys, w') \/
     exists known w1, loadIssuer resolved false w = (inl known, w1) /\ (forall k, selectKey known kid alg <> inl k) /\
       loadIssuer resolved true w1 = (inl keys, w')) /\
    fetched_keys (Resolved.Dynamic resolved) (Issuer.IssuerURL (Resolved.IssuerConfig resolved)) keys /\
    key_for keys kid alg key.

(** A time that is there, and is not the epoch. *)
Definition set_time (t : time) : Prop := is_zero t = false /\ unix t <> 0.

(** The claims every token must have, at the instant [now]. *)
Definition standard (clientID : string) (now : time) (token : Token) : Prop :=
  jwt_validate now token = true /\ tok_subject token <> "" /\ tok_audience token = [clientID] /\
  set_time (tok_expiration token) /\ set_time (tok_issued_at token) /\
  (tok_get token "azp" = None \/ tok_get token "azp" = Some (JString clientID)).

(** A token a relying party may act on: intact under a key its issuer published, which was
    looked up from [w1] to [w2], with its claims and its age in order at readings of the
    clock made after that, before [w']. *)
Definition authentic (raw clientID : string) (resolved : Resolved.ResolvedTrustIssuer) w1 w2 w' (token : Token) : Prop :=
  let issuer := Resolved.IssuerConfig resolved in
  (exists alg kid key, jws_signatures raw = Some [(alg, kid)] /\ alg ∈ Issuer.SigningAlgs issuer /\ kid <> "" /\
     key_found resolved kid alg w1 w2 key /\ parse_verified raw alg key = Some token) /\
  tok_issuer token = Issuer.IssuerURL issuer /\
  exists valid now, read_between (store w2) (store w') valid /\ read_between (store w2) (store w') now /\
    standard clientID valid token /\ sub now (tok_issued_at token) <= Issuer.MaxTokenAge issuer.

(** The result is what the token and the policy justify, for a verification from [w] to
    [w']: the policy is asked for the client in the state of the peers before, for the
    issuer of the token right after, for the bindings in the state that loading the keys
    left, and nobody else is asked anything. *)
Definition justified (raw clientID : string) w w' (result : Verified.Result) : Prop :=
  exists client p issuer w1 w2 bindings unverified token b,
    ResolveClient clientID true (outside (peers w)) = ((client, None), p) /\
    parse_unverified raw = Some unverified /\ tok_issuer unverified = Verified.Issuer result /\
    ResolveTrustIssuer client (Verified.Issuer result) p = ((issuer, None), outside (peers w1)) /\
    issuer_cache (peers w1) = issuer_cache (peers w) /\ still (store w) (store w1) /\
    authentic raw clientID issuer w1 w2 w' token /\
    ResolveTrustBindings client issuer (outside (peers w2)) = ((bindings, None), outside (peers w')) /\
    Verified.IssuerID result = Resolved.ID issuer /\
    Verified.UpstreamSubject result = tok_subject token /\
    decodePayload raw = inl (Verified.Claims result) /\
    boundClaims (JObject (Verified.Claims result)) 0 = None /\
    Verified.Binding result = Some b /\ only_match bindings (JObject (Verified.Claims result)) b.

Lemma wp_loadIssuer {R} resolved force w (Q : (R + (list JWK + error)) -> proc -> Prop) :
  issuers_ok (issuer_cache (peers w)) ->
  (forall x w', loadIssuer resolved force w = (x, w') -> loaded resolved x w' -> Q (inr x) w') ->
  wp (call (loadIssuer resolved force)) w Q.
Proof.
  intros Hok HQ. apply wp_call. pose proof (loadIssuer_loaded resolved force w Hok) as Hl. unfold ends in *.
  destruct (loadIssuer resolved force w) as [x w']. by apply HQ.
Qed.

Lemma wp_issuer_key resolved kid alg w (Q : (verdict + JWK) -> proc -> Prop) :
  issuers_ok (issuer_cache (peers w)) ->
  (forall err w', issuers_ok (issuer_cache (peers w')) -> Q (inl (None, Some err)) w') ->
  (forall key w', issuers_ok (issuer_cache (peers w')) -> key_found resolved kid alg w w' key -> Q (inr key) w') ->
  wp (issuer_key resolved kid alg) w Q.
Proof.
  intros Hok Herr Hkey. unfold issuer_key. apply wp_bind, wp_loadIssuer; [done|]. intros [keys|err] w1 Hl1 [Hok1 Hf1].
  2:{ by apply wp_return, Herr. }
  destruct (selectKey keys kid alg) as [key|] eqn:Hs.
  { apply wp_ret, Hkey; [done|]. exists keys. split_and!; [by left|by apply Hf1|by apply (select_key_spec _ _ _ None)]. }
  apply wp_bind, wp_loadIssuer; [done|]. intros [keys2|err] w2 Hl2 [Hok2 Hf2].
  2:{ by apply wp_return, Herr. }
  destruct (selectKey keys2 kid alg) as [key|] eqn:Hs2.
  - apply wp_ret, Hkey; [done|]. exists keys2. split_and!; [|by apply Hf2|by apply (select_key_spec _ _ _ None)].
    right. exists keys, w1. split_and!; [done| |done]. intros k. by rewrite Hs.
  - by apply wp_return, Herr.
Qed.

Lemma standard_claims_none now token clientID :
  standard_claims now token clientID = None -> standard clientID now token.
Proof.
  unfold standard_claims. destruct (jwt_validate now token) eqn:Hv; [cbn [negb]|done].
  destruct (_ || _) eqn:Hc; [done|]. rewrite !orb_false_iff, negb_false_iff, bool_decide_eq_true in Hc.
  destruct Hc as [[[[[Hsub Haud] ?] He%Z.eqb_neq] ?] Hi%Z.eqb_neq]. intros Hazp. split_and!; try done.
  - intros Hs. unfold is_empty in Hsub. by rewrite Hs in Hsub.
  - destruct (tok_get token "azp") as [[| | |value| |]|]; try discriminate Hazp; [right|by left].
    revert Hazp. by destruct (String.eqb_spec value clientID) as [->|].
Qed.

Lemma tokenHeaders_inl raw alg kid : tokenHeaders raw = inl (alg, kid) -> jws_signatures raw = Some [(alg, kid)].
Proof. unfold tokenHeaders. destruct (jws_signatures raw) as [[|[? ?] []]|]; try done. by intros [= -> ->]. Qed.

Lemma wp_policy {R B} (f : P -> B * P) w (Q : (R + B) -> proc -> Prop) :
  (forall b p, f (outside (peers w)) = (b, p) ->
     Q (inr b) {| store := store w; peers := {| replayCache := replayCache (peers w);
                    issuer_cache := issuer_cache (peers w); outside := p |} |}) ->
  wp (call (on_peers (on_outside f))) w Q.
Proof. intros HQ. unfold wp, call, on_peers, on_outside. destruct (f (outside (peers w))) eqn:E. by apply HQ. Qed.

Lemma wp_validateStandardClaims {R} token clientID w (Q : (R + option error) -> proc -> Prop) :
  (forall now s, still (store w) s -> read_between (store w) s now ->
     Q (inr (standard_claims now token clientID)) {| store := s; peers := peers w |}) ->
  wp (call (validateStandardClaims token clientID)) w Q.
Proof.
  intros HQ. apply wp_call. unfold validateStandardClaims. apply ends_run, wp_bind, wp_Now_read.
  intros now s Hs Hr. by apply wp_ret, HQ.
Qed.

(** The outcome of the whole verification, for a caller and for the cache. *)
Definition verified_ok (raw clientID : string) w (v : verdict) w' : Prop :=
  issuers_ok (issuer_cache (peers w')) /\
  (v.2 = None -> exists result, v.1 = Some result /\ justified raw clientID w w' result).

Lemma VerifyAndEvaluate_ok raw clientID w :
  issuers_ok (issuer_cache (peers w)) ->
  ends (VerifyAndEvaluate raw clientID) w (verified_ok raw clientID w).
Proof.
  intros Hok. unfold VerifyAndEvaluate. apply ends_run.
  apply wp_bind, wp_return_if; intros _; [done|].
  destruct (tokenHeaders raw) as [[alg kid]|] eqn:Hheaders; [|done]. apply tokenHeaders_inl in Hheaders.
  apply wp_bind, wp_return_if; intros Hkid; [done|].
  destruct (parse_unverified raw) as [unverified|] eqn:Hunverified; [|done].
  apply wp_bind, wp_return_if; intros _; [done|].
  apply wp_bind, wp_validateStandardClaims. intros now0 s0 Hs0 _.
  destruct (standard_claims now0 unverified clientID); [done|].
  destruct (decodePayload raw) as [claims|] eqn:Hpayload; [|done].
  destruct (boundClaims (JObject claims) 0) eqn:Hbounds; [done|].
  apply wp_bind, wp_policy. cbn [peers]. intros [client [err|]] p1 Hclient; [done|].
  apply wp_bind, wp_policy. cbn [peers outside issuer_cache replayCache store].
  intros [issuer [err|]] p2 Hissuer; [done|].
  apply wp_bind, wp_return_if; intros Halg; [done|].
  set (w1 := {| store := s0; peers := _ |}).
  apply wp_bind, wp_issuer_key; [done|by intros ? ? ?|]. intros key w2 Hok2 Hkey.
  destruct (parse_verified raw alg key) as [token|] eqn:Htoken; [|done].
  apply wp_bind, wp_return_if; intros Hiss; [done|].
  apply wp_bind, wp_validateStandardClaims. intros valid s3 Hs3 Hvalid.
  destruct (standard_claims valid token clientID) eqn:Hstd; [done|].
  apply wp_bind, wp_Now_read. cbn [store peers]. intros now s4 Hs4 Hnow.
  apply wp_bind, wp_return_if; intros Hage; [done|]. apply Z.ltb_ge in Hage.
  apply wp_bind, wp_policy. cbn [peers store]. intros [bindings [err|]] p3 Hbindings; [done|].
  destruct (evaluate bindings (JObject claims)) as [[ds n] last] eqn:Hev.
  destruct n as [|[|n]]; apply wp_ret; [done| |done].
  destruct (evaluate_one _ _ _ _ Hev) as (b & -> & Hmatch). split; [done|]. intros _. eexists. split; [done|].
  exists client, p1, issuer, w1, w2, bindings, unverified, token, b. split_and!; try done. unfold authentic. split_and!.
  - exists alg, kid, key. split_and!; try done; [by apply mem_true, negb_false_iff|]. by intros ->.
  - by destruct (String.eqb_spec (tok_issuer token) (Issuer.IssuerURL (Resolved.IssuerConfig issuer))).
  - exists valid, now. cbn [store]. split_and!; [|..|exact Hage].
    + eapply read_between_wider; [|exact (proj1 Hs4)|exact Hvalid]. done.
    + eapply read_between_wider; [exact (proj1 Hs3)| |exact Hnow]. done.
    + by apply standard_claims_none.
Qed.

(** C33: A token is accepted only when all of it is justified: its header names one key of
    the keys that loading its issuer answers, for an algorithm the policy allows that
    issuer, and it verifies under that key; those keys were got from the location named by
    the discovery document got from the issuer's own well-known location, which names the
    issuer; its subject, audience, authorized party, times and age are in order at readings
    of the clock made after the key was found; the client, freshly looked up, its issuer and
    its bindings are what the policy answers in the states of the call itself; and exactly
    one binding is satisfied by its claims. *)
Theorem accepted_token_is_justified raw clientID w result :
  issuers_ok (issuer_cache (peers w)) ->
  (VerifyAndEvaluate raw clientID w).1 = (Some result, None) ->
  justified raw clientID w (VerifyAndEvaluate raw clientID w).2 result.
Proof.
  intros Hok Hr. pose proof (VerifyAndEvaluate_ok raw clientID w Hok) as [_ Hv].
  rewrite Hr in Hv. by destruct (Hv eq_refl) as (? & [= <-] & ?).
Qed.

(** Verifications in sequence. *)
Fixpoint verify_all (tokens : list (string * string)) w : proc :=
  match tokens with
  | [] => w
  | (raw, clientID) :: tokens => verify_all tokens (VerifyAndEvaluate raw clientID w).2
  end.

(** From an empty cache of issuers, whatever tokens are presented for whatever
    clients, the cache never holds more than [maxCachedIssuers] issuers, and each entry
    holds keys that were fetched from the issuer it is filed under, static and dynamic
    issuers kept apart. *)
Theorem issuer_cache_sound tokens w :
  issuer_cache (peers w) = ∅ -> issuers_ok (issuer_cache (peers (verify_all tokens w))).
Proof.
  intros He. assert (issuers_ok (issuer_cache (peers w))) as Hok by (rewrite He; split; [done|set_solver]).
  clear He. revert w Hok. induction tokens as [|[raw clientID] tokens IH]; intros w Hok; [done|]. cbn [verify_all].
  apply IH. by destruct (VerifyAndEvaluate_ok raw clientID w Hok).
Qed.

(** ** Forced refreshes *)

(** A load that reached the network recorded when, at a reading of the clock it made. *)
Definition refresh_recorded resolved w w' : Prop :=
  w_slept (store w') = w_slept (store w) /\
  (outside (peers w') = outside (peers w) \/
   exists n, (c_tick (w_cnt (store w)) <= n < c_tick (w_cnt (store w')))%nat /\
     refreshed_at resolved (clock n + w_slept (store w)) w').

Lemma forced_load_recorded resolved w entry keys :
  issuers_ok (issuer_cache (peers w)) ->
  issuer_cache (peers w) !! cache_key resolved = Some entry -> Issuers.keys entry = Some keys ->
  ends (loadIssuer resolved true) w (fun _ => refresh_recorded resolved w).
Proof.
  intros Hok He Hkeys. unfold loadIssuer. apply ends_run, wp_bind, wp_Now, wp_bind, wp_cached_issuer.
  cbn [peers]. rewrite He. cbn [from_option id]. rewrite Hkeys. apply wp_bind, wp_return_if; intros _; [split; auto|].
  apply wp_call. unfold load_keys. apply ends_run, wp_bind, wp_cached_issuer. cbn [peers]. rewrite He. cbn [from_option id].
  rewrite Hkeys. apply wp_bind, wp_bind, wp_Now, wp_return_if; intros _; [split; auto|].
  apply wp_bind, wp_bind, wp_Now, wp_bind. cbn [Issuers.keys upd]. rewrite Hkeys. cbn [is_nil negb when].
  unfold put_issuers. apply wp_bind, wp_get, wp_call. unfold ends, on_peers, set_issuers.
  cbn [fst snd peers store issuer_cache]. apply wp_ret. cbn beta iota.
  eapply wp_mono; [apply fetch_and_store|].
  - cbn [peers issuer_cache]. destruct Hok as [Hsize Hall]. destruct (Hall _ _ He) as (d & u & ks & Hk & Hks & Hf).
    assert (ks = keys) as -> by congruence.
    eapply insert_ok; [by split|exact Hk|reflexivity|exact Hf|]. congruence.
  - cbn [peers store issuer_cache w_slept w_cnt]. intros ? w' (_ & Hslept & Htick & Hrec). split; [done|]. right.
    eexists. split; [|apply Hrec].
    2:{ eexists _, _. cbn [peers issuer_cache]. rewrite lookup_insert_eq. by split_and!. }
    revert Htick. cbn. lia.
Qed.

(** C35: Unknown key identifiers cannot make the service hammer an issuer whose keys it
    has: after a forced refresh that reached the network, whether it succeeded or not, a
    forced refresh of the same issuer within [refreshWait] answers from the cache and
    reaches no network. *)
Theorem forced_refresh_not_repeated resolved w entry keys w1 :
  issuers_ok (issuer_cache (peers w)) ->
  issuer_cache (peers w) !! cache_key resolved = Some entry -> Issuers.keys entry = Some keys ->
  (loadIssuer resolved true w).2 = w1 -> outside (peers w1) <> outside (peers w) ->
  (forall n, (c_tick (w_cnt (store w)) <= n < c_tick (w_cnt (store w1)))%nat ->
     sub (clock (c_tick (w_cnt (store w1))) + w_slept (store w1)) (clock n + w_slept (store w)) < refreshWait) ->
  exists keys', (loadIssuer resolved true w1).1 = inl keys' /\
    fetched_keys (Resolved.Dynamic resolved) (Issuer.IssuerURL (Resolved.IssuerConfig resolved)) keys' /\
    peers (loadIssuer resolved true w1).2 = peers w1.
Proof.
  intros Hok He Hkeys Hw1 Hnet Hsoon.
  pose proof (forced_load_recorded resolved w entry keys Hok He Hkeys) as [_ Hrec].
  pose proof (loadIssuer_loaded resolved true w Hok) as [Hok1 _]. rewrite Hw1 in Hrec, Hok1.
  destruct Hrec as [Hsame|(n & Hn & entry1 & keys1 & He1 & Hkeys1 & Hlast)]; [done|]. exists keys1.
  assert (loadIssuer resolved true w1 = (inl keys1, {| store := count_tick (store w1); peers := peers w1 |})) as ->.
  { unfold loadIssuer, run, Now, cached_issuer, get, call, mbind, go_bind, mret, go_ret, return_if, return_.
    cbn [peers]. unfold on_store. cbn [run]. unfold still_good. cbn.
    rewrite He1. cbn. rewrite Hkeys1, Hlast. specialize (Hsoon n Hn).
    by destruct (Z.ltb_spec (sub (clock (c_tick (w_cnt (store w1))) + w_slept (store w1)) (clock n + w_slept (store w))) refreshWait); [|lia]. }
  split_and!; [done| |done].
  destruct (proj2 Hok1 _ _ He1) as (d & u & ks & Hk & Hks & Hf).
  apply (key_of_inj (Resolved.Dynamic resolved) (Issuer.IssuerURL (Resolved.IssuerConfig resolved))) in Hk as [-> ->].
  congruence.
Qed.
End Service.

(** ** Witnesses *)

Module Sample.

(** One reading of the clock a nanosecond. *)
#[export] Instance env : Env := quiet_env (1700000000 * second).

Definition issuer_config : Issuer.TrustIssuerConfig :=
  {| Issuer.Provider := "ci"; Issuer.IssuerURL := "https://ci"; Issuer.SigningAlgs := ["RS256"];
     Issuer.MaxTokenAge := hour |}.
Definition issuer : Resolved.ResolvedTrustIssuer :=
  {| Resolved.ID := "ci"; Resolved.IssuerConfig := issuer_config; Resolved.Dynamic := false;
     Resolved.clientID := "app"; Resolved.issuer_owner := 1 |}.
Definition binding (id schema : string) : Effective.EffectiveTrustBinding :=
  zero_effective <| Effective.ID := id |> <| Effective.Schema_ := {| compiled_from := schema |} |>.

(** The outside counts the requests made. *)
#[export] Instance resolver : PolicyResolver nat := {|
  ResolveClient _ _ n := ((zero_resolved_client, None), n);
  ResolveUser _ _ n := ((zero_resolved_user, None), n)
|}.
#[export] Instance trust_resolver : TrustResolver nat := {|
  ResolveTrustIssuer _ _ n := ((issuer, None), n);
  ResolveTrustBindings _ _ n := (([binding "deploy" "anything"; binding "other" "nothing"], None), n)
|}.
#[export] Instance network : HTTPClient nat := fun _ uri n =>
  (inl {| status_code := 200; http_body := uri; read_failed := false |}, S n).
#[export] Instance metadata : MetadataJSON := {|
  unmarshal_discovery _ := Some {| doc_issuer := "https://ci"; JWKSURI := "https://ci/jwks" |};
  valid_json _ := true
|}.
#[export] Instance urls : URLs := fun _ =>
  Some {| Scheme := "https"; Host := "ci"; Hostname := "ci"; HasUser := false; RawQuery := "";
          ForceQuery := false; Fragment := "" |}.
#[export] Instance schemas : JSONLib := {|
  decode_json _ := None; marshal_json _ := ""; compiles _ := true;
  Validate schema _ := (compiled_from schema =? "anything")%string
|}.
#[export] Instance payloads : ProofJSON := {|
  unmarshal_members _ := None; unmarshal_string s := s;
  decode_members _ := Some ([("sub", JString "job")], "")
|}.
Definition token : Token :=
  {| tok_issuer := "https://ci"; tok_subject := "job"; tok_audience := ["app"];
     tok_expiration := 1700000060 * second; tok_issued_at := 1699999990 * second; tok_get _ := None |}.
#[export] Instance external : ExternalJWT := {|
  jws_signatures _ := Some [("RS256", "k1")];
  parse_unverified _ := Some token;
  parse_verified _ _ _ := Some token;
  jwt_validate now t := now <? tok_expiration t;
  jwk_parse _ := Some [{| KeyID := "k1"; KeyAlgorithm := None; material := "" |}]
|}.

Definition start : Process (Peers nat) :=
  {| store := World_at 0 empty_tables;
     peers := {| replayCache := {| maxEntries := 4; entries := ∅; expiries := [] |}; issuer_cache := ∅; outside := O |} |}.
(** The keys of the issuer are cached. *)
Definition warm : Process (Peers nat) := (loadIssuer issuer false start).2.
End Sample.
Import Sample.

Lemma empty_issuers_ok (P : Type) `{!HTTPClient P} `{!ExternalJWT} `{!URLs} `{!MetadataJSON} :
  issuers_ok (P := P) ∅.
Proof. by split. Qed.

Lemma accepted_token_is_justified_witness :
  exists result, (VerifyAndEvaluate "aa.eyJ9.cc" "app" start).1 = (Some result, None) /\
    Verified.UpstreamSubject result = "job" /\ justified (P := nat) "aa.eyJ9.cc" "app" start (VerifyAndEvaluate "aa.eyJ9.cc" "app" start).2 result.
Proof.
  eexists. split; [vm_compute; reflexivity|]. split; [reflexivity|].
  apply (accepted_token_is_justified "aa.eyJ9.cc" "app" start); [apply empty_issuers_ok | vm_compute; reflexivity].
Defined.

Lemma issuer_cache_sound_witness :
  issuers_ok (P := nat) (issuer_cache (peers (verify_all [("aa.eyJ9.cc", "app"); ("aa.eyJ9.cc", "app")] start))) /\
  (exists e, issuer_cache (peers (verify_all [("aa.eyJ9.cc", "app")] start)) !! "static:https://ci" = Some e).
Proof.
  split; [|eexists; vm_compute; reflexivity].
  apply (issuer_cache_sound [("aa.eyJ9.cc", "app"); ("aa.eyJ9.cc", "app")] start). reflexivity.
Defined.

(** The forced refresh reaches the network: the entry was loaded without force. *)
Lemma forced_refresh_not_repeated_witness :
  exists w1 keys', (loadIssuer issuer true warm).2 = w1 /\ outside (peers w1) = 4%nat /\
    (loadIssuer issuer true w1).1 = inl keys' /\ fetched_keys (P := nat) false "https://ci" keys' /\
    peers (loadIssuer issuer true w1).2 = peers w1.
Proof.
  assert (issuers_ok (P := nat) (issuer_cache (peers warm))) as Hok by apply loadIssuer_loaded, empty_issuers_ok.
  assert (exists entry keys, issuer_cache (peers warm) !! cache_key issuer = Some entry /\
    Issuers.keys entry = Some keys) as (entry & keys & He & Hk) by (vm_compute; eauto).
  assert (c_tick (w_cnt (store warm)) = 2%nat /\ c_tick (w_cnt (store (loadIssuer issuer true warm).2)) = 6%nat)
    as [Ht1 Ht2] by (vm_compute; split; reflexivity).
  destruct (forced_refresh_not_repeated issuer warm entry keys _ Hok He Hk eq_refl) as (keys' & Hload & Hf & Hp).
  - intros E. vm_compute in E. discriminate E.
  - intros n. rewrite Ht1, Ht2. change (w_slept (store warm)) with 0.
    change (w_slept (store (loadIssuer issuer true warm).2)) with 0. cbn [clock env quiet_env].
    unfold sub, refreshWait, second, min_int64, max_int64. lia.
  - exists (loadIssuer issuer true warm).2, keys'.
    split_and!; [reflexivity|vm_compute; reflexivity|exact Hload|exact Hf|exact Hp].
Defined.
