(* ===== verification/Dial.v ===== *)
(** * internal/trust: where the keys of issuers are fetched

    [NewService], [publicDialContext] and [allowedDynamicIssuerIP] of service.go: the two
    HTTP clients of the trust service, the rule of their redirects and, for issuers that
    come from the policy database, the rule of their connections.  net/netip is written
    out on addresses as numbers; DNS, connections and the exchange of a request for a
    response are a class; each connection tried is recorded with the address it was tried
    at, and each request with its URL. *)

From S2P Require Import Prelude Runtime TrustConfig Trust.

(** ** net/netip *)

(** [netip.Addr] without a zone: an IPv4 address below 2^32 or an IPv6 address below 2^128. *)
Inductive Addr := V4 (a : Z) | V6 (a : Z).
#[export] Instance Addr_eq_dec : EqDecision Addr.
Proof. solve_decision. Defined.

Definition width (ip : Addr) : Z := match ip with V4 _ => 32 | V6 _ => 128 end.
Definition bits (ip : Addr) : Z := match ip with V4 a | V6 a => a end.
Definition valid_addr (ip : Addr) : Prop := 0 <= bits ip < 2 ^ width ip.

(** [netip.AddrFromSlice] *)
Fixpoint big_endian (bytes : string) (acc : Z) : Z :=
  match bytes with
  | EmptyString => acc
  | String c bytes => big_endian bytes (256 * acc + byte_z c)
  end.
Definition AddrFromSlice (bytes : string) : option Addr :=
  if len bytes =? 4 then Some (V4 (big_endian bytes 0))
  else if len bytes =? 16 then Some (V6 (big_endian bytes 0))
  else None.

(** The octet [n] of an IPv4 address and the 16-bit group [n] of an IPv6 address. *)
Definition v4 (a n : Z) : Z := (a / 2 ^ (8 * (3 - n))) mod 256.
Definition v6u16 (a n : Z) : Z := (a / 2 ^ (16 * (7 - n))) mod 2 ^ 16.
(** The octet [n] of an IPv6 address. *)
Definition v6 (a n : Z) : Z := (a / 2 ^ (8 * (15 - n))) mod 256.

(** [Addr.Unmap]: the IPv4 address an IPv6 address maps. *)
Definition Unmap (ip : Addr) : Addr :=
  match ip with
  | V6 a => if a / 2 ^ 32 =? Z.ones 16 then V4 (a mod 2 ^ 32) else ip
  | V4 _ => ip
  end.

Definition IsLoopback (ip : Addr) : bool :=
  match ip with V4 a => v4 a 0 =? 127 | V6 a => a =? 1 end.
Definition IsMulticast (ip : Addr) : bool :=
  match ip with V4 a => Z.land (v4 a 0) 240 =? 224 | V6 a => v6 a 0 =? 255 end.
Definition IsLinkLocalUnicast (ip : Addr) : bool :=
  match ip with
  | V4 a => (v4 a 0 =? 169) && (v4 a 1 =? 254)
  | V6 a => Z.land (v6u16 a 0) 65472 =? 65152
  end.
Definition IsGlobalUnicast (ip : Addr) : bool :=
  match ip with
  | V4 a => negb ((a =? 0) || (a =? Z.ones 32)) && negb (IsLoopback ip) && negb (IsMulticast ip) && negb (IsLinkLocalUnicast ip)
  | V6 a => negb (a =? 0) && negb (IsLoopback ip) && negb (IsMulticast ip) && negb (IsLinkLocalUnicast ip)
  end.
Definition IsPrivate (ip : Addr) : bool :=
  match ip with
  | V4 a => (v4 a 0 =? 10) || (v4 a 0 =? 172) && (Z.land (v4 a 1) 240 =? 16) || (v4 a 0 =? 192) && (v4 a 1 =? 168)
  | V6 a => Z.land (v6 a 0) 254 =? 252
  end.

(** [netip.Prefix] and [Prefix.Contains] *)
Record Prefix := { prefix_addr : Addr; prefix_bits : Z }.
Definition Contains (p : Prefix) (ip : Addr) : bool :=
  match prefix_addr p, ip with
  | V4 base, V4 a => base / 2 ^ (32 - prefix_bits p) =? a / 2 ^ (32 - prefix_bits p)
  | V6 base, V6 a => base / 2 ^ (128 - prefix_bits p) =? a / 2 ^ (128 - prefix_bits p)
  | _, _ => false
  end.

(** The IPv4 address of four octets. *)
Definition octets (a b c d : Z) : Addr := V4 (((256 * a + b) * 256 + c) * 256 + d).

(** [sharedIPv4Space] *)
Definition sharedIPv4Space : Prefix := {| prefix_addr := octets 100 64 0 0; prefix_bits := 10 |}.

Definition allowedDynamicIssuerIP (ip : Addr) : bool :=
  let ip := Unmap ip in
  IsGlobalUnicast ip && negb (IsPrivate ip) && negb (Contains sharedIPv4Space ip).

Example allowed_examples :
  map allowedDynamicIssuerIP
    [octets 93 184 216 34; octets 127 0 0 1; octets 10 1 2 3; octets 172 31 0 1; octets 172 32 0 1; octets 169 254 169 254;
     octets 100 127 255 255; octets 100 128 0 0; V6 (Z.ones 16 * 2 ^ 32 + 127 * 2 ^ 24 + 1); V6 (64512 * 2 ^ 112); V6 (8193 * 2 ^ 112)]
  = [true; false; false; false; true; false; false; true; false; false; true].
Proof. vm_compute. reflexivity. Qed.

(** ** Connections *)

(** DNS, the dialer and the two round trips: what a request is answered over a connection
    made for dynamic issuers, and by the default transport. *)
Record Answered := { answer_status : Z; answer_location : option string; answer_body : string; answer_cut : bool }.
Class Internet (N : Type) := {
  connection : Type;
  split_host_port : string -> option (string * string);
  lookup_ip : string -> N -> (list string + error) * N;
  dial_ip : Addr -> string -> N -> (connection + error) * N;
  canonical_addr : URL -> string;
  resolve_reference : URL -> string -> option URL;
  exchange_over : connection -> URL -> N -> (Answered + error) * N;
  default_exchange : URL -> N -> (Answered + error) * N
}.

(** The network with the connections tried so far for dynamic issuers and the requests made
    so far. *)
Record Dialled (N : Type) := { dials : list (Addr * string); requests : list URL; net : N }.
#[global] Arguments dials {N} _.
#[global] Arguments requests {N} _.
#[global] Arguments net {N} _.
#[global] Arguments Build_Dialled {N} _ _ _.

Section Dial.
Context {N : Type} `{!Internet N}.

Definition on_net {B} (f : N -> B * N) (w : Dialled N) : B * Dialled N :=
  let (b, n) := f (net w) in (b, {| dials := dials w; requests := requests w; net := n |}).
Definition dial (ip : Addr) (port : string) (w : Dialled N) : (connection + error) * Dialled N :=
  let (b, n) := dial_ip ip port (net w) in (b, {| dials := dials w ++ [(ip, port)]; requests := requests w; net := n |}).
Definition requested (u : URL) (w : Dialled N) : unit * Dialled N :=
  (tt, {| dials := dials w; requests := requests w ++ [u]; net := net w |}).

(** The loop over the addresses of the host. *)
Fixpoint dial_each (addresses : list string) (port : string) : Dialled N -> (connection + error) * Dialled N :=
  match addresses with
  | [] => fun w => (inr (Errorf "issuer host has no reachable public address"), w)
  | bytes :: addresses => fun w =>
      match AddrFromSlice bytes with
      | Some ip =>
          if allowedDynamicIssuerIP ip then
            let (answer, w) := dial ip port w in
            match answer with inl connection => (inl connection, w) | inr _ => dial_each addresses port w end
          else dial_each addresses port w
      | None => dial_each addresses port w
      end
  end.

Definition publicDialContext (address : string) : Dialled N -> (connection + error) * Dialled N := run (
  match split_host_port address with
  | None => mret (inr (Errorf "invalid issuer address"))
  | Some (host, port) =>
      addresses ← call (on_net (lookup_ip host));
      match addresses with
      | inr err => mret (inr (Wrapped "resolve issuer host" err))
      | inl addresses => call (dial_each addresses port)
      end
  end).

(** ** Requests *)

(** [client.CheckRedirect]: [via] are the requests made so far, the first one first. *)
Definition checkRedirect (req : URL) (via : list URL) : option error :=
  match via with
  | [] => None
  | first :: _ =>
      if (2 <? length via)%nat || negb (Scheme req =? Scheme first)%string || negb (Host req =? Host first)%string
      then Some (Errorf "cross-origin redirect rejected") else None
  end.

(** One request of one of the clients: the dynamic one dials public addresses only. *)
Definition round_trip (dynamic : bool) (u : URL) : Dialled N -> (Answered + error) * Dialled N := run (
  call (requested u) ;;
  if dynamic then
    connected ← call (publicDialContext (canonical_addr u));
    match connected with
    | inr err => mret (inr err)
    | inl connection => call (on_net (exchange_over connection u))
    end
  else call (on_net (default_exchange u))).

(** [http.Client.Do]: a redirect is followed when [CheckRedirect] allows it; the rule
    allows two requests before it, so that [fuel] is not reached. *)
Definition redirects (status : Z) : bool := bool_decide (status ∈ [301; 302; 303; 307; 308]).

Fixpoint do_request (fuel : nat) (dynamic : bool) (u : URL) (via : list URL)
  : Dialled N -> (Answered + error) * Dialled N :=
  match fuel with
  | O => fun w => (inr (Errorf "stopped after redirects"), w)
  | S fuel => run (
      answer ← call (round_trip dynamic u);
      let via := via ++ [u] in
      match answer with
      | inr err => mret (inr err)
      | inl response =>
          match answer_location response with
          | Some location =>
              if redirects (answer_status response) then
                match resolve_reference u location with
                | None => mret (inr (Errorf "failed to parse Location header"))
                | Some target =>
                    match checkRedirect target via with
                    | Some err => mret (inr err)
                    | None => call (do_request fuel dynamic target via)
                    end
                end
              else mret (inl response)
          | None => mret (inl response)
          end
      end)
  end.

Definition redirect_fuel : nat := 10.

Definition Do (dynamic : bool) (uri : string) `{!URLs} : Dialled N -> (Answered + error) * Dialled N :=
  match parse_url uri with
  | None => fun w => (inr (Errorf "parse"), w)
  | Some u => do_request redirect_fuel dynamic u []
  end.

(** The client the trust service is written against. *)
#[export] Instance service_client `{!URLs} : HTTPClient (Dialled N) := fun dynamic uri w =>
  let (answer, w) := Do dynamic uri w in
  (match answer with
   | inl response => inl {| status_code := answer_status response; http_body := answer_body response;
                            read_failed := answer_cut response |}
   | inr err => inr err
   end, w).
End Dial.
