(* ===== verification/DialProperties.v ===== *)
(** * Dynamic issuers are fetched from public addresses only

    The addresses [allowedDynamicIssuerIP] allows are those of no special network; every
    connection tried for an issuer of the policy database is to one of them, whatever DNS
    answers, and every request made for it goes to the origin of the first. *)

From Stdlib Require Import Btauto.
From S2P Require Import Prelude Runtime Schema ReplayCache Json Config Services TrustPolicy TrustConfig TrustProperties Upstream Dpop Trust TrustServiceProperties Dial.

(** ** Special networks *)

(** The networks no issuer of the policy database may be at: RFC 6890's special blocks of
    this host, private, shared, loopback, link-local, multicast and broadcast addresses. *)
Definition group (a : Z) : Addr := V6 (a * 2 ^ 112).
Definition special_networks : list Prefix :=
  [{| prefix_addr := octets 0 0 0 0; prefix_bits := 32 |};
   {| prefix_addr := octets 10 0 0 0; prefix_bits := 8 |};
   sharedIPv4Space;
   {| prefix_addr := octets 127 0 0 0; prefix_bits := 8 |};
   {| prefix_addr := octets 169 254 0 0; prefix_bits := 16 |};
   {| prefix_addr := octets 172 16 0 0; prefix_bits := 12 |};
   {| prefix_addr := octets 192 168 0 0; prefix_bits := 16 |};
   {| prefix_addr := octets 224 0 0 0; prefix_bits := 4 |};
   {| prefix_addr := octets 255 255 255 255; prefix_bits := 32 |};
   {| prefix_addr := V6 0; prefix_bits := 128 |};
   {| prefix_addr := V6 1; prefix_bits := 128 |};
   {| prefix_addr := group 64512; prefix_bits := 7 |};
   {| prefix_addr := group 65152; prefix_bits := 10 |};
   {| prefix_addr := group 65280; prefix_bits := 8 |}].

(** No special network has the address, nor the IPv4 address it maps. *)
Definition public_address (ip : Addr) : Prop :=
  valid_addr ip /\ forall p, p ∈ special_networks -> Contains p (Unmap ip) = false.

(** A mask keeps the high bits of a number of [w] bits. *)
Lemma land_high x w k : 0 <= x < 2 ^ w -> 0 <= k <= w -> Z.land x (Z.shiftl (Z.ones (w - k)) k) = x / 2 ^ k * 2 ^ k.
Proof.
  intros Hx Hk. rewrite <- Z.shiftl_mul_pow2, <- Z.shiftr_div_pow2 by lia. apply Z.bits_inj'. intros n Hn.
  rewrite Z.land_spec. destruct (Z.ltb_spec n k).
  - rewrite !Z.shiftl_spec_low by lia. by rewrite andb_false_r.
  - rewrite !Z.shiftl_spec, Z.shiftr_spec by lia. replace (n - k + k) with n by lia.
    destruct (Z.ltb_spec n w).
    + rewrite Z.ones_spec_low by lia. by rewrite andb_true_r.
    + rewrite <- (Z.mod_small x (2 ^ w)), Z.mod_pow2_bits_high by lia. done.
Qed.

(** A masked octet or group compares as its quotient. *)
Lemma masked_eqb x w k v : 0 <= x < 2 ^ w -> 0 <= k <= w ->
  (Z.land x (Z.shiftl (Z.ones (w - k)) k) =? v * 2 ^ k) = (x / 2 ^ k =? v).
Proof.
  intros Hx Hk. rewrite land_high by done. assert (0 < 2 ^ k) by (apply Z.pow_pos_nonneg; lia).
  destruct (Z.eqb_spec (x / 2 ^ k) v) as [->|Hne]; [by rewrite Z.eqb_refl|]. apply Z.eqb_neq. nia.
Qed.

Lemma v4_range a n : 0 <= v4 a n < 2 ^ 8.
Proof. unfold v4. apply Z.mod_pos_bound. lia. Qed.
Lemma v6_range a n : 0 <= v6 a n < 2 ^ 8.
Proof. unfold v6. apply Z.mod_pos_bound. lia. Qed.
Lemma v6u16_range a n : 0 <= v6u16 a n < 2 ^ 16.
Proof. unfold v6u16. apply Z.mod_pos_bound. lia. Qed.

Lemma multicast4 a : (Z.land (v4 a 0) 240 =? 224) = (v4 a 0 / 2 ^ 4 =? 14).
Proof. exact (masked_eqb (v4 a 0) 8 4 14 (v4_range a 0) ltac:(lia)). Qed.
Lemma private4 a : (Z.land (v4 a 1) 240 =? 16) = (v4 a 1 / 2 ^ 4 =? 1).
Proof. exact (masked_eqb (v4 a 1) 8 4 1 (v4_range a 1) ltac:(lia)). Qed.
Lemma private6 a : (Z.land (v6 a 0) 254 =? 252) = (v6 a 0 / 2 ^ 1 =? 126).
Proof. exact (masked_eqb (v6 a 0) 8 1 126 (v6_range a 0) ltac:(lia)). Qed.
Lemma link_local6 a : (Z.land (v6u16 a 0) 65472 =? 65152) = (v6u16 a 0 / 2 ^ 6 =? 1018).
Proof. exact (masked_eqb (v6u16 a 0) 16 6 1018 (v6u16_range a 0) ltac:(lia)). Qed.

(** The first bits of an address, from its octets and groups. *)
Lemma high4 a k : 0 <= a < 2 ^ 32 -> 24 <= k <= 32 -> a / 2 ^ k = v4 a 0 / 2 ^ (k - 24).
Proof.
  intros Ha Hk. unfold v4. cbn [Z.mul Z.sub]. rewrite Z.mod_small.
  - rewrite Z.div_div, <- Z.pow_add_r by (try apply Z.pow_pos_nonneg; lia). f_equal. f_equal. lia.
  - split; [apply Z.div_pos; lia|]. apply Z.div_lt_upper_bound; lia.
Qed.
Lemma high6 a k : 0 <= a < 2 ^ 128 -> 112 <= k <= 128 -> a / 2 ^ k = v6u16 a 0 / 2 ^ (k - 112).
Proof.
  intros Ha Hk. unfold v6u16. change (2 ^ (16 * (7 - 0))) with (2 ^ 112). rewrite Z.mod_small.
  - rewrite Z.div_div, <- Z.pow_add_r by (try apply Z.pow_pos_nonneg; lia). f_equal. f_equal. lia.
  - split; [apply Z.div_pos; lia|]. apply Z.div_lt_upper_bound; lia.
Qed.

Lemma pair4 a x y : 0 <= a < 2 ^ 32 -> 0 <= y < 256 -> (v4 a 0 =? x) && (v4 a 1 =? y) = (a / 2 ^ 16 =? 256 * x + y).
Proof.
  intros Ha Hy. unfold v4. change (2 ^ (8 * (3 - 0))) with (2 ^ 24). change (2 ^ (8 * (3 - 1))) with (2 ^ 16).
  Z.to_euclidean_division_equations. lia.
Qed.
Lemma half4 a x y : 0 <= a < 2 ^ 32 -> 0 <= y < 16 -> (v4 a 0 =? x) && (v4 a 1 / 2 ^ 4 =? y) = (a / 2 ^ 20 =? 16 * x + y).
Proof.
  intros Ha Hy. unfold v4. change (2 ^ (8 * (3 - 0))) with (2 ^ 24). change (2 ^ (8 * (3 - 1))) with (2 ^ 16).
  Z.to_euclidean_division_equations. lia.
Qed.
Lemma octet4 a x : 0 <= a < 2 ^ 32 -> (v4 a 0 =? x) = (a / 2 ^ 24 =? x).
Proof. intros Ha. by rewrite (high4 a 24), Z.div_1_r by lia. Qed.
Lemma octet6 a : 0 <= a < 2 ^ 128 -> v6 a 0 = a / 2 ^ 120.
Proof. intros Ha. unfold v6. change (2 ^ (8 * (15 - 0))) with (2 ^ 120). apply Z.mod_small. Z.to_euclidean_division_equations. lia. Qed.

(** Not in any of the networks. *)
Definition outside_networks (ip : Addr) : bool := forallb (fun p => negb (Contains p ip)) special_networks.

(** A comparison with the first bits of a constant network, with the number computed. *)
Ltac network_bits w a :=
  repeat match goal with
  | |- context [?c / 2 ^ (w - ?n) =? a / 2 ^ (w - ?n)] =>
      let q := eval vm_compute in (c / 2 ^ (w - n)) in
      let k := eval vm_compute in (w - n) in
      change (c / 2 ^ (w - n) =? a / 2 ^ (w - n)) with (q =? a / 2 ^ k); rewrite (Z.eqb_sym q)
  end;
  change (2 ^ 0) with 1; rewrite ?Z.div_1_r.

(** Two formulas of the same comparisons. *)
Ltac by_tests := repeat match goal with |- context [?x =? ?y] => generalize (x =? y); intros end; btauto.

Lemma allowed4 a : 0 <= a < 2 ^ 32 ->
  IsGlobalUnicast (V4 a) && negb (IsPrivate (V4 a)) && negb (Contains sharedIPv4Space (V4 a)) = outside_networks (V4 a).
Proof.
  intros Ha. cbn [IsGlobalUnicast IsPrivate IsLoopback IsMulticast IsLinkLocalUnicast].
  rewrite multicast4, private4, !pair4, half4, !octet4 by lia.
  assert (v4 a 0 / 2 ^ 4 = a / 2 ^ 28) as -> by (symmetry; exact (high4 a 28 Ha ltac:(lia))).
  unfold outside_networks, special_networks, Contains, octets, group, sharedIPv4Space. cbn [forallb prefix_addr prefix_bits].
  change (256 * 169 + 254) with 43518. change (256 * 192 + 168) with 49320. change (16 * 172 + 1) with 2753.
  change (Z.ones 32) with 4294967295. cbn [octets]. network_bits 32 a. by_tests.
Qed.
Lemma allowed6 a : 0 <= a < 2 ^ 128 ->
  IsGlobalUnicast (V6 a) && negb (IsPrivate (V6 a)) && negb (Contains sharedIPv4Space (V6 a)) = outside_networks (V6 a).
Proof.
  intros Ha. cbn [IsGlobalUnicast IsPrivate IsLoopback IsMulticast IsLinkLocalUnicast].
  rewrite link_local6, private6, octet6 by lia.
  assert (v6u16 a 0 / 2 ^ 6 = a / 2 ^ 118) as -> by (symmetry; exact (high6 a 118 Ha ltac:(lia))).
  assert (a / 2 ^ 120 / 2 ^ 1 = a / 2 ^ 121) as -> by (rewrite Z.div_div by lia; done).
  unfold outside_networks, special_networks, Contains, group. cbn [forallb prefix_addr prefix_bits octets sharedIPv4Space].
  network_bits 128 a. by_tests.
Qed.

Lemma Unmap_valid ip : valid_addr ip -> valid_addr (Unmap ip).
Proof.
  destruct ip as [a|a]; [done|]. cbn. destruct (_ =? _); [|done]. intros _. unfold valid_addr. cbn. apply Z.mod_pos_bound. lia.
Qed.

(** The rule of the code is the table of networks. *)
Lemma allowed_outside ip : valid_addr ip -> allowedDynamicIssuerIP ip = outside_networks (Unmap ip).
Proof.
  intros Hv%Unmap_valid. unfold allowedDynamicIssuerIP. cbv zeta. destruct (Unmap ip) as [a|a]; [by apply allowed4|by apply allowed6].
Qed.
Lemma allowed_public ip : valid_addr ip -> allowedDynamicIssuerIP ip = true <-> public_address ip.
Proof.
  intros Hv. rewrite allowed_outside by done. unfold outside_networks, public_address. rewrite forallb_forall. split.
  - intros Hf. split; [done|]. intros p Hp%list_elem_of_In. by apply negb_true_iff, Hf.
  - intros [_ Hf] p Hp%list_elem_of_In. by apply negb_true_iff, Hf.
Qed.

Lemma big_endian_range bytes acc n : 0 <= acc < 2 ^ (8 * n) -> 0 <= n ->
  0 <= big_endian bytes acc < 2 ^ (8 * (n + len bytes)).
Proof.
  revert acc n. induction bytes as [|c bytes IH]; intros acc n Ha Hn; cbn [big_endian].
  - unfold len. cbn. by rewrite Z.add_0_r.
  - pose proof (byte_z_bound c) as Hc.
    replace (n + len (String c bytes)) with (n + 1 + len bytes) by (unfold len; cbn [String.length]; lia).
    apply IH; [|lia]. replace (8 * (n + 1)) with (8 * n + 8) by lia. rewrite Z.pow_add_r by lia. change (2 ^ 8) with 256. lia.
Qed.
Lemma AddrFromSlice_valid bytes ip : AddrFromSlice bytes = Some ip -> valid_addr ip.
Proof.
  unfold AddrFromSlice. pose proof (big_endian_range bytes 0 0 ltac:(cbn; lia) ltac:(lia)) as Hr.
  destruct (Z.eqb_spec (len bytes) 4) as [Hl|_]; [intros [= <-]; by rewrite Hl in Hr|].
  destruct (Z.eqb_spec (len bytes) 16) as [Hl|_]; [|done]. intros [= <-]. by rewrite Hl in Hr.
Qed.

(** ** Connections and requests *)

(** The connections tried since: each to a public address. *)
Definition tried_public (before after : list (Addr * string)) : Prop :=
  exists tried, after = before ++ tried /\ Forall (fun d => public_address d.1) tried.
#[export] Instance tried_public_preorder : PreOrder tried_public.
Proof.
  split.
  - intros l. exists []. by rewrite app_nil_r.
  - intros l1 l2 l3 (t1 & -> & H1) (t2 & -> & H2). exists (t1 ++ t2). by rewrite <- app_assoc, Forall_app.
Qed.

(** A request of the origin of [u]. *)
Definition same_origin (u v : URL) : Prop := Scheme v = Scheme u /\ Host v = Host u.

Section Requests.
Context {N : Type} `{!Internet N}.

Lemma on_net_tries {B} (f : N -> B * N) : calls tried_public dials (on_net f).
Proof. intros w. unfold on_net. by destruct (f (net w)). Qed.
#[local] Hint Resolve on_net_tries : walk.

Lemma dial_tries ip port : public_address ip -> calls tried_public dials (dial ip port).
Proof.
  intros Hp w. unfold dial. destruct (dial_ip ip port (net w)). cbn. exists [(ip, port)]. split; [done|]. by constructor.
Qed.
Lemma dial_each_tries addresses port : calls tried_public dials (dial_each addresses port).
Proof.
  induction addresses as [|bytes addresses IH]; intros w; cbn [dial_each]; [done|].
  destruct (AddrFromSlice bytes) as [ip|] eqn:Hip; [|apply IH].
  destruct (allowedDynamicIssuerIP ip) eqn:Ha; [|apply IH].
  apply allowed_public in Ha; [|by eapply AddrFromSlice_valid].
  pose proof (dial_tries ip port Ha w) as Hd. destruct (dial ip port w) as [[connection|err] w']; [done|].
  etrans; [exact Hd|]. apply IH.
Qed.
#[local] Hint Resolve dial_each_tries : walk.

Lemma publicDialContext_tries address : calls tried_public dials (publicDialContext address).
Proof. unfold publicDialContext. by_walk. Qed.
Lemma requested_tries u : calls tried_public dials (requested (N := N) u).
Proof. by intros w. Qed.
#[local] Hint Resolve publicDialContext_tries requested_tries : walk.
Lemma round_trip_tries dynamic u : calls tried_public dials (round_trip dynamic u).
Proof. unfold round_trip. by_walk. Qed.
#[local] Hint Resolve round_trip_tries : walk.
Lemma do_request_tries fuel dynamic u via : calls tried_public dials (do_request fuel dynamic u via).
Proof. revert u via. induction fuel; intros u via; cbn [do_request]; [by intros w|]. by_walk. Qed.

(** A redirect that is followed stays at the origin, and comes after at most two requests. *)
Lemma checkRedirect_ok target first via :
  checkRedirect target (first :: via) = None -> same_origin first target /\ (length (first :: via) <= 2)%nat.
Proof.
  unfold checkRedirect. destruct (Nat.ltb_spec 2 (length (first :: via))); [done|].
  destruct (String.eqb_spec (Scheme target) (Scheme first)); [|done].
  destruct (String.eqb_spec (Host target) (Host first)); [|done]. by split.
Qed.

(** The request of a round trip is recorded, and nothing else records one. *)
Lemma on_net_requests {B} (f : N -> B * N) : calls eq requests (on_net f).
Proof. intros w. unfold on_net. by destruct (f (net w)). Qed.
Lemma dial_each_requests addresses port : calls eq requests (dial_each addresses port).
Proof.
  induction addresses as [|bytes addresses IH]; intros w; cbn [dial_each]; [done|].
  destruct (AddrFromSlice bytes) as [ip|]; [|apply IH]. destruct (allowedDynamicIssuerIP ip); [|apply IH].
  unfold dial. destruct (dial_ip ip port (net w)) as [[connection|err] n]; [done|]. by rewrite <- IH.
Qed.
#[local] Hint Resolve on_net_requests dial_each_requests : walk.
Lemma publicDialContext_requests address : calls eq requests (publicDialContext address).
Proof. unfold publicDialContext. by_walk. Qed.
#[local] Hint Resolve publicDialContext_requests : walk.
Lemma round_trip_requests dynamic u w : ends (round_trip dynamic u) w (fun _ w' => requests w' = requests w ++ [u]).
Proof.
  unfold round_trip. apply ends_run, wp_bind, wp_call. unfold ends, requested. cbn [fst snd].
  set (w1 := {| dials := dials w |}). change (requests w ++ [u]) with (requests w1).
  match goal with |- wp ?m w1 _ => assert (steps eq requests m) as Hs by by_walk end.
  eapply wp_mono; [exact (Hs w1)|]. by intros x w' ->.
Qed.

(** At most three requests are made, all at the origin of the first. *)
Lemma do_request_made fuel dynamic first u via w :
  (via = [] /\ u = first) \/ (exists rest, via = first :: rest) -> (length via <= 2)%nat -> same_origin first u ->
  ends (do_request fuel dynamic u via) w (fun _ w' => exists made, requests w' = requests w ++ made /\
    Forall (same_origin first) made /\ (length via + length made <= 3)%nat).
Proof.
  revert u via w. induction fuel as [|fuel IH]; intros u via w Hf Hl Hu; cbn [do_request].
  { exists []. cbn. rewrite app_nil_r. split_and!; [done|done|lia]. }
  apply ends_run, wp_bind, wp_call. eapply ends_mono; [apply round_trip_requests|]. intros answer w1 Hw1.
  assert (exists made, requests w1 = requests w ++ made /\ Forall (same_origin first) made /\
    (length via + length made <= 3)%nat) as Hone.
  { exists [u]. split_and!; [done|by constructor|cbn; lia]. }
  destruct answer as [response|err]; [|by apply wp_ret].
  destruct (answer_location response) as [location|]; [|by apply wp_ret].
  destruct (redirects _); [|by apply wp_ret].
  destruct (resolve_reference u location) as [target|]; [|by apply wp_ret].
  destruct (checkRedirect target (via ++ [u])) as [err|] eqn:Hc; [by apply wp_ret|].
  assert (exists rest, via ++ [u] = first :: rest) as [rest Hrest].
  { destruct Hf as [[-> ->]|[rest ->]]; [by exists []|by exists (rest ++ [u])]. }
  rewrite Hrest in *. apply checkRedirect_ok in Hc as [Ht Hl2].
  apply wp_call. eapply ends_mono; [apply (IH target); [right; by exists rest|done|done]|].
  intros x w2 (made & Hw2 & Hall & Hlen). exists (u :: made).
  assert (length (first :: rest) = S (length via)) as Hs by (rewrite <- Hrest, length_app; cbn; lia).
  split_and!; [by rewrite Hw2, Hw1, <- app_assoc|by constructor|cbn; lia].
Qed.

(** Three requests are all the rule of redirects allows: more fuel changes nothing. *)
Lemma do_request_fuel fuel dynamic u via w :
  (length via <= 2)%nat -> (3 <= fuel + length via)%nat ->
  do_request (S fuel) dynamic u via w = do_request fuel dynamic u via w.
Proof.
  revert u via w. induction fuel as [|fuel IH]; intros u via w Hv Hf; [lia|]. cbn [do_request].
  unfold run, mbind, go_bind, call. destruct (round_trip dynamic u w) as [[response|err] w']; [|done].
  destruct (answer_location response) as [location|]; [|done].
  destruct (redirects _); [|done]. destruct (resolve_reference u location) as [target|]; [|done].
  destruct (checkRedirect target (via ++ [u])) as [err|] eqn:Hc; [done|].
  assert (length (via ++ [u]) <= 2)%nat as Hl by (destruct (via ++ [u]); [cbn; lia|by apply checkRedirect_ok in Hc as [_ ?]]).
  pose proof (IH target (via ++ [u]) w' Hl) as He. rewrite length_app in He. cbn [length] in He.
  specialize (He ltac:(lia)). cbn [do_request] in He. unfold run, mbind, go_bind, call in He. by rewrite He.
Qed.

Lemma redirect_fuel_enough fuel dynamic u w :
  (3 <= fuel)%nat -> do_request fuel dynamic u [] w = do_request 3 dynamic u [] w.
Proof.
  induction fuel as [|fuel IH]; [lia|]. intros Hf. destruct (decide (S fuel = 3)%nat) as [->|]; [done|].
  rewrite do_request_fuel by (cbn; lia). apply IH. lia.
Qed.

(** All requests are to the scheme and host of [uri]. *)
Definition all_to `{!URLs} (uri : string) (made : list URL) : Prop :=
  match parse_url uri with
  | Some u => Forall (same_origin u) made
  | None => made = []
  end.

(** One GET for a dynamic issuer. *)
Lemma http_get_public `{!URLs} uri (p : Dialled N) answer p' :
  http_get true uri p = (answer, p') ->
  tried_public (dials p) (dials p') /\ exists made, requests p' = requests p ++ made /\ (length made <= 3)%nat /\ all_to uri made.
Proof.
  unfold http_get, service_client, Do, all_to. destruct (parse_url uri) as [u|].
  2:{ intros [= <- <-]. split; [reflexivity|]. exists []. rewrite app_nil_r. split_and!; [done|cbn; lia|done]. }
  rewrite (redirect_fuel_enough redirect_fuel) by (unfold redirect_fuel; lia).
  pose proof (do_request_tries 3 true u [] p) as Ht.
  pose proof (do_request_made 3 true u u [] p (or_introl (conj eq_refl eq_refl)) (Nat.le_0_l 2) (conj eq_refl eq_refl)) as Hm.
  unfold ends in Hm. destruct (do_request 3 true u [] p) as [x w]. cbn in Ht, Hm. intros [= <- <-].
  split; [done|]. destruct Hm as (made & Hw & Hall & Hl). by exists made.
Qed.
End Requests.

(** ** Loading the keys of an issuer *)

Section Load.
Context `{Env} {N : Type} `{!Internet N} `{!URLs} `{!ExternalJWT} `{!ProofJSON} `{!MetadataJSON} `{!JSONLib}.

(** C34: Whatever DNS answers and wherever servers redirect, every connection tried while
    the keys of an issuer of the policy database are loaded is to a public address - of no
    private, shared, loopback, link-local, multicast, unspecified or broadcast network,
    also when the address is an IPv4 address mapped into IPv6.  A load makes at most six
    requests: at most three for the discovery document, each to the scheme and host of the
    configured address, and, when the document that was got names the issuer and a fit
    location of keys, at most three more, each to the scheme and host of that location. *)
Theorem dynamic_issuers_are_public (resolved : Resolved.ResolvedTrustIssuer) (force : bool)
    (w w' : Process (Peers (Dialled N))) (answer : list JWK + error)
    (Hdynamic : Resolved.Dynamic resolved = true)
    (Hload : loadIssuer resolved force w = (answer, w')) :
  let url := Issuer.IssuerURL (Resolved.IssuerConfig resolved) in
  let before := outside (peers w) in let after := outside (peers w') in
  tried_public (dials before) (dials after) /\
  exists r1 r2, requests after = requests before ++ r1 ++ r2 /\
    (length r1 <= 3)%nat /\ all_to (well_known url) r1 /\ (length r2 <= 3)%nat /\
    (r2 = [] \/ exists text p doc, got true (well_known url) before text p /\ requests p = requests before ++ r1 /\
       unmarshal_discovery text = Some doc /\ doc_issuer doc = url /\ jwks_uri_ok url doc = true /\ all_to (JWKSURI doc) r2).
Proof.
  cbv zeta. pose proof (loadIssuer_reaches resolved force w) as Hr. unfold ends in Hr. rewrite Hload, Hdynamic in Hr. cbn in Hr.
  set (url := Issuer.IssuerURL _) in *. destruct Hr as [->|[[first Hg]|(text & p & doc & second & Hgot & Hu & Hi & Hok & Hg)]].
  - split; [done|]. exists [], []. rewrite !app_nil_r. split_and!; [done|cbn; lia| |cbn; lia|by left].
    unfold all_to. by destruct (parse_url _).
  - apply http_get_public in Hg as (Ht & made & Hm & Hl & Hto). split; [done|]. exists made, [].
    rewrite app_nil_r. split_and!; [done|done|done|cbn; lia|by left].
  - pose proof Hgot as (resp & Hfirst & _). apply http_get_public in Hfirst as (Ht1 & r1 & Hm1 & Hl1 & Hto1).
    apply http_get_public in Hg as (Ht2 & r2 & Hm2 & Hl2 & Hto2). split; [by etrans|]. exists r1, r2.
    split_and!; [by rewrite Hm2, Hm1, <- app_assoc|done|done|done|]. right. by exists text, p, doc.
Qed.
End Load.

(** ** An internet with a rebinding name *)

Module Rebinding.
Import TrustServiceProperties.Sample.

Definition bytes_of (l : list Z) : string := fold_right (fun z s => String (z_byte z) s) "" l.
(** The host answers with the loopback address, a mapped private one and a public one.  Each
    of the two documents is redirected once at its origin; then the first is served, and the
    second is redirected to another host. *)
#[local] Instance internet : Internet nat := {|
  connection := Addr;
  split_host_port _ := Some ("ci", "443");
  lookup_ip _ n := (inl [bytes_of [127; 0; 0; 1]; bytes_of [0; 0; 0; 0; 0; 0; 0; 0; 0; 0; 255; 255; 10; 0; 0; 1];
                         bytes_of [93; 184; 216; 34]], n);
  dial_ip ip _ n := (inl ip, n);
  canonical_addr _ := "ci:443";
  resolve_reference u location :=
    Some (if (location =? "/next")%string then u
          else {| Scheme := "https"; Host := "10.0.0.1"; Hostname := "10.0.0.1"; HasUser := false; RawQuery := "";
                  ForceQuery := false; Fragment := "" |});
  exchange_over _ _ n :=
    (inl (if (n =? 1)%nat
          then {| answer_status := 200; answer_location := None; answer_body := "{}"; answer_cut := false |}
          else {| answer_status := 302; answer_location := Some (if (n =? 3)%nat then "https://10.0.0.1/" else "/next");
                  answer_body := ""; answer_cut := false |}), S n);
  default_exchange _ n := (inr (Errorf "none"), n)
|}.

Definition dynamic_issuer : Resolved.ResolvedTrustIssuer :=
  {| Resolved.ID := "ci"; Resolved.IssuerConfig := issuer_config; Resolved.Dynamic := true;
     Resolved.clientID := "app"; Resolved.issuer_owner := 1 |}.
Definition begun : Process (Peers (Dialled nat)) :=
  {| store := World_at 0 empty_tables;
     peers := {| replayCache := {| maxEntries := 4; entries := ∅; expiries := [] |}; issuer_cache := ∅;
                 outside := {| dials := []; requests := []; net := O |} |} |}.
Definition result : (list JWK + error) * Process (Peers (Dialled nat)) := loadIssuer dynamic_issuer false begun.

Example rebinding_refused :
  result.1 = inr (Wrapped "JWKS unavailable" (Errorf "cross-origin redirect rejected")) /\
  map Host (requests (outside (peers result.2))) = ["ci"; "ci"; "ci"; "ci"] /\
  map fst (dials (outside (peers result.2))) = repeat (octets 93 184 216 34) 4.
Proof. vm_compute. by split_and!. Qed.
End Rebinding.

#[local] Existing Instance Rebinding.internet.
Import TrustServiceProperties.Sample Rebinding.

Lemma dynamic_issuers_are_public_witness :
  tried_public [] (dials (outside (peers result.2))) /\ length (requests (outside (peers result.2))) = 4%nat /\
  exists r1 r2, requests (outside (peers result.2)) = r1 ++ r2 /\
    all_to "https://ci/.well-known/openid-configuration" r1 /\ (length r1 <= 3)%nat /\ (length r2 <= 3)%nat.
Proof.
  destruct (dynamic_issuers_are_public dynamic_issuer false begun result.2 result.1) as (Ht & r1 & r2 & Hr & Hl1 & Hto & Hl2 & _).
  - reflexivity.
  - apply surjective_pairing.
  - split; [exact Ht|]. split; [vm_compute; reflexivity|]. exists r1, r2. split; [exact Hr|]. split_and!; [exact Hto|exact Hl1|exact Hl2].
Defined.
