(* ===== verification/Http.v ===== *)
(** * internal/oidc: requests and responses

    net/http and net/url as the handlers use them (request fields, forms, queries), the
    responses a handler writes, the pages, the reasons of browser failures
    (render_error.go) and the helpers that write OAuth JSON.

    A response is a value: status, headers, where it redirects and its body.  A redirect
    is the URL redirected to and the query parameters set on it.  Logging writes nothing
    of the response and is left out. *)

From S2P Require Import Prelude Runtime Json TrustConfig.

(** ** Queries and forms *)

Definition unhex (c : ascii) : option Z :=
  let z := byte_z c in
  if (48 <=? z) && (z <=? 57) then Some (z - 48)
  else if (97 <=? z) && (z <=? 102) then Some (z - 87)
  else if (65 <=? z) && (z <=? 70) then Some (z - 55)
  else None.

(** [url.QueryUnescape] *)
Fixpoint QueryUnescape (s : string) : option string :=
  match s with
  | EmptyString => Some ""
  | String c t =>
      if Ascii.eqb c "%" then
        match t with
        | String a (String b u) =>
            x ← unhex a; y ← unhex b; String (z_byte (16 * x + y)) <$> QueryUnescape u
        | _ => None
        end
      else String (if Ascii.eqb c "+" then " "%char else c) <$> QueryUnescape t
  end.

(** [strings.Cut] at a byte. *)
Fixpoint cut (sep : ascii) (s : string) : string * string :=
  match s with
  | EmptyString => ("", "")
  | String c t => if Ascii.eqb c sep then ("", t)
                  else let '(a, b) := cut sep t in (String c a, b)
  end.

(** [url.Values] *)
Abbreviation Values := (gmap string (list string)) (only parsing).

(** [url.QueryEscape] and [url.PathEscape]. *)
Definition hex_digit (z : Z) : ascii := z_byte (if z <? 10 then 48 + z else 55 + z).
Definition percent (c : ascii) : string :=
  String "%" (String (hex_digit (Z.shiftr (byte_z c) 4)) (String (hex_digit (Z.land (byte_z c) 15)) "")).
Definition url_unreserved (c : ascii) : bool :=
  let z := byte_z c in
  (97 <=? z) && (z <=? 122) || (65 <=? z) && (z <=? 90) || (48 <=? z) && (z <=? 57)
  || existsb (Ascii.eqb c) ["-"; "_"; "."; "~"]%char.
Fixpoint QueryEscape (s : string) : string :=
  match s with
  | EmptyString => ""
  | String c t =>
      (if url_unreserved c then String c "" else if Ascii.eqb c " " then "+" else percent c) +:+ QueryEscape t
  end.
Fixpoint PathEscape (s : string) : string :=
  match s with
  | EmptyString => ""
  | String c t =>
      (if url_unreserved c || existsb (Ascii.eqb c) ["$"; "&"; "+"; ":"; "="; "@"]%char
       then String c "" else percent c) +:+ PathEscape t
  end.

Example escape_examples :
  QueryEscape "a b/c+d" = "a+b%2Fc%2Bd" /\ PathEscape "a b/c+d;" = "a%20b%2Fc+d%3B" /\
  QueryUnescape (QueryEscape "100% {x}") = Some "100% {x}".
Proof. by vm_compute. Qed.

(** A query carries any text. *)
Lemma QueryUnescape_byte (c : ascii) t :
  QueryUnescape ((if url_unreserved c then String c "" else if Ascii.eqb c " " then "+" else percent c) +:+ t)
  = String c <$> QueryUnescape t.
Proof. by destruct c as [[] [] [] [] [] [] [] []]. Qed.
Lemma QueryUnescape_QueryEscape s : QueryUnescape (QueryEscape s) = Some s.
Proof. induction s as [|c s IH]; [done|]. cbn [QueryEscape]. by rewrite QueryUnescape_byte, IH. Qed.

Definition values_of (vs : Values) (name : string) : list string := default [] (vs !! name).
(** [Values.Get] *)
Definition Get (vs : Values) (name : string) : string := default "" (head (values_of vs name)).
(** Whether the key is present. *)
Definition present (vs : Values) (name : string) : bool := negb (is_nil (vs !! name)).
Definition append_value (vs : Values) (name value : string) : Values :=
  <[name := values_of vs name ++ [value]]> vs.

(** [url.ParseQuery]: the pairs that parse, and whether all do. *)
Definition parse_pair (acc : Values * bool) (pair : string) : Values * bool :=
  let '(vs, ok) := acc in
  if contains pair ";" then (vs, false)
  else if is_empty pair then (vs, ok)
  else let '(key, value) := cut "=" pair in
       match QueryUnescape key, QueryUnescape value with
       | Some key, Some value => (append_value vs key value, ok)
       | _, _ => (vs, false)
       end.
Definition ParseQuery (query : string) : Values * bool :=
  if is_empty query then (∅, true) else fold_left parse_pair (split_on "&" query) (∅, true).

Example parse_query_examples :
  ParseQuery "a=1&b=x%2Fy+z&a=2&c" = ({["a" := ["1"; "2"]; "b" := ["x/y z"]; "c" := [""]]}, true) /\
  ParseQuery "a=%zz&b=1" = ({["b" := ["1"]]}, false) /\ ParseQuery "a;b=1" = (∅, false).
Proof. vm_compute. by split_and!. Qed.

(** ** Requests *)

(** [mime.ParseMediaType]: the media type and whether the text is well formed;
    [net.SplitHostPort] and [net.ParseIP]. *)
Class NetText := {
  parse_media_type : string -> string * bool;
  split_host : string -> option string;
  is_ip : string -> bool
}.

Module Http.

(** [http.Request], as far as the handlers read it.  [Path] is that of the URL; [header] is [Header.Values] of a
    canonical name, [connector] the path value of that name; the body is its text and
    whether reading it fails. *)
Record Request := {
  Method : string;
  Host : string;
  Path : string;
  RawQuery : string;
  RemoteAddr : string;
  header : string -> list string;
  connector : string;
  Body : string;
  body_failed : bool
}.

(** [Header.Get] and [URL.Query()]. *)
Definition Header (r : Request) (name : string) : string := default "" (head (header r name)).
Definition Query (r : Request) : Values := (ParseQuery (RawQuery r)).1.

End Http.

Inductive form_error := TooLarge | BadForm.

Definition form_type : string := "application/x-www-form-urlencoded".

(** [http.MaxBytesReader] with [limit] and [r.ParseForm()]: [r.PostForm]. *)
Definition ParseForm `{NetText} (limit : Z) (r : Http.Request) : Values + form_error :=
  let query_ok := (ParseQuery (Http.RawQuery r)).2 in
  if negb (mem (Http.Method r) ["POST"; "PUT"; "PATCH"])
  then if query_ok then inl ∅ else inr BadForm
  else
    let ct := Http.Header r "Content-Type" in
    let '(media, ok) := parse_media_type (if is_empty ct then "application/octet-stream" else ct) in
    if negb (media =? form_type)%string
    then if ok && query_ok then inl ∅ else inr BadForm
    else if limit <? len (Http.Body r) then inr TooLarge
    else if Http.body_failed r then inr BadForm
    else let '(vs, parsed) := ParseQuery (Http.Body r) in
         if ok && parsed && query_ok then inl vs else inr BadForm.

(** ** Reasons of browser failures *)

Inductive browserFailureReason :=
  | failureAuthorizationCodeCreate | failureAuthorizationConsentDenied
  | failureAuthorizationConsentRequired | failureAuthorizationCredentialLoad
  | failureAuthorizationCredentialSave | failureAuthorizationDPoP
  | failureAuthorizationDPoPHeaderUnexpected | failureAuthorizationDPoPJKT
  | failureAuthorizationFlow | failureAuthorizationLoginRequired
  | failureAuthorizationParameterDuplicate | failureAuthorizationPARRequest
  | failureAuthorizationPKCE | failureAuthorizationPolicyChanged | failureAuthorizationPrompt
  | failureAuthorizationProfileChanged | failureAuthorizationRedirect
  | failureAuthorizationResponseTypeUnsupported | failureAuthorizationScope
  | failureCallbackConnectorMismatch | failureCallbackConnectorUnavailable
  | failureCallbackCredentialEncode | failureCallbackCredentialLookup
  | failureCallbackCredentialSave | failureCallbackEmail
  | failureCallbackEmailVerificationUnavailable | failureCallbackExchange
  | failureCallbackIdentity | failureCallbackIdentityLookup | failureCallbackStateConsumption
  | failureCallbackState | failureCallbackUpstreamDenied | failureClientPolicyDenied
  | failureClientPolicyUnavailable | failureConnectorStateEncode | failureConnectorUnavailable
  | failureConnectorUnknown | failureConsentMethod | failureConsentRender
  | failureConsentStateEncode | failureConsentState | failureDuplicateFormField
  | failureEmailAddress | failureEmailConnector | failureEmailConnectorSelection
  | failureEmailResendMethod | failureEmailSecurityCheck | failureEmailStartMethod
  | failureEmailState | failureEmailVerificationUnavailable | failureEmailVerifyMethod
  | failureGrantActionToken | failureGrantActionsCreate | failureGrantListUnavailable
  | failureGrantRevoke | failureGrantRevokeMethod | failureGrantRevokeRender
  | failureGrantsMethod | failureGrantsRender | failureIdentitySelectionConnectorMismatch
  | failureIdentitySelectionCreate | failureIdentitySelection | failureIdentitySelectionRender
  | failureIdentitySelectionState | failureInvalidAuthorizationRequest | failureInvalidFormBody
  | failureInvalidFormContentType | failureInvalidPushedAuthorizationRequest
  | failureInvalidRedirectURI | failureOTPChallengeCreate | failureOTPChallenge
  | failureOTPCodeCreate | failureOTPCodeFormat | failureOTPCodeRejected | failureOTPConsume
  | failureOTPCreate | failureOTPCredentialSave | failureOTPLookup | failureOTPRender
  | failureOTPResendDelivery | failureOTPResend | failureOTPResendRejected | failureOTPSend
  | failureOTPSendLimit | failurePushedAuthorization | failurePushedAuthorizationContinuation
  | failurePushedAuthorizationPolicyUnavailable | failurePushedAuthorizationRedirect
  | failurePushedAuthorizationRequired | failurePushedAuthorizationStateEncode
  | failurePushedAuthorizationStoreUnavailable | failurePushedConsentRender
  | failureSelectorRender | failureSelectorStateAlreadyBound | failureSelectorStateEncode
  | failureSelectorState | failureUnknownClient | failureUnknownPushedAuthorizationClient
  | failureUserPolicyDenied | failureUserPolicyUnavailable.

(** ** Pages *)

(** [templates.PageData] with its [templates.RequestData]: what the templates of every
    page are given. *)
Record RequestData := { rd_Method : string; rd_Host : string; rd_Path : string }.
Definition request_data (r : Http.Request) : RequestData :=
  {| rd_Method := Http.Method r; rd_Host := Http.Host r; rd_Path := Http.Path r |}.
Record PageData := { pd_Request : RequestData; pd_IssuerURL : string; pd_HomepageURL : string }.

(** [templates.ConnectorData] and [templates.EmailData] *)
Record ConnectorData := { conn_ID : string; conn_DisplayName : string; conn_URL : string; conn_Email : bool }.
Record EmailData := { mail_Address : string; mail_Verified : bool; mail_Primary : bool }.
(** [templates.GrantData] *)
Record GrantData := {
  gd_SID : string;
  gd_ClientID : string;
  gd_Mode : string;
  gd_ActionToken : string;
  gd_Email : string;
  gd_CreatedAt : time;
  gd_LastUsedAt : time;
  gd_ExpiresAt : time
}.

(** The data of a page besides its [PageData]: [templates.ConsentData], [SelectorData],
    [OTPData], [IdentityData] and [GrantsData]. *)
Inductive Page :=
  | ConsentPage (Title State ClientID : string)
  | SelectorPage (Title Screen State SiteKey : string) (Connectors : list ConnectorData)
  | OTPPage (Title ChallengeID Message Error Email : string) (ExpiresIn RetryAfter : duration) (ExpiresAt : time)
      (RetryAfterSeconds : Z)
  | IdentityPage (Title Token : string) (Emails : list EmailData)
  | GrantsPage (Title Email Message : string) (Grants : list GrantData).

(** The templates as they render for one request, whose [PageData] is theirs: the text of
    a page and of the error page with a title and a message, when they execute. *)
Class Templates := {
  executes : Page -> option string;
  executes_error : string -> string -> option string
}.

(** ** Responses *)

(** Plain text and data that was encoded before are [RawBody], a public file [AssetBody];
    what a template rendered is a [PageBody], the [ErrorPage] of a failure, or the
    [MissingPage] of a path that names nothing. *)
Inductive Body :=
  | NoBody
  | JSONBody (members : list (string * json))
  | RawBody (text : string)
  | AssetBody (content : string)
  | PageBody (page : Page) (text : string)
  | ErrorPage (reason : browserFailureReason) (title message text : string)
  | MissingPage (title message text : string).

Module Answer.

(** What a handler writes: a redirect names its target and the parameters set on the
    query of the target. *)
Record Response := {
  Status : Z;
  Headers : list (string * string);
  Location : option (string * list (string * string));
  Content : Body
}.

#[global] Instance eta_Response : Eta Response := fun x =>
  {| Status := Status x; Headers := Headers x; Location := Location x; Content := Content x |}.

End Answer.

Definition reply (status : Z) (headers : list (string * string)) (content : Body) : Answer.Response :=
  {| Answer.Status := status; Answer.Headers := headers; Answer.Location := None; Answer.Content := content |}.
Definition with_headers (headers : list (string * string)) (r : Answer.Response) : Answer.Response :=
  r <| Answer.Headers := headers ++ Answer.Headers r |>.

(** A handler that returns without writing, and one that panics on a nil pointer. *)
Definition silent : Answer.Response := reply 200 [] NoBody.
Definition panicked : Answer.Response := reply 0 [] NoBody.

Definition json_type : string * string := ("Content-Type", "application/json").
Definition oauthJSON (status : Z) (value : list (string * json)) : Answer.Response :=
  reply status [json_type] (JSONBody value).
Definition oauthError (status : Z) (code description : string) : Answer.Response :=
  oauthJSON status [("error", JString code); ("error_description", JString description)].
Definition writeOAuthJSON (status : Z) (code : string) : Answer.Response :=
  reply status [json_type] (JSONBody [("error", JString code)]).
(** [setOAuthNoStore] before the response is written. *)
Definition oauth_no_store : list (string * string) := [("Cache-Control", "no-store"); ("Pragma", "no-cache")].

Definition redirect_to (status : Z) (target : string) (query : list (string * string)) : Answer.Response :=
  {| Answer.Status := status; Answer.Headers := []; Answer.Location := Some (target, query);
     Answer.Content := NoBody |}.

(** [http.Error] *)
Definition http_error (status : Z) (headers : list (string * string)) (text : string) : Answer.Response :=
  reply status (headers ++ [("Content-Type", "text/plain; charset=utf-8"); ("X-Content-Type-Options", "nosniff")])
    (RawBody (text +:+ String "010" "")).

Definition page_headers : list (string * string) :=
  [("Content-Type", "text/html; charset=utf-8"); ("Cache-Control", "no-store")].

(** The error template, or the message as plain text when it does not execute. *)
Definition renderErrorPage `{Templates} (status : Z) (reason : browserFailureReason) (title message : string)
  : Answer.Response :=
  match executes_error title message with
  | Some text => reply status page_headers (ErrorPage reason title message text)
  | None => http_error status [] message
  end.

Definition renderBrowserError `{Templates} (status : Z) (reason : browserFailureReason) : Answer.Response :=
  let invalid := "This request is invalid or has expired. Return to the application and try again." in
  let '(title, message) :=
    if status =? 403 then ("Sign-in not allowed",
      "This account is not allowed to sign in. Return to the application or contact an administrator.")
    else if status =? 404 then ("Sign-in unavailable",
      "This sign-in option is unavailable. Return to the application and try again.")
    else if status =? 405 then ("Unable to continue",
      "This page cannot be used that way. Return to the application and try again.")
    else if status =? 429 then ("Please wait",
      "Too many attempts were made. Wait a moment, then return to the application and try again.")
    else if 500 <=? status then ("Sign-in temporarily unavailable",
      "We couldn't complete sign-in. Return to the application and try again shortly.")
    else ("Unable to continue", invalid) in
  renderErrorPage status reason title message.

Definition renderBrowserPage `{Templates} (status : Z) (page : Page) (failureReason : browserFailureReason)
  : Answer.Response :=
  match executes page with
  | Some text => reply status page_headers (PageBody page text)
  | None => renderBrowserError 500 failureReason
  end.

(** The form of a browser page: its fields, each at most once. *)
Definition maxBrowserFormBytes : Z := Z.shiftl 32 10.
Definition parseBrowserForm `{NetText} `{Templates} (r : Http.Request) (fields : list string) : Values + Answer.Response :=
  let '(media, ok) := parse_media_type (Http.Header r "Content-Type") in
  if negb ok || negb (media =? form_type)%string
  then inr (renderBrowserError 400 failureInvalidFormContentType)
  else match ParseForm maxBrowserFormBytes r with
  | inr _ => inr (renderBrowserError 400 failureInvalidFormBody)
  | inl form =>
      if existsb (fun field => (1 <? length (values_of form field))%nat) fields
      then inr (renderBrowserError 400 failureDuplicateFormField)
      else inl form
  end.

(** [redirectAuthorizationError]: [url.Parse] of the redirect may fail. *)
Definition redirectAuthorizationError `{URLs} `{Templates} (redirect state code : string) (reason : browserFailureReason)
  : Answer.Response :=
  match parse_url redirect with
  | None => renderBrowserError 400 failureAuthorizationRedirect
  | Some _ =>
      let description :=
        if (code =? "access_denied")%string then "Sign-in was not completed."
        else if (code =? "consent_required")%string then "Sign-in requires your consent."
        else if (code =? "invalid_request")%string then "The sign-in request is invalid or has expired."
        else if (code =? "invalid_scope")%string then "The application requested unsupported access."
        else if (code =? "login_required")%string then "Sign-in requires interaction."
        else if mem code ["server_error"; "temporarily_unavailable"]
             then "Sign-in is temporarily unavailable. Try again shortly."
        else if (code =? "unsupported_response_type")%string
             then "The application requested an unsupported sign-in response."
        else "Sign-in could not be completed. Return to the application and try again." in
      redirect_to 302 redirect
        ([("error", code); ("error_description", description)]
         ++ if is_empty state then [] else [("state", state)])
  end.
