(* ===== verification/Oidc.v ===== *)
(** * internal/oidc: what the handlers share

    authcode.go, state.go, pkce.go, dpop_binding.go and the server's own helpers: the
    codes and states of the authorization flow and their storage, PKCE, the binding of
    a flow to a DPoP key and the reservation of a proof. *)

From S2P Require Import Prelude Runtime Base64 Sha256 ReplayCache Schema FlowStore RefreshToken Json Config Services TrustConfig Dpop Trust Http.

Module Auth.

(** [oidc.OAuthState] *)
Record OAuthState := {
  FlowID : string;
  ConnectorID : string;
  ClientID : string;
  RedirectURI : string;
  CodeChallenge : string;
  Nonce : string;
  OIDCState : string;
  Scopes : string;
  RefreshMode : string;
  AuthTime : time;
  OfflineConsent : bool;
  Purpose : string;
  DPoPJKT : string;
  PushedAuthorization : bool
}.

#[global] Instance eta_OAuthState : Eta OAuthState := fun x =>
  {| FlowID := FlowID x; ConnectorID := ConnectorID x; ClientID := ClientID x;
     RedirectURI := RedirectURI x; CodeChallenge := CodeChallenge x; Nonce := Nonce x;
     OIDCState := OIDCState x; Scopes := Scopes x; RefreshMode := RefreshMode x;
     AuthTime := AuthTime x; OfflineConsent := OfflineConsent x; Purpose := Purpose x;
     DPoPJKT := DPoPJKT x; PushedAuthorization := PushedAuthorization x |}.

End Auth.

Module Payload.

(** [oidc.AuthCodePayload] *)
Record AuthCodePayload := {
  ClientID : string;
  RedirectURI : string;
  CodeChallenge : string;
  Email : string;
  EmailVerified : bool;
  Nonce : string;
  Scopes : string;
  RefreshMode : string;
  AuthTime : time;
  ConnectorID : string;
  UpstreamSubject : string;
  OfflineConsent : bool;
  DPoPJKT : string;
  PushedAuthorization : bool
}.

End Payload.

Definition authorizationStateTTL : duration := 10 * minute.

Definition oauthStateFromStored (s : State.OAuthState) : Auth.OAuthState :=
  {| Auth.FlowID := State.StateToken s; Auth.ConnectorID := State.ConnectorID s;
     Auth.ClientID := State.ClientID s; Auth.RedirectURI := State.RedirectURI s;
     Auth.CodeChallenge := State.CodeChallenge s; Auth.Nonce := State.Nonce s;
     Auth.OIDCState := State.OIDCState s; Auth.Scopes := State.Scopes s;
     Auth.RefreshMode := State.RefreshMode s; Auth.AuthTime := State.AuthTime s;
     Auth.OfflineConsent := State.OfflineConsent s; Auth.Purpose := State.Purpose s;
     Auth.DPoPJKT := State.DPoPJKT s; Auth.PushedAuthorization := State.PushedAuthorization s |}.

Definition stored_state (token : string) (now : time) (s : Auth.OAuthState) : State.OAuthState :=
  {| State.StateToken := token; State.ClientID := Auth.ClientID s; State.RedirectURI := Auth.RedirectURI s;
     State.CodeChallenge := Auth.CodeChallenge s; State.Nonce := Auth.Nonce s;
     State.OIDCState := Auth.OIDCState s; State.CreatedAt := now;
     State.ExpiresAt := add now authorizationStateTTL; State.ConnectorID := Auth.ConnectorID s;
     State.Scopes := Auth.Scopes s; State.RefreshMode := Auth.RefreshMode s;
     State.AuthTime := Auth.AuthTime s; State.OfflineConsent := Auth.OfflineConsent s;
     State.Purpose := Auth.Purpose s; State.DPoPJKT := Auth.DPoPJKT s;
     State.PushedAuthorization := Auth.PushedAuthorization s |}.

Definition stored_code (code : string) (now : time) (p : Payload.AuthCodePayload) : Code.AuthCode :=
  {| Code.Code := code; Code.ClientID := Payload.ClientID p; Code.RedirectURI := Payload.RedirectURI p;
     Code.CodeChallenge := Payload.CodeChallenge p; Code.Email := Payload.Email p;
     Code.EmailVerified := Payload.EmailVerified p; Code.Nonce := Payload.Nonce p;
     Code.CreatedAt := now; Code.ExpiresAt := add now (5 * minute); Code.Scopes := Payload.Scopes p;
     Code.RefreshMode := Payload.RefreshMode p; Code.AuthTime := Payload.AuthTime p;
     Code.ConnectorID := Payload.ConnectorID p; Code.UpstreamSubject := Payload.UpstreamSubject p;
     Code.OfflineConsent := Payload.OfflineConsent p; Code.DPoPJKT := Payload.DPoPJKT p;
     Code.PushedAuthorization := Payload.PushedAuthorization p |}.

Definition payload_of (c : Code.AuthCode) : Payload.AuthCodePayload :=
  {| Payload.ClientID := Code.ClientID c; Payload.RedirectURI := Code.RedirectURI c;
     Payload.CodeChallenge := Code.CodeChallenge c; Payload.Email := Code.Email c;
     Payload.EmailVerified := Code.EmailVerified c; Payload.Nonce := Code.Nonce c;
     Payload.Scopes := Code.Scopes c; Payload.RefreshMode := Code.RefreshMode c;
     Payload.AuthTime := Code.AuthTime c; Payload.ConnectorID := Code.ConnectorID c;
     Payload.UpstreamSubject := Code.UpstreamSubject c; Payload.OfflineConsent := Code.OfflineConsent c;
     Payload.DPoPJKT := Code.DPoPJKT c; Payload.PushedAuthorization := Code.PushedAuthorization c |}.

(** ** The manager of codes and states *)

Section Manager.
Context `{Env}.

Definition GenerateCode (payload : Payload.AuthCodePayload) : World -> (string * option error) * World := run (
  '(code, err) ← call GenerateAuthCode;
  match err with
  | Some e => return_ ("", Some (Wrapped "failed to generate auth code" e))
  | None =>
      now ← now_;
      err ← call (SaveAuthCode (stored_code code now payload));
      match err with
      | Some e => return_ ("", Some (Wrapped "failed to save auth code" e))
      | None => mret (code, None)
      end
  end).

Definition Peek (code : string) : World -> (option Code.AuthCode * option error) * World := run (
  now ← now_; call (PeekAuthCode code now)).

Definition ValidateAndExtract (code : string)
  : World -> (option Payload.AuthCodePayload * option error) * World := run (
  '(authCode, err) ← call (GetAndDeleteAuthCode code);
  match authCode, err with
  | Some authCode, None => mret (Some (payload_of authCode), None)
  | _, _ => mret (None, Some (Wrapped "invalid or expired authorization code" (default ErrNoRows err)))
  end).

Definition EncodeState (state : Auth.OAuthState) : World -> (string * option error) * World := run (
  '(stateToken, err) ← call GenerateStateToken;
  match err with
  | Some e => return_ ("", Some (Wrapped "failed to generate state token" e))
  | None =>
      now ← now_;
      err ← call (SaveState (stored_state stateToken now state));
      match err with
      | Some e => return_ ("", Some (Wrapped "failed to save state" e))
      | None => mret (stateToken, None)
      end
  end).

Definition DecodeState (stateToken : string) : World -> (option Auth.OAuthState * option error) * World := run (
  '(stored, err) ← call (GetAndDeleteState stateToken);
  match stored, err with
  | Some stored, None => mret (Some (oauthStateFromStored stored), None)
  | _, _ => mret (None, Some (Wrapped "invalid or expired state token" (default ErrNoRows err)))
  end).

Definition PeekAuthState (stateToken : string) : World -> (option Auth.OAuthState * option error) * World := run (
  '(stored, err) ← call (PeekState stateToken);
  match stored, err with
  | Some stored, None => mret (Some (oauthStateFromStored stored), None)
  | _, _ => mret (None, Some (Wrapped "invalid or expired state token" (default ErrNoRows err)))
  end).
End Manager.

(** ** PKCE *)

Definition is_verifier_byte (c : ascii) : bool :=
  in_range 97 122 c || in_range 65 90 c || in_range 48 57 c
  || Ascii.eqb c "-" || Ascii.eqb c "." || Ascii.eqb c "_" || Ascii.eqb c "~".

Definition pkceChallenge (codeVerifier : string) : string * option error :=
  if (len codeVerifier <? 43) || (128 <? len codeVerifier)
  then ("", Some (Errorf "code_verifier must contain 43 to 128 characters"))
  else if negb (string_forallb is_verifier_byte codeVerifier)
  then ("", Some (Errorf "code_verifier contains an invalid character"))
  else (Base64.encode (sha256 codeVerifier), None).

Definition ValidatePKCE (codeVerifier codeChallenge : string) : option error :=
  match pkceChallenge codeVerifier with
  | (_, Some err) => Some err
  | (computed, None) =>
      if is_empty codeChallenge then Some (Errorf "code_challenge is required")
      else if negb (computed =? codeChallenge)%string
      then Some (Errorf "code_verifier does not match code_challenge") else None
  end.

(** ** The binding of a flow to a DPoP key *)

Definition validateDPoPBinding (client : Client.ClientConfig) (jkt : string) : bool :=
  let required := (DPoPc.Mode (Client.DPoP client) =? "required")%string in
  if is_empty jkt then negb required else required.

Definition stateSatisfiesClientPolicy (state : Auth.OAuthState) (client : Client.ClientConfig) : bool :=
  let refresh := Client.RefreshTokens client in
  if Client.RequirePAR client && negb (Auth.PushedAuthorization state)
     || negb (validateDPoPBinding client (Auth.DPoPJKT state))
  then false
  else if is_empty (Auth.RefreshMode state) then true
  else if (Auth.RefreshMode state =? "session")%string then Refreshc.Enabled refresh
  else if (Auth.RefreshMode state =? "offline")%string
       then Refreshc.Enabled refresh && Refreshc.AllowOfflineAccess refresh
  else false.

(** [selectDPoP]: the selected thumbprint, or the error code. *)
Definition canonical_thumbprint (thumbprint : string) : bool :=
  match Base64.decode false thumbprint with
  | Some decoded => (len decoded =? 32) && (Base64.encode decoded =? thumbprint)%string
  | None => false
  end.
Definition selectDPoP (mode thumbprint : string) (proofPresent : bool) : string + string :=
  let selected := negb (is_empty thumbprint) || proofPresent in
  if (mode =? "disabled")%string && selected || (mode =? "required")%string && negb selected
     || negb (is_empty thumbprint) && negb (canonical_thumbprint thumbprint)
  then inr "invalid_request"
  else inl thumbprint.

(** ** Requests of the flow *)

Definition isValidRedirectURI (uri : string) (client : Client.ClientConfig) : bool :=
  mem uri (Client.RedirectURIs client).

(** [strings.TrimRight(issuer, "/")] and [strings.TrimLeft(endpoint, "/")] *)
Fixpoint trim_left_slash (s : string) : string :=
  match s with
  | String c t => if Ascii.eqb c "/" then trim_left_slash t else s
  | EmptyString => ""
  end.
Fixpoint trim_right_slash (s : string) : string :=
  match s with
  | String c t => let t := trim_right_slash t in
                  if Ascii.eqb c "/" && is_empty t then "" else String c t
  | EmptyString => ""
  end.
Definition PublicEndpointURL (issuer endpoint : string) : string :=
  trim_right_slash issuer +:+ "/" +:+ trim_left_slash endpoint.

(** The purpose of the flow and whether no interaction is allowed. *)
Definition authorizationPrompt (prompt : string) : option (string * bool) :=
  if mem prompt [""; "login"] then Some ("authorize", false)
  else if (prompt =? "create")%string then Some ("authorize_create", false)
  else if (prompt =? "none")%string then Some ("authorize", true)
  else None.

Definition authorization_scopes : list string := ["openid"; "email"; "profile"; "groups"].

(** The loop over the requested scopes and the checks after it: whether offline access
    is requested, [None] being invalid_scope. *)
Definition check_scopes (client : Client.ClientConfig) (requested : list string) : option bool :=
  let refresh := Client.RefreshTokens client in
  let offline := mem "offline_access" requested in
  if existsb (fun scope => negb (mem scope authorization_scopes) && negb (scope =? "offline_access")%string) requested
  then None
  else if negb (mem "openid" requested)
          || offline && (negb (Refreshc.Enabled refresh) || negb (Refreshc.AllowOfflineAccess refresh))
  then None
  else Some offline.

(** [strings.Contains(" "+scopes+" ", " offline_access ")] *)
Definition asks_offline (scopes : string) : bool := contains (" " +:+ scopes +:+ " ") " offline_access ".

Section Proofs.
Context {P : Type}.

Definition reserveDPoP {R} (proof : Dpop.Proof_) (now : time) : go (Process (Peers P)) R (option error) :=
  call (on_peers (set_replay (Reserve (ReplayHash (Dpop.Thumbprint proof) (Dpop.JTI proof)
                                        (Dpop.Method proof) (Dpop.Target proof)) now))).
End Proofs.
