(* ===== verification/OidcToken.v ===== *)
(** * internal/oidc: the token endpoint

    handle_token.go and handle_token_exchange.go: the exchange of an authorization code,
    of a refresh token and of an external identity token, with the checks of the form,
    the policy, the DPoP proof and the credential behind a refresh grant. *)

From stdpp Require Import pretty.
From S2P Require Import Prelude Runtime Durations Base64 ReplayCache Schema RefreshToken RefreshStore FlowStore Json Config Upstream Credentials Tokens Services RefreshService TrustPolicy TrustConfig Dpop Trust Http Oidc.

Definition maxTokenFormBytes : Z := MaxJWTBytes + Z.shiftl 4 10.

Definition number (n : Z) : json := JNumber (pretty n).

Section Token.
Context `{Env} {P : Type} `{!PolicyResolver P} `{!TrustResolver P} `{!Connectors P} `{!Contexts P} `{!HTTPClient P}.
Context `{!AEAD} `{!JWT} `{!CredentialJSON} `{!ExternalJWT} `{!URLs} `{!ProofJSON} `{!JOSE} `{!MetadataJSON} `{!JSONLib}.
Context `{!NetText}.
Context (cfg : Config.Config) (signer : Signer) (encryptionKey : string).

Abbreviation proc := (Process (Peers P)).
Abbreviation handler A := (go proc Answer.Response A).

Definition refuse_with {A} (status : Z) (code description : string) : handler A :=
  return_ (oauthError status code description).
Definition invalid_code {A} : handler A := refuse_with 400 "invalid_grant" "authorization code is invalid".
Definition invalid_refresh {A} : handler A := refuse_with 400 "invalid_grant" "refresh token is invalid".
Definition storage_down {A} : handler A :=
  refuse_with 503 "temporarily_unavailable" "storage unavailable".
Definition auth_down {A} : handler A :=
  refuse_with 503 "temporarily_unavailable" "auth temporarily unavailable".
Definition invalid_proof {A} : handler A := refuse_with 400 "invalid_dpop_proof" "DPoP proof is invalid".
Definition server_error {A} (description : string) : handler A := refuse_with 500 "server_error" description.

(** [int64(time.Until(t).Seconds())] *)
Definition expires_in (t : time) : handler Z :=
  now ← Now; mret (trunc64 (Seconds (sub t now))).

(** ** The proof of possession of a flow bound to [jkt] *)

(** The proof is verified under the client's algorithm for this endpoint, must have the
    thumbprint of the flow and is reserved. *)
Definition bound_proof (client : Client.ClientConfig) (jkt compact endpoint : string)
    (mismatch : handler unit) : handler unit :=
  now ← Now;
  match ParseAndVerify compact (DPoPc.SigningAlgorithm (Client.DPoP client)) "POST"
          (PublicEndpointURL (Config.IssuerURL cfg) endpoint) now with
  | inr _ => invalid_proof
  | inl proof =>
      match VerifyThumbprint proof jkt with
      | Some _ => mismatch
      | None =>
          now ← Now;
          err ← reserveDPoP proof now;
          match err with
          | None => mret tt
          | Some e => if errors_is e ErrReplay || errors_is e ErrReplayCacheFull
                      then invalid_proof else return_ silent
          end
      end
  end.

(** ** The exchange of an authorization code *)

(** The stored code the form presents, with its client, redirect URI and verifier. *)
Definition presented_code (form : Values) : handler Code.AuthCode :=
  return_if (existsb (fun field => is_empty (Get form field)) ["code"; "client_id"; "redirect_uri"; "code_verifier"])
    (oauthError 400 "invalid_request" "required parameter missing") ;;
  '(stored, err) ← call (on_store (Peek (Get form "code")));
  match stored, err with
  | _, Some e => if errors_is e ErrInvalidGrant then invalid_code else storage_down
  | None, None => return_ panicked
  | Some stored, None =>
      if negb (Code.ClientID stored =? Get form "client_id")%string
         || negb (Code.RedirectURI stored =? Get form "redirect_uri")%string
         || is_some (ValidatePKCE (Get form "code_verifier") (Code.CodeChallenge stored))
      then invalid_code
      else mret stored
  end.

Definition code_binding (form : Values) : AuthCodeBinding :=
  {| bind_ClientID := Get form "client_id"; bind_RedirectURI := Get form "redirect_uri";
     bind_CodeChallenge := (pkceChallenge (Get form "code_verifier")).1 |}.

(** The client of the code under the policy in force. *)
Definition code_client (stored : Code.AuthCode) : handler Resolved.ResolvedClient :=
  '(resolved, err) ← call (on_peers (ResolveClient (Code.ClientID stored) true));
  if is_err err ErrDenied then invalid_code
  else if is_some (err : option error) then auth_down
  else
    let client := Resolved.Config resolved in
    if Client.RequirePAR client && negb (Code.PushedAuthorization stored)
       || negb (validateDPoPBinding client (Code.DPoPJKT stored))
    then invalid_code
    else mret resolved.

Definition code_proof (client : Client.ClientConfig) (stored : Code.AuthCode) (proofs : list string) : handler unit :=
  let jkt := Code.DPoPJKT stored in
  if is_empty jkt
  then return_if (negb (length proofs =? 0)%nat) (oauthError 400 "invalid_request" "unexpected DPoP proof")
  else match proofs with
       | [compact] => bound_proof client jkt compact "token" invalid_code
       | _ => refuse_with 400 "invalid_dpop_proof" "exactly one DPoP proof is required"
       end.

(** Whether a refresh grant is asked for, the client and its connector may have it. *)
Definition refresh_refused (client : Client.ClientConfig) (stored : Code.AuthCode) : bool :=
  let refresh := Client.RefreshTokens client in
  let cc := Config.UserLoginConnectors cfg !! Code.ConnectorID stored in
  negb (is_empty (Code.RefreshMode stored))
  && (negb (Refreshc.Enabled refresh) || is_nil cc
      || (Code.RefreshMode stored =? "offline")%string
         && (negb (Refreshc.AllowOfflineAccess refresh) || negb (Code.OfflineConsent stored))
      || match cc with
         | Some cc => negb (Connectorc.Type_ cc =? "email")%string && negb (has_connector (Code.ConnectorID stored))
         | None => false
         end).

Definition code_user (resolved : Resolved.ResolvedClient) (stored : Code.AuthCode) : handler (list string) :=
  '(user, err) ← call (on_peers (ResolveUser resolved (Code.Email stored)));
  if is_err err ErrDenied then refuse_with 403 "access_denied" "user is not allowed"
  else if is_some (err : option error) then auth_down
  else mret (Resolved.Groups user).

(** What is issued for a code: the family, its first token and the expiries. *)
Record Issue := {
  i_sid : string;
  i_grant : option Grant.RefreshGrant;
  i_material : Material.RefreshMaterial;
  i_plain : string;
  i_access : time;
  i_id : time;
  i_refresh : string
}.

(** The credential of the flow: [None] when there is none. *)
Definition flow_credential (stored : Code.AuthCode) (now : time) : handler (option (string * string)) :=
  '(nonce, ciphertext, err) ← call (on_store
     (LoadFlowCredential (Code.Code stored) (Code.ClientID stored) (Code.ConnectorID stored) now));
  match (err : option error) with
  | None => mret (Some (nonce, ciphertext))
  | Some e => if errors_is e ErrInvalidGrant then mret None else storage_down
  end.

Definition unusable_credential (c : Cred.Credential) : bool :=
  is_empty (Cred.RefreshToken c) && is_zero (Cred.AccessExpiry c) && negb (Cred.AccessNonExpiring c).

(** The absolute expiry of a family over a credential. *)
Definition family_expiry (absolute : time) (c : Cred.Credential) : time :=
  let absolute' := if negb (is_zero (Cred.AccessExpiry c)) && is_empty (Cred.RefreshToken c)
                      && after absolute (Cred.AccessExpiry c)
                   then Cred.AccessExpiry c else absolute in
  if negb (is_zero (Cred.RefreshExpiry c)) && after absolute' (Cred.RefreshExpiry c)
  then Cred.RefreshExpiry c else absolute'.
Definition cap_access (c : Cred.Credential) (t : time) : time :=
  if negb (is_zero (Cred.AccessExpiry c)) then cap t (Cred.AccessExpiry c) else t.

(** The grant over the credential of the flow, encrypted for the family. *)
Definition with_credential (stored : Code.AuthCode) (grant : Grant.RefreshGrant) (material : Material.RefreshMaterial)
    (nonce ciphertext : string) (access id : time) : handler (Grant.RefreshGrant * string * time * time) :=
  let '(plain, err) := DecryptTemporaryCredential encryptionKey (Code.Code stored) (Code.ClientID stored)
                         (Code.ConnectorID stored) nonce ciphertext in
  match err, unmarshal_credential plain with
  | None, Some credential =>
      if unusable_credential credential then invalid_code
      else
        '(nonce, ciphertext, err) ← call (on_store (EncryptCredential (Material.Secret material) (Grant.SID grant)
            (Code.ClientID stored) (Code.ConnectorID stored) plain));
        if is_some (err : option error) then server_error "credential encryption failed"
        else mret (grant <| Grant.AbsoluteExpiry := family_expiry (Grant.AbsoluteExpiry grant) credential |>
                         <| Grant.UpstreamAccessExpiry := Cred.AccessExpiry credential |>
                         <| Grant.UpstreamRefreshExpiry := Cred.RefreshExpiry credential |>
                         <| Grant.UpstreamAccessNonExpiring := Cred.AccessNonExpiring credential |>
                         <| Grant.CredentialNonce := nonce |> <| Grant.CredentialCiphertext := ciphertext |>,
                   plain, cap_access credential access, cap_access credential id)
  | _, _ => invalid_code
  end.

(** The grant of a code before a credential is added. *)
Definition code_grant (stored : Code.AuthCode) (sid : string) (idle absolute : duration) : Grant.RefreshGrant :=
  zero_grant <| Grant.SID := sid |> <| Grant.ClientID := Code.ClientID stored |> <| Grant.Email := Code.Email stored |>
    <| Grant.EmailVerified := Code.EmailVerified stored |> <| Grant.Scopes := Code.Scopes stored |>
    <| Grant.ConnectorID := Code.ConnectorID stored |> <| Grant.UpstreamSubject := Code.UpstreamSubject stored |>
    <| Grant.Mode := Code.RefreshMode stored |> <| Grant.AuthTime := Code.AuthTime stored |>
    <| Grant.IdleTTL := idle |> <| Grant.AbsoluteExpiry := add (Code.AuthTime stored) absolute |>
    <| Grant.DPoPJKT := Code.DPoPJKT stored |>.

(** The refresh grant of a code. *)
Definition initial_grant (client : Client.ClientConfig) (cc : Connectorc.ConnectorConfig) (stored : Code.AuthCode)
    (now access id : time) : handler Issue :=
  credential ← flow_credential stored now;
  return_if (Bool.eqb (is_some credential) (Connectorc.Type_ cc =? "email")%string)
    (oauthError 400 "invalid_grant" "authorization code is invalid") ;;
  '(sid, err) ← call (on_store GenerateStateToken);
  if is_some (err : option error) then server_error "token generation failed"
  else
  '(material, err) ← call (on_store GenerateRefreshMaterial);
  if is_some (err : option error) then server_error "token generation failed"
  else
    let policy := Client.RefreshTokens client in
    let offline := (Code.RefreshMode stored =? "offline")%string in
    let idle := if offline then Refreshc.OfflineIdleTTL policy else Refreshc.SessionIdleTTL policy in
    let absolute := if offline then Refreshc.OfflineAbsoluteTTL policy else Refreshc.SessionAbsoluteTTL policy in
    let grant := code_grant stored sid idle absolute in
    '(grant, plain, access, id) ←
      (match credential with
       | Some (nonce, ciphertext) => with_credential stored grant material nonce ciphertext access id
       | None => mret (grant, "", access, id)
       end : handler (Grant.RefreshGrant * string * time * time));
    let refreshExpiry := cap (add now idle) (Grant.AbsoluteExpiry grant) in
    let access := cap access refreshExpiry in
    let id := cap id refreshExpiry in
    if negb (after refreshExpiry now) || negb (after access now) || negb (after id now)
    then invalid_code
    else mret {| i_sid := sid; i_grant := Some grant; i_material := material; i_plain := plain;
                 i_access := access; i_id := id; i_refresh := Material.Token material |}.

(** The attempts to consume the code, under fresh material after a collision. *)
Fixpoint consume_attempts (attempts : nat) (stored : Code.AuthCode) (binding : AuthCodeBinding) (issue : Issue)
  : handler (option error * string) :=
  match attempts with
  | O => mret (None, i_refresh issue)
  | S attempts =>
      completion ← Now;
      if negb (after (i_access issue) completion) || negb (after (i_id issue) completion) then invalid_code
      else
      err ← call (on_store (ConsumeAuthCode stored binding (i_grant issue) (i_material issue) completion));
      if negb (is_err err ErrRefreshCollision) || (attempts =? 0)%nat then mret (err, i_refresh issue)
      else
      '(material, err) ← call (on_store GenerateRefreshMaterial);
      if is_some (err : option error) then mret (err, i_refresh issue)
      else
      '(grant, err) ←
        (match i_grant issue with
         | Some grant =>
             if is_empty (i_plain issue) then mret (Some grant, None)
             else
             '(nonce, ciphertext, err) ← call (on_store (EncryptCredential (Material.Secret material) (i_sid issue)
                 (Code.ClientID stored) (Code.ConnectorID stored) (i_plain issue)));
             mret (Some (grant <| Grant.CredentialNonce := nonce |> <| Grant.CredentialCiphertext := ciphertext |>), err)
         | None => mret (None, None)
         end : handler (option Grant.RefreshGrant * option error));
      if is_some (err : option error) then mret (err, i_refresh issue)
      else consume_attempts attempts stored binding
             {| i_sid := i_sid issue; i_grant := grant; i_material := material; i_plain := i_plain issue;
                i_access := i_access issue; i_id := i_id issue; i_refresh := Material.Token material |}
  end.

Definition code_context (stored : Code.AuthCode) (groups : list string) (issue : Issue) : Ctx.TokenContext :=
  {| Ctx.Email := Code.Email stored; Ctx.EmailVerified := Code.EmailVerified stored;
     Ctx.ClientID := Code.ClientID stored; Ctx.Groups := groups; Ctx.Nonce := Code.Nonce stored;
     Ctx.SID := i_sid issue; Ctx.Scopes := Code.Scopes stored; Ctx.AuthTime := Code.AuthTime stored;
     Ctx.IDExpiry := i_id issue; Ctx.AccessExpiry := i_access issue; Ctx.DPoPJKT := Code.DPoPJKT stored |}.

Definition token_type (jkt : string) : string := if is_empty jkt then "Bearer" else "DPoP".

(** What is issued for a code in the end: the tokens' expiries, and the refresh grant
    when one is asked for. *)
Definition code_issue (client : Client.ClientConfig) (stored : Code.AuthCode) : handler Issue :=
  now ← Now;
  let access := add now (Config.AccessTokenTTL cfg) in
  let id := add now (Config.IDTokenTTL cfg) in
  match Config.UserLoginConnectors cfg !! Code.ConnectorID stored with
  | Some cc =>
      if negb (is_empty (Code.RefreshMode stored)) && Refreshc.Enabled (Client.RefreshTokens client)
      then initial_grant client cc stored now access id
      else mret {| i_sid := ""; i_grant := None; i_material := zero_material; i_plain := "";
                   i_access := access; i_id := id; i_refresh := "" |}
  | None => mret {| i_sid := ""; i_grant := None; i_material := zero_material; i_plain := "";
                    i_access := access; i_id := id; i_refresh := "" |}
  end.

Definition exchangeCode (form : Values) (proofs : list string) : proc -> Answer.Response * proc := run (
  stored ← presented_code form;
  resolved ← code_client stored;
  let client := Resolved.Config resolved in
  code_proof client stored proofs ;;
  return_if (refresh_refused client stored) (oauthError 400 "invalid_grant" "authorization code is invalid") ;;
  groups ← code_user resolved stored;
  issue ← code_issue client stored;
  '(idToken, accessToken, err) ← call (on_store (SignTokenPair signer (code_context stored groups issue)));
  if is_some (err : option error) then server_error "token signing failed"
  else
  '(err, refresh) ← consume_attempts maxRefreshMaterialAttempts stored (code_binding form) issue;
  match (err : option error) with
  | Some e => if errors_is e ErrInvalidGrant then invalid_code else storage_down
  | None =>
      seconds ← expires_in (i_access issue);
      mret (oauthJSON 200 ([("access_token", JString accessToken); ("id_token", JString idToken);
                            ("token_type", JString (token_type (Code.DPoPJKT stored)));
                            ("expires_in", number seconds)]
                           ++ if is_empty refresh then [] else [("refresh_token", JString refresh)]))
  end).

(** ** The exchange of a refresh token *)

(** The grant of the token, the client under the policy in force and the proof of
    possession, before the refresh service is called. *)
Definition refresh_proof (client : Client.ClientConfig) (jkt : string) (proofs : list string) : handler unit :=
  if is_empty jkt
  then return_if (negb (length proofs =? 0)%nat) (oauthError 400 "invalid_request" "unexpected DPoP proof")
  else match proofs with
       | [compact] => bound_proof client jkt compact "token" invalid_refresh
       | _ => refuse_with 400 "invalid_dpop_proof" "DPoP proof is required"
       end.

Definition exchangeRefresh (form : Values) (proofs : list string) : proc -> Answer.Response * proc := run (
  return_if (is_empty (Get form "refresh_token") || is_empty (Get form "client_id"))
    (oauthError 400 "invalid_request" "refresh_token and client_id are required") ;;
  let '(material, err) := ParseRefreshToken (Get form "refresh_token") in
  return_if (is_some err) (oauthError 400 "invalid_grant" "refresh token is invalid") ;;
  now ← Now;
  '(inspected, _, err) ← call (on_store (PrepareRefresh material (Get form "client_id") now));
  if is_err err ErrInvalidGrant then invalid_refresh
  else if is_some (err : option error) && negb (is_err err ErrRefreshReplay) then storage_down
  else
  '(resolved, err) ← call (on_peers (ResolveClient (Grant.ClientID inspected) true));
  if is_err err ErrDenied then invalid_refresh
  else if is_some (err : option error)
  then refuse_with 503 "temporarily_unavailable" "policy unavailable"
  else
  let client := Resolved.Config resolved in
  if negb (validateDPoPBinding client (Grant.DPoPJKT inspected)) then invalid_refresh
  else
  refresh_proof client (Grant.DPoPJKT inspected) proofs ;;
  '(result, failure) ← call (RefreshService.Exchange cfg signer
     {| RefreshService.Request.Token := Get form "refresh_token"; RefreshService.Request.ClientID := Get form "client_id";
        RefreshService.Request.Scope := Get form "scope" |});
  match (failure : option Failure.Failure) with
  | Some f =>
      let status := if (Failure.Code f =? Temporary)%string then 503 else 400 in
      mret (with_headers (if is_empty (Failure.RetryAfter f) then [] else [("Retry-After", Failure.RetryAfter f)])
              (oauthError status (Failure.Code f) (Failure.Description f)))
  | None =>
      seconds ← expires_in (Result.AccessExpiry result);
      mret (oauthJSON 200 ([("access_token", JString (Result.AccessToken result));
                            ("id_token", JString (Result.IDToken result));
                            ("refresh_token", JString (Result.RefreshToken result));
                            ("token_type", JString (token_type (Result.DPoPJKT result)));
                            ("expires_in", number seconds)]
                           ++ if is_empty (Result.Scope result) then [] else [("scope", JString (Result.Scope result))]))
  end).

(** ** The exchange of an external identity token *)

Definition idTokenType : string := "urn:ietf:params:oauth:token-type:id_token".
Definition exchange_parameters : list string :=
  ["grant_type"; "client_id"; "subject_token"; "subject_token_type"; "requested_token_type"].

Definition exchangeTrustedToken (form : Values) : proc -> Answer.Response * proc := run (
  return_if (existsb (fun kv => negb (mem kv.1 exchange_parameters)) (map_to_list form))
    (oauthError 400 "invalid_request" "parameter is not valid for token exchange") ;;
  let clientID := Get form "client_id" in
  let raw := Get form "subject_token" in
  return_if (is_empty clientID || is_empty raw || negb (Get form "subject_token_type" =? idTokenType)%string
             || negb (Get form "requested_token_type" =? idTokenType)%string)
    (oauthError 400 "invalid_request" "valid token exchange parameters are required") ;;
  '(result, err) ← call (VerifyAndEvaluate raw clientID);
  match (err : option error) with
  | Some e =>
      if IsIndeterminate e && negb (errors_is e ErrDenied) then auth_down
      else refuse_with 400 "invalid_request" "subject token is invalid or unacceptable"
  | None =>
      match (result : option Verified.Result) with
      | None => return_ panicked
      | Some result =>
      match Verified.Binding result with
      | None => return_ panicked
      | Some binding =>
          now ← Now;
          now' ← Now;
          expiry ← (if after (add now (Config.IDTokenTTL cfg)) (add now' (15 * minute))
                    then again ← Now; mret (add again (15 * minute))
                    else mret (add now (Config.IDTokenTTL cfg)) : handler time);
          '(signed, err) ← call (on_store (SignTrustedIDToken signer
             {| Ctx.Subject := Effective.Subject binding; Ctx.TrustedClientID := clientID;
                Ctx.UpstreamIssuer := Verified.Issuer result; Ctx.UpstreamSubject := Verified.UpstreamSubject result;
                Ctx.TrustedGroups := Effective.Groups binding; Ctx.Expiry := expiry |}));
          if is_some (err : option error) then server_error "token signing failed"
          else
          seconds ← expires_in expiry;
          mret (oauthJSON 200 [("access_token", JString signed); ("issued_token_type", JString idTokenType);
                               ("token_type", JString "Bearer"); ("expires_in", number seconds)])
      end end
  end).

(** ** The endpoint *)

Definition token_parameters : list string :=
  ["grant_type"; "code"; "client_id"; "client_secret"; "redirect_uri"; "code_verifier"; "refresh_token"; "scope";
   "subject_token"; "subject_token_type"; "requested_token_type"; "dpop_jkt"].

(** The form of a request to the endpoint. *)
Definition token_form (r : Http.Request) : Values + Answer.Response :=
  let bad description := inr (oauthError 400 "invalid_request" description) in
  if negb (Http.Method r =? "POST")%string then inr (oauthError 405 "invalid_request" "POST is required")
  else if negb (is_empty (Http.RawQuery r)) then bad "OAuth parameters are not accepted in the query"
  else
    let '(media, ok) := parse_media_type (Http.Header r "Content-Type") in
    if negb ok || negb (media =? form_type)%string then bad "form content type is required"
    else match ParseForm maxTokenFormBytes r with
    | inr _ => bad "invalid form"
    | inl form =>
        if existsb (fun name => (1 <? length (values_of form name))%nat) token_parameters
        then bad "duplicate parameter"
        else if present form "dpop_jkt" then bad "dpop_jkt is not accepted at this endpoint"
        else if negb (is_empty (Http.Header r "Authorization")) || present form "client_secret"
        then bad "client authentication is not supported"
        else inl form
    end.

Definition token_grant (form : Values) (proofs : list string) : proc -> Answer.Response * proc := run (
  let grant_type := Get form "grant_type" in
  if is_empty grant_type then refuse_with 400 "invalid_request" "grant_type is required"
  else if (grant_type =? "authorization_code")%string then
    return_if (negb (is_empty (Get form "refresh_token")))
      (oauthError 400 "invalid_request" "refresh_token is not valid for this grant type") ;;
    call (exchangeCode form proofs)
  else if (grant_type =? "refresh_token")%string then
    return_if (existsb (fun name => negb (is_empty (Get form name))) ["code"; "redirect_uri"; "code_verifier"])
      (oauthError 400 "invalid_request" "authorization code parameters are not valid for this grant type") ;;
    call (exchangeRefresh form proofs)
  else if (grant_type =? "urn:ietf:params:oauth:grant-type:token-exchange")%string then
    return_if (negb (length proofs =? 0)%nat)
      (oauthError 400 "invalid_request" "DPoP is not supported for token exchange") ;;
    call (exchangeTrustedToken form)
  else refuse_with 400 "unsupported_grant_type" "unsupported grant type").

Definition HandleToken (r : Http.Request) : proc -> Answer.Response * proc := run (
  match token_form r with
  | inr refused => mret (with_headers oauth_no_store refused)
  | inl form =>
      answer ← call (token_grant form (Http.header r "DPoP"));
      mret (with_headers oauth_no_store answer)
  end).
End Token.
