(* ===== verification/OidcResource.v ===== *)
(** * internal/oidc: revocation and the protected resources

    handle_revoke.go and handle_userinfo.go: what identifies the family a token belongs
    to, its revocation, and the shared verifier of access tokens. *)

From S2P Require Import Prelude Runtime ReplayCache Schema RefreshToken RefreshStore Json Config Tokens Services TrustConfig Dpop Trust Http Oidc OidcToken.

Definition supportedDPoPAlgorithmChallenge : string := "ES256 ES512".

Module Access.

(** [oidc.accessAuthError] *)
Record accessAuthError := { status : Z; scheme : string; code : string; alg : string }.

End Access.

(** fmt.Sprint of a decoded claim that is not a string. *)
Class Sprint := sprint_other : json -> string.
Definition sprint `{Sprint} (v : json) : string := match v with JString s => s | _ => sprint_other v end.

(** [strings.EqualFold(s, word)] for a word of ASCII letters that no other letter folds
    to: B, D, E, A, O, P and R. *)
Definition equal_fold (s word : string) : bool := (string_map lower_byte s =? string_map lower_byte word)%string.

Section Resource.
Context `{Env} {P : Type} `{!PolicyResolver P} `{!JWT} `{!URLs} `{!ProofJSON} `{!JOSE} `{!NetText} `{!Sprint}.
Context (cfg : Config.Config) (signer : Signer).

Abbreviation proc := (Process (Peers P)).
Abbreviation handler A := (go proc Answer.Response A).

(** ** Revocation *)

Definition no_credential : RevocationCredential :=
  {| rc_Refresh := None; rc_SID := ""; rc_TokenJKT := ""; rc_RequireTokenBinding := false |}.

Definition revocationCredential (raw clientID : string) : proc -> RevocationCredential * proc := run (
  match ParseRefreshToken raw with
  | (material, None) =>
      return_ {| rc_Refresh := Some material; rc_SID := ""; rc_TokenJKT := ""; rc_RequireTokenBinding := false |}
  | _ =>
      '(token, err) ← call (on_store (VerifyToken signer raw));
      match token, err with
      | Some token, None =>
          if negb (length (tok_audience token) =? 1)%nat || negb (HasAudience token clientID)
          then return_ no_credential
          else match tok_get token "sid" with
          | Some (JString sid) =>
              if is_empty sid then return_ no_credential
              else match DPoPThumbprint token with
              | (_, Some _) => return_ no_credential
              | (jkt, None) =>
                  mret {| rc_Refresh := None; rc_SID := sid; rc_TokenJKT := jkt;
                          rc_RequireTokenBinding := is_some (tok_get token "scope") |}
              end
          | _ => return_ no_credential
          end
      | _, _ => return_ no_credential
      end
  end).

(** The form of a revocation request. *)
Definition revoke_form (r : Http.Request) : Values + Answer.Response :=
  let bad description := inr (oauthError 400 "invalid_request" description) in
  if negb (Http.Method r =? "POST")%string || negb (is_empty (Http.RawQuery r)) then bad "form POST is required"
  else if negb (to_lower (trim_space (default "" (head (split_on ";" (Http.Header r "Content-Type"))))) =? form_type)%string
  then bad "form content type is required"
  else if (maxTokenFormBytes <? len (Http.Body r)) || Http.body_failed r then bad "invalid form"
  else match ParseForm maxTokenFormBytes r with
  | inr _ => bad "token and client_id are required exactly once"
  | inl form =>
      if negb (length (values_of form "token") =? 1)%nat || negb (length (values_of form "client_id") =? 1)%nat
         || is_empty (Get form "token") || is_empty (Get form "client_id")
      then bad "token and client_id are required exactly once"
      else if present form "dpop_jkt" then bad "dpop_jkt is not accepted at this endpoint"
      else inl form
  end.

(** The thumbprint of the proof of the request, empty without one. *)
Definition revoke_proof (client : Client.ClientConfig) (proofs : list string) (now : time) : handler string :=
  let mode := DPoPc.Mode (Client.DPoP client) in
  if (mode =? "disabled")%string && negb (length proofs =? 0)%nat
  then refuse_with 400 "invalid_request" "unexpected DPoP proof"
  else if (mode =? "required")%string && negb (length proofs =? 1)%nat
  then refuse_with 400 "invalid_dpop_proof" "exactly one DPoP proof is required"
  else match proofs with
  | [compact] =>
      match ParseAndVerify compact (DPoPc.SigningAlgorithm (Client.DPoP client)) "POST"
              (PublicEndpointURL (Config.IssuerURL cfg) "revoke") now with
      | inr _ => invalid_proof
      | inl proof =>
          err ← reserveDPoP proof now;
          if is_err err ErrReplay || is_err err ErrReplayCacheFull then invalid_proof
          else mret (Dpop.Thumbprint proof)
      end
  | _ => mret ""
  end.

Definition revoke_token (form : Values) (proofs : list string) : proc -> Answer.Response * proc := run (
  let clientID := Get form "client_id" in
  '(resolved, err) ← call (on_peers (ResolveClient clientID false));
  if is_err err ErrDenied then refuse_with 400 "invalid_request" "invalid client"
  else if is_some (err : option error)
  then refuse_with 503 "temporarily_unavailable" "policy unavailable"
  else
  now ← Now;
  proofJKT ← revoke_proof (Resolved.Config resolved) proofs now;
  credential ← call (revocationCredential (Get form "token") clientID);
  err ← call (on_store (RevokeCredential credential clientID proofJKT "application" now));
  if is_some (err : option error) then storage_down
  else mret (reply 200 [] NoBody)).

Definition HandleRevoke (r : Http.Request) : proc -> Answer.Response * proc := run (
  match revoke_form r with
  | inr refused => mret (with_headers oauth_no_store refused)
  | inl form =>
      answer ← call (revoke_token form (Http.header r "DPoP"));
      mret (with_headers oauth_no_store answer)
  end).

(** ** Access tokens *)

Abbreviation verifier A := (go proc (Token + Access.accessAuthError) A).

Definition refused (status : Z) (scheme code alg : string) : Token + Access.accessAuthError :=
  inr {| Access.status := status; Access.scheme := scheme; Access.code := code; Access.alg := alg |}.

Definition attempted_scheme (auth : list string) : string :=
  match auth with
  | value :: _ => match fields value with
                  | word :: _ => if equal_fold word "DPoP" then "DPoP" else "Bearer"
                  | [] => "Bearer"
                  end
  | [] => "Bearer"
  end.

(** The proof of an access token bound to [jkt]. *)
Definition resource_proof (r : Http.Request) (endpoint raw jkt : string) (token : Token) : verifier (Token + Access.accessAuthError) :=
  let alg := supportedDPoPAlgorithmChallenge in
  match Http.header r "DPoP" with
  | [compact] =>
      now ← Now;
      match ParseAndVerifyBound compact (Http.Method r) (PublicEndpointURL (Config.IssuerURL cfg) endpoint) now with
      | inr _ => return_ (refused 401 "DPoP" "invalid_dpop_proof" alg)
      | inl proof =>
          return_if (is_some (VerifyAccessTokenHash proof raw)) (refused 401 "DPoP" "invalid_dpop_proof" alg) ;;
          return_if (is_some (VerifyThumbprint proof jkt)) (refused 401 "DPoP" "invalid_token" alg) ;;
          now ← Now;
          err ← reserveDPoP proof now;
          return_if (is_err err ErrReplay || is_err err ErrReplayCacheFull)
            (refused 401 "DPoP" "invalid_dpop_proof" alg) ;;
          mret (inl token)
      end
  | _ => return_ (refused 401 "DPoP" "invalid_dpop_proof" alg)
  end.

Definition authenticateAccessToken (r : Http.Request) (endpoint : string)
  : proc -> (Token + Access.accessAuthError) * proc := run (
  let auth := Http.header r "Authorization" in
  let proofs := Http.header r "DPoP" in
  return_if ((1 <? length auth)%nat || (1 <? length proofs)%nat)
    (refused 400 (attempted_scheme auth) "invalid_request" "") ;;
  match auth with
  | [] => return_ (refused 401 "Bearer" "" "")
  | value :: _ =>
      match fields value with
      | [scheme; raw] =>
          return_if (negb (equal_fold scheme "Bearer") && negb (equal_fold scheme "DPoP"))
            (refused 400 "Bearer" "invalid_request" "") ;;
          '(token, err) ← call (on_store (VerifyAccessToken signer raw));
          match token, err with
          | Some token, None =>
              match DPoPThumbprint token with
              | (_, Some _) => return_ (refused 401 scheme "invalid_token" "")
              | (jkt, None) =>
                  if is_empty jkt
                  then return_if (negb (equal_fold scheme "Bearer") || negb (length proofs =? 0)%nat)
                         (refused 401 scheme "invalid_token" "") ;;
                       mret (inl token)
                  else return_if (negb (equal_fold scheme "DPoP")) (refused 401 "Bearer" "invalid_token" "") ;;
                       resource_proof r endpoint raw jkt token
              end
          | _, _ => return_ (refused 401 scheme "invalid_token" "")
          end
      | _ => return_ (refused 400 (attempted_scheme auth) "invalid_request" "")
      end
  end).

(** The text of a challenge. *)
Definition quoted (s : string) : string := String "034" s +:+ String "034" "".
Definition challenge_text (failure : Access.accessAuthError) : string :=
  Access.scheme failure
  +:+ (if is_empty (Access.code failure) then "" else " error=" +:+ quoted (Access.code failure))
  +:+ (if (Access.scheme failure =? "DPoP")%string
       then ", algs=" +:+ quoted (if is_empty (Access.alg failure) then supportedDPoPAlgorithmChallenge
                                  else Access.alg failure)
       else "").
Definition writeAccessAuthError (failure : Access.accessAuthError) : Answer.Response :=
  reply (Access.status failure) [("WWW-Authenticate", challenge_text failure)] NoBody.

Definition userinfo_claims (token : Token) : list (string * json) :=
  ("sub", JString (tok_subject token))
  :: omap (fun name => pair name <$> tok_get token name) ["email"; "email_verified"; "preferred_username"; "groups"].

Definition HandleUserInfo (r : Http.Request) : proc -> Answer.Response * proc := run (
  result ← call (authenticateAccessToken r "userinfo");
  match result with
  | inr failure => mret (writeAccessAuthError failure)
  | inl token =>
      let scope := match tok_get token "scope" with Some v => sprint v | None => "<nil>" end in
      if negb (mem "openid" (fields scope))
      then let bound := match DPoPThumbprint token with (jkt, _) => negb (is_empty jkt) end in
           mret (writeAccessAuthError
             {| Access.status := 403; Access.scheme := if bound : bool then "DPoP" else "Bearer";
                Access.code := "insufficient_scope";
                Access.alg := if bound : bool then supportedDPoPAlgorithmChallenge else "" |})
      else mret (oauthJSON 200 (userinfo_claims token))
  end).
End Resource.
