(* ===== verification/OidcFlow.v ===== *)
(** * internal/oidc: the browser's authorization flow

    handle_callback.go, handle_email.go, handle_grants.go, handle_identity.go and
    handle_selector.go: the choice of a connector, the callback of a login provider, the
    verification of an address by a one-time code, the choice of an address, and the
    completion of the flow with a code or with the page of grants. *)

From stdpp Require Import pretty.
From S2P Require Import Prelude Runtime ReplayCache Schema RefreshToken RefreshStore FlowStore OtpStore GrantStore Json Config Upstream Credentials Services TrustConfig Dpop Trust Http Oidc.

(** The mail transport and the bot challenge; net/mail's parse of an address. *)
Class Mailer (P : Type) := SendOTP : string -> string -> time -> P -> option error * P.
Class Challenge (P : Type) := VerifyChallenge : string -> string -> P -> option error * P.
Class MailText := parse_address : string -> option string.

#[export] Instance peers_mailer P `{!Mailer P} : Mailer (Peers P) := fun email code expires =>
  on_outside (SendOTP email code expires).
#[export] Instance peers_challenge P `{!Challenge P} : Challenge (Peers P) := fun response ip =>
  on_outside (VerifyChallenge response ip).

(** ** One-time codes and addresses *)

(** [fmt.Sprintf("%08d", n)] *)
Fixpoint zeros (n : nat) : string := match n with O => "" | S n => String "0" (zeros n) end.
Definition eight_digits (n : Z) : string :=
  let text := pretty n in zeros (8 - String.length text) +:+ text.

(** The 27 low bits of four random bytes. *)
Definition masked (b : string) : Z :=
  match b with
  | String a (String b (String c (String d _))) =>
      (byte_z a mod 8) * 2 ^ 24 + byte_z b * 2 ^ 16 + byte_z c * 2 ^ 8 + byte_z d
  | _ => 0
  end.

(** The attempts [rand.Int] makes until a draw is below the bound: one in four fails. *)
Definition otp_draws : nat := 4096.
Fixpoint rand_int `{Env} (fuel : nat) : go World (Z + error) (Z + error) :=
  match fuel with
  | O => mret (inr (Errorf "rand"))
  | S fuel =>
      b ← rand_read 4 (inr (Errorf "rand"));
      if masked b <? 100000000 then mret (inl (masked b)) else rand_int fuel
  end.
Definition otpCode `{Env} : World -> (string + error) * World := run (
  n ← call (run (rand_int otp_draws));
  match n with
  | inl n => mret (inl (eight_digits n))
  | inr err => mret (inr err)
  end).

Definition normalizeEmail `{Env} `{MailText} (value : string) : option string :=
  let normalized := to_lower (trim_space value) in
  match parse_address normalized with
  | Some address => if (address =? normalized)%string then Some normalized else None
  | None => None
  end.

Definition remoteIPFromRequest `{Env} `{NetText} (r : Http.Request) (source header : string) : string :=
  let value :=
    if (source =? "remote_addr")%string
    then default (Http.RemoteAddr r) (split_host (Http.RemoteAddr r))
    else if (source =? "header")%string
    then trim_space (default "" (head (split_on "," (Http.Header r header))))
    else "" in
  if is_ip value then value else "".

Definition verificationAccepted (mode : string) (providerVerified localVerified : bool) : bool :=
  (mode =? "disabled")%string || localVerified || (mode =? "provider")%string && providerVerified.

(** [mergeScopes]: the first occurrence of each scope, in order. *)
Fixpoint merge_scopes (seen l : list string) : list string :=
  match l with
  | [] => []
  | scope :: l => if mem scope seen then merge_scopes seen l else scope :: merge_scopes (scope :: seen) l
  end.
Definition mergeScopes (left right : list string) : list string := merge_scopes [] (left ++ right).

Definition otp_flow (state : Auth.OAuthState) (id subject email : string) : Flow.OTPFlow :=
  {| Flow.FlowID := Auth.FlowID state; Flow.ConnectorID := id; Flow.Subject := subject; Flow.Email := email;
     Flow.ClientID := Auth.ClientID state; Flow.RedirectURI := Auth.RedirectURI state;
     Flow.CodeChallenge := Auth.CodeChallenge state; Flow.Nonce := Auth.Nonce state;
     Flow.OIDCState := Auth.OIDCState state; Flow.Scopes := Auth.Scopes state;
     Flow.RefreshMode := Auth.RefreshMode state; Flow.AuthTime := Auth.AuthTime state;
     Flow.OfflineConsent := Auth.OfflineConsent state; Flow.Purpose := Auth.Purpose state;
     Flow.DPoPJKT := Auth.DPoPJKT state; Flow.PushedAuthorization := Auth.PushedAuthorization state |}.
Definition flow_state (flow : Flow.OTPFlow) : Auth.OAuthState :=
  {| Auth.FlowID := Flow.FlowID flow; Auth.ConnectorID := Flow.ConnectorID flow;
     Auth.ClientID := Flow.ClientID flow; Auth.RedirectURI := Flow.RedirectURI flow;
     Auth.CodeChallenge := Flow.CodeChallenge flow; Auth.Nonce := Flow.Nonce flow;
     Auth.OIDCState := Flow.OIDCState flow; Auth.Scopes := Flow.Scopes flow;
     Auth.RefreshMode := Flow.RefreshMode flow; Auth.AuthTime := Flow.AuthTime flow;
     Auth.OfflineConsent := Flow.OfflineConsent flow; Auth.Purpose := Flow.Purpose flow;
     Auth.DPoPJKT := Flow.DPoPJKT flow; Auth.PushedAuthorization := Flow.PushedAuthorization flow |}.

(** The payload of the code a completed flow ends with. *)
Definition flow_payload (state : Auth.OAuthState) (subject email : string) (emailVerified : bool)
  : Payload.AuthCodePayload :=
  {| Payload.ClientID := Auth.ClientID state; Payload.RedirectURI := Auth.RedirectURI state;
     Payload.CodeChallenge := Auth.CodeChallenge state; Payload.Email := email;
     Payload.EmailVerified := emailVerified; Payload.Nonce := Auth.Nonce state;
     Payload.Scopes := Auth.Scopes state; Payload.RefreshMode := Auth.RefreshMode state;
     Payload.AuthTime := Auth.AuthTime state; Payload.ConnectorID := Auth.ConnectorID state;
     Payload.UpstreamSubject := subject; Payload.OfflineConsent := Auth.OfflineConsent state;
     Payload.DPoPJKT := Auth.DPoPJKT state; Payload.PushedAuthorization := Auth.PushedAuthorization state |}.

Section Flow.
Context `{Env} {P : Type} `{!PolicyResolver P} `{!Connectors P} `{!Mailer P} `{!Challenge P}.
Context `{!AEAD} `{!CredentialJSON} `{!FlowJSON} `{!EmailsJSON} `{!URLs} `{!NetText} `{!MailText} `{!Templates}.
Context (cfg : Config.Config) (otpSecret encryptionKey : string) (has_mailer : bool).

Abbreviation proc := (Process (Peers P)).
Abbreviation handler A := (go proc Answer.Response A).

Definition browser_error {A} (status : Z) (reason : browserFailureReason) : handler A :=
  return_ (renderBrowserError status reason).
Definition error_page {A} (status : Z) (reason : browserFailureReason) (title message : string) : handler A :=
  return_ (renderErrorPage status reason title message).
Definition page {A} (status : Z) (p : Page) (reason : browserFailureReason) : handler A :=
  return_ (renderBrowserPage status p reason).
(** [redirectAuthorizationError] to the redirect URI of the flow. *)
Definition flow_error {A} (state : Auth.OAuthState) (code : string) (reason : browserFailureReason) : handler A :=
  return_ (redirectAuthorizationError (Auth.RedirectURI state) (Auth.OIDCState state) code reason).

(** ** Grants *)

Definition grants_unavailable : string :=
  "We couldn't load your active grants. Return and try again shortly.".

(** The grants with their action tokens. *)
Fixpoint grant_actions (grants : list ManagedGrant) : handler (list (ManagedGrant * string)) :=
  match grants with
  | [] => mret []
  | grant :: grants =>
      '(token, err) ← call (on_store GenerateStateToken);
      if is_some (err : option error)
      then error_page 500 failureGrantActionToken "Grant management unavailable" grants_unavailable
      else rest ← grant_actions grants; mret ((grant, token) :: rest)
  end.
Definition grant_data (email : string) (x : ManagedGrant * string) : GrantData :=
  let '(g, token) := x in
  {| gd_SID := mg_SID g; gd_ClientID := mg_ClientID g; gd_Mode := mg_Mode g; gd_ActionToken := token; gd_Email := email;
     gd_CreatedAt := mg_CreatedAt g; gd_LastUsedAt := mg_LastUsedAt g; gd_ExpiresAt := mg_ExpiresAt g |}.

Definition renderGrants (email : string) : proc -> Answer.Response * proc := run (
  now ← Now;
  '(grants, err) ← call (on_store (ListActiveGrants email now));
  if is_some (err : option error)
  then error_page 503 failureGrantListUnavailable "Grant management unavailable" grants_unavailable
  else
  listed ← grant_actions grants;
  err ← call (on_store (CreateGrantActions (map (fun x => {| ga_Token := x.2; ga_SID := mg_SID x.1 |}) listed)
                          email "revoke" now (add now (5 * minute))));
  if is_some (err : option error)
  then error_page 503 failureGrantActionsCreate "Grant management unavailable" grants_unavailable
  else page 200 (GrantsPage "Active grants" email "" (map (grant_data email) listed)) failureGrantsRender).

Definition HandleGrantRevoke (r : Http.Request) : proc -> Answer.Response * proc := run (
  return_if (negb (Http.Method r =? "POST")%string) (renderBrowserError 405 failureGrantRevokeMethod) ;;
  match parseBrowserForm r ["email"; "action_token"; "sid"] with
  | inr refused => return_ refused
  | inl form =>
      err ← (match normalizeEmail (Get form "email") with
             | None => mret (Some ErrInvalidGrant)
             | Some email =>
                 now ← Now;
                 call (on_store (ConsumeGrantActionAndRevoke (Get form "action_token") email (Get form "sid") "revoke" now))
             end : handler (option error));
      match err with
      | None => page 200 (GrantsPage "Grant revocation" "" "The grant was revoked. Existing access tokens may remain valid until they expire." [])
                  failureGrantRevokeRender
      | Some e =>
          if errors_is e ErrInvalidGrant
          then page 400 (GrantsPage "Grant revocation" "" "This revocation action is invalid, expired, or already used." [])
                 failureGrantRevokeRender
          else page 503 (GrantsPage "Grant revocation" "" "Grant management is temporarily unavailable." []) failureGrantRevokeRender
      end
  end).

(** ** Completion *)

Definition denied : string := "Your account was not allowed.".
Definition try_again : string := "We couldn't complete sign-in right now. Return and try again shortly.".

(** The client of the flow under the policy in force. *)
Definition flow_client (state : Auth.OAuthState) : handler Resolved.ResolvedClient :=
  '(resolved, err) ← call (on_peers (ResolveClient (Auth.ClientID state) true));
  if is_err err ErrDenied then error_page 403 failureClientPolicyDenied "Login failed" denied
  else if is_some (err : option error)
  then error_page 503 failureClientPolicyUnavailable "Sign-in unavailable" try_again
  else
  let client := Resolved.Config resolved in
  if negb (isValidRedirectURI (Auth.RedirectURI state) client)
  then browser_error 400 failureAuthorizationProfileChanged
  else if negb (stateSatisfiesClientPolicy state client)
          || (Auth.RefreshMode state =? "offline")%string && negb (Auth.OfflineConsent state)
  then flow_error state "invalid_request" failureAuthorizationPolicyChanged
  else mret resolved.

Definition flow_user (resolved : Resolved.ResolvedClient) (email : string) : handler unit :=
  '(_, err) ← call (on_peers (ResolveUser resolved (to_lower email)));
  if is_err err ErrDenied then error_page 403 failureUserPolicyDenied "Login failed" denied
  else if is_some (err : option error)
  then error_page 503 failureUserPolicyUnavailable "Sign-in unavailable" try_again
  else mret tt.

(** The credential of the flow, [None] when it has none. *)
Definition completed_credential (state : Auth.OAuthState) : handler (option string) :=
  if is_empty (Auth.RefreshMode state) || is_empty (Auth.FlowID state) then mret None
  else
  now ← Now;
  '(nonce, ciphertext, err) ← call (on_store
     (LoadFlowCredential (Auth.FlowID state) (Auth.ClientID state) (Auth.ConnectorID state) now));
  match (err : option error) with
  | None =>
      let '(credential, err) := DecryptTemporaryCredential encryptionKey (Auth.FlowID state) (Auth.ClientID state)
                                  (Auth.ConnectorID state) nonce ciphertext in
      if is_some err && negb (is_err err ErrInvalidGrant)
      then flow_error state "server_error" failureAuthorizationCredentialLoad
      else mret (Some credential)
  | Some e => if errors_is e ErrInvalidGrant then mret None
              else flow_error state "server_error" failureAuthorizationCredentialLoad
  end.

(** The credential moves from the flow to its code. *)
Definition move_credential (state : Auth.OAuthState) (code credential : string) : handler unit :=
  '(nonce, ciphertext, err) ← call (on_store
     (EncryptTemporaryCredential encryptionKey code (Auth.ClientID state) (Auth.ConnectorID state) credential));
  if is_some (err : option error) then flow_error state "server_error" failureAuthorizationCredentialSave
  else
  now ← Now;
  err ← call (on_store (SaveFlowCredential (Auth.FlowID state) code (Auth.ClientID state) (Auth.ConnectorID state)
                          nonce ciphertext (add now (5 * minute)) UTC));
  if is_some (err : option error) then flow_error state "server_error" failureAuthorizationCredentialSave
  else mret tt.

Definition complete (state : Auth.OAuthState) (subject email : string) (emailVerified : bool)
  : proc -> Answer.Response * proc := run (
  if (Auth.Purpose state =? "manage_grants")%string then call (renderGrants email)
  else
  resolved ← flow_client state;
  flow_user resolved email ;;
  credential ← completed_credential state;
  let email_connector := match Config.UserLoginConnectors cfg !! Auth.ConnectorID state with
                         | Some cc => (Connectorc.Type_ cc =? "email")%string
                         | None => false
                         end in
  if negb (is_empty (Auth.RefreshMode state))
     && (is_nil (Config.UserLoginConnectors cfg !! Auth.ConnectorID state)
         || Bool.eqb (is_some credential) email_connector)
  then flow_error state "invalid_request" failureAuthorizationFlow
  else
  '(code, err) ← call (on_store (GenerateCode (flow_payload state subject email emailVerified)));
  if is_some (err : option error) then flow_error state "server_error" failureAuthorizationCodeCreate
  else
  match credential with
  | Some credential => move_credential state code credential
  | None => mret tt
  end ;;
  match parse_url (Auth.RedirectURI state) with
  | None => return_ panicked
  | Some _ =>
      mret (redirect_to 302 (Auth.RedirectURI state)
              (("code", code) :: if is_empty (Auth.OIDCState state) then [] else [("state", Auth.OIDCState state)]))
  end).

(** ** Verification of an address by a code *)

Definition otp_ttl : duration := match Config.Email_ cfg with Some e => Email.OTPTTL e | None => 0 end.

Definition beginOTP (state : Auth.OAuthState) (id subject email : string) : proc -> Answer.Response * proc := run (
  '(challenge, err) ← call (on_store GenerateStateToken);
  if is_some (err : option error) then browser_error 500 failureOTPChallengeCreate
  else
  drawn ← call (on_store otpCode);
  match drawn with
  | inr _ => browser_error 500 failureOTPCodeCreate
  | inl code =>
      return_if (is_nil (Config.Email_ cfg)) panicked ;;
      now ← Now;
      '(expiresAt, err) ← call (on_store (CreateOTP challenge email code (otp_flow state id subject email) otpSecret now otp_ttl));
      match (err : option error) with
      | Some e =>
          if errors_is e ErrOTPSendLimit
          then error_page 429 failureOTPSendLimit "Please wait"
                 "Too many verification codes were requested. Wait before starting sign-in again."
          else error_page 500 failureOTPCreate "Verification code unavailable"
                 "We couldn't send a verification code. Wait a moment, then start sign-in again."
      | None =>
          return_if (negb has_mailer) panicked ;;
          _ ← call (on_peers (SendOTP email code expiresAt));
          page 200 (OTPPage "Verify email" challenge "A code was sent." "" email otp_ttl 0 expiresAt 0) failureOTPRender
      end
  end).

(** The email connector a form names. *)
Definition email_connector_of (id : string) : bool :=
  match Config.UserLoginConnectors cfg !! id with
  | Some cc => (Connectorc.Type_ cc =? "email")%string
  | None => false
  end.

Definition remote_ip (r : Http.Request) : string :=
  match Config.Email_ cfg ≫= Email.Turnstile with
  | Some turnstile =>
      match Turnstilec.RemoteIP turnstile with
      | Some ip => remoteIPFromRequest r (RemoteIPc.Source ip) (RemoteIPc.Header ip)
      | None => ""
      end
  | None => ""
  end.

Definition HandleEmailStart (r : Http.Request) : proc -> Answer.Response * proc := run (
  return_if (negb (Http.Method r =? "POST")%string) (renderBrowserError 405 failureEmailStartMethod) ;;
  match parseBrowserForm r ["state"; "connector"; "cf-turnstile-response"; "email"] with
  | inr refused => return_ refused
  | inl form =>
      '(state, err) ← call (on_store (DecodeState (Get form "state")));
      match state, err with
      | Some state, None =>
          if negb (is_empty (Auth.ConnectorID state)) then browser_error 400 failureEmailState
          else
          let connectorID := Get form "connector" in
          if negb (email_connector_of connectorID) then browser_error 400 failureEmailConnector
          else
          let state := state <| Auth.ConnectorID := connectorID |> in
          err ← call (on_peers (VerifyChallenge (Get form "cf-turnstile-response") (remote_ip r)));
          if is_some (err : option error)
          then error_page 400 failureEmailSecurityCheck "Security check failed"
                 "We couldn't verify the security check. Return to sign in and try again."
          else match normalizeEmail (Get form "email") with
          | None => error_page 400 failureEmailAddress "Check your email address" "Enter a valid email address and try again."
          | Some email => call (beginOTP state connectorID email email)
          end
      | _, _ => browser_error 400 failureEmailState
      end
  end).

(** Email verification is configured. *)
Definition email_available : bool := is_some (Config.Email_ cfg) && has_mailer && negb (is_empty otpSecret).
Definition email_unavailable {A} : handler A :=
  error_page 404 failureEmailVerificationUnavailable "Email verification unavailable"
    "Email verification isn't available. Return and choose another sign-in method.".

Definition otp_failure {A} (e : error) (reason : browserFailureReason) : handler A :=
  if errors_is e ErrInvalidOTPChallenge
  then error_page 400 failureOTPChallenge "Verification request unavailable"
         "This verification request has expired or can no longer be used. Start sign-in again."
  else error_page 500 reason "Email verification unavailable"
         "We couldn't verify your code right now. Wait a moment and try again.".

Definition HandleEmailVerify (r : Http.Request) : proc -> Answer.Response * proc := run (
  return_if (negb (Http.Method r =? "POST")%string) (renderBrowserError 405 failureEmailVerifyMethod) ;;
  if negb email_available then email_unavailable
  else
  match parseBrowserForm r ["challenge"; "code"] with
  | inr refused => return_ refused
  | inl form =>
      let challengeID := Get form "challenge" in
      let code := Get form "code" in
      if negb (len code =? 8)
      then error_page 400 failureOTPCodeFormat "Check your verification code"
             "Enter the 8-digit code from your email and try again."
      else
      now ← Now;
      '(activeFlow, expiresAt, lookupErr) ← call (on_store (LookupOTPFlow challengeID now));
      match (lookupErr : option error) with
      | Some e => otp_failure e failureOTPLookup
      | None =>
      '(flow, err) ← call (on_store (ConsumeOTP challengeID code otpSecret now));
      match (err : option error) with
      | Some e =>
          if errors_is e ErrInvalidOTPCode
          then page 400 (OTPPage "Verify email" challengeID "" "That code isn't valid. Check it and try again." (Flow.Email activeFlow)
                           (sub expiresAt now) 0 expiresAt 0) failureOTPRender
          else otp_failure e failureOTPConsume
      | None =>
          saved_at ← Now;
          err ← call (on_store (SaveCredential (Flow.ConnectorID flow) (Flow.Subject flow) (Flow.Email flow) true saved_at));
          if is_some (err : option error)
          then return_ (redirectAuthorizationError (Flow.RedirectURI flow) (Flow.OIDCState flow) "server_error"
                          failureOTPCredentialSave)
          else call (complete (flow_state flow) (Flow.Subject flow) (Flow.Email flow) true)
      end end
  end).

(** [errors.As] for [*OTPResendError]. *)
Fixpoint as_resend_error (err : error) : option duration :=
  match err with
  | OTPResendError retryAfter => Some retryAfter
  | Wrapped _ e | IndeterminateError e => as_resend_error e
  | _ => None
  end.

(** The answer to a resend that failed. *)
Definition resend_failed (id email : string) (e : error) : Answer.Response :=
  let failed status retryAfter retryAfterSeconds headers :=
    with_headers headers
      (renderBrowserPage status
         (OTPPage "Verify email" id "" "A new code could not be sent. Wait a moment and try again." email otp_ttl
            retryAfter zero_time retryAfterSeconds)
         failureOTPRender) in
  match as_resend_error e with
  | None => failed 500 0 0 []
  | Some retryAfter =>
      if 0 <? retryAfter
      then let seconds := Z.quot (wrap64 (retryAfter + second - 1)) second in
           failed 429 retryAfter seconds [("Retry-After", pretty seconds)]
      else failed 400 retryAfter 0 []
  end.

Definition HandleEmailResend (r : Http.Request) : proc -> Answer.Response * proc := run (
  return_if (negb (Http.Method r =? "POST")%string) (renderBrowserError 405 failureEmailResendMethod) ;;
  if negb email_available then email_unavailable
  else
  match parseBrowserForm r ["challenge"] with
  | inr refused => return_ refused
  | inl form =>
      let id := Get form "challenge" in
      drawn ← call (on_store otpCode);
      match drawn with
      | inr e => mret (resend_failed id "" e)
      | inl code =>
          now ← Now;
          '(flow, expiresAt, err) ← call (on_store (ResendOTP id code otpSecret now otp_ttl));
          match (err : option error) with
          | Some e => mret (resend_failed id (Flow.Email flow) e)
          | None =>
              _ ← call (on_peers (SendOTP (Flow.Email flow) code expiresAt));
              page 200 (OTPPage "Verify email" id "A new code was sent." "" (Flow.Email flow) otp_ttl 0 expiresAt 0) failureOTPRender
          end
      end
  end).

(** ** The identity a login provider asserts *)

Definition verification_mode : string :=
  match Config.Email_ cfg with Some e => Email.VerificationMode e | None => "disabled" end.

Definition acceptOrChallenge (state : Auth.OAuthState) (id subject : string) (assertion : Identity.Email)
  : proc -> Answer.Response * proc := run (
  if is_empty (trim_space subject) then flow_error state "server_error" failureCallbackIdentity
  else match normalizeEmail (Identity.Address assertion) with
  | None => flow_error state "server_error" failureCallbackEmail
  | Some email =>
      '(exists_, local, err) ← call (on_store (CredentialVerified id subject email));
      if is_some (err : option error) then flow_error state "server_error" failureCallbackCredentialLookup
      else if verificationAccepted verification_mode (Identity.Verified assertion) local
      then
        err ← (if negb exists_ || Identity.Verified assertion
               then now ← Now; call (on_store (SaveCredential id subject email local now))
               else mret None : handler (option error));
        if is_some (err : option error) then flow_error state "server_error" failureCallbackCredentialSave
        else call (complete state subject email (local || Identity.Verified assertion))
      else if is_nil (Config.Email_ cfg) || negb has_mailer
      then flow_error state "access_denied" failureCallbackEmailVerificationUnavailable
      else call (beginOTP state id subject email)
  end).

Definition assertion_of (e : Identity.Email) : EmailAssertion :=
  {| Schema.Address := Identity.Address e; Schema.Verified := Identity.Verified e; Schema.Primary := Identity.Primary e |}.
Definition email_of (e : EmailAssertion) : Identity.Email :=
  {| Identity.Address := Schema.Address e; Identity.Verified := Schema.Verified e; Identity.Primary := Schema.Primary e |}.
Definition email_data (e : Identity.Email) : EmailData :=
  {| mail_Address := Identity.Address e; mail_Verified := Identity.Verified e; mail_Primary := Identity.Primary e |}.

Definition renderIdentitySelection (stateToken connectorID : string) (identity : Identity.Identity)
  : proc -> Answer.Response * proc := run (
  '(token, err) ← call (on_store GenerateStateToken);
  err ← (if is_some (err : option error) then mret err
         else call (on_store (CreateIdentitySelection token stateToken connectorID (Identity.Subject identity)
                                (map assertion_of (Identity.Emails identity)) authorizationStateTTL (5 * minute)))
         : handler (option error));
  if is_some (err : option error) then browser_error 500 failureIdentitySelectionCreate
  else page 200 (IdentityPage "Choose an email" token (map email_data (Identity.Emails identity))) failureIdentitySelectionRender).

Definition HandleIdentitySelect (r : Http.Request) : proc -> Answer.Response * proc := run (
  match parseBrowserForm r ["token"; "index"] with
  | inr refused => return_ refused
  | inl form =>
      now ← Now;
      '(stateToken, connectorID, subject, emails, err) ← call (on_store (ConsumeIdentitySelection (Get form "token") now));
      match (err : option error), parse_int64 (Get form "index") with
      | None, Some index =>
          match (if 0 <=? index then (emails : list EmailAssertion) !! Z.to_nat index else None) with
          | None => browser_error 400 failureIdentitySelection
          | Some chosen =>
              '(state, err) ← call (on_store (DecodeState stateToken));
              match state, err with
              | Some state, None =>
                  if negb (Auth.ConnectorID state =? connectorID)%string
                  then browser_error 400 failureIdentitySelectionConnectorMismatch
                  else call (acceptOrChallenge state connectorID subject (email_of chosen))
              | _, _ => browser_error 400 failureIdentitySelectionState
              end
          end
      | _, _ => browser_error 400 failureIdentitySelection
      end
  end).

(** The credential of the login is kept for the flow when it may back a refresh grant. *)
Definition keep_credential (state : Auth.OAuthState) (stateToken id : string) (token : Cred.Credential) : handler unit :=
  if is_empty (Auth.RefreshMode state) then mret tt
  else match marshal_credential token with
  | None => flow_error state "server_error" failureCallbackCredentialEncode
  | Some credential =>
      if negb (len encryptionKey =? 32) then flow_error state "server_error" failureCallbackCredentialEncode
      else
      '(nonce, ciphertext, err) ← call (on_store
         (EncryptTemporaryCredential encryptionKey stateToken (Auth.ClientID state) id credential));
      if is_some (err : option error) then flow_error state "server_error" failureCallbackCredentialSave
      else
      now ← Now;
      err ← call (on_store (SaveFlowCredential "" stateToken (Auth.ClientID state) id nonce ciphertext (add now (10 * minute)) Local));
      if is_some (err : option error) then flow_error state "server_error" failureCallbackCredentialSave
      else mret tt
  end.

(** [strings.TrimPrefix] *)
Definition trim_prefix (prefix s : string) : string :=
  if has_prefix s prefix then drop_bytes (String.length prefix) s else s.

(** The credential and the identity the provider returns for the code of the callback. *)
Definition login (state : Auth.OAuthState) (stateToken id code : string) : handler Identity.Identity :=
  '(token, err) ← call (on_peers (Exchange id code));
  match (token : option Cred.Credential), (err : option error) with
  | _, Some _ => flow_error state "server_error" failureCallbackExchange
  | None, None => return_ panicked
  | Some token, None =>
      keep_credential state stateToken id token ;;
      '(identity, err) ← call (on_peers (GetIdentity id (OAuthToken token)));
      if is_some (err : option error) then flow_error state "server_error" failureCallbackIdentityLookup
      else if is_empty (trim_space (Identity.Subject identity)) || (length (Identity.Emails identity) =? 0)%nat
      then flow_error state "server_error" failureCallbackIdentity
      else mret identity
  end.

Definition HandleCallback (r : Http.Request) : proc -> Answer.Response * proc := run (
  let q := Http.Query r in
  let stateToken := Get q "state" in
  '(state, err) ← call (on_store (PeekAuthState stateToken));
  match state, err with
  | Some state, None =>
      if negb (is_empty (Get q "error")) then flow_error state "access_denied" failureCallbackUpstreamDenied
      else
      let id := trim_prefix "/callback/" (Http.Path r) in
      if is_empty id || negb (id =? Auth.ConnectorID state)%string
      then flow_error state "invalid_request" failureCallbackConnectorMismatch
      else if negb (has_connector id) then flow_error state "server_error" failureCallbackConnectorUnavailable
      else
      identity ← login state stateToken id (Get q "code");
      match Identity.Emails identity with
      | [assertion] =>
          '(state, err) ← call (on_store (DecodeState stateToken));
          match state, err with
          | Some state, None => call (acceptOrChallenge state id (Identity.Subject identity) assertion)
          | _, _ => browser_error 400 failureCallbackStateConsumption
          end
      | _ => call (renderIdentitySelection stateToken id identity)
      end
  | _, _ => browser_error 400 failureCallbackState
  end).

(** ** The choice of a connector *)

(** [sort.Slice] of the identifiers by order, display name and identifier. *)
Definition connector_key (id : string) : Z * string :=
  match Config.UserLoginConnectors cfg !! id with
  | Some cc => (Connectorc.Order cc, Connectorc.DisplayName cc)
  | None => (0, "")
  end.
Definition shown_before (a b : string) : bool :=
  let '(oa, na) := connector_key a in
  let '(ob, nb) := connector_key b in
  if negb (oa =? ob) then oa <? ob
  else if negb (na =? nb)%string then (na <? nb)%string
  else (a <=? b)%string.
Definition display_order (a b : string) : Prop := shown_before a b = true.
#[local] Instance display_order_dec : RelDecision display_order := fun a b => decide (shown_before a b = true).
Definition connectorIDs : list string :=
  merge_sort display_order (map fst (map_to_list (Config.UserLoginConnectors cfg))).

Definition connector_data (token id : string) : ConnectorData :=
  let url := "/select/" +:+ PathEscape id +:+ "?state=" +:+ QueryEscape token in
  match Config.UserLoginConnectors cfg !! id with
  | Some cc => {| conn_ID := id; conn_DisplayName := Connectorc.DisplayName cc; conn_URL := url;
                  conn_Email := (Connectorc.Type_ cc =? "email")%string |}
  | None => {| conn_ID := id; conn_DisplayName := ""; conn_URL := url; conn_Email := false |}
  end.

Definition renderSelectorWithState (state : Auth.OAuthState) (ids : list string) (token : string) : Answer.Response :=
  let site := match Config.Email_ cfg ≫= Email.Turnstile with Some turnstile => Turnstilec.SiteKey turnstile | None => "" end in
  let '(title, screen) := if (Auth.Purpose state =? "authorize_create")%string then ("Sign up", "signup") else ("Sign in", "login") in
  renderBrowserPage 200 (SelectorPage title screen token site (map (connector_data token) ids)) failureSelectorRender.

Definition renderSelector (state : Auth.OAuthState) (ids : list string) : proc -> Answer.Response * proc := run (
  '(token, err) ← call (on_store (EncodeState state));
  if is_some (err : option error) then browser_error 500 failureSelectorStateEncode
  else mret (renderSelectorWithState state ids token)).

(** The parameters added to the authorization URL of a login that may back a refresh grant. *)
Definition login_options (cc : Connectorc.ConnectorConfig) : list (string * string) :=
  if (Connectorc.Type_ cc =? "google")%string then [("access_type", "offline"); ("prompt", "consent")]
  else if (Connectorc.Type_ cc =? "generic")%string
  then match Connectorc.Generic_ cc ≫= Generic.Refresh with
       | Some (scopes, params) =>
           map_to_list params
           ++ match scopes with
              | [] => []
              | _ => let normal := match Connectorc.Scopes cc with [] => ["openid"; "email"] | l => l end in
                     [("scope", join " " (mergeScopes normal scopes))]
              end
       | None => []
       end
  else [].

Definition selectConnector (id : string) (state : Auth.OAuthState) : proc -> Answer.Response * proc := run (
  match Config.UserLoginConnectors cfg !! id with
  | None => browser_error 400 failureConnectorUnknown
  | Some cc =>
      if (Connectorc.Type_ cc =? "email")%string then browser_error 400 failureEmailConnectorSelection
      else
      let state := state <| Auth.ConnectorID := id |> in
      '(token, err) ← call (on_store (EncodeState state));
      if is_some (err : option error) then browser_error 500 failureConnectorStateEncode
      else if negb (has_connector id) then browser_error 503 failureConnectorUnavailable
      else mret (redirect_to 302 (AuthCodeURL id token (if is_empty (Auth.RefreshMode state) then []
                                                        else login_options cc)) [])
  end).

Definition HandleSelect (r : Http.Request) : proc -> Answer.Response * proc := run (
  '(state, err) ← call (on_store (DecodeState (Get (Http.Query r) "state")));
  match state, err with
  | Some state, None =>
      if negb (is_empty (Auth.ConnectorID state)) then browser_error 400 failureSelectorStateAlreadyBound
      else call (selectConnector (Http.connector r) state)
  | _, _ => browser_error 400 failureSelectorState
  end).

(** The one connector a flow goes to without a choice. *)
Definition only_connector (state : Auth.OAuthState) : option string :=
  match connectorIDs with
  | [id] => if negb (email_connector_of id) && negb (Auth.Purpose state =? "authorize_create")%string
            then Some id else None
  | _ => None
  end.

Definition continueAuthorization (state : Auth.OAuthState) : proc -> Answer.Response * proc := run (
  match only_connector state with
  | Some id => call (selectConnector id state)
  | None => call (renderSelector state connectorIDs)
  end).

Definition grants_state (now : time) : Auth.OAuthState :=
  {| Auth.FlowID := ""; Auth.ConnectorID := ""; Auth.ClientID := ""; Auth.RedirectURI := ""; Auth.CodeChallenge := "";
     Auth.Nonce := ""; Auth.OIDCState := ""; Auth.Scopes := ""; Auth.RefreshMode := ""; Auth.AuthTime := now;
     Auth.OfflineConsent := false; Auth.Purpose := "manage_grants"; Auth.DPoPJKT := ""; Auth.PushedAuthorization := false |}.
Definition HandleGrants (r : Http.Request) : proc -> Answer.Response * proc := run (
  return_if (negb (Http.Method r =? "GET")%string) (renderBrowserError 405 failureGrantsMethod) ;;
  now ← Now;
  call (continueAuthorization (grants_state now))).
End Flow.
