(* ===== verification/OidcAuthorize.v ===== *)
(** * internal/oidc: the authorization endpoints

    handle_par.go and handle_authorize.go: a pushed authorization request, an
    authorization request and its continuation, and the consent to offline access. *)

From S2P Require Import Prelude Runtime ReplayCache Schema RefreshToken RefreshStore FlowStore OtpStore GrantStore Json Config Upstream Credentials Services TrustConfig Dpop Trust Http Oidc OidcFlow.

Definition maxPARBody : Z := Z.shiftl 16 10.
Definition request_uri_prefix : string := "urn:ietf:params:oauth:request_uri:".

Section Authorize.
Context `{Env} {P : Type} `{!PolicyResolver P} `{!Connectors P} `{!Mailer P} `{!Challenge P}.
Context `{!AEAD} `{!CredentialJSON} `{!FlowJSON} `{!EmailsJSON} `{!URLs} `{!ProofJSON} `{!JOSE} `{!NetText} `{!MailText} `{!Templates}.
Context (cfg : Config.Config).

Abbreviation proc := (Process (Peers P)).
Abbreviation handler A := (go proc Answer.Response A).

(** The refresh mode of a flow. *)
Definition refresh_mode (client : Client.ClientConfig) (offline : bool) : string :=
  if offline then "offline"
  else if Refreshc.Enabled (Client.RefreshTokens client) then "session" else "".

(** ** Pushed authorization requests *)

Definition par_error {A} (status : Z) (code : string) : handler A := return_ (writeOAuthJSON status code).

(** The form of a pushed request. *)
Definition par_form (r : Http.Request) : Values + Answer.Response :=
  let bad := inr (writeOAuthJSON 400 "invalid_request") in
  let '(media, ok) := parse_media_type (Http.Header r "Content-Type") in
  if negb (is_empty (Http.RawQuery r)) then bad
  else if negb ok || negb (media =? form_type)%string then bad
  else match ParseForm maxPARBody r with
  | inr TooLarge => inr (writeOAuthJSON 413 "invalid_request")
  | inr BadForm => bad
  | inl form =>
      if existsb (fun kv => negb (length kv.2 =? 1)%nat) (map_to_list form) then bad
      else if negb (length (Http.header r "Authorization") =? 0)%nat then bad
      else if present form "client_secret" || present form "request_uri" then bad
      else inl form
  end.

(** The parameters of a pushed request of [client]: its scopes in order. *)
Definition par_scopes (client : Client.ClientConfig) (form : Values) : handler (list string) :=
  let redirect := Get form "redirect_uri" in
  if is_empty redirect || negb (isValidRedirectURI redirect client) then par_error 400 "invalid_request"
  else if negb (Get form "response_type" =? "code")%string || is_empty (Get form "code_challenge")
          || negb (Get form "code_challenge_method" =? "S256")%string
  then par_error 400 "invalid_request"
  else
  let scopes := fields (Get form "scope") in
  match check_scopes client scopes with
  | None => par_error 400 "invalid_scope"
  | Some _ =>
      if is_nil (authorizationPrompt (Get form "prompt")) then par_error 400 "invalid_request"
      else mret (sort_strings scopes)
  end.

(** The key a pushed request is bound to, and its proof. *)
Definition par_proof (client : Client.ClientConfig) (form : Values) (proofs : list string)
  : handler (string * option Dpop.Proof_) :=
  let mode := DPoPc.Mode (Client.DPoP client) in
  let thumbprint := Get form "dpop_jkt" in
  if (1 <? length proofs)%nat
  then par_error 400 (if (mode =? "required")%string then "invalid_dpop_proof" else "invalid_request")
  else if present form "dpop_jkt" && is_empty thumbprint then par_error 400 "invalid_request"
  else match selectDPoP mode thumbprint (length proofs =? 1)%nat with
  | inr code => par_error 400 code
  | inl selected =>
      match proofs with
      | [compact] =>
          now ← Now;
          match ParseAndVerify compact (DPoPc.SigningAlgorithm (Client.DPoP client)) "POST"
                  (PublicEndpointURL (Config.IssuerURL cfg) "par") now with
          | inr _ => par_error 400 "invalid_dpop_proof"
          | inl proof =>
              if negb (is_empty thumbprint) && negb (thumbprint =? Dpop.Thumbprint proof)%string
              then par_error 400 "invalid_dpop_proof"
              else mret (Dpop.Thumbprint proof, Some proof)
          end
      | _ => mret (selected, None)
      end
  end.

Definition pushed_request (uri clientID : string) (form : Values) (scopes : list string) (jkt : string) (now : time)
  : Pushed.PushedRequest :=
  {| Pushed.RequestURI := uri; Pushed.ClientID := clientID; Pushed.RedirectURI := Get form "redirect_uri";
     Pushed.ResponseType := "code"; Pushed.Scopes := join " " scopes; Pushed.State := Get form "state";
     Pushed.Nonce := Get form "nonce"; Pushed.CodeChallenge := Get form "code_challenge";
     Pushed.CodeChallengeMethod := "S256"; Pushed.Prompt := Get form "prompt"; Pushed.DPoPJKT := jkt;
     Pushed.CreatedAt := now; Pushed.ExpiresAt := add now (60 * second) |}.

(** The proof is reserved, then the request is stored. *)
Definition store_pushed (pushed : Pushed.PushedRequest) (proof : option Dpop.Proof_) (now : time) : handler (option error) :=
  err ← (match proof with
         | Some proof => reserveDPoP proof now
         | None => mret None
         end : handler (option error));
  match err with
  | Some _ => mret err
  | None => call (on_store (SavePushedRequest pushed))
  end.

Definition push (form : Values) (proofs : list string) : proc -> Answer.Response * proc := run (
  let clientID := Get form "client_id" in
  '(resolved, err) ← call (on_peers (ResolveClient clientID false));
  if is_err err ErrDenied then par_error 400 "invalid_request"
  else if is_some (err : option error) then par_error 503 "temporarily_unavailable"
  else
  let client := Resolved.Config resolved in
  scopes ← par_scopes client form;
  '(jkt, proof) ← par_proof client form proofs;
  '(value, err) ← call (on_store GenerateStateToken);
  if is_some (err : option error) then par_error 503 "temporarily_unavailable"
  else
  let uri := request_uri_prefix +:+ value in
  now ← Now;
  err ← store_pushed (pushed_request uri clientID form scopes jkt now) proof now;
  if is_err err ErrReplay || is_err err ErrReplayCacheFull then par_error 400 "invalid_dpop_proof"
  else if is_some err then par_error 503 "temporarily_unavailable"
  else mret (reply 201 [json_type] (JSONBody [("request_uri", JString uri); ("expires_in", JNumber "60")]))).

Definition HandlePAR (r : Http.Request) : proc -> Answer.Response * proc := run (
  return_if (negb (Http.Method r =? "POST")%string) (writeOAuthJSON 405 "invalid_request") ;;
  match par_form r with
  | inr refused => mret (with_headers [("Cache-Control", "no-store")] refused)
  | inl form =>
      answer ← call (push form (Http.header r "DPoP"));
      mret (with_headers [("Cache-Control", "no-store")] answer)
  end).

(** ** Authorization requests *)

(** An error to a validated redirect URI. *)
Definition request_error {A} (redirect state code : string) (reason : browserFailureReason) : handler A :=
  return_ (redirectAuthorizationError redirect state code reason).

(** The prompt of a request: the purpose of the flow, when it may interact. *)
Definition request_purpose (redirect state prompt : string) (offline : bool) : handler string :=
  if offline && (prompt =? "none")%string
  then request_error redirect state "consent_required" failureAuthorizationConsentRequired
  else match authorizationPrompt prompt with
  | None => request_error redirect state "invalid_request" failureAuthorizationPrompt
  | Some (purpose, no_interaction) =>
      if no_interaction : bool
      then request_error redirect state "login_required" failureAuthorizationLoginRequired
      else mret purpose
  end.

(** The parameters of an authorization request of a client with a validated redirect URI:
    the key it is bound to, its scopes in order, whether it asks for offline access, its
    purpose and its challenge. *)
Definition authorize_parameters (client : Client.ClientConfig) (q : Values) (proofs : list string)
  : handler (string * list string * bool * string * string) :=
  let redirect := Get q "redirect_uri" in
  let fail {A} (code : string) (reason : browserFailureReason) : handler A :=
    request_error redirect (Get q "state") code reason in
  if existsb (fun kv => negb (length kv.2 =? 1)%nat) (map_to_list q)
  then fail "invalid_request" failureAuthorizationParameterDuplicate
  else if negb (length proofs =? 0)%nat then fail "invalid_request" failureAuthorizationDPoPHeaderUnexpected
  else if present q "dpop_jkt" && is_empty (Get q "dpop_jkt") then fail "invalid_request" failureAuthorizationDPoPJKT
  else match selectDPoP (DPoPc.Mode (Client.DPoP client)) (Get q "dpop_jkt") false with
  | inr code => fail code failureAuthorizationDPoP
  | inl jkt =>
      if negb (Get q "response_type" =? "code")%string
      then fail "unsupported_response_type" failureAuthorizationResponseTypeUnsupported
      else
      let requested := fields (Get q "scope") in
      match check_scopes client requested with
      | None => fail "invalid_scope" failureAuthorizationScope
      | Some offline =>
          purpose ← request_purpose redirect (Get q "state") (Get q "prompt") offline;
          let challenge := Get q "code_challenge" in
          if is_empty challenge || negb (Get q "code_challenge_method" =? "S256")%string
          then fail "invalid_request" failureAuthorizationPKCE
          else mret (jkt, sort_strings requested, offline, purpose, challenge)
      end
  end.

Definition authorization_state (clientID : string) (q : Values) (jkt scopes mode purpose challenge : string) (now : time)
  : Auth.OAuthState :=
  {| Auth.FlowID := ""; Auth.ConnectorID := ""; Auth.ClientID := clientID; Auth.RedirectURI := Get q "redirect_uri";
     Auth.CodeChallenge := challenge; Auth.Nonce := Get q "nonce"; Auth.OIDCState := Get q "state";
     Auth.Scopes := scopes; Auth.RefreshMode := mode; Auth.AuthTime := now; Auth.OfflineConsent := false;
     Auth.Purpose := purpose; Auth.DPoPJKT := jkt; Auth.PushedAuthorization := false |}.

Definition authorize (q : Values) (proofs : list string) : proc -> Answer.Response * proc := run (
  let clientID := Get q "client_id" in
  return_if (negb (length (values_of q "client_id") =? 1)%nat || negb (length (values_of q "redirect_uri") =? 1)%nat)
    (renderBrowserError 400 failureInvalidAuthorizationRequest) ;;
  '(resolved, err) ← call (on_peers (ResolveClient clientID false));
  if is_err err ErrDenied then browser_error 400 failureUnknownClient
  else if is_some (err : option error) then browser_error 503 failureClientPolicyUnavailable
  else
  let client := Resolved.Config resolved in
  return_if (Client.RequirePAR client) (renderBrowserError 400 failurePushedAuthorizationRequired) ;;
  return_if (is_empty (Get q "redirect_uri") || negb (isValidRedirectURI (Get q "redirect_uri") client))
    (renderBrowserError 400 failureInvalidRedirectURI) ;;
  '(jkt, scopes, offline, purpose, challenge) ← authorize_parameters client q proofs;
  now ← Now;
  let state := authorization_state clientID q jkt (join " " scopes) (refresh_mode client offline) purpose challenge now in
  if offline : bool
  then
    '(token, err) ← call (on_store (EncodeState state));
    if is_some (err : option error) then browser_error 500 failureConsentStateEncode
    else page 200 (ConsentPage "Allow offline access" token clientID) failureConsentRender
  else call (continueAuthorization cfg state)).

(** ** Authorization of a pushed request *)

Definition pushed_state (clientID : string) (pushed : Pushed.PushedRequest) (mode purpose : string) (now : time)
  : Auth.OAuthState :=
  {| Auth.FlowID := ""; Auth.ConnectorID := ""; Auth.ClientID := clientID; Auth.RedirectURI := Pushed.RedirectURI pushed;
     Auth.CodeChallenge := Pushed.CodeChallenge pushed; Auth.Nonce := Pushed.Nonce pushed;
     Auth.OIDCState := Pushed.State pushed; Auth.Scopes := Pushed.Scopes pushed; Auth.RefreshMode := mode;
     Auth.AuthTime := now; Auth.OfflineConsent := false; Auth.Purpose := purpose; Auth.DPoPJKT := Pushed.DPoPJKT pushed;
     Auth.PushedAuthorization := true |}.

(** The pushed request under the policy in force: its refresh mode and purpose. *)
Definition pushed_parameters (client : Client.ClientConfig) (pushed : Pushed.PushedRequest) : handler (string * string) :=
  let refresh := Client.RefreshTokens client in
  let redirect := Pushed.RedirectURI pushed in
  let offline := asks_offline (Pushed.Scopes pushed) in
  if negb (isValidRedirectURI redirect client) then browser_error 400 failurePushedAuthorizationRedirect
  else if negb (Bool.eqb (DPoPc.Mode (Client.DPoP client) =? "required")%string (negb (is_empty (Pushed.DPoPJKT pushed))))
  then request_error redirect (Pushed.State pushed) "invalid_request" failureAuthorizationPARRequest
  else if offline && (negb (Refreshc.Enabled refresh) || negb (Refreshc.AllowOfflineAccess refresh))
  then request_error redirect (Pushed.State pushed) "invalid_request" failureAuthorizationPARRequest
  else
    purpose ← request_purpose redirect (Pushed.State pushed) (Pushed.Prompt pushed) offline;
    mret (refresh_mode client offline, purpose).

Definition handlePushedAuthorize (clientID requestURI : string) : proc -> Answer.Response * proc := run (
  '(resolved, err) ← call (on_peers (ResolveClient clientID false));
  match (err : option error) with
  | Some e => if errors_is e ErrDenied then browser_error 400 failureUnknownPushedAuthorizationClient
              else browser_error 503 failurePushedAuthorizationPolicyUnavailable
  | None =>
      now ← Now;
      '(pushed, err) ← call (on_store (ConsumePushedRequest requestURI clientID now));
      match pushed, (err : option error) with
      | _, Some e => if errors_is e ErrInvalidGrant then browser_error 400 failurePushedAuthorization
                     else browser_error 503 failurePushedAuthorizationStoreUnavailable
      | None, None => return_ panicked
      | Some pushed, None =>
          '(mode, purpose) ← pushed_parameters (Resolved.Config resolved) pushed;
          '(token, err) ← call (on_store (EncodeState (pushed_state clientID pushed mode purpose now)));
          if is_some (err : option error) then browser_error 500 failurePushedAuthorizationStateEncode
          else mret (with_headers [("Cache-Control", "no-store")]
                       (redirect_to 303 "/authorize/continue" [("state", token)]))
      end
  end).

Definition HandleAuthorize (r : Http.Request) : proc -> Answer.Response * proc := run (
  let q := Http.Query r in
  if present q "request_uri" then
    return_if (negb (size q =? 2)%nat || negb (length (values_of q "client_id") =? 1)%nat
               || negb (length (values_of q "request_uri") =? 1)%nat
               || is_empty (Get q "client_id") || is_empty (Get q "request_uri"))
      (renderBrowserError 400 failureInvalidPushedAuthorizationRequest) ;;
    call (handlePushedAuthorize (Get q "client_id") (Get q "request_uri"))
  else call (authorize q (Http.header r "DPoP"))).

Definition HandleAuthorizeContinue (r : Http.Request) : proc -> Answer.Response * proc := run (
  let q := Http.Query r in
  let invalid {A} : handler A := browser_error 400 failurePushedAuthorizationContinuation in
  let token := Get q "state" in
  return_if (negb (size q =? 1)%nat || negb (length (values_of q "state") =? 1)%nat || is_empty token)
    (renderBrowserError 400 failurePushedAuthorizationContinuation) ;;
  '(state, err) ← call (on_store (PeekAuthState token));
  match state, err with
  | Some state, None =>
      if negb (Auth.PushedAuthorization state) || negb (is_empty (Auth.ConnectorID state)) then invalid
      else if asks_offline (Auth.Scopes state)
      then page 200 (ConsentPage "Allow offline access" token (Auth.ClientID state)) failurePushedConsentRender
      else match only_connector cfg state with
      | Some id =>
          '(state, err) ← call (on_store (DecodeState token));
          match state, err with
          | Some state, None => call (selectConnector cfg id state)
          | _, _ => invalid
          end
      | None => mret (renderSelectorWithState cfg state (connectorIDs cfg) token)
      end
  | _, _ => invalid
  end).

(** ** Consent *)

Definition HandleConsent (r : Http.Request) : proc -> Answer.Response * proc := run (
  return_if (negb (Http.Method r =? "POST")%string) (renderBrowserError 405 failureConsentMethod) ;;
  match parseBrowserForm r ["state"; "decision"] with
  | inr refused => return_ refused
  | inl form =>
      '(state, err) ← call (on_store (DecodeState (Get form "state")));
      match state, err with
      | Some state, None =>
          if negb (Auth.RefreshMode state =? "offline")%string then browser_error 400 failureConsentState
          else if negb (Get form "decision" =? "accept")%string
          then flow_error state "access_denied" failureAuthorizationConsentDenied
          else call (continueAuthorization cfg (state <| Auth.OfflineConsent := true |>))
      | _, _ => browser_error 400 failureConsentState
      end
  end).
End Authorize.
