(* ===== verification/Server.v ===== *)
(** * internal/oidc: the server

    handle_discovery.go, handle_jwks.go, handle_health.go, handle_fallback.go, the
    middleware of request_limits.go and the routes of cmd/serve.go: one request goes
    through the security headers and the rate limit to the handler of its path.

    The multiplexer answers an unclean path with a redirect before any handler; the
    paths here are clean and decoded. *)

From S2P Require Import Prelude Runtime ReplayCache Schema RefreshToken RefreshStore FlowStore OtpStore GrantStore Json Config Upstream Credentials Tokens Services TrustPolicy TrustConfig Dpop Trust Http Oidc OidcToken OidcResource OidcFlow OidcAuthorize.

(** The token bucket of a public endpoint, the readiness of the database, the templates by
    the page data they are executed with, and their public files and pages. *)
Class Limiter (P : Type) := allow : string -> P -> bool * P.
Class Readiness (P : Type) := ready : P -> bool * P.
Class PageTemplates := page_templates : PageData -> Templates.
Class PublicPages := HandlePublic : Http.Request -> PageData -> Answer.Response.

Definition limited_endpoints : list string := ["/par"; "/token"; "/revoke"].
Definition security_headers : list (string * string) :=
  [("Content-Security-Policy", "frame-ancestors 'none'"); ("Referrer-Policy", "no-referrer"); ("X-Frame-Options", "DENY")].

Definition strings (l : list string) : json := JArray (map JString l).

Section Server.
Context `{Env} {P : Type} `{!PolicyResolver P} `{!TrustResolver P} `{!Connectors P} `{!Contexts P} `{!HTTPClient P}.
Context `{!Mailer P} `{!Challenge P} `{!Limiter P} `{!Readiness P} `{!PublicPages}.
Context `{!AEAD} `{!JWT} `{!CredentialJSON} `{!ExternalJWT} `{!FlowJSON} `{!EmailsJSON} `{!URLs} `{!ProofJSON} `{!JOSE}.
Context `{!MetadataJSON} `{!JSONLib} `{!NetText} `{!MailText} `{!PageTemplates} `{!Sprint}.

(** [oidc.Server]: the configuration, the signer, the secrets and whether a mail transport
    is configured; the other members are the state of the process and its peers. *)
Record Server := {
  config : Config.Config;
  signer : Signer;
  jwksData : string;
  otpSecret : string;
  encryptionKey : string;
  has_mailer : bool
}.

Context (s : Server).

Abbreviation proc := (Process (Peers P)).

Definition HandleDiscovery : Answer.Response :=
  let issuer := Config.IssuerURL (config s) in
  let endpoint name := JString (PublicEndpointURL issuer name) in
  oauthJSON 200
    [("issuer", JString issuer); ("authorization_endpoint", endpoint "authorize");
     ("token_endpoint", endpoint "token"); ("revocation_endpoint", endpoint "revoke");
     ("userinfo_endpoint", endpoint "userinfo"); ("jwks_uri", endpoint "jwks");
     ("pushed_authorization_request_endpoint", endpoint "par");
     ("dpop_signing_alg_values_supported", strings ["ES256"; "ES512"]);
     ("response_types_supported", strings ["code"]); ("subject_types_supported", strings ["public"]);
     ("id_token_signing_alg_values_supported", strings [Config.SigningAlgorithm (config s)]);
     ("scopes_supported", strings ["openid"; "email"; "profile"; "groups"; "offline_access"]);
     ("grant_types_supported",
      strings ["authorization_code"; "refresh_token"; "urn:ietf:params:oauth:grant-type:token-exchange"]);
     ("token_endpoint_auth_methods_supported", strings ["none"]);
     ("claims_supported", strings ["sub"; "email"; "email_verified"; "preferred_username"; "groups"]);
     ("code_challenge_methods_supported", strings ["S256"]);
     ("prompt_values_supported", strings ["none"; "login"; "create"])].

(** The data of a key set is served as it was loaded. *)
Definition HandleJWKS : Answer.Response :=
  {| Answer.Status := 200; Answer.Headers := [json_type]; Answer.Location := None;
     Answer.Content := RawBody (jwksData s) |}.

Definition HandleHealth : proc -> Answer.Response * proc := run (
  ok ← call (on_peers (on_outside ready));
  mret (reply (if ok : bool then 200 else 503) [] NoBody)).

Definition pageData (r : Http.Request) : PageData :=
  {| pd_Request := request_data r; pd_IssuerURL := Config.IssuerURL (config s);
     pd_HomepageURL := Config.HomepageURL (config s) |}.
(** The templates as the handlers of a request see them. *)
Definition request_templates (r : Http.Request) : Templates := page_templates (pageData r).

Definition HandleFallback (r : Http.Request) : Answer.Response :=
  let homepage := Config.HomepageURL (config s) in
  if (Http.Path r =? "/")%string && negb (is_empty homepage) && mem (Http.Method r) ["GET"; "HEAD"]
  then redirect_to 302 homepage []
  else HandlePublic r (pageData r).

(** The connector of a path [/select/{connector}]. *)
Definition selected (path : string) : option string :=
  let id := trim_prefix "/select/" path in
  if has_prefix path "/select/" && negb (is_empty id) && negb (contains id "/") then Some id else None.

Definition pure (answer : Answer.Response) : proc -> Answer.Response * proc := fun w => (answer, w).

(** The routes: a method in a pattern matches that method, GET also HEAD; what no pattern
    matches goes to the fallback. *)
Definition route (r : Http.Request) : proc -> Answer.Response * proc :=
  let path := Http.Path r in
  let templates : Templates := request_templates r in
  let at_path p := (path =? p)%string in
  let get := mem (Http.Method r) ["GET"; "HEAD"] in
  let post := (Http.Method r =? "POST")%string in
  let cfg := config s in
  if at_path "/.well-known/openid-configuration" then pure HandleDiscovery
  else if at_path "/jwks" then pure HandleJWKS
  else if at_path "/authorize" then HandleAuthorize cfg r
  else if get && at_path "/authorize/continue" then HandleAuthorizeContinue cfg r
  else if post && at_path "/par" then HandlePAR cfg r
  else if at_path "/token" then HandleToken cfg (signer s) (encryptionKey s) r
  else if at_path "/revoke" then HandleRevoke cfg (signer s) r
  else if get && at_path "/grants" then HandleGrants cfg r
  else if post && at_path "/grants/revoke" then HandleGrantRevoke r
  else if post && at_path "/consent" then HandleConsent cfg r
  else if at_path "/userinfo" then HandleUserInfo cfg (signer s) r
  else if at_path "/healthz" then HandleHealth
  else if has_prefix path "/callback/" then HandleCallback cfg (otpSecret s) (encryptionKey s) (has_mailer s) r
  else if post && at_path "/identity/select" then HandleIdentitySelect cfg (otpSecret s) (encryptionKey s) (has_mailer s) r
  else if post && at_path "/email/start" then HandleEmailStart cfg (otpSecret s) (has_mailer s) r
  else if post && at_path "/email/verify" then HandleEmailVerify cfg (otpSecret s) (encryptionKey s) (has_mailer s) r
  else if post && at_path "/email/resend" then HandleEmailResend cfg (otpSecret s) (has_mailer s) r
  else match selected path with
       | Some id =>
           if get then HandleSelect cfg
             {| Http.Method := Http.Method r; Http.Host := Http.Host r; Http.Path := path; Http.RawQuery := Http.RawQuery r;
                Http.RemoteAddr := Http.RemoteAddr r; Http.header := Http.header r; Http.connector := id;
                Http.Body := Http.Body r; Http.body_failed := Http.body_failed r |}
           else pure (HandleFallback r)
       | None => pure (HandleFallback r)
       end.

(** [LimitPublicEndpoints]: the handler runs when the bucket of the path has a token. *)
Definition LimitPublicEndpoints (r : Http.Request) : proc -> Answer.Response * proc := run (
  allowed ← (if mem (Http.Path r) limited_endpoints then call (on_peers (on_outside (allow (Http.Path r))))
             else mret true : go proc Answer.Response bool);
  if allowed : bool then call (route r)
  else mret (with_headers [("Retry-After", "1")] (writeOAuthJSON 429 "temporarily_unavailable"))).

(** One request to the server. *)
Definition serve (r : Http.Request) : proc -> Answer.Response * proc := run (
  answer ← call (LimitPublicEndpoints r);
  mret (with_headers security_headers answer)).

(** Requests one after the other, each with the state the one before left. *)
Fixpoint serve_all (requests : list Http.Request) (w : proc) : proc :=
  match requests with
  | [] => w
  | r :: requests => serve_all requests (serve r w).2
  end.
End Server.
