(* ===== verification/ServerHistory.v ===== *)
(** * Every request is a history of store calls

    Whatever a request does, the database changes only by the operations of
    internal/statedb, so what holds of all histories of the store holds of the server;
    and the one operation that stores an authorization code is reached only with a code
    that carries consent when it asks for offline access. *)

From S2P Require Import Prelude Runtime Base64 ReplayCache Schema RefreshToken RefreshStore FlowStore OtpStore GrantStore RefreshSpec FamilySafety StoreSafety FlowSafety Json Config Upstream Credentials Tokens Services RefreshService ExchangeSafety TrustPolicy TrustConfig Dpop Trust Http Oidc OidcToken OidcResource OidcFlow OidcAuthorize Server.

(** ** Randomness *)

(** Randomness is only ever read on. *)
Definition draws_on (w w' : World) : Prop := (c_draw (w_cnt w) <= c_draw (w_cnt w'))%nat.
#[export] Instance draws_on_preorder : PreOrder draws_on.
Proof. split; unfold draws_on; [intros w; done|intros w1 w2 w3 ? ?; lia]. Qed.

Section Draws.
Context `{Env} {R : Type}.
#[local] Abbreviation steps := (steps draws_on id (X := R)).

Lemma draws_begin_tx onerr : steps (begin_tx onerr).
Proof. intros w. unfold wp, begin_tx, draws_on. by destruct (faulty w); cbn. Qed.
Lemma draws_commit_tx onerr : steps (commit_tx onerr).
Proof. intros w. unfold wp, commit_tx, draws_on. by destruct (faulty w); cbn. Qed.
Lemma draws_sql_tx {A} (q : stmt A) onerr : steps (sql_tx q onerr).
Proof. intros w. unfold wp, sql_tx, draws_on. destruct (faulty w); [done|]. by destruct (q (w_tx w)) as [[]|]. Qed.
Lemma draws_sql_db {A} (q : stmt A) onerr : steps (sql_db q onerr).
Proof. intros w. unfold wp, sql_db, draws_on. destruct (faulty w); [done|]. by destruct (q (w_db w)) as [[]|]. Qed.
Lemma draws_now : steps now_.
Proof. intros w. unfold wp, draws_on. done. Qed.
Lemma draws_rand_read n onerr : steps (rand_read n onerr).
Proof.
  intros w. unfold wp, rand_read. destruct (entropy_fault _); [done|]. unfold draws_on. cbn. lia.
Qed.
End Draws.
#[export] Hint Resolve draws_begin_tx draws_commit_tx draws_sql_tx draws_sql_db draws_now draws_rand_read : walk.

(** An operation, by a walk through its body. *)
Ltac by_draws := lazymatch goal with |- Services.calls draws_on id ?op => unfold_head op; by_walk end.

Section DrawsCalled.
Context `{Env}.
Lemma draws_create_actions fuel actions email action now expiry :
  Services.steps draws_on id (create_actions fuel actions email action now expiry).
Proof. revert actions. induction fuel; intros [|??]; cbn [create_actions]; by_walk. Qed.
Lemma draws_insertRefreshToken a b c d : Services.calls draws_on id (insertRefreshToken a b c d).
Proof. by_draws. Qed.
#[local] Hint Resolve draws_insertRefreshToken : walk.
Lemma draws_insert_family a b c d e f g : Services.calls draws_on id (insert_family a b c d e f g).
Proof. by_draws. Qed.
Lemma draws_GenerateStateToken : Services.calls draws_on id GenerateStateToken.
Proof. by_draws. Qed.
End DrawsCalled.
#[export] Hint Resolve draws_create_actions draws_insertRefreshToken draws_insert_family draws_GenerateStateToken : walk.

(** ** Lawful calls *)

Definition consented (c : Code.AuthCode) : Prop := Code.RefreshMode c = "offline" -> Code.OfflineConsent c = true.

(** The text of a code drawn at a position of the randomness. *)
Definition code_at `{Env} (pos : nat) : string := Base64.encode (entropy_bytes pos 32).

(** Calls of the store that store no code without the consent it needs, and no code but
    under its own text, which they draw. *)
Record traced `{Env} (w w' : World) : Prop := {
  traced_calls : rtc store_call w w';
  traced_draws : draws_on w w';
  traced_codes_new : forall k c, auth_codes (w_db w') !! k = Some c ->
    auth_codes (w_db w) !! k = Some c \/
    (consented c /\ Code.Code c = k) /\ exists pos, (c_draw (w_cnt w) <= pos)%nat /\ k = code_at pos
}.

#[export] Instance traced_preorder `{Env} : PreOrder traced.
Proof.
  split; [by intros w; split; [done|done|left]|]. intros w1 w2 w3 [Hc1 Hd1 Hn1] [Hc2 Hd2 Hn2].
  split; [by etrans|by etrans|]. intros k c Hk. destruct (Hn2 _ _ Hk) as [Hk2|(Hc & pos & Hpos & E)]; [by apply Hn1|].
  right. split; [done|]. exists pos. split; [unfold draws_on in Hd1; lia|done].
Qed.

(** Such calls, when they also leave a family that can not be refreshed again as one. *)
Record lawful `{Env} (w w' : World) : Prop := {
  lawful_traced : traced w w';
  lawful_fences : fences_kept (w_db w) (w_db w')
}.

Abbreviation history := (rtc lawful).

Section Lawful.
Context `{Env}.

Lemma traced_weaken w w' :
  store_call w w' -> draws_on w w' -> auth_codes (w_db w') ⊆ auth_codes (w_db w) -> traced w w'.
Proof. intros Hc Hd Hs. split; [by apply rtc_once|done|]. intros k c Hk. left. by eapply lookup_weaken. Qed.

Lemma traced_shrinks w w' : store_call w w' -> draws_on w w' -> shrinks (w_db w) (w_db w') -> traced w w'.
Proof. intros Hc Hd Hs. apply traced_weaken; [done | done | apply Hs]. Qed.

Lemma traced_atomic {R} (op : World -> R * World) err_of spec w :
  store_call w (op w).2 -> draws_on w (op w).2 ->
  atomically op err_of spec w -> (forall s, shrinks s (spec s).2) -> traced w (op w).2.
Proof. intros Hc Hd Ha Hs. apply traced_shrinks; [done | done|]. apply call_shrinks. by eapply atomically_shrinks. Qed.

Lemma traced_codes {B} (op : World -> B * World) w :
  store_call w (op w).2 -> draws_on w (op w).2 -> keeps_at auth_codes op w -> traced w (op w).2.
Proof. intros Hc Hd Hk. apply traced_weaken; [done | done|]. unfold keeps_at, ends in Hk. by rewrite Hk. Qed.

Lemma lawful_quiet w w' : w_db w' = w_db w -> draws_on w w' -> lawful w w'.
Proof.
  intros E Hd. split; [apply traced_weaken; [by apply call_other | done | by rewrite E]|]. by rewrite E.
Qed.
Lemma lawful_idle w w' : w_db w' = w_db w -> c_draw (w_cnt w') = c_draw (w_cnt w) -> lawful w w'.
Proof. intros E Hd. apply lawful_quiet; [done|]. unfold draws_on. by rewrite Hd. Qed.

Lemma history_traced w w' : history w w' -> traced w w'.
Proof. induction 1 as [w|w w1 w' [Hc _] _ IH]; [done|]. by etrans. Qed.

Lemma history_fences w w' : history w w' -> fences_kept (w_db w) (w_db w').
Proof. induction 1 as [w|w w1 w' [_ Hf] _ IH]; [done|]. by etrans. Qed.

Lemma quiet_fences {B} (op : World -> B * World) w : quiet_at op w -> fences_kept (w_db w) (w_db (op w).2).
Proof. intros Hq. apply fences_kept_same. by injection Hq. Qed.

Lemma atomic_fences {R} (op : World -> R * World) err_of spec w :
  atomically op err_of spec w -> (forall s, fences_kept s (spec s).2) -> fences_kept (w_db w) (w_db (op w).2).
Proof.
  unfold atomically, ends. intros [(_ & _ & ->)|E] Hs; [done|]. specialize (Hs (w_db w)). by rewrite E in Hs.
Qed.
End Lawful.

(** *** The contracts keep the fences *)

Section SpecFences.
Context `{Env}.

Lemma prepare_fences m c n s : fences_kept s (prepare_spec m c n s).2.
Proof. unfold prepare_spec. by repeat case_match. Qed.

Lemma claim_fences m c n t f s : fences_kept s (claim_spec m c n t f s).2.
Proof.
  unfold claim_spec. destruct (token_and_grant _ _) as [[tok g]|] eqn:Htok; [|done].
  apply token_and_grant_Some in Htok as [_ Hg].
  destruct (genuine m c tok g) eqn:Hgen; [|done]. cbn [negb].
  assert (g_revoked_at g = None) as Hrev.
  { unfold genuine, not_revoked in Hgen. apply andb_true_iff in Hgen as [_ Hn]. by apply is_nil_true. }
  destruct (is_some (t_consumed_at tok)); [eapply fences_kept_put; [done|by split; [left|]]|].
  destruct (unexpired n tok g); [|done]. cbn [negb]. destruct (claim_alive n g); [done|].
  destruct (is_some _ && _) eqn:Hst; [eapply fences_kept_put; [done|by split; [left|]]|].
  destruct f as [id [e|]]; [done|]. eapply fences_kept_put; [done|]. intros [?|[Hs Hc]]; [done|].
  apply is_some_true in Hc. by rewrite Hc, Hs in Hst.
Qed.

Lemma mark_fences i c n s : fences_kept s (mark_spec i c n s).2.
Proof. apply fences_kept_touch. intros g Hp [?|[? ?]]; (split; [|done]); [by left|by right]. Qed.

Lemma release_fences i c s : fences_kept s (release_spec i c s).2.
Proof.
  apply fences_kept_touch. intros g Hp [?|[Hs ?]]; (split; [|done]); [by left|].
  apply andb_true_iff in Hp as [_ Hp]. by rewrite Hs in Hp.
Qed.

Lemma revoke_grant_fences i c r n s : fences_kept s (revoke_grant_spec i c r n s).2.
Proof. apply fences_kept_touch. intros g _ _. by split; [left|]. Qed.

Lemma revoke_token_fences m c r n s : fences_kept s (revoke_token_spec m c r n s).2.
Proof. unfold revoke_token_spec. case_match; [apply revoke_grant_fences | done]. Qed.

Lemma revoke_credential_fences k c p r n s : fences_kept s (revoke_credential_spec k c p r n s).2.
Proof.
  unfold revoke_credential_spec. cbn [snd]. destruct (inspect_credential k c s) as [[[sid g] t]|] eqn:E; [|done].
  case_match; [|done]. apply inspect_credential_row in E. eapply fences_kept_put; [exact E|]. by split; [left|].
Qed.

Lemma new_family_fences o g n c m t s : fences_kept s (new_family o g n c m t s).2.
Proof.
  unfold new_family. cbv zeta. destruct (_ || _) eqn:E; [done|]. case_match; [done|]. cbn [snd].
  apply orb_false_iff in E as [E _]. apply is_some_false in E.
  apply fences_kept_put_token. intros sid g0 Hg0 Hf. rewrite grants_put_grant, lookup_insert_ne by congruence. eauto.
Qed.

Lemma consume_code_fences e b g m n s : fences_kept s (consume_code_spec e b g m n s).2.
Proof.
  unfold consume_code_spec. destruct (auth_codes s !! _); [|done]. case_match; [done|].
  destruct g as [g|]; [|by apply fences_kept_same]. repeat case_match; cbn [snd]; try done.
  all: match goal with H : new_family ?o ?g ?n ?c ?m ?t ?s0 = _ |- _ =>
     pose proof (new_family_fences o g n c m t s0) as Hs; rewrite H in Hs; cbn [snd] in Hs end.
  all: etrans; [|etrans; [exact Hs|]]; by apply fences_kept_same.
Qed.

Lemma consume_action_fences t e i a n s : fences_kept s (consume_action_spec t e i a n s).2.
Proof.
  unfold consume_action_spec. cbv zeta. case_match; cbn [snd]; [|done].
  match goal with |- fences_kept _ (drop_action _ ?touched) => transitivity touched; [|by apply fences_kept_same] end.
  apply fences_kept_touch. intros ? _ _. by split; [left|].
Qed.
End SpecFences.

#[export] Hint Resolve prepare_fences claim_fences mark_fences release_fences rotate_fences revoke_grant_fences
  revoke_token_fences revoke_credential_fences consume_code_fences consume_action_fences : store.

(** ** Walks that are histories *)

#[local] Abbreviation calls := (calls history).
#[local] Abbreviation steps := (steps history).

Section Histories.
Context `{Env}.

Lemma calls_lawful {B} (op : World -> B * World) : (forall w, lawful w (op w).2) -> calls id op.
Proof. intros Hop w. by apply rtc_once. Qed.

Lemma calls_tables {B} (op : World -> B * World) :
  (forall w, ends op w (fun _ w' => w_db w' = w_db w)) -> Services.calls draws_on id op -> calls id op.
Proof. intros Hop Hd. apply calls_lawful. intros w. apply lawful_quiet; [apply Hop | apply Hd]. Qed.

Lemma steps_Now {P R} : steps (store (P := P)) (X := R) Now.
Proof. intros w. apply wp_Now. by apply rtc_once, lawful_idle. Qed.
Lemma steps_Sleep {P R} d : steps (store (P := P)) (X := R) (Sleep d).
Proof. intros w. apply wp_Sleep. by apply rtc_once, lawful_idle. Qed.
Lemma steps_now {R} : steps id (X := R) now_.
Proof. intros w. apply wp_now. by apply rtc_once, lawful_idle. Qed.
Lemma steps_rand_read {R} n (onerr : R) : steps id (rand_read n onerr).
Proof.
  intros w. pose proof (draws_rand_read n onerr w) as Hd. unfold wp in *.
  apply rtc_once, lawful_quiet; [|exact Hd]. unfold rand_read. by destruct (entropy_fault _).
Qed.
End Histories.

#[export] Hint Resolve steps_Now steps_Sleep steps_now steps_rand_read : walk.

(** ** The operations of the store *)

Create HintDb store_calls.
#[local] Hint Resolve call_GenerateStateToken call_SaveState call_GetAndDeleteState call_PeekState
  call_SaveCredential call_CredentialVerified call_SaveAuthCode call_PeekAuthCode
  call_GetAndDeleteAuthCode call_SaveFlowCredential call_LoadFlowCredential call_SavePushedRequest
  call_ConsumePushedRequest call_CreateOTP call_ResendOTP call_OTPFlow call_ConsumeOTP
  call_ListActiveGrants call_CreateGrantActions call_ConsumeGrantActionAndRevoke
  call_CreateIdentitySelection call_ConsumeIdentitySelection call_ClaimRefresh
  call_MarkUpstreamRefreshStarted call_ReleaseRefreshClaim call_AbortUpstreamRefresh
  call_CompleteClaimedRefresh call_ConsumeAuthCode call_PrepareRefresh call_CreateRefreshGrant
  call_RotateRefreshToken call_RevokeGrant call_RevokeRefreshToken call_RevokeCredential :
  store_calls.

Section Operations.
Context `{Env} `{FlowJSON} `{EmailsJSON}.

(** An operation of the store that is lawful by [lemma], its randomness being walked. *)
Ltac by_lawful lemma :=
  match goal with |- Services.calls _ id ?op =>
    let Hd := fresh in assert (Services.calls draws_on id op) as Hd by by_draws;
    apply calls_lawful; intros w; specialize (Hd w);
    split; [|apply quiet_fences; solve [auto with store]]; apply lemma;
    [solve [auto 1 with store_calls nocore] | exact Hd | ..]
  end.
Ltac by_shrinking := by_lawful traced_shrinks; apply call_shrinks; solve [auto with store].
Ltac by_keeping lemma := by_lawful @traced_codes; apply lemma.
Ltac by_traced :=
  eapply traced_atomic;
    [solve [auto 1 with store_calls nocore] | eassumption | solve [auto with store] | intros; solve [auto with store]].
Ltac by_atomic_call :=
  match goal with |- Services.calls _ id ?op =>
    let Hd := fresh in assert (Services.calls draws_on id op) as Hd by by_draws;
    apply calls_lawful; intros w; specialize (Hd w);
    split; [by_traced|eapply atomic_fences; [solve [auto with store] | intros; solve [auto with store]]]
  end.
Ltac by_traced_call :=
  match goal with |- Services.calls _ id ?op =>
    let Hd := fresh in assert (Services.calls draws_on id op) as Hd by by_draws;
    intros w; specialize (Hd w); cbn [id]; by_traced
  end.

Lemma GenerateStateToken_calls : calls id GenerateStateToken.
Proof. by_shrinking. Qed.
Lemma SaveState_calls s : calls id (SaveState s).
Proof. by_shrinking. Qed.
Lemma GetAndDeleteState_calls s : calls id (GetAndDeleteState s).
Proof. by_shrinking. Qed.
Lemma PeekState_calls s : calls id (PeekState s).
Proof. by_shrinking. Qed.
Lemma SaveCredential_calls a b c d e : calls id (SaveCredential a b c d e).
Proof. by_shrinking. Qed.
Lemma CredentialVerified_calls a b c : calls id (CredentialVerified a b c).
Proof. by_shrinking. Qed.
Lemma PeekAuthCode_calls a b : calls id (PeekAuthCode a b).
Proof. by_shrinking. Qed.
Lemma SaveFlowCredential_calls a b c d e f g z : calls id (SaveFlowCredential a b c d e f g z).
Proof. by_shrinking. Qed.
Lemma LoadFlowCredential_calls a b c d : calls id (LoadFlowCredential a b c d).
Proof. by_shrinking. Qed.
Lemma ConsumePushedRequest_calls a b c : calls id (ConsumePushedRequest a b c).
Proof. by_shrinking. Qed.
Lemma LookupOTPFlow_calls a b : calls id (LookupOTPFlow a b).
Proof. by_shrinking. Qed.
Lemma ConsumeOTP_calls a b c d : calls id (ConsumeOTP a b c d).
Proof. by_shrinking. Qed.
Lemma ListActiveGrants_calls a b : calls id (ListActiveGrants a b).
Proof. by_shrinking. Qed.
Lemma ConsumeIdentitySelection_calls a b : calls id (ConsumeIdentitySelection a b).
Proof. by_shrinking. Qed.
Lemma CreateGrantActions_calls a b c d e : calls id (CreateGrantActions a b c d e).
Proof. by_shrinking. Qed.
Lemma SavePushedRequest_calls a : calls id (SavePushedRequest a).
Proof. by_keeping SavePushedRequest_codes. Qed.
Lemma CreateIdentitySelection_calls a b c d e f g : calls id (CreateIdentitySelection a b c d e f g).
Proof. by_keeping CreateIdentitySelection_codes. Qed.
Lemma CreateOTP_calls a b c d e f g : calls id (CreateOTP a b c d e f g).
Proof. by_keeping CreateOTP_codes. Qed.
Lemma ResendOTP_calls a b c d e : calls id (ResendOTP a b c d e).
Proof. by_keeping ResendOTP_codes. Qed.
Lemma ConsumeGrantActionAndRevoke_calls a b c d e : calls id (ConsumeGrantActionAndRevoke a b c d e).
Proof. by_atomic_call. Qed.
Lemma ClaimRefresh_calls a b c d : calls id (ClaimRefresh a b c d).
Proof. by_atomic_call. Qed.
Lemma MarkUpstreamRefreshStarted_calls a b c : calls id (MarkUpstreamRefreshStarted a b c).
Proof. by_atomic_call. Qed.
Lemma ReleaseRefreshClaim_calls a b : calls id (ReleaseRefreshClaim a b).
Proof. by_atomic_call. Qed.
Lemma AbortUpstreamRefresh_traced a b : Services.calls traced id (AbortUpstreamRefresh a b).
Proof. by_traced_call. Qed.
Lemma CompleteClaimedRefresh_traced a b c d e f g h : Services.calls traced id (CompleteClaimedRefresh a b c d e f g h).
Proof. by_traced_call. Qed.
Lemma ConsumeAuthCode_calls a b c d e : calls id (ConsumeAuthCode a b c d e).
Proof. by_atomic_call. Qed.
Lemma PrepareRefresh_calls a b c : calls id (PrepareRefresh a b c).
Proof. by_atomic_call. Qed.
Lemma RotateRefreshToken_calls a b c d : calls id (RotateRefreshToken a b c d).
Proof. by_atomic_call. Qed.
Lemma RevokeGrant_calls a b c d : calls id (RevokeGrant a b c d).
Proof. by_atomic_call. Qed.
Lemma RevokeCredential_calls a b c d e : calls id (RevokeCredential a b c d e).
Proof. by_atomic_call. Qed.

End Operations.

#[export] Hint Resolve GenerateStateToken_calls SaveState_calls GetAndDeleteState_calls
  PeekState_calls SaveCredential_calls CredentialVerified_calls PeekAuthCode_calls
  SaveFlowCredential_calls LoadFlowCredential_calls ConsumePushedRequest_calls LookupOTPFlow_calls
  ConsumeOTP_calls ListActiveGrants_calls ConsumeIdentitySelection_calls CreateGrantActions_calls
  SavePushedRequest_calls CreateIdentitySelection_calls CreateOTP_calls ResendOTP_calls
  ConsumeGrantActionAndRevoke_calls ClaimRefresh_calls MarkUpstreamRefreshStarted_calls
  ReleaseRefreshClaim_calls AbortUpstreamRefresh_traced CompleteClaimedRefresh_traced
  ConsumeAuthCode_calls PrepareRefresh_calls RotateRefreshToken_calls RevokeGrant_calls
  RevokeCredential_calls : walk.

(** ** What reads no table *)

Section Quiet.
Context `{Env} `{AEAD} `{JWT}.

Lemma GenerateAuthCode_calls : calls id GenerateAuthCode.
Proof. unfold GenerateAuthCode. by_walk. Qed.
Lemma GenerateRefreshMaterial_calls : calls id GenerateRefreshMaterial.
Proof. apply calls_tables; [apply GenerateRefreshMaterial_quiet | by_draws]. Qed.
Lemma EncryptCredential_calls a b c d e : calls id (EncryptCredential a b c d e).
Proof. unfold EncryptCredential, encrypt. by_walk. Qed.
Lemma EncryptTemporaryCredential_calls a b c d e : calls id (EncryptTemporaryCredential a b c d e).
Proof. unfold EncryptTemporaryCredential, encrypt. by_walk. Qed.
Lemma draws_signContext signer context identity : Services.calls draws_on id (signContext signer context identity).
Proof. by_draws. Qed.
#[local] Hint Resolve draws_signContext : walk.
Lemma SignTokenPair_calls signer context : calls id (SignTokenPair signer context).
Proof. apply calls_tables; [intros w; apply SignTokenPair_quiet | by_draws]. Qed.
Lemma SignTrustedIDToken_calls signer context : calls id (SignTrustedIDToken signer context).
Proof. unfold SignTrustedIDToken. by_walk. Qed.
Lemma VerifyToken_calls signer raw : calls id (VerifyToken signer raw).
Proof. unfold VerifyToken. by_walk. Qed.
#[local] Hint Resolve VerifyToken_calls : walk.
Lemma VerifyAccessToken_calls signer raw : calls id (VerifyAccessToken signer raw).
Proof. unfold VerifyAccessToken. by_walk. Qed.
Lemma rand_int_steps fuel : steps id (rand_int fuel).
Proof. induction fuel; cbn [rand_int]; by_walk. Qed.
#[local] Hint Resolve rand_int_steps : walk.
Lemma otpCode_calls : calls id otpCode.
Proof. unfold otpCode. by_walk. Qed.
End Quiet.

#[export] Hint Resolve GenerateAuthCode_calls GenerateRefreshMaterial_calls EncryptCredential_calls
  EncryptTemporaryCredential_calls SignTokenPair_calls SignTrustedIDToken_calls VerifyToken_calls
  VerifyAccessToken_calls otpCode_calls : walk.

(** ** The refresh service *)

Section Service.
Context `{Env} {P : Type} `{!PolicyResolver P} `{!Connectors P} `{!Contexts P}.
Context `{!AEAD} `{!JWT} `{!CredentialJSON}.
Context (cfg : Config.Config) (signer : Signer).

Abbreviation st := (store (P := P)).
#[local] Abbreviation tcalls := (Services.calls traced).
#[local] Abbreviation tsteps := (Services.steps traced).

(** What is a history is traced. *)
Lemma tcalls_history {W B} (view : W -> World) (f : W -> B * W) : calls view f -> tcalls view f.
Proof. intros Hf w. apply history_traced, Hf. Qed.
Lemma tsteps_history {W X A} (view : W -> World) (m : go W X A) : steps view m -> tsteps view m.
Proof. intros Hm w. eapply wp_mono; [apply Hm|]. intros x w'. apply history_traced. Qed.
#[local] Hint Resolve tcalls_history tsteps_history : walk.

Lemma revoke_calls grant reason now : tcalls st (RefreshService.revoke (P := P) grant reason now).
Proof. unfold RefreshService.revoke. by_walk. Qed.
#[local] Hint Resolve revoke_calls : walk.
Lemma revoke_now_steps grant reason {A} : tsteps st (revoke_now (P := P) (A := A) grant reason).
Proof. unfold revoke_now. by_walk. Qed.
#[local] Hint Resolve revoke_now_steps : walk.
Lemma release_steps grant claim : tsteps st (release (P := P) grant claim).
Proof. unfold release. by_walk. Qed.
#[local] Hint Resolve release_steps : walk.
Lemma abandon_steps {A} started grant claim f : tsteps st (abandon (P := P) (A := A) started grant claim f).
Proof. unfold abandon. by_walk. Qed.
#[local] Hint Resolve abandon_steps : walk.
Lemma refreshCredential_calls grant claim credential :
  tcalls st (refreshCredential (P := P) grant claim credential).
Proof. unfold refreshCredential. by_walk. Qed.
#[local] Hint Resolve refreshCredential_calls : walk.
Lemma rotate_attempts_steps n current grant access id last :
  tsteps st (rotate_attempts (P := P) n current grant access id last).
Proof. revert last. induction n; intros; cbn [rotate_attempts]; by_walk. Qed.
#[local] Hint Resolve rotate_attempts_steps : walk.
Lemma poll_again_steps prepared waitUntil e : tsteps st (poll_again (P := P) prepared waitUntil e).
Proof. unfold poll_again. by_walk. Qed.
#[local] Hint Resolve poll_again_steps : walk.
Lemma claim_wait_steps fuel current prepared waitUntil :
  tsteps st (claim_wait (P := P) fuel current prepared waitUntil).
Proof. induction fuel; cbn [claim_wait]; by_walk. Qed.
#[local] Hint Resolve claim_wait_steps : walk.
Lemma complete_attempts_steps n current grant claim encoded absolute expiry access id last :
  tsteps st (complete_attempts (P := P) n current grant claim encoded absolute expiry access id last).
Proof. revert last. induction n; intros; cbn [complete_attempts]; by_walk. Qed.
#[local] Hint Resolve complete_attempts_steps : walk.

Lemma direct_calls current grant expiry scopes narrowed groups now :
  tcalls st (direct (P := P) cfg signer current grant expiry scopes narrowed groups now).
Proof. unfold direct. by_walk. Qed.
Lemma renew_steps grant claim credential now : tsteps st (renew (P := P) grant claim credential now).
Proof. unfold renew. by_walk. Qed.
Lemma identify_steps grant claim credential started :
  tsteps st (identify (P := P) grant claim credential started).
Proof. unfold identify. by_walk. Qed.
Lemma recheck_identity_steps grant claim started identity :
  tsteps st (recheck_identity (P := P) cfg grant claim started identity).
Proof. unfold recheck_identity. by_walk. Qed.
Lemma finish_steps current grant claim credential started verified scopes narrowed groups :
  tsteps st (finish (P := P) cfg signer current grant claim credential started verified scopes narrowed groups).
Proof. unfold finish. by_walk. Qed.
#[local] Hint Resolve direct_calls renew_steps identify_steps recheck_identity_steps finish_steps : walk.
Lemma connector_calls current prepared scopes narrowed groups :
  tcalls st (connector (P := P) cfg signer current prepared scopes narrowed groups).
Proof. unfold connector. by_walk. Qed.
#[local] Hint Resolve connector_calls : walk.
Lemma exchange_prepared_steps req current grant expiry now :
  tsteps st (exchange_prepared (P := P) cfg signer req current grant expiry now).
Proof. unfold exchange_prepared. by_walk. Qed.
#[local] Hint Resolve exchange_prepared_steps : walk.

Lemma Exchange_traced req : tcalls st (RefreshService.Exchange (P := P) cfg signer req).
Proof. unfold RefreshService.Exchange. by_walk. Qed.
Lemma Exchange_calls req : calls st (RefreshService.Exchange (P := P) cfg signer req).
Proof. intros w. apply rtc_once. split; [apply Exchange_traced|apply Exchange_fences]. Qed.
End Service.

#[export] Hint Resolve Exchange_calls : walk.

(** ** Trusted token exchange *)

Section TrustService.
Context `{Env} {P : Type} `{!PolicyResolver P} `{!TrustResolver P} `{!HTTPClient P}.
Context `{!ExternalJWT} `{!URLs} `{!ProofJSON} `{!MetadataJSON} `{!JSONLib}.

Abbreviation st := (store (P := Peers P)).

Lemma fetch_steps {R} dynamic uri : steps st (fetch (R := R) dynamic uri).
Proof. unfold fetch. by_walk. Qed.
#[local] Hint Resolve fetch_steps : walk.
Lemma cached_issuer_steps {R} key : steps st (cached_issuer (P := P) (R := R) key).
Proof. unfold cached_issuer. by_walk. Qed.
Lemma put_issuers_steps {R} f : steps st (put_issuers (P := P) (R := R) f).
Proof. unfold put_issuers. by_walk. Qed.
#[local] Hint Resolve cached_issuer_steps put_issuers_steps : walk.
Lemma getJSON_calls dynamic uri limit : calls st (getJSON dynamic uri limit).
Proof. unfold getJSON. by_walk. Qed.
#[local] Hint Resolve getJSON_calls : walk.
Lemma discovery_calls dynamic issuer : calls st (discovery dynamic issuer).
Proof. unfold discovery. by_walk. Qed.
Lemma fetchJWKS_calls dynamic uri : calls st (fetchJWKS dynamic uri).
Proof. unfold fetchJWKS. by_walk. Qed.
#[local] Hint Resolve discovery_calls fetchJWKS_calls : walk.
Lemma load_keys_calls resolved force : calls st (load_keys resolved force).
Proof. unfold load_keys. by_walk. Qed.
#[local] Hint Resolve load_keys_calls : walk.
Lemma loadIssuer_calls resolved force : calls st (loadIssuer resolved force).
Proof. unfold loadIssuer. by_walk. Qed.
#[local] Hint Resolve loadIssuer_calls : walk.
Lemma validateStandardClaims_calls token clientID : calls st (validateStandardClaims (P := P) token clientID).
Proof. unfold validateStandardClaims. by_walk. Qed.
#[local] Hint Resolve validateStandardClaims_calls : walk.
Lemma VerifyAndEvaluate_calls raw clientID : calls st (VerifyAndEvaluate raw clientID).
Proof. unfold VerifyAndEvaluate, issuer_key, policy_failure, reject. by_walk. Qed.
End TrustService.

#[export] Hint Resolve VerifyAndEvaluate_calls : walk.

(** ** The handlers *)

Section Handlers.
Context `{Env} {P : Type} `{!PolicyResolver P} `{!TrustResolver P} `{!Connectors P} `{!Contexts P} `{!HTTPClient P}.
Context `{!Mailer P} `{!Challenge P} `{!Limiter P} `{!Readiness P} `{!PublicPages}.
Context `{!AEAD} `{!JWT} `{!CredentialJSON} `{!ExternalJWT} `{!FlowJSON} `{!EmailsJSON} `{!URLs} `{!ProofJSON} `{!JOSE}.
Context `{!MetadataJSON} `{!JSONLib} `{!NetText} `{!MailText} `{!Templates} `{!Sprint}.
Context (cfg : Config.Config) (signer : Signer) (otpSecret encryptionKey : string) (has_mailer : bool).

Abbreviation st := (store (P := Peers P)).

(** The managers of codes and states. *)
Lemma EncodeState_calls state : calls id (EncodeState state).
Proof. unfold EncodeState. by_walk. Qed.
Lemma DecodeState_calls token : calls id (DecodeState token).
Proof. unfold DecodeState. by_walk. Qed.
Lemma PeekAuthState_calls token : calls id (PeekAuthState token).
Proof. unfold PeekAuthState. by_walk. Qed.
Lemma Peek_calls code : calls id (Peek code).
Proof. unfold Peek. by_walk. Qed.
(** A code is stored under the text drawn for it, with the consent it needs. *)
Lemma GenerateAuthCode_drawn (w : World) :
  ends GenerateAuthCode w (fun r w' => lawful w w' /\ (r.2 = None -> r.1 = code_at (c_draw (w_cnt w)))).
Proof.
  assert (Services.calls draws_on id GenerateAuthCode) as Hd by by_draws. specialize (Hd w). revert Hd.
  unfold ends, GenerateAuthCode, run, mbind, go_bind, rand_read. destruct (entropy_fault _); intros Hd; (split; [|done]);
    by apply lawful_quiet.
Qed.

Lemma SaveAuthCode_new code (w w0 : World) :
  lawful w0 w -> consented code -> Code.Code code = code_at (c_draw (w_cnt w0)) -> lawful w0 (SaveAuthCode code w).2.
Proof.
  intros [[Hc Hd Hn] Hf] Hcons Ek.
  assert (Services.calls draws_on id (SaveAuthCode code)) as Hd' by by_draws.
  split; [|etrans; [exact Hf|apply quiet_fences; auto with store]]. split.
  - eapply rtc_r; [exact Hc | apply call_SaveAuthCode].
  - etrans; [exact Hd | apply Hd'].
  - intros k c Hk. destruct (SaveAuthCode_effect code w) as [He|[_ He]]; rewrite He in Hk; [by apply Hn|].
    apply lookup_insert_Some in Hk as [[<- <-]|[_ Hk]]; [|by apply Hn]. right. split; [done|]. eauto.
Qed.

Lemma GenerateCode_calls payload :
  (Payload.RefreshMode payload = "offline" -> Payload.OfflineConsent payload = true) -> calls id (GenerateCode payload).
Proof.
  intros Hc. apply calls_lawful. intros w.
  enough (ends (GenerateCode payload) w (fun _ w' => lawful w w')) by done.
  apply ends_run, wp_bind, wp_call. eapply ends_mono; [apply GenerateAuthCode_drawn|].
  intros [code [e|]] w1 [Hl Hcode]; [by apply wp_return|]. cbn in Hcode.
  apply wp_bind, wp_now, wp_bind, wp_call. unfold ends.
  match goal with |- context [SaveAuthCode ?stored ?w2] =>
    assert (lawful w (SaveAuthCode stored w2).2) as Hs; [apply SaveAuthCode_new; [|exact Hc|by apply Hcode]|] end.
  { destruct Hl as [[Hr Hd Hn] Hf].
    split; [split; [eapply rtc_r; [exact Hr | by apply call_other] | exact Hd | exact Hn]|exact Hf]. }
  by destruct (SaveAuthCode _ _) as [[e|] w3].
Qed.
Lemma reserveDPoP_steps {R} proof now : steps st (reserveDPoP (R := R) proof now).
Proof. unfold reserveDPoP. by_walk. Qed.
#[local] Hint Resolve EncodeState_calls DecodeState_calls PeekAuthState_calls Peek_calls reserveDPoP_steps : walk.

(** The token endpoint. *)
Lemma bound_proof_steps client jkt compact endpoint mismatch : steps st mismatch -> steps st (bound_proof cfg client jkt compact endpoint mismatch).
Proof. intros. unfold bound_proof, invalid_proof, refuse_with. by_walk. Qed.
#[local] Hint Resolve bound_proof_steps : walk.
Lemma presented_code_steps form : steps st (presented_code form).
Proof. unfold presented_code, invalid_code, storage_down, refuse_with. by_walk. Qed.
#[local] Hint Resolve presented_code_steps : walk.
Lemma code_client_steps stored : steps st (code_client stored).
Proof. unfold code_client, invalid_code, auth_down, refuse_with. by_walk. Qed.
#[local] Hint Resolve code_client_steps : walk.
Lemma invalid_code_steps {A} : steps st (invalid_code (P := P) (A := A)).
Proof. unfold invalid_code, refuse_with. by_walk. Qed.
#[local] Hint Resolve invalid_code_steps : walk.
Lemma invalid_refresh_steps {A} : steps st (invalid_refresh (P := P) (A := A)).
Proof. unfold invalid_refresh, refuse_with. by_walk. Qed.
#[local] Hint Resolve invalid_refresh_steps : walk.
Lemma code_proof_steps client stored proofs : steps st (code_proof cfg client stored proofs).
Proof. unfold code_proof, refuse_with. by_walk. Qed.
#[local] Hint Resolve code_proof_steps : walk.
Lemma code_user_steps resolved stored : steps st (code_user resolved stored).
Proof. unfold code_user, auth_down, refuse_with. by_walk. Qed.
#[local] Hint Resolve code_user_steps : walk.
Lemma flow_credential_steps stored now : steps st (flow_credential stored now).
Proof. unfold flow_credential, storage_down, refuse_with. by_walk. Qed.
#[local] Hint Resolve flow_credential_steps : walk.
Lemma with_credential_steps stored grant material a b c d : steps st (with_credential encryptionKey stored grant material a b c d).
Proof. unfold with_credential, server_error, refuse_with. by_walk. Qed.
#[local] Hint Resolve with_credential_steps : walk.
Lemma initial_grant_steps client cc stored now a b : steps st (initial_grant encryptionKey client cc stored now a b).
Proof. unfold initial_grant, server_error, refuse_with. by_walk. Qed.
#[local] Hint Resolve initial_grant_steps : walk.
Lemma code_issue_steps client stored : steps st (code_issue cfg encryptionKey client stored).
Proof. unfold code_issue. by_walk. Qed.
#[local] Hint Resolve code_issue_steps : walk.
Lemma consume_attempts_steps n stored binding issue : steps st (consume_attempts n stored binding issue).
Proof. revert issue. induction n; intros; cbn [consume_attempts]; by_walk. Qed.
#[local] Hint Resolve consume_attempts_steps : walk.
Lemma exchangeCode_calls form proofs : calls st (exchangeCode cfg signer encryptionKey form proofs).
Proof. unfold exchangeCode, expires_in, server_error, storage_down, refuse_with. by_walk. Qed.
#[local] Hint Resolve exchangeCode_calls : walk.
Lemma refresh_proof_steps client jkt proofs : steps st (refresh_proof cfg client jkt proofs).
Proof. unfold refresh_proof, refuse_with. by_walk. Qed.
#[local] Hint Resolve refresh_proof_steps : walk.
Lemma exchangeRefresh_calls form proofs : calls st (exchangeRefresh cfg signer form proofs).
Proof. unfold exchangeRefresh, expires_in, storage_down, refuse_with. by_walk. Qed.
#[local] Hint Resolve exchangeRefresh_calls : walk.
Lemma exchangeTrustedToken_calls form : calls st (exchangeTrustedToken cfg signer form).
Proof. unfold exchangeTrustedToken, expires_in, auth_down, server_error, refuse_with. by_walk. Qed.
#[local] Hint Resolve exchangeTrustedToken_calls : walk.
Lemma token_grant_calls form proofs : calls st (token_grant cfg signer encryptionKey form proofs).
Proof. unfold token_grant, refuse_with. by_walk. Qed.
#[local] Hint Resolve token_grant_calls : walk.
Lemma HandleToken_calls r : calls st (HandleToken cfg signer encryptionKey r).
Proof. unfold HandleToken. by_walk. Qed.
#[local] Hint Resolve HandleToken_calls : walk.

(** Revocation and the protected resources. *)
Lemma revocationCredential_calls raw clientID : calls st (revocationCredential (P := P) signer raw clientID).
Proof. unfold revocationCredential. by_walk. Qed.
#[local] Hint Resolve revocationCredential_calls : walk.
Lemma revoke_proof_steps client proofs now : steps st (revoke_proof cfg client proofs now).
Proof. unfold revoke_proof, invalid_proof, refuse_with. by_walk. Qed.
#[local] Hint Resolve revoke_proof_steps : walk.
Lemma revoke_token_calls form proofs : calls st (revoke_token cfg signer form proofs).
Proof. unfold revoke_token, storage_down, refuse_with. by_walk. Qed.
#[local] Hint Resolve revoke_token_calls : walk.
Lemma HandleRevoke_calls r : calls st (HandleRevoke cfg signer r).
Proof. unfold HandleRevoke. by_walk. Qed.
#[local] Hint Resolve HandleRevoke_calls : walk.
Lemma resource_proof_steps r endpoint raw jkt token : steps st (resource_proof cfg r endpoint raw jkt token).
Proof. unfold resource_proof. by_walk. Qed.
#[local] Hint Resolve resource_proof_steps : walk.
Lemma authenticateAccessToken_calls r endpoint : calls st (authenticateAccessToken cfg signer r endpoint).
Proof. unfold authenticateAccessToken. by_walk. Qed.
#[local] Hint Resolve authenticateAccessToken_calls : walk.
Lemma HandleUserInfo_calls r : calls st (HandleUserInfo cfg signer r).
Proof. unfold HandleUserInfo. by_walk. Qed.
#[local] Hint Resolve HandleUserInfo_calls : walk.

(** The browser's flow: a code is generated for a flow whose client the policy admits,
    and an offline one only with consent. *)
Lemma grant_actions_steps grants : steps st (grant_actions grants).
Proof. induction grants; cbn [grant_actions]; unfold error_page; by_walk. Qed.
#[local] Hint Resolve grant_actions_steps : walk.
Lemma renderGrants_calls email : calls st (renderGrants email).
Proof. unfold renderGrants, error_page, page. by_walk. Qed.
#[local] Hint Resolve renderGrants_calls : walk.
Lemma HandleGrantRevoke_calls r : calls st (HandleGrantRevoke r).
Proof. unfold HandleGrantRevoke, page. by_walk. Qed.
#[local] Hint Resolve HandleGrantRevoke_calls : walk.
Lemma flow_user_steps resolved email : steps st (flow_user resolved email).
Proof. unfold flow_user, error_page. by_walk. Qed.
#[local] Hint Resolve flow_user_steps : walk.
Lemma completed_credential_steps state : steps st (completed_credential encryptionKey state).
Proof. unfold completed_credential, flow_error. by_walk. Qed.
#[local] Hint Resolve completed_credential_steps : walk.
Lemma move_credential_steps state code credential : steps st (move_credential encryptionKey state code credential).
Proof. unfold move_credential, flow_error. by_walk. Qed.
#[local] Hint Resolve move_credential_steps : walk.

Lemma flow_client_post state w :
  wp (flow_client state) w (fun x w' => history (st w) (st w') /\
    match x with inr _ => Auth.RefreshMode state = "offline" -> Auth.OfflineConsent state = true | inl _ => True end).
Proof.
  unfold flow_client. apply wp_bind, wp_call, ends_eq. intros [resolved err] w1 Hcall. cbv beta iota.
  assert (Hs : history (st w) (st w1)) by (change w1 with (resolved, err, w1).2; rewrite <- Hcall; by apply (calls_store_peers history)).
  destruct (is_err err ErrDenied); [by apply wp_return|]. destruct (is_some err); [by apply wp_return|].
  destruct (negb _); [by apply wp_return|].
  destruct (_ || _) eqn:E; [by apply wp_return|]. apply wp_ret. split; [done|].
  apply orb_false_iff in E as [_ E]. intros Hm. rewrite Hm in E. cbn in E. by apply negb_false_iff in E.
Qed.

Lemma complete_calls state subject email verified :
  calls st (complete cfg encryptionKey state subject email verified).
Proof.
  unfold complete, flow_error. apply calls_run.
  case_match; [by_walk|]. eapply steps_bind_post; [exact _|apply flow_client_post|]. intros resolved Hc.
  assert (calls id (GenerateCode (flow_payload state subject email verified))) by by apply GenerateCode_calls.
  by_walk.
Qed.
#[local] Hint Resolve complete_calls : walk.

Lemma beginOTP_calls state id subject email : calls st (beginOTP cfg otpSecret has_mailer state id subject email).
Proof. unfold beginOTP, browser_error, error_page, page. by_walk. Qed.
#[local] Hint Resolve beginOTP_calls : walk.
Lemma HandleEmailStart_calls r : calls st (HandleEmailStart cfg otpSecret has_mailer r).
Proof. unfold HandleEmailStart, browser_error, error_page. by_walk. Qed.
#[local] Hint Resolve HandleEmailStart_calls : walk.
Lemma otp_failure_steps {A} e reason : steps st (otp_failure (P := P) (A := A) e reason).
Proof. unfold otp_failure, error_page. by_walk. Qed.
#[local] Hint Resolve otp_failure_steps : walk.
Lemma email_unavailable_steps {A} : steps st (email_unavailable (P := P) (A := A)).
Proof. unfold email_unavailable, error_page. by_walk. Qed.
#[local] Hint Resolve email_unavailable_steps : walk.
Lemma HandleEmailVerify_calls r : calls st (HandleEmailVerify cfg otpSecret encryptionKey has_mailer r).
Proof. unfold HandleEmailVerify, error_page, page. by_walk. Qed.
#[local] Hint Resolve HandleEmailVerify_calls : walk.
Lemma HandleEmailResend_calls r : calls st (HandleEmailResend cfg otpSecret has_mailer r).
Proof. unfold HandleEmailResend, page. by_walk. Qed.
#[local] Hint Resolve HandleEmailResend_calls : walk.
Lemma acceptOrChallenge_calls state id subject assertion : calls st (acceptOrChallenge cfg otpSecret encryptionKey has_mailer state id subject assertion).
Proof. unfold acceptOrChallenge, flow_error. by_walk. Qed.
#[local] Hint Resolve acceptOrChallenge_calls : walk.
Lemma renderIdentitySelection_calls token id identity : calls st (renderIdentitySelection (P := P) token id identity).
Proof. unfold renderIdentitySelection, browser_error, page. by_walk. Qed.
#[local] Hint Resolve renderIdentitySelection_calls : walk.
Lemma HandleIdentitySelect_calls r : calls st (HandleIdentitySelect cfg otpSecret encryptionKey has_mailer r).
Proof. unfold HandleIdentitySelect, browser_error. by_walk. Qed.
#[local] Hint Resolve HandleIdentitySelect_calls : walk.
Lemma keep_credential_steps state token id credential : steps st (keep_credential (P := P) encryptionKey state token id credential).
Proof. unfold keep_credential, flow_error. by_walk. Qed.
#[local] Hint Resolve keep_credential_steps : walk.
Lemma login_steps state token id code : steps st (login encryptionKey state token id code).
Proof. unfold login, flow_error. by_walk. Qed.
#[local] Hint Resolve login_steps : walk.
Lemma HandleCallback_calls r : calls st (HandleCallback cfg otpSecret encryptionKey has_mailer r).
Proof. unfold HandleCallback, flow_error, browser_error. by_walk. Qed.
#[local] Hint Resolve HandleCallback_calls : walk.
Lemma renderSelector_calls state ids : calls st (renderSelector (P := P) cfg state ids).
Proof. unfold renderSelector, browser_error. by_walk. Qed.
#[local] Hint Resolve renderSelector_calls : walk.
Lemma selectConnector_calls id state : calls st (selectConnector cfg id state).
Proof. unfold selectConnector, browser_error. by_walk. Qed.
#[local] Hint Resolve selectConnector_calls : walk.
Lemma HandleSelect_calls r : calls st (HandleSelect cfg r).
Proof. unfold HandleSelect, browser_error. by_walk. Qed.
#[local] Hint Resolve HandleSelect_calls : walk.
Lemma continueAuthorization_calls state : calls st (continueAuthorization cfg state).
Proof. unfold continueAuthorization. by_walk. Qed.
#[local] Hint Resolve continueAuthorization_calls : walk.
Lemma HandleGrants_calls r : calls st (HandleGrants cfg r).
Proof. unfold HandleGrants. by_walk. Qed.
#[local] Hint Resolve HandleGrants_calls : walk.

(** The authorization endpoints. *)
Lemma par_scopes_steps client form : steps st (par_scopes (P := P) client form).
Proof. unfold par_scopes, par_error. by_walk. Qed.
#[local] Hint Resolve par_scopes_steps : walk.
Lemma par_proof_steps client form proofs : steps st (par_proof (P := P) cfg client form proofs).
Proof. unfold par_proof, par_error. by_walk. Qed.
#[local] Hint Resolve par_proof_steps : walk.
Lemma store_pushed_steps pushed proof now : steps st (store_pushed (P := P) pushed proof now).
Proof. unfold store_pushed. by_walk. Qed.
#[local] Hint Resolve store_pushed_steps : walk.
Lemma push_calls form proofs : calls st (push cfg form proofs).
Proof. unfold push, par_error. by_walk. Qed.
#[local] Hint Resolve push_calls : walk.
Lemma HandlePAR_calls r : calls st (HandlePAR cfg r).
Proof. unfold HandlePAR. by_walk. Qed.
#[local] Hint Resolve HandlePAR_calls : walk.
Lemma request_purpose_steps a b c d : steps st (request_purpose (P := P) a b c d).
Proof. unfold request_purpose, request_error. by_walk. Qed.
#[local] Hint Resolve request_purpose_steps : walk.
Lemma authorize_parameters_steps client q proofs : steps st (authorize_parameters (P := P) client q proofs).
Proof. unfold authorize_parameters, request_error. by_walk. Qed.
#[local] Hint Resolve authorize_parameters_steps : walk.
Lemma authorize_calls q proofs : calls st (authorize cfg q proofs).
Proof. unfold authorize, browser_error, page. by_walk. Qed.
#[local] Hint Resolve authorize_calls : walk.
Lemma pushed_parameters_steps client pushed : steps st (pushed_parameters (P := P) client pushed).
Proof. unfold pushed_parameters, browser_error, request_error. by_walk. Qed.
#[local] Hint Resolve pushed_parameters_steps : walk.
Lemma handlePushedAuthorize_calls clientID uri : calls st (handlePushedAuthorize clientID uri).
Proof. unfold handlePushedAuthorize, browser_error. by_walk. Qed.
#[local] Hint Resolve handlePushedAuthorize_calls : walk.
Lemma HandleAuthorize_calls r : calls st (HandleAuthorize cfg r).
Proof. unfold HandleAuthorize. by_walk. Qed.
#[local] Hint Resolve HandleAuthorize_calls : walk.
Lemma HandleAuthorizeContinue_calls r : calls st (HandleAuthorizeContinue cfg r).
Proof. unfold HandleAuthorizeContinue, browser_error, page. by_walk. Qed.
#[local] Hint Resolve HandleAuthorizeContinue_calls : walk.
Lemma HandleConsent_calls r : calls st (HandleConsent cfg r).
Proof. unfold HandleConsent, browser_error, flow_error. by_walk. Qed.
End Handlers.

(** ** The server *)

Section Serving.
Context `{Env} {P : Type} `{!PolicyResolver P} `{!TrustResolver P} `{!Connectors P} `{!Contexts P} `{!HTTPClient P}.
Context `{!Mailer P} `{!Challenge P} `{!Limiter P} `{!Readiness P} `{!PublicPages}.
Context `{!AEAD} `{!JWT} `{!CredentialJSON} `{!ExternalJWT} `{!FlowJSON} `{!EmailsJSON} `{!URLs} `{!ProofJSON} `{!JOSE}.
Context `{!MetadataJSON} `{!JSONLib} `{!NetText} `{!MailText} `{!PageTemplates} `{!Sprint}.
Context (s : Server).

Abbreviation st := (store (P := Peers P)).

Lemma pure_calls answer : calls st (pure (P := P) answer).
Proof. intros w. done. Qed.
#[local] Hint Resolve pure_calls HandleToken_calls HandleRevoke_calls HandleUserInfo_calls HandleGrantRevoke_calls
  HandleEmailStart_calls HandleEmailVerify_calls HandleEmailResend_calls HandleIdentitySelect_calls
  HandleCallback_calls HandleSelect_calls HandleGrants_calls HandlePAR_calls HandleAuthorize_calls
  HandleAuthorizeContinue_calls HandleConsent_calls : walk.
Lemma HandleHealth_calls : calls st HandleHealth.
Proof. unfold HandleHealth. by_walk. Qed.
#[local] Hint Resolve HandleHealth_calls : walk.
Lemma route_calls r : calls st (route s r).
Proof. unfold route. by_walk. Qed.
#[local] Hint Resolve route_calls : walk.
Lemma LimitPublicEndpoints_calls r : calls st (LimitPublicEndpoints s r).
Proof. unfold LimitPublicEndpoints. by_walk. Qed.
#[local] Hint Resolve LimitPublicEndpoints_calls : walk.
Lemma serve_calls r : calls st (serve s r).
Proof. unfold serve. by_walk. Qed.

Lemma serve_all_history requests w : history (st w) (st (serve_all s requests w)).
Proof.
  revert w. induction requests as [|r requests IH]; intros w; [done|]. cbn. etrans; [apply serve_calls | apply IH].
Qed.
End Serving.

(** ** What a history keeps *)

Definition codes_consented (w : World) : Prop := map_Forall (fun _ c => consented c) (auth_codes (w_db w)).
(** Every code is stored under its own text. *)
Definition codes_keyed (w : World) : Prop := map_Forall (fun k c => Code.Code c = k) (auth_codes (w_db w)).

Section Kept.
Context `{Env}.

Lemma history_store_calls w w' : history w w' -> rtc store_call w w'.
Proof. intros Hh. apply (history_traced _ _ Hh). Qed.

Lemma history_draws w w' : history w w' -> draws_on w w'.
Proof. intros Hh. apply (history_traced _ _ Hh). Qed.

Lemma history_codes_consented w w' : history w w' -> codes_consented w -> codes_consented w'.
Proof.
  induction 1 as [|w w1 w' [[_ _ Hnew] _] _ IH]; [done|]. intros Hw. apply IH. intros k c Hk.
  destruct (Hnew _ _ Hk) as [Hold|[[Hc _] _]]; [by apply (Hw k) | done].
Qed.

Lemma history_codes_keyed w w' : history w w' -> codes_keyed w -> codes_keyed w'.
Proof.
  induction 1 as [|w w1 w' [[_ _ Hnew] _] _ IH]; [done|]. intros Hw. apply IH. intros k c Hk.
  destruct (Hnew _ _ Hk) as [Hold|[[_ Hc] _]]; [by apply (Hw k) | done].
Qed.

(** [k] is not drawn as a code from [w] on. *)
Definition not_drawn_again (k : string) (w : World) : Prop :=
  forall pos, (c_draw (w_cnt w) <= pos)%nat -> code_at pos <> k.

(** A code that is gone stays gone, unless it is drawn again. *)
Lemma history_code_gone w w' k :
  history w w' -> not_drawn_again k w -> auth_codes (w_db w) !! k = None -> auth_codes (w_db w') !! k = None.
Proof.
  induction 1 as [|w w1 w' [[_ Hd Hnew] _] _ IH]; [done|]. intros Hk Hgone. apply IH.
  - intros pos Hpos. apply Hk. unfold draws_on in Hd. lia.
  - destruct (auth_codes (w_db w1) !! k) as [c|] eqn:E; [|done].
    destruct (Hnew _ _ E) as [Hold|[_ (pos & Hpos & Ek)]]; [congruence|]. by destruct (Hk pos Hpos).
Qed.
End Kept.
