(* ===== verification/OidcAnswers.v ===== *)
(** * The answers of the token endpoint

    Every path of internal/oidc/handle_token.go ends with one of two kinds of answer: an
    OAuth error of a known status or a token response with its required members.  None
    ends without writing and none in the nil dereference the Go would panic on. *)

From S2P Require Import Prelude Runtime ReplayCache Schema RefreshToken RefreshStore FlowStore Json Config Upstream Credentials Tokens Services RefreshService TrustPolicy TrustConfig Dpop Trust TrustServiceProperties Http Oidc OidcToken.

(** ** The two kinds of answers *)

Definition refusal_statuses : list Z := [400; 403; 405; 500; 503].

Inductive token_answer : Answer.Response -> Prop :=
  | answer_refused headers status code description :
      status ∈ refusal_statuses -> token_answer (with_headers headers (oauthError status code description))
  | answer_issued members token type seconds :
      ("access_token", JString token) ∈ members -> ("token_type", JString type) ∈ members ->
      type ∈ ["Bearer"; "DPoP"] -> ("expires_in", number seconds) ∈ members ->
      token_answer (oauthJSON 200 members).

#[local] Hint Extern 1 (_ ∈ refusal_statuses) => (unfold refusal_statuses; set_solver) : yields.
Ltac by_answers := repeat yields_step; eauto with yields.

(** ** The statements before the answer *)

Section Pieces.
Context `{Env} {P : Type} `{!PolicyResolver P} `{!TrustResolver P} `{!Connectors P} `{!Contexts P} `{!HTTPClient P}.
Context `{!AEAD} `{!JWT} `{!CredentialJSON} `{!ExternalJWT} `{!URLs} `{!ProofJSON} `{!JOSE} `{!MetadataJSON} `{!JSONLib}.
Context `{!NetText}.
Context (cfg : Config.Config) (signer : Signer) (encryptionKey : string).

Abbreviation proc := (Process (Peers P)).

(** The statements before the answer return only with what holds of every refusal. *)
Context (G : Answer.Response -> Prop).
Context (refusals_in : forall headers status code description,
  status ∈ refusal_statuses -> G (with_headers headers (oauthError status code description))).
Abbreviation passes := (yields (W := proc) G (fun _ => True)).

Lemma refused_in status code description : status ∈ refusal_statuses -> G (oauthError status code description).
Proof. exact (refusals_in [] status code description). Qed.
#[local] Hint Resolve refused_in : yields.

Lemma refuse_with_passes {A} (Q : A -> Prop) status code description :
  status ∈ refusal_statuses -> yields G Q (refuse_with (P := P) status code description).
Proof. intros. apply yields_return. by apply refused_in. Qed.
Ltac by_refusing := apply refuse_with_passes; unfold refusal_statuses; set_solver.
Lemma invalid_code_passes {A} (Q : A -> Prop) : yields G Q (invalid_code (P := P)).
Proof. by_refusing. Qed.
Lemma invalid_refresh_passes {A} (Q : A -> Prop) : yields G Q (invalid_refresh (P := P)).
Proof. by_refusing. Qed.
Lemma storage_down_passes {A} (Q : A -> Prop) : yields G Q (storage_down (P := P)).
Proof. by_refusing. Qed.
Lemma auth_down_passes {A} (Q : A -> Prop) : yields G Q (auth_down (P := P)).
Proof. by_refusing. Qed.
Lemma invalid_proof_passes {A} (Q : A -> Prop) : yields G Q (invalid_proof (P := P)).
Proof. by_refusing. Qed.
Lemma server_error_passes {A} (Q : A -> Prop) d : yields G Q (server_error (P := P) d).
Proof. by_refusing. Qed.
#[local] Hint Resolve refuse_with_passes invalid_code_passes invalid_refresh_passes storage_down_passes
  auth_down_passes invalid_proof_passes server_error_passes : yields.

(** The cache answers a replay or that it is full, and nothing else. *)
Definition reserve_result (err : option error) : Prop :=
  match err with
  | None => True
  | Some e => errors_is e ErrReplay || errors_is e ErrReplayCacheFull = true
  end.
Lemma Reserve_result hash now c : reserve_result (Reserve hash now c).1.
Proof. unfold Reserve. by repeat case_match. Qed.
Lemma reserveDPoP_result proof now : yields G reserve_result (reserveDPoP (P := P) proof now).
Proof.
  apply yields_call, produces_on_peers. intros p. unfold set_replay.
  pose proof (Reserve_result (ReplayHash (Dpop.Thumbprint proof) (Dpop.JTI proof) (Dpop.Method proof) (Dpop.Target proof))
                now (replayCache p)) as Hr.
  by destruct (Reserve _ now (replayCache p)).
Qed.
#[local] Hint Resolve reserveDPoP_result : yields.

Lemma bound_proof_passes client jkt compact endpoint mismatch :
  passes mismatch -> passes (bound_proof cfg client jkt compact endpoint mismatch).
Proof.
  intros. unfold bound_proof. by_answers. unfold reserve_result in *. congruence.
Qed.
#[local] Hint Resolve bound_proof_passes : yields.

(** An error, or a value. *)
Definition value_or_error {A} (x : option A * option error) : Prop := is_Some x.2 \/ is_Some x.1.
Lemma Peek_value code : produces value_or_error (Peek code).
Proof.
  unfold Peek, PeekAuthCode. apply produces_run. apply (yields_bind _ (fun _ => True)); [by intros w; apply wp_now|].
  intros now _. apply yields_call, produces_run.
  apply (yields_bind _ (fun _ => True)); [|intros row _; by_answers; unfold value_or_error; cbn; eauto].
  intros w. apply wp_sql_db; [|done]. intros. unfold value_or_error. cbn. eauto.
Qed.
#[local] Hint Extern 1 (produces value_or_error (on_store _)) =>
  (apply produces_on_store, Peek_value) : yields.
#[local] Hint Extern 1 (yields _ _ (call (on_store (Peek _)))) =>
  (apply yields_call, produces_on_store, Peek_value) : yields.

Lemma presented_code_passes form : passes (presented_code form).
Proof.
  unfold presented_code. by_answers. unfold value_or_error in *. cbn in *. 
  match goal with V : _ \/ _ |- _ => destruct V as [[? [=]]|[? [=]]] end.
Qed.
Lemma code_client_passes stored : passes (code_client stored).
Proof. unfold code_client. by_answers. Qed.
Lemma code_proof_passes client stored proofs : passes (code_proof cfg client stored proofs).
Proof. unfold code_proof. by_answers. Qed.
Lemma code_user_passes resolved stored : passes (code_user resolved stored).
Proof. unfold code_user. by_answers. Qed.
Lemma flow_credential_passes stored now : passes (flow_credential stored now).
Proof. unfold flow_credential. by_answers. Qed.
Lemma with_credential_passes stored grant material a b c d :
  passes (with_credential encryptionKey stored grant material a b c d).
Proof. unfold with_credential. by_answers. Qed.
#[local] Hint Resolve presented_code_passes code_client_passes code_proof_passes code_user_passes
  flow_credential_passes with_credential_passes : yields.
Lemma initial_grant_passes client cc stored now a b : passes (initial_grant encryptionKey client cc stored now a b).
Proof. unfold initial_grant. by_answers. Qed.
#[local] Hint Resolve initial_grant_passes : yields.
Lemma code_issue_passes client stored : passes (code_issue cfg encryptionKey client stored).
Proof. unfold code_issue. by_answers. Qed.
Lemma consume_attempts_passes n stored binding issue : passes (consume_attempts n stored binding issue).
Proof. revert issue. induction n; intros; cbn [consume_attempts]; by_answers. Qed.
Lemma refresh_proof_passes client jkt proofs : passes (refresh_proof cfg client jkt proofs).
Proof. unfold refresh_proof. by_answers. Qed.
Lemma expires_in_passes t : passes (expires_in t).
Proof. unfold expires_in. by_answers. Qed.
#[local] Hint Resolve code_issue_passes consume_attempts_passes refresh_proof_passes expires_in_passes : yields.

End Pieces.

#[export] Hint Resolve presented_code_passes code_client_passes code_proof_passes code_user_passes code_issue_passes
  consume_attempts_passes refresh_proof_passes expires_in_passes refuse_with_passes invalid_code_passes
  invalid_refresh_passes storage_down_passes auth_down_passes server_error_passes : yields.

(** ** The answers *)

Lemma refused_answer status code description :
  status ∈ refusal_statuses -> token_answer (oauthError status code description).
Proof. exact (answer_refused [] status code description). Qed.

Lemma retry_answer headers (temporary : bool) code description :
  token_answer (with_headers headers (oauthError (if temporary then 503 else 400) code description)).
Proof. apply answer_refused. destruct temporary; set_solver. Qed.

Lemma token_type_kind jkt : token_type jkt ∈ ["Bearer"; "DPoP"].
Proof. unfold token_type. case_match; set_solver. Qed.

#[local] Hint Resolve answer_refused refused_answer retry_answer : yields.

Section Token.
Context `{Env} {P : Type} `{!PolicyResolver P} `{!TrustResolver P} `{!Connectors P} `{!Contexts P} `{!HTTPClient P}.
Context `{!AEAD} `{!JWT} `{!CredentialJSON} `{!ExternalJWT} `{!URLs} `{!ProofJSON} `{!JOSE} `{!MetadataJSON} `{!JSONLib}.
Context `{!NetText}.
Context (cfg : Config.Config) (signer : Signer) (encryptionKey : string).

Abbreviation proc := (Process (Peers P)).

(** The members of an issued answer are found by going through the list. *)
Ltac by_member := cbn [app]; repeat first [apply list_elem_of_here | apply list_elem_of_further].
Ltac by_issued :=
  eapply answer_issued; [by_member | by_member | first [apply token_type_kind | set_solver] | by_member].
#[local] Hint Extern 2 (token_answer (oauthJSON 200 _)) => by_issued : yields.

Lemma exchangeCode_answers form proofs : produces token_answer (exchangeCode cfg signer encryptionKey form proofs).
Proof. unfold exchangeCode. by_answers. Qed.
Lemma exchangeRefresh_answers form proofs : produces token_answer (exchangeRefresh cfg signer form proofs).
Proof. unfold exchangeRefresh. by_answers. Qed.
(** A verdict without an error has a result with a binding. *)
Definition verdict_shape (v : verdict) : Prop :=
  v.2 = None -> exists result, v.1 = Some result /\ is_Some (Verified.Binding result).

Lemma issuer_key_shape resolved kid alg :
  yields (W := proc) verdict_shape (fun _ => True) (issuer_key resolved kid alg).
Proof. unfold issuer_key, reject. by_answers; by intros [=]. Qed.
#[local] Hint Resolve issuer_key_shape : yields.

Lemma VerifyAndEvaluate_shape raw clientID :
  produces (W := proc) verdict_shape (VerifyAndEvaluate raw clientID).
Proof.
  unfold VerifyAndEvaluate, policy_failure, reject. by_answers; intros Hn; try discriminate.
  match goal with E : evaluate _ _ = _ |- _ => destruct (evaluate_one _ _ _ _ E) as (? & -> & _) end. by eexists.
Qed.
#[local] Hint Extern 1 (yields _ _ (call (VerifyAndEvaluate _ _))) =>
  (apply yields_call, VerifyAndEvaluate_shape) : yields.

Lemma exchangeTrustedToken_answers form : produces token_answer (exchangeTrustedToken cfg signer form).
Proof.
  unfold exchangeTrustedToken. by_answers;
    match goal with V : verdict_shape _ |- _ => destruct (V eq_refl) as (? & [=] & [? ?]) end; congruence.
Qed.

#[local] Hint Resolve exchangeCode_answers exchangeRefresh_answers exchangeTrustedToken_answers : yields.
Lemma token_grant_answers form proofs : produces token_answer (token_grant cfg signer encryptionKey form proofs).
Proof.
  unfold token_grant. by_answers.
Qed.
Lemma token_form_answer r a : token_form r = inr a -> token_answer a.
Proof. unfold token_form. repeat case_match; intros [= <-]; eauto with yields. Qed.

(** C10: The token endpoint is total and well typed: to every request, in every state of
    the server, its peers and its database, it answers with a response that must not be
    stored and that is either an OAuth error of status 400, 403, 405, 500 or 503 or a
    token response with an access token, a token type that is Bearer or DPoP and a
    lifetime.  No path returns without writing an answer and none dereferences nil. *)
Theorem token_endpoint_answers r w :
  exists a, (HandleToken cfg signer encryptionKey r w).1 = with_headers oauth_no_store a /\ token_answer a.
Proof.
  pose proof (token_grant_answers) as Hg. unfold HandleToken. destruct (token_form r) as [form|refused] eqn:Hf.
  - set (f := token_grant cfg signer encryptionKey form (Http.header r "DPoP")). specialize (Hg form (Http.header r "DPoP") w).
    fold f in Hg. unfold run, mbind, go_bind, call. destruct (f w) as [a w1]. by exists a.
  - exists refused. split; [done|]. by eapply token_form_answer.
Qed.
End Token.
