(* ===== verification/OidcSafety.v ===== *)
(** * The gates of the token endpoint

    What each statement of the exchange of an authorization code has established when it
    goes on: the code presented, the client and the user admitted, the key proved, the
    code consumed. *)

From S2P Require Import Prelude Runtime Base64 Sha256 ReplayCache Schema RefreshToken RefreshStore FlowStore OtpStore GrantStore RefreshSpec StoreSafety FlowSafety FlowProperties Json Config Upstream Credentials Tokens Services RefreshService ExchangeSafety TrustPolicy TrustConfig Dpop DpopProperties Trust TrustServiceProperties Http Oidc OidcToken OidcResource OidcFlow OidcAnswers.

(** A response that hands out an access token. *)
Definition issues (a : Answer.Response) (access : string) : Prop :=
  exists members, Answer.Content a = JSONBody members /\ ("access_token", JString access) ∈ members.
Definition issues_nothing (a : Answer.Response) : Prop := forall access, ~ issues a access.

Lemma refusals_issue_nothing headers status code description :
  status ∈ refusal_statuses -> issues_nothing (with_headers headers (oauthError status code description)).
Proof. intros _ access (members & [= <-] & Hin). set_solver. Qed.
Lemma refused_issues_nothing status code description : issues_nothing (oauthError status code description).
Proof. intros access (members & [= <-] & Hin). set_solver. Qed.
Lemma silent_issues_nothing : issues_nothing silent.
Proof. by intros access (members & [=] & Hin). Qed.
Lemma panicked_issues_nothing : issues_nothing panicked.
Proof. by intros access (members & [=] & Hin). Qed.
#[export] Hint Resolve refusals_issue_nothing refused_issues_nothing silent_issues_nothing panicked_issues_nothing : yields.

Section Gates.
Context `{Env} {P : Type} `{!PolicyResolver P} `{!TrustResolver P} `{!Connectors P} `{!Contexts P} `{!HTTPClient P}.
Context `{!AEAD} `{!JWT} `{!CredentialJSON} `{!ExternalJWT} `{!URLs} `{!ProofJSON} `{!JOSE} `{!MetadataJSON} `{!JSONLib}.
Context `{!NetText} `{!Sprint}.
Context (cfg : Config.Config) (signer : Signer) (encryptionKey : string).

Abbreviation proc := (Process (Peers P)).
Implicit Types w : proc.
Abbreviation codes w := (auth_codes (w_db (store w))).

(** The policy in force admits the client, and the user of the client. *)
Definition admits_client (clientID : string) (fresh : bool) (resolved : Resolved.ResolvedClient) : Prop :=
  exists p, (ResolveClient clientID fresh (p : P)).1 = (resolved, None).
Definition admits_user (resolved : Resolved.ResolvedClient) (email : string) (groups : list string) : Prop :=
  exists p user, (ResolveUser resolved email (p : P)).1 = (user, None) /\ groups = Resolved.Groups user.

(** The stored code the form presents. *)
Definition presented (form : Values) w (stored : Code.AuthCode) : Prop :=
  codes w !! Get form "code" = Some stored /\
  Code.ClientID stored = Get form "client_id" /\ Code.RedirectURI stored = Get form "redirect_uri" /\
  ValidatePKCE (Get form "code_verifier") (Code.CodeChallenge stored) = None.

(** The proof is one that [demands] describes at a reading of the clock between [w] and
    [w'], and at such a reading the replay cache of [w], which did not hold it, took it. *)
Definition fresh_proof (demands : time -> Dpop.Proof_ -> Prop) w w' (proof : Dpop.Proof_) : Prop :=
  exists now now', read_between (store w) (store w') now /\ read_between (store w) (store w') now' /\
    demands now proof /\
    Reserve (ReplayHash (Dpop.Thumbprint proof) (Dpop.JTI proof) (Dpop.Method proof) (Dpop.Target proof)) now'
      (replayCache (peers w)) = (None, replayCache (peers w')).

(** One fresh proof of possession of the key [jkt] for a request to [endpoint]; and none for
    a flow without a key. *)
Definition proved (client : Client.ClientConfig) (endpoint jkt : string) (proofs : list string) w w' : Prop :=
  if is_empty jkt then proofs = []
  else exists compact proof, proofs = [compact] /\ Dpop.Thumbprint proof = jkt /\
    fresh_proof (proves compact (DPoPc.SigningAlgorithm (Client.DPoP client)) "POST"
                   (PublicEndpointURL (Config.IssuerURL cfg) endpoint)) w w' proof.

(** *** What a statement leaves alone *)

(** The clock may have been read, the database and the peers are as they were. *)
Definition waits w w' : Prop := still (store w) (store w') /\ peers w' = peers w.
(** The same, but that the replay cache may have changed. *)
Definition checks w w' : Prop := still (store w) (store w') /\ outside (peers w') = outside (peers w).
(** Only what is outside has been asked. *)
Definition asks w w' : Prop := store w' = store w /\ replayCache (peers w') = replayCache (peers w).

#[local] Instance waits_preorder : PreOrder waits.
Proof. split; [by intros w; split|]. intros w1 w2 w3 [S1 E1] [S2 E2]. split; [by etrans|congruence]. Qed.

Lemma gate_waits {X A} (G : X -> Prop) (Post : A -> proc -> Prop) (m : go proc X A) w :
  gate G Post m w -> steps still store m -> steps eq (at_peers (@id (Peers P))) m ->
  gate G (fun a w' => Post a w' /\ waits w w') m w.
Proof.
  intros Hm Hs Hp. eapply gate_mono; [eapply gate_steps; [eapply gate_steps; [exact Hm|exact Hs]|exact Hp]|].
  cbn beta. intros a w' [[HP S] E]. split; [done|]. split; [done|by symmetry].
Qed.

Lemma fresh_proof_wider demands w w1 w2 w' proof :
  later (store w) (store w1) -> later (store w2) (store w') ->
  replayCache (peers w1) = replayCache (peers w) -> replayCache (peers w') = replayCache (peers w2) ->
  fresh_proof demands w1 w2 proof -> fresh_proof demands w w' proof.
Proof.
  intros L1 L2 E1 E2 (now & now' & Hn & Hn' & Hd & Hr). exists now, now'.
  split_and!; [by eapply read_between_wider..|done|]. congruence.
Qed.

Lemma proved_wider client endpoint jkt proofs w w1 w2 w' :
  later (store w) (store w1) -> later (store w2) (store w') ->
  replayCache (peers w1) = replayCache (peers w) -> replayCache (peers w') = replayCache (peers w2) ->
  proved client endpoint jkt proofs w1 w2 -> proved client endpoint jkt proofs w w'.
Proof.
  intros L1 L2 E1 E2. unfold proved. destruct (is_empty jkt); [done|].
  intros (compact & proof & ? & ? & Hf). exists compact, proof. split_and!; [done|done|by eapply fresh_proof_wider].
Qed.

(** ** Gates *)

Abbreviation passing Post m w := (gate issues_nothing Post m w).

Lemma refuse_with_gate {A} (Post : A -> proc -> Prop) status code description w :
  status ∈ refusal_statuses -> passing Post (refuse_with status code description) w.
Proof. intros Hs. apply refuse_with_passes; [apply refusals_issue_nothing | done]. Qed.
Lemma invalid_code_gate {A} (Post : A -> proc -> Prop) w : passing Post invalid_code w.
Proof. apply invalid_code_passes, refusals_issue_nothing. Qed.
Lemma storage_down_gate {A} (Post : A -> proc -> Prop) w : passing Post storage_down w.
Proof. apply storage_down_passes, refusals_issue_nothing. Qed.
Lemma auth_down_gate {A} (Post : A -> proc -> Prop) w : passing Post auth_down w.
Proof. apply auth_down_passes, refusals_issue_nothing. Qed.
Lemma invalid_proof_gate {A} (Post : A -> proc -> Prop) w : passing Post invalid_proof w.
Proof. apply invalid_proof_passes, refusals_issue_nothing. Qed.
Lemma server_error_gate {A} (Post : A -> proc -> Prop) d w : passing Post (server_error d) w.
Proof. apply server_error_passes, refusals_issue_nothing. Qed.
#[local] Hint Resolve refuse_with_gate invalid_code_gate storage_down_gate auth_down_gate invalid_proof_gate
  server_error_gate : yields.
#[local] Hint Extern 1 (_ ∈ refusal_statuses) => (unfold refusal_statuses; set_solver) : yields.

Lemma Peek_found code (w : World) :
  ends (Peek code) w (fun r _ => forall stored, r = (Some stored, None) -> auth_codes (w_db w) !! code = Some stored).
Proof. unfold Peek, PeekAuthCode. repeat store_step; try done; cbn in *; intros ? [= <-]; unfold select in *; congruence. Qed.

Lemma Peek_still code : calls still id (Peek code).
Proof. unfold Peek. assert (forall now, calls still id (PeekAuthCode code now)) by (intros now; by_unfolding). by_walk. Qed.
#[local] Hint Resolve Peek_still : walk.
Lemma Now_peers {R} : steps eq (at_peers (@id (Peers P))) (Now (R := R)).
Proof. apply steps_call, calls_peers_store; exact _. Qed.
#[local] Hint Resolve Now_peers : walk.

Lemma presented_code_ok form w :
  passing (fun stored w' => presented form w stored /\ waits w w') (presented_code form) w.
Proof.
  apply gate_waits; [|unfold presented_code, invalid_code, storage_down, refuse_with; by_walk..].
  unfold presented_code. eapply gate_bind; [apply gate_return_if; auto with yields|]. intros [] w1 [-> _].
  eapply (gate_bind _ (fun r _ => forall stored, r = (Some stored, None) -> codes w !! Get form "code" = Some stored));
    [apply gate_call, ends_on_store, Peek_found|]. intros [stored err] w1 Hfound.
  by_gates. apply orb_false_iff in Heqb as [[E1 E2]%orb_false_iff E3].
  unfold presented. split_and!; [auto | by apply neq_false | by apply neq_false | by destruct (ValidatePKCE _ _)].
Qed.

Lemma ResolveClient_asks id fresh w :
  ends (on_peers (ResolveClient id fresh)) w (fun r w' =>
    ResolveClient id fresh (outside (peers w)) = (r, outside (peers w')) /\ asks w w').
Proof.
  unfold ends, on_peers. cbn [ResolveClient peers_policy]. unfold on_outside.
  by destruct (ResolveClient id fresh (outside (peers w))).
Qed.

Lemma ResolveClient_answer id fresh w :
  ends (on_peers (ResolveClient id fresh)) w (fun r _ => forall resolved, r = (resolved, None) -> admits_client id fresh resolved).
Proof. eapply ends_mono; [apply ResolveClient_asks|]. intros r w' [E _] resolved ->. eexists. by rewrite E. Qed.

Lemma ResolveUser_asks resolved email w :
  ends (on_peers (ResolveUser resolved email)) w (fun r w' =>
    ResolveUser resolved email (outside (peers w)) = (r, outside (peers w')) /\ asks w w').
Proof.
  unfold ends, on_peers. cbn [ResolveUser peers_policy]. unfold on_outside.
  by destruct (ResolveUser resolved email (outside (peers w))).
Qed.

Lemma ResolveUser_answer resolved email w :
  ends (on_peers (ResolveUser resolved email)) w (fun r _ => forall user, r = (user, None) ->
    admits_user resolved email (Resolved.Groups user)).
Proof. eapply ends_mono; [apply ResolveUser_asks|]. intros r w' [E _] user ->. do 2 eexists. by rewrite E. Qed.

(** What the client demands of the flow of a code. *)
Definition client_accepts (stored : Code.AuthCode) (client : Client.ClientConfig) : Prop :=
  (Client.RequirePAR client = true -> Code.PushedAuthorization stored = true) /\
  validateDPoPBinding client (Code.DPoPJKT stored) = true.

Lemma code_client_ok stored w :
  passing (fun resolved w' =>
    ResolveClient (Code.ClientID stored) true (outside (peers w)) = ((resolved, None), outside (peers w')) /\
    client_accepts stored (Resolved.Config resolved) /\ asks w w') (code_client stored) w.
Proof.
  unfold code_client. eapply gate_bind; [apply gate_call, ends_mono with (1 := ResolveClient_asks _ _ _); intros r ? Hr; exact Hr|].
  intros [resolved err] w1 [Ha Hs]. by_gates. destruct err; [done|].
  apply orb_false_iff in Heqb1 as [E1 E2%negb_false_iff]. split_and!; [done | split; [|done] | done].
  intros HP. rewrite HP in E1. by apply negb_false_iff in E1.
Qed.

Lemma code_user_ok resolved stored w :
  passing (fun groups w' => exists user,
    ResolveUser resolved (Code.Email stored) (outside (peers w)) = ((user, None), outside (peers w')) /\
    groups = Resolved.Groups user /\ asks w w') (code_user resolved stored) w.
Proof.
  unfold code_user. eapply gate_bind; [apply gate_call, ends_mono with (1 := ResolveUser_asks _ _ _); intros r ? Hr; exact Hr|].
  intros [user err] w1 [Ha Hs]. by_gates. destruct err; [done|]. eauto.
Qed.

Lemma reserveDPoP_ok {X} (G : X -> Prop) proof now w :
  gate G (fun err w' => reserve_result err /\ store w' = store w /\ outside (peers w') = outside (peers w) /\
      Reserve (ReplayHash (Dpop.Thumbprint proof) (Dpop.JTI proof) (Dpop.Method proof) (Dpop.Target proof)) now
        (replayCache (peers w)) = (err, replayCache (peers w')))
    (reserveDPoP proof now) w.
Proof.
  apply gate_call. unfold ends, on_peers, set_replay. set (h := ReplayHash _ _ _ _).
  pose proof (Reserve_result h now (replayCache (peers w))) as Hr. by destruct (Reserve h now _) as [err c].
Qed.

Lemma bound_proof_ok client jkt compact endpoint mismatch w :
  is_empty jkt = false -> (forall (Post : unit -> proc -> Prop) w', passing Post mismatch w') ->
  passing (fun _ w' => proved client endpoint jkt [compact] w w' /\ checks w w')
    (bound_proof cfg client jkt compact endpoint mismatch) w.
Proof.
  intros Hjkt Hm. unfold bound_proof, proved. rewrite Hjkt.
  eapply gate_bind; [apply gate_Now_read|]. intros now w1 (S1 & E1 & Hnow). cbv beta zeta.
  destruct (ParseAndVerify _ _ _ _ _) as [proof|] eqn:Hp; [|by_gates].
  destruct (VerifyThumbprint proof _) eqn:Ht; [apply Hm|].
  eapply gate_bind; [apply gate_Now_read|]. intros now' w2 (S2 & E2 & Hnow').
  eapply gate_bind; [apply reserveDPoP_ok|]. intros [e|] w3 (_ & E3 & Eo & Hr); [by_gates|]. apply gate_ret.
  unfold ParseAndVerify in Hp. case_match; [|done]. apply parseAndVerify_spec in Hp.
  assert (still (store w) (store w3)) as Hs by (rewrite E3; by etrans). split; [|split; [done|congruence]].
  eexists _, _. split_and!; [done | |].
  - unfold VerifyThumbprint in Ht. destruct (negb _) eqn:E; [done|]. by apply neq_false.
  - exists now, now'. split_and!; [| |exact Hp|congruence].
    + eapply read_between_wider; [reflexivity| |exact Hnow]. rewrite E3. by destruct S2.
    + rewrite E3. eapply read_between_wider; [by destruct S1|reflexivity|exact Hnow'].
Qed.

Lemma no_proof_ok answer client endpoint jkt proofs w :
  is_empty jkt = true -> issues_nothing answer ->
  passing (fun _ w' => proved client endpoint jkt proofs w w' /\ checks w w')
    (return_if (negb (length proofs =? 0)%nat) answer) w.
Proof.
  intros Hjkt Ha. eapply gate_mono; [by apply gate_return_if|]. intros [] w' [-> Hn]. unfold proved. rewrite Hjkt.
  by destruct proofs.
Qed.

Lemma code_proof_ok client stored proofs w :
  passing (fun _ w' => proved client "token" (Code.DPoPJKT stored) proofs w w' /\ checks w w')
    (code_proof cfg client stored proofs) w.
Proof.
  unfold code_proof. destruct (is_empty _) eqn:Hjkt; [apply no_proof_ok; auto with yields|].
  destruct proofs as [|compact [|]]; [by_gates | | by_gates]. apply bound_proof_ok; [done|]. intros. apply invalid_code_gate.
Qed.

Lemma refresh_proof_ok client jkt proofs w :
  passing (fun _ w' => proved client "token" jkt proofs w w' /\ checks w w') (refresh_proof cfg client jkt proofs) w.
Proof.
  unfold refresh_proof. destruct (is_empty _) eqn:Hjkt; [apply no_proof_ok; auto with yields|].
  destruct proofs as [|compact [|]]; [by_gates | | by_gates]. apply bound_proof_ok; [done|]. intros.
  apply invalid_refresh_passes, refusals_issue_nothing.
Qed.

(** The code was consumed in the state [w'], unexpired at a reading of the clock since [w],
    with the binding of the form, by one transaction on the database of [w]. *)
Definition consumed (stored : Code.AuthCode) (binding : AuthCodeBinding) w (w' : proc) : Prop :=
  exists grant material completion, read_between (store w) (store w') completion /\
    consume_code_spec stored binding grant material completion (w_db (store w)) = (None, w_db (store w')).

Lemma consume_code_failed stored binding grant material completion db e db' :
  consume_code_spec stored binding grant material completion db = (Some e, db') -> db' = db.
Proof. unfold consume_code_spec. repeat case_match; congruence. Qed.

Section LaterCalled.
Lemma later_insertRefreshToken a b c d : calls later id (insertRefreshToken a b c d).
Proof. by_unfolding. Qed.
#[local] Hint Resolve later_insertRefreshToken : walk.
Lemma later_insert_family a b c d e f g : calls later id (insert_family a b c d e f g).
Proof. by_unfolding. Qed.
#[local] Hint Resolve later_insert_family : walk.
Lemma ConsumeAuthCode_later a b c d e : calls later id (ConsumeAuthCode a b c d e).
Proof. by_unfolding. Qed.
End LaterCalled.

Lemma ConsumeAuthCode_gate stored binding grant material completion w :
  passing (fun err w' => peers w' = peers w /\ later (store w) (store w') /\
      if err is None
      then consume_code_spec stored binding grant material completion (w_db (store w)) = (None, w_db (store w'))
      else w_db (store w') = w_db (store w))
    (call (on_store (ConsumeAuthCode stored binding grant material completion))) w.
Proof.
  apply gate_call, ends_on_store. unfold ends. split; [done|]. split; [apply ConsumeAuthCode_later|].
  destruct (ConsumeAuthCode_atomic stored binding grant material completion (store w)) as [(_ & He & ?)|E].
  - by destruct (ConsumeAuthCode _ _ _ _ _ _) as [[e|] s'].
  - destruct (ConsumeAuthCode _ _ _ _ _ _) as [[e|] s']; cbn in *; [by apply consume_code_failed in E|done].
Qed.

Lemma GenerateRefreshMaterial_still : calls still id GenerateRefreshMaterial.
Proof. by_unfolding. Qed.
Lemma EncryptCredential_still a b c d e : calls still id (EncryptCredential a b c d e).
Proof. unfold EncryptCredential, encrypt. by_walk. Qed.
Lemma LoadFlowCredential_still a b c d : calls still id (LoadFlowCredential a b c d).
Proof. by_unfolding. Qed.
Lemma GenerateStateToken_still : calls still id GenerateStateToken.
Proof. by_unfolding. Qed.
Lemma signContext_still context identity : calls still id (signContext signer context identity).
Proof. by_unfolding. Qed.
#[local] Hint Resolve signContext_still : walk.
Lemma SignTokenPair_still context : calls still id (SignTokenPair signer context).
Proof. by_unfolding. Qed.
Lemma PrepareRefresh_still a b c : calls still id (PrepareRefresh a b c).
Proof. by_unfolding. Qed.
#[local] Hint Resolve GenerateRefreshMaterial_still EncryptCredential_still LoadFlowCredential_still
  GenerateStateToken_still SignTokenPair_still PrepareRefresh_still : walk.

(** Material for another attempt. *)
Lemma still_gate {X B} (G : X -> Prop) (op : World -> B * World) w :
  calls still id op -> gate G (fun _ w' => waits w w') (call (on_store op)) w.
Proof. intros Ho. apply gate_call, ends_on_store. unfold ends. split; [apply Ho|done]. Qed.

Lemma consume_attempts_ok n stored binding issue w :
  n <> O -> passing (fun r w' => peers w' = peers w /\ later (store w) (store w') /\ (r.1 = None -> consumed stored binding w w'))
    (consume_attempts n stored binding issue) w.
Proof.
  revert issue w. induction n as [|n IH]; [done|]. intros issue w _. cbn [consume_attempts].
  eapply gate_bind; [apply gate_Now_read|]. intros completion w1 ([L1 D1] & P1 & Hc). cbv beta zeta. destruct (_ || _); [by_gates|].
  eapply gate_bind; [apply ConsumeAuthCode_gate|]. intros err w2 (P2 & L2 & Hs). cbv beta zeta.
  destruct (negb _ || _) eqn:E.
  { apply gate_ret. cbn [fst]. split_and!; [congruence|by etrans|]. intros ->. eexists _, _, completion.
    split; [exact (read_between_wider _ _ _ _ _ (reflexivity _) L2 Hc)|]. by rewrite <- D1. }
  apply orb_false_iff in E as [Ec%negb_false_iff Hn%Nat.eqb_neq]. destruct err as [err|]; [|done].
  assert (w_db (store w2) = w_db (store w)) as D2 by congruence.
  eapply gate_bind; [apply still_gate; auto with walk|]. intros [material e1] w3 [[L3 D3] P3]. cbv beta iota zeta.
  destruct e1; cbn [is_some is_nil negb]; [apply gate_ret; split_and!; [congruence|by repeat (etrans; [eassumption|])|done]|].
  eapply (gate_bind _ (fun _ w' => waits w3 w')).
  { destruct (i_grant issue); [destruct (is_empty _)|]; [by apply gate_ret| |by apply gate_ret].
    eapply gate_bind; [apply still_gate; auto with walk|]. intros [[? ?] ?] w4 Hw4. by apply gate_ret. }
  intros [grant e2] w4 [[L4 D4] P4]. cbv beta iota zeta.
  assert (later (store w) (store w4)) as L by (by repeat (etrans; [eassumption|])).
  destruct e2; cbn [is_some is_nil negb]; [apply gate_ret; split_and!; [congruence|done|done]|].
  eapply gate_mono; [by apply IH|]. intros r w' (P5 & L5 & Hc5). split_and!; [congruence|by etrans|].
  intros Hr. destruct (Hc5 Hr) as (g & m & t & Ht & Hspec). exists g, m, t.
  split; [exact (read_between_wider _ _ _ _ _ L (reflexivity _) Ht)|]. rewrite <- Hspec. f_equal. congruence.
Qed.

Lemma code_issue_still client stored : steps still (@store (Peers P)) (code_issue cfg encryptionKey client stored).
Proof.
  unfold code_issue, initial_grant, with_credential, flow_credential, invalid_code, storage_down, server_error, refuse_with.
  by_walk.
Qed.
Lemma code_issue_peers client stored : steps eq (at_peers (@id (Peers P))) (code_issue cfg encryptionKey client stored).
Proof.
  unfold code_issue, initial_grant, with_credential, flow_credential, invalid_code, storage_down, server_error, refuse_with.
  by_walk.
Qed.

(** ** The exchange of a code *)

(** A refresh grant needs the client's policy, and an offline one the user's consent. *)
Definition refresh_permitted (client : Client.ClientConfig) (stored : Code.AuthCode) : Prop :=
  Code.RefreshMode stored <> "" ->
  Refreshc.Enabled (Client.RefreshTokens client) = true /\
  is_Some (Config.UserLoginConnectors cfg !! Code.ConnectorID stored) /\
  (Code.RefreshMode stored = "offline" ->
   Refreshc.AllowOfflineAccess (Client.RefreshTokens client) = true /\ Code.OfflineConsent stored = true).

Lemma refresh_refused_false client stored : refresh_refused cfg client stored = false -> refresh_permitted client stored.
Proof.
  unfold refresh_refused, refresh_permitted. cbv zeta. intros E Hm. apply is_empty_false in Hm. rewrite Hm in E. cbn [negb andb] in E.
  apply orb_false_iff in E as [[[E1%negb_false_iff E2]%orb_false_iff E3]%orb_false_iff _].
  split_and!; [done | by destruct (_ !! _) |]. intros Ho. rewrite Ho in E3. cbn in E3.
  by apply orb_false_iff in E3 as [?%negb_false_iff ?%negb_false_iff].
Qed.

(** What justifies the answer to a code: everything the endpoint must have seen. *)
Record code_justified (form : Values) (proofs : list string) w (w' : proc) (access : string)
    (stored : Code.AuthCode) (resolved : Resolved.ResolvedClient) (groups : list string) : Prop := {
  just_presented : presented form w stored;
  just_policy : exists asked user,
    ResolveClient (Code.ClientID stored) true (outside (peers w)) = ((resolved, None), asked) /\
    ResolveUser resolved (Code.Email stored) asked = ((user, None), outside (peers w')) /\
    groups = Resolved.Groups user;
  just_client : client_accepts stored (Resolved.Config resolved);
  just_proved : proved (Resolved.Config resolved) "token" (Code.DPoPJKT stored) proofs w w';
  just_refresh : refresh_permitted (Resolved.Config resolved) stored;
  just_signed : exists issue s id, still (store w) s /\
    (SignTokenPair signer (code_context stored groups issue) s).1 = (id, access, None);
  just_consumed : consumed stored (code_binding form) w w'
}.

Lemma sign_gate context w :
  passing (fun r w' => (SignTokenPair signer context (store w)).1 = r /\ waits w w') (call (on_store (SignTokenPair signer context))) w.
Proof. apply gate_call, ends_on_store. unfold ends. split; [done|]. split; [apply SignTokenPair_still|done]. Qed.
Lemma expires_in_ok t w : passing (fun _ w' => waits w w') (expires_in t) w.
Proof. unfold expires_in. eapply gate_bind; [apply gate_Now_read|]. intros now w1 (S1 & P1 & _). by apply gate_ret. Qed.

Lemma exchangeCode_justified form proofs w :
  ends (exchangeCode cfg signer encryptionKey form proofs) w (fun a w' => forall access, issues a access ->
    exists stored resolved groups, code_justified form proofs w w' access stored resolved groups).
Proof.
  unfold exchangeCode. eapply (gate_ends issues_nothing); [|by intros a w' Ha access Hi; destruct (Ha access)].
  eapply gate_bind; [apply presented_code_ok|]. intros stored w1 (Hpresented & S1 & P1).
  eapply gate_bind; [apply code_client_ok|]. intros resolved w2 (Hpolicy & Hclient & E2 & R2). cbv zeta.
  eapply gate_bind; [apply code_proof_ok|]. intros [] w3 (Hproved & S3 & O3).
  eapply gate_bind; [apply gate_return_if; auto with yields|]. intros [] w4 [-> Hrefresh].
  eapply gate_bind; [apply code_user_ok|]. intros groups w5 (user & Huser & Hgroups & E5 & R5).
  eapply gate_bind; [eapply gate_waits;
    [apply gate_yields, code_issue_passes, refusals_issue_nothing | apply code_issue_still | apply code_issue_peers]|].
  intros issue w6 [_ [S6 P6]].
  eapply gate_bind; [apply sign_gate|]. intros [[id access] err] w7 [Hsign [S7 P7]]. cbv beta iota zeta.
  destruct err as [e|]; [apply server_error_gate|]. cbn [is_some is_nil negb].
  eapply gate_bind; [by apply consume_attempts_ok|].
  intros [err refresh] w8 (P8 & L8 & Hconsumed). cbv beta iota zeta. destruct err as [e|]; [destruct (errors_is e _); by_gates|].
  eapply gate_bind; [apply expires_in_ok|]. intros seconds w9 [S9 P9]. apply gate_ret.
  intros access' (members & [= <-] & Hin). exists stored, resolved, groups.
  assert (access' = access) as -> by (clear -Hin; destruct (is_empty refresh); set_solver).
  assert (still (store w) (store w2)) as S02 by by rewrite E2.
  assert (still (store w) (store w6)) as S06 by (etrans; [exact S02|]; etrans; [exact S3|]; by rewrite <- E5).
  assert (still (store w) (store w7)) as [L07 D07] by by etrans. destruct S9 as [L9 D9].
  assert (later (store w3) (store w9)) as L39.
  { rewrite <- E5. by etrans; [apply S6|etrans; [apply S7|by etrans]]. }
  constructor.
  - done.
  - exists (outside (peers w3)), user. split_and!; [rewrite O3, <- P1; exact Hpolicy| |done].
    rewrite Huser. by rewrite P9, P8, P7, P6.
  - done.
  - apply (proved_wider _ _ _ _ w w2 w3 w9); [by destruct S02|exact L39|congruence|congruence|done].
  - by apply refresh_refused_false.
  - by exists issue, (store w6), id.
  - destruct (Hconsumed eq_refl) as (g & m & t & Ht & Hspec). exists g, m, t.
    split; [exact (read_between_wider _ _ _ _ _ L07 L9 Ht)|]. by rewrite <- D07, D9.
Qed.

(** ** Access tokens at a protected resource *)

Definition refused_access (x : Token + Access.accessAuthError) : Prop := exists e, x = inr e.

(** The key of a bound access token is proved for the request: one fresh proof of it for this
    method, this resource and this token. *)
Definition proved_for (r : Http.Request) (endpoint raw jkt : string) w w' : Prop :=
  exists compact proof, Http.header r "DPoP" = [compact] /\
    Dpop.Thumbprint proof = jkt /\ Dpop.ATH proof = Base64.encode (sha256 raw) /\
    fresh_proof (proves compact "" (Http.Method r) (PublicEndpointURL (Config.IssuerURL cfg) endpoint)) w w' proof.

(** What justifies the acceptance of an access token at [endpoint]: a token bound to a key
    comes with one fresh proof of that key; an unbound one is a bearer token and comes
    without a proof. *)
Definition access_justified (r : Http.Request) (endpoint : string) (token : Token) w w' : Prop :=
  exists value scheme raw jkt, Http.header r "Authorization" = [value] /\ fields value = [scheme; raw] /\
    (VerifyAccessToken signer raw (store w)).1 = (Some token, None) /\ DPoPThumbprint token = (jkt, None) /\
    if is_empty jkt then equal_fold scheme "Bearer" = true /\ Http.header r "DPoP" = []
    else equal_fold scheme "DPoP" = true /\ proved_for r endpoint raw jkt w w'.

Lemma refused_access_refused status scheme code alg : refused_access (refused status scheme code alg).
Proof. by eexists. Qed.
#[local] Hint Resolve refused_access_refused : yields.

Lemma resource_proof_ok r endpoint raw jkt token w :
  gate refused_access (fun x w' => x = inl token /\ proved_for r endpoint raw jkt w w')
    (resource_proof cfg r endpoint raw jkt token) w.
Proof.
  unfold resource_proof. destruct (Http.header r "DPoP") as [|compact [|]] eqn:Hd; [by_gates | | by_gates].
  eapply gate_bind; [apply gate_Now_read|]. intros now w1 (S1 & P1 & Hnow).
  destruct (ParseAndVerifyBound _ _ _ _) as [proof|] eqn:Hp; [|by_gates].
  eapply gate_bind; [apply gate_return_if; auto with yields|]. intros [] w2 [-> Hath].
  eapply gate_bind; [apply gate_return_if; auto with yields|]. intros [] w3 [-> Ht].
  eapply gate_bind; [apply gate_Now_read|]. intros now' w4 (S4 & P4 & Hnow').
  eapply gate_bind; [apply reserveDPoP_ok|]. intros err w5 (Hres & E5 & _ & Hr).
  eapply gate_bind; [apply gate_return_if; auto with yields|]. intros [] w6 [-> He]. apply gate_ret. split; [done|].
  apply parseAndVerify_spec in Hp. eexists _, _. split_and!; [done | | |].
  - unfold VerifyThumbprint in Ht. destruct (negb _) eqn:E; [done|]. by apply neq_false.
  - unfold VerifyAccessTokenHash in Hath. destruct (negb (is_ascii raw)); [done|].
    destruct (_ || _) eqn:E; [done|]. apply orb_false_iff in E as [_ E]. by apply neq_false.
  - assert (err = None) as -> by (destruct err as [e|]; [cbn in *; congruence|done]).
    exists now, now'. rewrite E5. split_and!; [| |exact Hp|congruence].
    + eapply (read_between_wider _ (store w)); [reflexivity|by destruct S4|exact Hnow].
    + eapply (read_between_wider _ (store w1)); [by destruct S1|reflexivity|exact Hnow'].
Qed.

Lemma VerifyToken_still raw : calls still id (VerifyToken signer raw).
Proof. by_unfolding. Qed.
#[local] Hint Resolve VerifyToken_still : walk.
Lemma VerifyAccessToken_still raw : calls still id (VerifyAccessToken signer raw).
Proof. by_unfolding. Qed.

Lemma VerifyAccessToken_gate raw w :
  gate refused_access (fun r w' => (VerifyAccessToken signer raw (store w)).1 = r /\ waits w w')
    (call (on_store (VerifyAccessToken signer raw))) w.
Proof. apply gate_call, ends_on_store. unfold ends. split; [done|]. split; [apply VerifyAccessToken_still|done]. Qed.

Lemma authenticateAccessToken_ok r endpoint w :
  ends (authenticateAccessToken cfg signer r endpoint) w
    (fun x w' => forall token, x = inl token -> access_justified r endpoint token w w').
Proof.
  unfold authenticateAccessToken. cbv zeta. eapply (gate_ends refused_access); [|by intros x w' [e ->] token [=]].
  eapply gate_bind; [apply gate_return_if; auto with yields|]. intros [] w1 [-> Hlen].
  apply orb_false_iff in Hlen as [Ha Hp]. destruct (Http.header r "Authorization") as [|value [|]] eqn:Hauth; [by_gates | | done].
  destruct (fields value) as [|scheme [|raw [|]]] eqn:Hf; [by_gates | by_gates | | by_gates].
  eapply gate_bind; [apply gate_return_if; auto with yields|]. intros [] w2 [-> Hscheme].
  eapply gate_bind; [apply VerifyAccessToken_gate|].
  intros [[token|] [err|]] w3 (Hv & [L3 _] & P3); [by_gates | | by_gates..].
  destruct (DPoPThumbprint token) as [jkt [err|]] eqn:Hjkt; [by_gates|].
  destruct (is_empty jkt) eqn:Hbound.
  - eapply gate_bind; [apply gate_return_if; auto with yields|]. intros [] w4 [-> Hb]. apply gate_ret. intros token' [= <-].
    apply orb_false_iff in Hb as [Hb%negb_false_iff Hn]. exists value, scheme, raw, jkt. rewrite Hbound.
    split_and!; try done. by destruct (Http.header r "DPoP").
  - eapply gate_bind; [apply gate_return_if; auto with yields|]. intros [] w4 [-> Hb%negb_false_iff].
    eapply gate_mono; [apply resource_proof_ok|]. intros x w5 [-> (compact & proof & Hd & Ht & Hath & Hfresh)] token' [= <-].
    exists value, scheme, raw, jkt. rewrite Hbound. split_and!; try done. exists compact, proof. split_and!; try done.
    apply (fresh_proof_wider _ w w3 w5 w5); [done|done|by rewrite P3|done|done].
Qed.

(** ** The exchange of a refresh token *)

Record refresh_justified (form : Values) (proofs : list string) w (w' : proc) (access : string)
    (material : Material.RefreshMaterial) (grant : Grant.RefreshGrant) (resolved : Resolved.ResolvedClient) : Prop := {
  just_parsed : ParseRefreshToken (Get form "refresh_token") = (material, None);
  just_exchanged : exists called result,
    still (store w) (store called) /\
    (exists now expiry err, read_between (store w) (store called) now /\
       (err = None \/ is_err err ErrRefreshReplay = true) /\
       prepare_spec material (Get form "client_id") now (w_db (store w)) = ((grant, expiry, err), w_db (store w))) /\
    ResolveClient (Grant.ClientID grant) true (outside (peers w)) = ((resolved, None), outside (peers called)) /\
    validateDPoPBinding (Resolved.Config resolved) (Grant.DPoPJKT grant) = true /\
    proved (Resolved.Config resolved) "token" (Grant.DPoPJKT grant) proofs w called /\
    RefreshService.Exchange cfg signer
      {| RefreshService.Request.Token := Get form "refresh_token"; RefreshService.Request.ClientID := Get form "client_id";
         RefreshService.Request.Scope := Get form "scope" |} called = (result, None, w') /\
    Result.AccessToken result = access
}.

Lemma PrepareRefresh_gate material clientID now w :
  passing (fun r w' => waits w w' /\
      (is_err r.2 ErrSQL = true \/ prepare_spec material clientID now (w_db (store w)) = (r, w_db (store w))))
    (call (on_store (PrepareRefresh material clientID now))) w.
Proof.
  apply gate_call, ends_on_store. unfold ends.
  pose proof (PrepareRefresh_still material clientID now (store w)) as [L D].
  split; [by split|]. cbn [store]. cbn [id] in D.
  destruct (PrepareRefresh_atomic material clientID now (store w)) as [(_ & He & _)|E]; [left; exact He|right].
  by rewrite D in E.
Qed.

Lemma Exchange_gate req w :
  passing (fun r w' => RefreshService.Exchange cfg signer req w = (r, w'))
    (call (RefreshService.Exchange cfg signer req)) w.
Proof. apply gate_call. unfold ends. by destruct (RefreshService.Exchange _ _ _ _). Qed.

Lemma expires_in_gate {A} t (f : Z -> A) w (Q : A -> proc -> Prop) :
  (forall seconds w', w_db (store w') = w_db (store w) -> peers w' = peers w -> Q (f seconds) w') ->
  passing Q (seconds ← expires_in t; mret (f seconds)) w.
Proof.
  intros HQ. eapply gate_bind; [apply expires_in_ok|]. intros seconds w' [[_ E1] E2]. by apply gate_ret, HQ.
Qed.

Lemma invalid_refresh_gate {A} (Post : A -> proc -> Prop) w : passing Post invalid_refresh w.
Proof. apply invalid_refresh_passes, refusals_issue_nothing. Qed.
#[local] Hint Resolve invalid_refresh_gate : yields.

Lemma exchangeRefresh_justified form proofs w :
  ends (exchangeRefresh cfg signer form proofs) w (fun a w' => forall access, issues a access ->
    exists material grant resolved w2, refresh_justified form proofs w w2 access material grant resolved /\
      w_db (store w') = w_db (store w2)).
Proof.
  unfold exchangeRefresh. eapply (gate_ends issues_nothing); [|by intros a w' Ha access Hi; destruct (Ha access)].
  eapply gate_bind; [apply gate_return_if; auto with yields|]. intros [] w1 [-> _].
  destruct (ParseRefreshToken _) as [material [err|]] eqn:Hparse.
  { eapply gate_bind; [apply gate_return_if; auto with yields|]. by intros [] w2 [_ ?]. }
  eapply gate_bind; [apply gate_return_if; auto with yields|]. intros [] w2 [-> _].
  eapply gate_bind; [apply gate_Now_read|]. intros now w3 (S3 & P3 & Hnow).
  eapply gate_bind; [apply PrepareRefresh_gate|]. intros [[grant expiry] err] w4 ([S4 P4] & Hprep). cbv beta iota zeta.
  destruct (is_err err ErrInvalidGrant); [by_gates|]. destruct (is_some err && _) eqn:Herr; [by_gates|].
  eapply gate_bind; [apply gate_call, ends_mono with (1 := ResolveClient_asks _ _ _); intros r ? Hr; exact Hr|].
  intros [resolved rerr] w5 (Ha & E5 & R5). cbv beta iota zeta. destruct (is_err rerr ErrDenied); [by_gates|].
  destruct rerr as [e|]; cbn [is_some is_nil negb]; [by_gates|].
  destruct (validateDPoPBinding _ _) eqn:Hbinding; cbn [negb]; [|by_gates].
  eapply gate_bind; [apply refresh_proof_ok|]. intros [] w6 (Hproved & S6 & O6).
  eapply gate_bind; [apply Exchange_gate|]. intros [result [f|]] w7 Hex.
  { apply gate_ret. intros access (members & Hm & Hin). cbn in Hm. injection Hm as <-. set_solver. }
  apply expires_in_gate. intros seconds w8 E8 _ access (members & [= <-] & Hin).
  exists material, grant, resolved, w7. split; [|done].
  assert (Result.AccessToken result = access) by (clear -Hin; destruct (is_empty (Result.Scope result)); set_solver).
  assert (still (store w) (store w5)) as S05 by (rewrite E5; by etrans).
  assert (err = None \/ is_err err ErrRefreshReplay = true) as Hfound.
  { destruct err; [right | by left]. cbn in Herr. by apply negb_false_iff. }
  constructor; [done|]. exists w6, result. split_and!; [by etrans| | |done| |done|done].
  - exists now, expiry, err. split_and!; [|done|].
    + eapply (read_between_wider _ (store w)); [reflexivity| |exact Hnow]. etrans; [apply S4|]. rewrite <- E5. apply S6.
    + destruct Hprep as [He|Hprep]; [exfalso|by rewrite (proj2 S3) in Hprep].
      destruct Hfound as [->|Hr]; [done|]. destruct err as [e|]; [|done]. cbn in *. by rewrite (errors_is_sql _ He) in Hr.
  - rewrite O6, <- Ha. by rewrite P4, P3.
  - apply (proved_wider _ _ _ _ w w5 w6 w6); [apply S05|done|congruence|done|done].
Qed.

(** ** Revocation *)

Definition not_done (a : Answer.Response) : Prop := Answer.Status a <> 200.
Lemma refusals_not_done headers status code description :
  status ∈ refusal_statuses -> not_done (with_headers headers (oauthError status code description)).
Proof. unfold not_done, refusal_statuses. cbn. set_solver. Qed.
#[local] Hint Extern 1 (not_done (oauthError _ _ _)) => apply (refusals_not_done []) : yields.

Abbreviation refusing Post m w := (gate not_done Post m w).
Lemma refuse_not_done {A} (Post : A -> proc -> Prop) status code description w :
  status ∈ refusal_statuses -> refusing Post (refuse_with status code description) w.
Proof. intros Hs. apply refuse_with_passes; [apply refusals_not_done | done]. Qed.
Lemma invalid_proof_not_done {A} (Post : A -> proc -> Prop) w : refusing Post invalid_proof w.
Proof. apply invalid_proof_passes, refusals_not_done. Qed.
Lemma storage_not_done {A} (Post : A -> proc -> Prop) w : refusing Post storage_down w.
Proof. apply storage_down_passes, refusals_not_done. Qed.
#[local] Hint Resolve refuse_not_done invalid_proof_not_done storage_not_done : yields.

(** The same database. *)
Abbreviation same_db := (steps eq (fun w : proc => w_db (store w))).

(** The key a revocation request proves: none, or the one of its proof, which is valid at
    [now] and taken at [now] by the replay cache of [w], that did not hold it. *)
Definition proves_key (client : Client.ClientConfig) (proofs : list string) (jkt : string) (now : time) w w' : Prop :=
  jkt = "" \/ exists compact proof, proofs = [compact] /\
    proves compact (DPoPc.SigningAlgorithm (Client.DPoP client)) "POST"
      (PublicEndpointURL (Config.IssuerURL cfg) "revoke") now proof /\ jkt = Dpop.Thumbprint proof /\
    Reserve (ReplayHash (Dpop.Thumbprint proof) (Dpop.JTI proof) (Dpop.Method proof) (Dpop.Target proof)) now
      (replayCache (peers w)) = (None, replayCache (peers w')).

Lemma revoke_proof_ok client proofs now w :
  refusing (fun jkt w' => proves_key client proofs jkt now w w' /\ store w' = store w)
    (revoke_proof cfg client proofs now) w.
Proof.
  unfold revoke_proof. cbv zeta. destruct (_ && _); [by_gates|]. destruct (_ && _); [by_gates|].
  destruct proofs as [|compact [|]]; [by split; [left|] | | by split; [left|]].
  destruct (ParseAndVerify _ _ _ _ _) as [proof|] eqn:Hp; [|by_gates].
  eapply gate_bind; [apply reserveDPoP_ok|]. intros err w1 (Hres & E & _ & Hr).
  destruct (_ || _) eqn:He; [by_gates|]. apply gate_ret. split; [right | by rewrite E].
  unfold ParseAndVerify in Hp. case_match; [|done]. apply parseAndVerify_spec in Hp.
  eexists _, _. split_and!; [done | exact Hp | done |]. destruct err; [cbn in *; congruence | done].
Qed.

Lemma revocationCredential_db raw clientID w : w_db (store (revocationCredential signer raw clientID w).2) = w_db (store w).
Proof.
  symmetry. revert w. change (calls eq (fun w : proc => w_db (store w)) (revocationCredential signer raw clientID)).
  unfold revocationCredential. apply calls_run. destruct (ParseRefreshToken raw) as [m [e|]]; [|by_walk].
  apply steps_bind; [exact _| |intros ?; by_walk]. apply steps_call. intros w. unfold on_store.
  assert (w_db (VerifyToken signer raw (store w)).2 = w_db (store w)) as E.
  { enough (ends (VerifyToken signer raw) (store w) (fun _ s' => w_db s' = w_db (store w))) as He by exact He.
    unfold VerifyToken. by repeat store_step. }
  destruct (VerifyToken signer raw (store w)). by symmetry.
Qed.

Lemma revocationCredential_cache raw clientID : calls eq (at_peers (@replayCache P)) (revocationCredential signer raw clientID).
Proof. unfold revocationCredential. by_walk. Qed.

(** What justifies a revocation that was answered as done. *)
Record revocation_justified (form : Values) (proofs : list string) w (w' : proc)
    (resolved : Resolved.ResolvedClient) (proofJKT : string) : Prop := {
  rev_client : admits_client (Get form "client_id") false resolved;
  rev_effect : exists now w1,
    read_between (store w) (store w1) now /\
    proves_key (Resolved.Config resolved) proofs proofJKT now w w' /\
    w_db (store w') =
      (revoke_credential_spec (revocationCredential signer (Get form "token") (Get form "client_id") w1).1
         (Get form "client_id") proofJKT "application" now (w_db (store w))).2
}.

Lemma revoke_token_ok form proofs w :
  ends (revoke_token cfg signer form proofs) w (fun a w' => Answer.Status a = 200 ->
    exists resolved proofJKT, revocation_justified form proofs w w' resolved proofJKT).
Proof.
  unfold revoke_token. cbv zeta. eapply (gate_ends not_done); [|by intros a w' Ha Hs].
  eapply gate_bind; [apply gate_call, ends_mono with (1 := ResolveClient_asks _ _ _); intros r ? Hr; exact Hr|].
  intros [resolved err] w1 (Hclient & E1 & R1). cbv beta iota zeta. destruct (is_err err ErrDenied); [by_gates|].
  destruct err as [e|]; cbn [is_some is_nil negb]; [by_gates|].
  eapply gate_bind; [apply gate_Now_read|]. intros now w2 ([_ D2] & P2 & Hnow).
  eapply gate_bind; [apply revoke_proof_ok|]. intros jkt w3 [Hjkt E3].
  eapply (gate_bind _ (fun credential w' => credential = (revocationCredential signer (Get form "token") (Get form "client_id") w3).1
    /\ w_db (store w') = w_db (store w3) /\ replayCache (peers w') = replayCache (peers w3))).
  { apply gate_call. unfold ends. split_and!; [done | apply revocationCredential_db |].
    symmetry. apply (revocationCredential_cache (Get form "token") (Get form "client_id") w3). }
  intros credential w4 (-> & E4 & Ec). cbv beta.
  eapply (gate_bind _ (fun err w' => peers w' = peers w4 /\ (err = None -> w_db (store w') =
      (revoke_credential_spec (revocationCredential signer (Get form "token") (Get form "client_id") w3).1
         (Get form "client_id") jkt "application" now (w_db (store w4))).2))).
  { eapply wp_atomic; [apply RevokeCredential_atomic | |].
    - by intros err s He _; split; [|intros ->].
    - intros err s He. split; [done|]. intros _. by rewrite He. }
  intros err w5 [Ep E5]. destruct err as [e|]; cbn [is_some is_nil negb]; [by_gates|]. apply gate_ret. intros _.
  exists resolved, jkt. constructor; [by eexists; rewrite Hclient|].
  exists now, w3. rewrite E3. split_and!; [by rewrite <- E1| |].
  - destruct Hjkt as [?|(compact & proof & Hc & Hp & Ht & Hr)]; [by left | right].
    exists compact, proof. split_and!; [done..|]. rewrite Ep, Ec, <- Hr. by rewrite P2, R1.
  - rewrite E5 by done. by rewrite E4, E3, D2, E1.
Qed.
End Gates.

(** * The completion of a browser flow

    What the server has established when it redirects with an authorization code: the
    policy in force admits the client, its redirect URI, the parameters of the flow and
    the user, an offline flow carries consent, and the code is stored with exactly the
    parameters of the flow.  No other answer of the flow carries a code. *)

(** A redirect that carries a code. *)
Definition carries (a : Answer.Response) (code : string) : Prop :=
  exists uri query, Answer.Location a = Some (uri, query) /\ ("code", code) ∈ query.
Definition carries_none (a : Answer.Response) : Prop := forall code, ~ carries a code.

Section Completion.
Context `{Env} {P : Type} `{!PolicyResolver P} `{!Connectors P} `{!Mailer P} `{!Challenge P}.
Context `{!AEAD} `{!CredentialJSON} `{!FlowJSON} `{!EmailsJSON} `{!URLs} `{!NetText} `{!MailText} `{!Templates}.
Context (cfg : Config.Config) (otpSecret encryptionKey : string) (has_mailer : bool).

Abbreviation proc := (Process (Peers P)).
Implicit Types w : proc.
Abbreviation codes w := (auth_codes (w_db (store w))).
Abbreviation passing Post m w := (gate carries_none Post m w).

Lemma page_without_code a : Answer.Location a = None -> carries_none a.
Proof. intros E code (uri & query & E' & _). congruence. Qed.
Lemma error_page_none status reason title message : carries_none (renderErrorPage status reason title message).
Proof. apply page_without_code. unfold renderErrorPage. by case_match. Qed.
Lemma browser_error_none status reason : carries_none (renderBrowserError status reason).
Proof. unfold renderBrowserError. repeat case_match; apply error_page_none. Qed.
Lemma browser_page_none status p reason : carries_none (renderBrowserPage status p reason).
Proof. unfold renderBrowserPage. case_match; [by apply page_without_code | apply browser_error_none]. Qed.
Lemma panicked_none : carries_none panicked.
Proof. by apply page_without_code. Qed.
Lemma flow_error_none uri state code reason : carries_none (redirectAuthorizationError uri state code reason).
Proof.
  unfold redirectAuthorizationError. destruct (parse_url uri); [|apply browser_error_none].
  intros c (target & q & [= <- <-] & Hin). destruct (is_empty state); set_solver.
Qed.
#[local] Hint Resolve error_page_none browser_error_none browser_page_none panicked_none flow_error_none : yields.

Lemma page_gate {A} (Post : A -> proc -> Prop) status p reason w : passing Post (page status p reason) w.
Proof. apply gate_return. auto with yields. Qed.
Lemma error_page_gate {A} (Post : A -> proc -> Prop) status reason title message w :
  passing Post (error_page status reason title message) w.
Proof. apply gate_return. auto with yields. Qed.
Lemma browser_error_gate {A} (Post : A -> proc -> Prop) status reason w : passing Post (browser_error status reason) w.
Proof. apply gate_return. auto with yields. Qed.
Lemma flow_error_gate {A} (Post : A -> proc -> Prop) state code reason w :
  passing Post (flow_error state code reason) w.
Proof. apply gate_return. auto with yields. Qed.
#[local] Hint Resolve page_gate error_page_gate browser_error_gate flow_error_gate : yields.

(** The page of grants carries no code. *)
Lemma grant_actions_none grants : yields (W := proc) carries_none (fun _ => True) (grant_actions grants).
Proof. induction grants; cbn [grant_actions]; unfold error_page; repeat yields_step; auto with yields. Qed.
#[local] Hint Resolve grant_actions_none : yields.
Lemma renderGrants_none email : produces (W := proc) carries_none (renderGrants email).
Proof. unfold renderGrants, error_page, page. repeat yields_step; auto with yields. Qed.

(** ** The gates *)

(** The policy in force admits the flow of [state]. *)
Definition flow_admitted (state : Auth.OAuthState) (resolved : Resolved.ResolvedClient) : Prop :=
  admits_client (P := P) (Auth.ClientID state) true resolved /\
  Auth.RedirectURI state ∈ Client.RedirectURIs (Resolved.Config resolved) /\
  stateSatisfiesClientPolicy state (Resolved.Config resolved) = true /\
  (Auth.RefreshMode state = "offline" -> Auth.OfflineConsent state = true).

Lemma flow_client_ok state w : passing (fun resolved _ => flow_admitted state resolved) (flow_client state) w.
Proof.
  unfold flow_client. eapply gate_bind; [apply gate_call, ends_mono with (1 := ResolveClient_answer _ _ _); intros r ? Hr; exact Hr|].
  intros [resolved err] w1 Ha. cbv beta iota zeta. destruct (is_err err ErrDenied); [by_gates|].
  destruct err as [e|]; cbn [is_some is_nil negb]; [by_gates|].
  destruct (isValidRedirectURI _ _) eqn:Hr; cbn [negb]; [|by_gates].
  destruct (_ || _) eqn:E; [by_gates|]. apply gate_ret. apply orb_false_iff in E as [E1%negb_false_iff E2].
  split_and!; [by apply Ha | by apply mem_true | done |]. intros Hm. rewrite Hm in E2. cbn in E2. by apply negb_false_iff in E2.
Qed.

Lemma flow_user_ok resolved email w :
  passing (fun _ _ => exists groups, admits_user (P := P) resolved (to_lower email) groups) (flow_user resolved email) w.
Proof.
  unfold flow_user. eapply gate_bind; [apply gate_call, ends_mono with (1 := ResolveUser_answer _ _ _); intros r ? Hr; exact Hr|].
  intros [user err] w1 Ha. cbv beta iota zeta. destruct (is_err err ErrDenied); [by_gates|].
  destruct err as [e|]; cbn [is_some is_nil negb]; [by_gates|]. apply gate_ret. eexists. by apply Ha.
Qed.

Lemma SaveAuthCode_stored code (w : World) :
  ends (SaveAuthCode code) w (fun err s' => err = None -> auth_codes (w_db s') !! Code.Code code = Some code).
Proof.
  unfold SaveAuthCode. repeat store_step; try done. intros _. cbn in *. case_match; [done|]. simplify_eq.
  cbn. by rewrite lookup_insert_eq.
Qed.

Lemma GenerateCode_stored payload (w : World) :
  ends (GenerateCode payload) w (fun r s' => forall code, r = (code, None) ->
    exists now, auth_codes (w_db s') !! code = Some (stored_code code now payload)).
Proof.
  unfold GenerateCode. eapply (gate_ends (fun r => is_Some r.2)); [|by intros r w' [? E] code ->].
  eapply gate_bind; [apply gate_any|]. intros [code [e|]] w1 _; [by apply gate_return|].
  eapply (gate_bind _ (fun _ _ => True)); [by apply wp_now|]. intros now w2 _.
  eapply gate_bind; [apply gate_call, SaveAuthCode_stored|]. intros [e|] w3 Hs; [by apply gate_return|].
  apply gate_ret. intros code' [= <-]. exists now. by apply Hs.
Qed.

Lemma EncryptTemporaryCredential_codes a b c d e (w : World) :
  keeps_at auth_codes (EncryptTemporaryCredential a b c d e) w.
Proof. unfold keeps_at. eapply ends_mono; [apply encrypt_spec|]. by intros [[? ?] ?] ? [-> _]. Qed.
Lemma SaveFlowCredential_codes a b c d e f t z (w : World) : keeps_at auth_codes (SaveFlowCredential a b c d e f t z) w.
Proof. unfold SaveFlowCredential. by_keep. Qed.
Lemma codes_kept {B} (op : World -> B * World) w :
  keeps_at auth_codes op (store w) -> passing (fun _ w' => codes w' = codes w) (call (on_store op)) w.
Proof. intros Hk. by apply gate_call, ends_on_store. Qed.

Lemma move_credential_ok state code credential w :
  passing (fun _ w' => codes w' = codes w) (move_credential encryptionKey state code credential) w.
Proof.
  unfold move_credential.
  eapply gate_bind; [apply codes_kept, EncryptTemporaryCredential_codes|].
  intros [[nonce ciphertext] err] w1 E1. cbv beta iota zeta in *. destruct err as [e|]; cbn [is_some is_nil negb]; [by_gates|].
  eapply gate_bind; [apply gate_Now|]. intros now w2 [E2 _].
  eapply gate_bind; [apply codes_kept, SaveFlowCredential_codes|].
  intros err w3 E3. cbv beta in *. destruct err as [e|]; cbn [is_some is_nil negb]; [by_gates|]. apply gate_ret. congruence.
Qed.

Lemma completed_credential_passes state :
  yields (W := proc) carries_none (fun _ => True) (completed_credential encryptionKey state).
Proof. unfold completed_credential, flow_error. repeat yields_step; auto with yields. Qed.

(** ** Completion *)

(** What justifies a redirect with [code] at the end of the flow of [state]. *)
Record completion_justified (state : Auth.OAuthState) (subject email : string) (verified : bool)
    (a : Answer.Response) (code : string) (w' : proc) : Prop := {
  done_redirect : exists query, Answer.Location a = Some (Auth.RedirectURI state, ("code", code) :: query);
  done_admitted : exists resolved groups,
    flow_admitted state resolved /\ admits_user (P := P) resolved (to_lower email) groups;
  done_stored : exists now, codes w' !! code = Some (stored_code code now (flow_payload state subject email verified))
}.

Lemma complete_ok state subject email verified w :
  ends (complete cfg encryptionKey state subject email verified) w
    (fun a w' => forall code, carries a code -> completion_justified state subject email verified a code w').
Proof.
  unfold complete. eapply (gate_ends carries_none); [|by intros a w' Ha code Hc; destruct (Ha code)].
  destruct (_ =? "manage_grants")%string.
  { eapply gate_mono; [apply gate_yields, yields_call, renderGrants_none|]. intros a w' Ha code Hc. by destruct (Ha code). }
  eapply gate_bind; [apply flow_client_ok|]. intros resolved w1 Hclient.
  eapply gate_bind; [apply flow_user_ok|]. intros [] w2 Huser.
  eapply gate_bind; [apply gate_yields, completed_credential_passes|]. intros credential w3 _. cbv zeta.
  destruct (_ && _); [by_gates|].
  eapply (gate_bind _ (fun r w' => forall code, r = (code, None) -> exists now,
     codes w' !! code = Some (stored_code code now (flow_payload state subject email verified))));
    [apply gate_call, ends_on_store, GenerateCode_stored|].
  intros [code err] w4 Hcode. cbv beta iota zeta. destruct err as [e|]; cbn [is_some is_nil negb]; [by_gates|].
  eapply (gate_bind _ (fun _ w' => codes w' = codes w4)).
  { destruct credential; [apply move_credential_ok | by apply gate_ret]. }
  intros [] w5 E5. destruct (parse_url _); [|by_gates]. apply gate_ret.
  intros code' (uri & query & [= <- <-] & Hin).
  assert (code' = code) as -> by (clear -Hin; destruct (is_empty (Auth.OIDCState state)); set_solver).
  constructor; [by eexists | destruct Huser as [groups ?]; by exists resolved, groups |]. rewrite E5. by apply Hcode.
Qed.
End Completion.
