(* ===== verification/OidcSample.v ===== *)
(** * A concrete site

    The libraries, the policy, a login provider and the configuration instantiated by
    concrete functions, and a login run on them from the authorization request to the
    tokens: the handlers evaluate, and the hypotheses of the properties can hold. *)

From S2P Require Import Prelude Runtime Base64 Sha256 ReplayCache Schema RefreshToken RefreshStore FlowStore OtpStore GrantStore Json Config Upstream Credentials Tokens Services RefreshService TrustPolicy TrustConfig Dpop Trust TrustServiceProperties ExchangeProperties Http Oidc OidcToken OidcResource OidcFlow OidcAuthorize Server.

Module Site.
Import Sample.

#[export] Instance aead : AEAD := plain_aead.
#[export] Instance contexts : Contexts nat := fun p => (false, p).

(** An application with offline access; [key] is one that must prove its key. *)
Definition app (key : bool) : Client.ClientConfig :=
  zero_client <| Client.RedirectURIs := ["https://app.example/cb"] |>
    <| Client.RefreshTokens :=
         {| Refreshc.Enabled := true; Refreshc.AllowOfflineAccess := true; Refreshc.SessionIdleTTL := hour;
            Refreshc.SessionAbsoluteTTL := hour; Refreshc.OfflineIdleTTL := 30 * hour;
            Refreshc.OfflineAbsoluteTTL := 300 * hour |} |>
    <| Client.DPoP := {| DPoPc.Mode := if key then "required" else "disabled"; DPoPc.SigningAlgorithm := "ES256" |} |>.
#[export] Instance policy : PolicyResolver nat := {|
  ResolveClient id _ n :=
    if mem id ["app"; "key"]
    then (({| Resolved.Config := app (id =? "key")%string; Resolved.id := id; Resolved.source := clientSourceStatic;
              Resolved.owner := 1 |}, None), n)
    else ((zero_resolved_client, Some ErrDenied), n);
  ResolveUser _ email n :=
    if (email =? "a@example.com")%string then (({| Resolved.Groups := ["staff"] |}, None), n)
    else ((zero_resolved_user, Some ErrDenied), n)
|}.

(** A login provider whose account has one verified address. *)
#[export] Instance connectors : Connectors nat := {|
  has_connector id := (id =? "corp")%string;
  AuthCodeURL id state _ := "https://login.example/" +:+ state;
  Services.Exchange _ _ n :=
    ((Some {| Cred.AccessToken := "up"; Cred.TokenType := "Bearer"; Cred.RefreshToken := "up-refresh";
              Cred.AccessExpiry := zero_time; Cred.RefreshExpiry := zero_time; Cred.AccessNonExpiring := true |}, None), n);
  Refresh _ _ n := ((None, None), n);
  GetIdentity _ _ n :=
    (({| Identity.Subject := "42";
         Identity.Emails := [{| Identity.Address := "a@example.com"; Identity.Verified := true; Identity.Primary := true |}] |},
      None), n)
|}.
#[export] Instance credential_json : CredentialJSON := {|
  marshal_credential c := Some (Cred.RefreshToken c);
  unmarshal_credential text := Some (zero_credential <| Cred.RefreshToken := text |> <| Cred.AccessNonExpiring := true |>)
|}.

(** A token is "access" or "id"; an access token is bound to the key of the proofs. *)
Definition thumbprint : string := "0123456789abcdef0123456789abcdef".
Definition jkt : string := Eval vm_compute in Base64.encode thumbprint.
Definition access_token : Token :=
  {| tok_issuer := "https://id.example"; tok_subject := "42"; tok_audience := ["key"];
     tok_expiration := 1800000000 * second; tok_issued_at := 1700000000 * second;
     tok_get name := if (name =? "scope")%string then Some (JString "openid")
                     else if (name =? "cnf")%string then Some (JObject [("jkt", JString jkt)]) else None |}.
#[export] Instance jwt : JWT := {|
  jwt_accepts _ _ := true; jwt_accepts_kid _ := true;
  jwt_sign _ _ c := Some (if is_some (c !! "scope") then "access" else "id");
  jwt_parse _ _ now raw := if (raw =? "access")%string && (now <? tok_expiration access_token) then Some access_token else None
|}.

(** A proof is a text whose payload names its endpoint. *)
#[export] Instance jose : JOSE := {|
  jwk_key := string; public_key := string;
  ParseKey := Some; Raw := Some; PointBytes := Some;
  ParseUncompressedPublicKey _ point := Some point;
  jwk_thumbprint _ := Some thumbprint;
  jws_verify compact _ _ :=
    if (compact =? "aGVhZA.dG9rZW4.cw")%string then Some "token"
    else if (compact =? "aGVhZA.dXNlcmluZm8.cw")%string then Some "userinfo" else None
|}.
Definition token_proof : string := "aGVhZA.dG9rZW4.cw".
Definition userinfo_proof : string := "aGVhZA.dXNlcmluZm8.cw".
#[export] Instance proofs : ProofJSON := {|
  unmarshal_members s :=
    if (s =? "head")%string
    then Some (list_to_map [("typ", "dpop+jwt"); ("alg", "ES256"); ("jwk", "key")])
    else if (s =? "key")%string then Some (list_to_map [("kty", "EC"); ("crv", "P-256")]) else None;
  unmarshal_string s := s;
  decode_members payload :=
    if (payload =? "token")%string
    then Some ([("jti", JString "id-1"); ("htm", JString "POST"); ("htu", JString "https://id.example/token");
                ("iat", JNumber "1700000000")], "")
    else Some ([("jti", JString "id-2"); ("htm", JString "GET"); ("htu", JString "https://id.example/userinfo");
                ("iat", JNumber "1700000000"); ("ath", JString (Base64.encode (sha256 "access")))], "")
|}.
#[export] Instance urls : URLs := fun _ =>
  Some {| Scheme := "https"; Host := "id.example"; Hostname := "id.example"; HasUser := false;
          RawQuery := ""; ForceQuery := false; Fragment := "" |}.
#[export] Instance net : NetText := {|
  parse_media_type s := (s, true); split_host _ := None; is_ip _ := false
|}.
#[export] Instance mail : MailText := Some.
#[export] Instance mailer : Mailer nat := fun _ _ _ n => (None, S n).
#[export] Instance challenge : Challenge nat := fun _ _ n => (None, n).
#[export] Instance templates : Templates := {| executes _ := Some "page"; executes_error title _ := Some title |}.
#[export] Instance pages : PageTemplates := fun _ => templates.
#[export] Instance printing : Sprint := fun _ => "".
#[export] Instance limiter : Limiter nat := fun _ n => (true, n).
#[export] Instance readiness : Readiness nat := fun n => (true, n).
#[export] Instance public_pages : PublicPages := fun _ _ => reply 404 [] NoBody.
#[export] Instance flow_json : FlowJSON := {| flow_marshal _ := None; flow_unmarshal _ := None |}.
#[export] Instance emails_json : EmailsJSON := {| emails_marshal _ := None; emails_unmarshal _ := None |}.

Definition config : Config.Config :=
  zero_config <| Config.IssuerURL := "https://id.example" |>
    <| Config.AccessTokenTTL := 5 * minute |> <| Config.IDTokenTTL := 5 * minute |>
    <| Config.UserLoginConnectors := {["corp" := demo_connector_config "generic"]} |>.
Definition server : Server :=
  {| Server.config := config; signer := demo_signer; jwksData := "{}"; otpSecret := "";
     encryptionKey := thumbprint; has_mailer := false |}.

(** ** A login *)

Definition request (method path query body : string) (headers : string -> list string) : Http.Request :=
  {| Http.Method := method; Http.Host := "id.example"; Http.Path := path; Http.RawQuery := query; Http.RemoteAddr := "";
     Http.header name := if (name =? "Content-Type")%string then [form_type] else headers name;
     Http.connector := ""; Http.Body := body; Http.body_failed := false |}.
Definition no_headers : string -> list string := fun _ => [].

Definition verifier : string := "abcdefghijklmnopqrstuvwxyz0123456789-._~ABCDEFG".
Definition code_challenge : string := Eval vm_compute in (pkceChallenge verifier).1.

Definition authorization : Http.Request :=
  request "GET" "/authorize"
    ("client_id=app&redirect_uri=https://app.example/cb&response_type=code&state=s1&scope=openid+offline_access"
     +:+ "&code_challenge_method=S256&code_challenge=" +:+ code_challenge) "" no_headers.
(** The state of a consent page, of a redirect to the provider, and the code of a redirect. *)
Definition consent_state (a : Answer.Response) : string :=
  match Answer.Content a with PageBody (ConsentPage _ state _) _ => state | _ => "" end.
Definition login_state (a : Answer.Response) : string :=
  match Answer.Location a with Some (uri, _) => trim_prefix "https://login.example/" uri | None => "" end.
Definition code_of (a : Answer.Response) : string :=
  match Answer.Location a with Some (_, ("code", code) :: _) => code | _ => "" end.

Definition consent (state : string) : Http.Request :=
  request "POST" "/consent" "" ("decision=accept&state=" +:+ state) no_headers.
Definition callback (state : string) : Http.Request :=
  request "GET" "/callback/corp" ("code=up&state=" +:+ state) "" no_headers.
Definition exchange (code : string) : Http.Request :=
  request "POST" "/token" ""
    ("grant_type=authorization_code&client_id=app&redirect_uri=https://app.example/cb&code=" +:+ code
     +:+ "&code_verifier=" +:+ verifier) no_headers.

(** The four requests of a login, each made with what the answer before it carried. *)
Definition login_requests : list Http.Request :=
  let w := start in
  let '(a1, w1) := serve server authorization w in
  let '(a2, w2) := serve server (consent (consent_state a1)) w1 in
  let '(a3, _) := serve server (callback (login_state a2)) w2 in
  [authorization; consent (consent_state a1); callback (login_state a2); exchange (code_of a3)].

(** The statuses of requests in sequence and the members of the last answer. *)
Fixpoint answers (requests : list Http.Request) (w : Process (Peers nat)) : list Answer.Response :=
  match requests with
  | [] => []
  | r :: requests => let '(a, w) := serve server r w in a :: answers requests w
  end.
Definition member_names (a : Answer.Response) : list string :=
  match Answer.Content a with JSONBody members => map fst members | _ => [] end.
(** A code of the application that proves its key, and the form that presents it. *)
Definition key_code : Code.AuthCode :=
  stored_code "code" (1700000000 * second)
    {| Payload.ClientID := "key"; Payload.RedirectURI := "https://app.example/cb"; Payload.CodeChallenge := code_challenge;
       Payload.Email := "a@example.com"; Payload.EmailVerified := true; Payload.Nonce := ""; Payload.Scopes := "openid";
       Payload.RefreshMode := ""; Payload.AuthTime := 1700000000 * second; Payload.ConnectorID := "corp";
       Payload.UpstreamSubject := "42"; Payload.OfflineConsent := false; Payload.DPoPJKT := jkt;
       Payload.PushedAuthorization := false |}.
Definition with_code : Process (Peers nat) :=
  {| store := World_at 0 (empty_tables <| auth_codes := {["code" := key_code]} |>); peers := peers start |}.
Definition code_form : Values :=
  list_to_map [("code", ["code"]); ("client_id", ["key"]); ("redirect_uri", ["https://app.example/cb"]);
               ("code_verifier", [verifier])].

(** The request of that form, with a proof of the key. *)
Definition key_request : Http.Request :=
  request "POST" "/token" ""
    ("grant_type=authorization_code&client_id=key&redirect_uri=https://app.example/cb&code=code&code_verifier=" +:+ verifier)
    (fun name => if (name =? "DPoP")%string then [token_proof] else []).
End Site.
