(* ===== verification/OidcComplete.v ===== *)
(** * What the token endpoint grants

    The converse of the gates of OidcSafety.v: when the database and the entropy do not
    fail and everything the exchange of an authorization code asks for is in order, tokens
    are issued, the code is consumed and nothing else of the database changes. *)

From S2P Require Import Prelude Runtime Base64 Sha256 Durations ReplayCache Schema RefreshToken RefreshStore FlowStore RefreshSpec Json Config Upstream Credentials Tokens Services RefreshService TrustPolicy TrustConfig Dpop Trust TrustServiceProperties ExchangeProperties Http Oidc OidcToken OidcSafety OidcSample.

(** ** Statements that go on *)

(** [goes m w Q]: the statement does not return from the function, and goes on with a value
    and a state satisfying [Q]. *)
Definition goes {W R A} (m : go W R A) (w : W) (Q : A -> W -> Prop) : Prop :=
  wp m w (fun x w' => match x with inr a => Q a w' | inl _ => False end).

Section Goes.
Context {W R : Type}.
Implicit Types w : W.

Lemma goes_bind {A B} (f : A -> go W R B) (m : go W R A) w Q :
  goes m w (fun a w' => goes (f a) w' Q) -> goes (m ≫= f) w Q.
Proof. unfold goes. intros H. apply wp_bind. eapply wp_mono; [exact H|]. by intros [r|a]. Qed.
Lemma goes_ret {A} (a : A) w (Q : A -> W -> Prop) : Q a w -> goes (R := R) (mret a) w Q.
Proof. done. Qed.
Lemma goes_return_if c (r : R) w (Q : unit -> W -> Prop) : c = false -> Q tt w -> goes (return_if c r) w Q.
Proof. by intros ->. Qed.
Lemma goes_call {B} (f : W -> B * W) w Q : ends f w Q -> goes (R := R) (call f) w Q.
Proof. intros H. by apply wp_call. Qed.
Lemma goes_mono {A} (m : go W R A) w (Q Q' : A -> W -> Prop) :
  goes m w Q -> (forall a w', Q a w' -> Q' a w') -> goes m w Q'.
Proof. unfold goes. intros Hm HQ. eapply wp_mono; [exact Hm|]. intros [r|a] w'; [done|apply HQ]. Qed.
Lemma goes_run (m : go W R R) w Q : goes m w Q -> ends (run m) w Q.
Proof. unfold goes. intros H. apply ends_run. eapply wp_mono; [exact H|]. by intros [r|a]. Qed.
End Goes.

(** ** An exchange in progress *)

Section Exchange.
Context `{Env} {P : Type} `{!PolicyResolver P} `{!TrustResolver P} `{!Connectors P} `{!Contexts P} `{!HTTPClient P}.
Context `{!AEAD} `{!JWT} `{!CredentialJSON} `{!ExternalJWT} `{!URLs} `{!ProofJSON} `{!JOSE} `{!MetadataJSON} `{!JSONLib}.
Context `{!NetText}.
Context (cfg : Config.Config) (signer : Signer) (encryptionKey : string).

Abbreviation proc := (Process (Peers P)).
Implicit Types w : proc.
Abbreviation ticks w := (c_tick (w_cnt (store w))).

(** Neither the statements of the database nor the reads of randomness fail. *)
Definition calm : Prop := forall n, stmt_fault n = false /\ entropy_fault n = false.

(** [now] is one of the next eight readings of the clock. *)
Definition reading w (now : time) : Prop :=
  exists k, (k < 8)%nat /\ now = clock (ticks w + k)%nat + w_slept (store w).

(** [w'] is [w] but for at most [n] readings of the clock, statements, randomness and what
    the peers keep to themselves. *)
Record later (n : nat) w w' : Prop := {
  later_db : w_db (store w') = w_db (store w);
  later_slept : w_slept (store w') = w_slept (store w);
  later_ticks : (ticks w <= ticks w' <= ticks w + n)%nat
}.

Lemma later_refl w : later 0 w w.
Proof. split; [done|done|lia]. Qed.
Lemma later_trans m n w1 w2 w3 : later m w1 w2 -> later n w2 w3 -> later (m + n) w1 w3.
Proof. intros [] []. split; [congruence|congruence|lia]. Qed.
Lemma later_weaken m n w w' : later m w w' -> (m <= n)%nat -> later n w w'.
Proof. intros [] ?. split; [done|done|lia]. Qed.

Lemma reading_in m w w' : later m w w' -> (m < 8)%nat -> reading w (clock (ticks w') + w_slept (store w')).
Proof.
  intros [_ Hs Ht] Hm. exists (ticks w' - ticks w)%nat. rewrite Hs. split; [lia|].
  by replace (ticks w + (ticks w' - ticks w))%nat with (ticks w') by lia.
Qed.

Lemma reading_all w (Q : time -> Prop) :
  Forall (fun k => Q (clock (ticks w + k)%nat + w_slept (store w))) (seq 0 8) -> forall now, reading w now -> Q now.
Proof. intros HQ now (k & Hk & ->). rewrite Forall_forall in HQ. apply HQ, elem_of_seq. lia. Qed.

(** Reading the clock. *)
Lemma goes_Now {R} m w0 w (Q : time -> proc -> Prop) :
  later m w0 w -> (m < 8)%nat ->
  (forall now w', reading w0 now -> later (S m) w0 w' -> peers w' = peers w -> Q now w') ->
  goes (R := R) Now w Q.
Proof.
  intros Hl Hm HQ. apply wp_Now. apply HQ; [by eapply reading_in|by destruct Hl; split; cbn; [..|lia]|done].
Qed.

(** What the exchange of a code without a refresh grant asks for: the code is stored for
    the form and unexpired, the policy admits the client and the user whenever it is asked,
    a flow bound to a key comes with one proof of it that was not seen, the lifetimes of
    tokens outlast the exchange, and the claims can be signed. *)
Record exchangeable (form : Values) (proofs : list string) w (stored : Code.AuthCode) (resolved : Resolved.ResolvedClient)
    (user : Resolved.ResolvedUser) : Prop := {
  ex_fields : forall field, field ∈ ["code"; "client_id"; "redirect_uri"; "code_verifier"] -> Get form field <> "";
  ex_presented : presented form w stored;
  ex_code : Code.Code stored = Get form "code";
  ex_unexpired : forall now, reading w now -> now < Code.ExpiresAt stored;
  ex_client : forall o : P, (ResolveClient (Code.ClientID stored) true o).1 = (resolved, None);
  ex_pushed : Client.RequirePAR (Resolved.Config resolved) = true -> Code.PushedAuthorization stored = true;
  ex_binding : validateDPoPBinding (Resolved.Config resolved) (Code.DPoPJKT stored) = true;
  ex_proof :
    if is_empty (Code.DPoPJKT stored) then proofs = []
    else exists compact proof, proofs = [compact] /\ Dpop.Thumbprint proof = Code.DPoPJKT stored /\
      forall now, reading w now ->
        ParseAndVerify compact (DPoPc.SigningAlgorithm (Client.DPoP (Resolved.Config resolved))) "POST"
          (PublicEndpointURL (Config.IssuerURL cfg) "token") now = inl proof /\
        (Reserve (ReplayHash (Dpop.Thumbprint proof) (Dpop.JTI proof) (Dpop.Method proof) (Dpop.Target proof)) now
           (replayCache (peers w))).1 = None;
  ex_no_refresh : Code.RefreshMode stored = "";
  ex_user : forall o : P, (ResolveUser resolved (Code.Email stored) o).1 = (user, None);
  ex_lifetimes : forall now later, reading w now -> reading w later ->
    later < now + Config.AccessTokenTTL cfg /\ later < now + Config.IDTokenTTL cfg;
  ex_signs : forall context identity now jti, exists text,
    sign_claims signer (context_claims signer context identity now jti) "failed to sign token" = (text, None)
}.

(** The tokens alone are issued, with their full lifetimes. *)
Definition plain_issue (now : time) : Issue :=
  {| i_sid := ""; i_grant := None; i_material := zero_material; i_plain := "";
     i_access := add now (Config.AccessTokenTTL cfg); i_id := add now (Config.IDTokenTTL cfg); i_refresh := "" |}.

(** [text] is the ID token, or the access token, signed for [context] at a reading of the
    clock and under a fresh identifier. *)
Definition signed w (context : Ctx.TokenContext) (identity : bool) (text : string) : Prop :=
  exists now draw, reading w now /\
    sign_claims signer (context_claims signer context identity now (Base64.encode (entropy_bytes draw 16)))
      "failed to sign token" = (text, None).

(** The members of the answer to the exchange of [stored] for [user]: the two tokens signed
    for the grant of the code, in their places, the token type of its binding, what is left
    of the lifetime of the access token, and no refresh token. *)
Definition pair_granted w w' (stored : Code.AuthCode) (user : Resolved.ResolvedUser) (members : list (string * json)) : Prop :=
  exists issued answered id access,
    reading w issued /\ read_between (store w) (store w') answered /\
    (let context := code_context stored (Resolved.Groups user) (plain_issue issued) in
     signed w context true id /\ signed w context false access) /\
    members = [("access_token", JString access); ("id_token", JString id);
               ("token_type", JString (token_type (Code.DPoPJKT stored)));
               ("expires_in", number (trunc64 (Seconds (sub (add issued (Config.AccessTokenTTL cfg)) answered))))].

Section Granted.
Context (quiet : calm) (form : Values) (proofs : list string) (w0 : proc) (stored : Code.AuthCode).
Context (resolved : Resolved.ResolvedClient) (user : Resolved.ResolvedUser).
Context (Hex : exchangeable form proofs w0 stored resolved user).

Lemma no_fault (s : World) : faulty s = false.
Proof. apply quiet. Qed.

(** A call of the store that reads the clock once. *)
Lemma Peek_grants w m :
  later m w0 w -> (m < 8)%nat ->
  ends (on_store (Peek (Get form "code"))) w (fun r w' => r = (Some stored, None) /\ later (S m) w0 w' /\ peers w' = peers w).
Proof.
  intros Hl Hm. destruct Hex, ex_presented0 as [Hcode _]. unfold ends, on_store, Peek, PeekAuthCode, run, call.
  pose proof (ex_unexpired0 _ (reading_in _ _ _ Hl Hm)) as Hnow. destruct Hl as [Hdb Hs Ht].
  unfold mbind, go_bind, now_, sql_db. rewrite (no_fault _). unfold select. cbn [w_db count_tick with_cnt].
  rewrite Hdb, Hcode. unfold return_if, before.
  rewrite (proj2 (Z.ltb_lt (clock (ticks w) + w_slept (store w)) (Code.ExpiresAt stored))) by lia.
  cbn. split_and!; [done| |done]. split; cbn; [done|done|lia].
Qed.

Lemma presented_code_grants w m :
  later m w0 w -> (m < 8)%nat ->
  goes (presented_code form) w (fun r w' => r = stored /\ later (S m) w0 w' /\ peers w' = peers w).
Proof.
  intros Hl Hm. unfold presented_code. apply goes_bind, goes_return_if.
  { apply not_true_is_false. intros (field & Hin & He)%existsb_exists. apply list_elem_of_In in Hin.
    apply String.eqb_eq in He. by apply (ex_fields _ _ _ _ _ _ Hex field). }
  apply goes_bind, goes_call. eapply ends_mono; [by eapply Peek_grants|]. intros r w' (-> & Hl' & Hp).
  destruct Hex, ex_presented0 as (_ & -> & -> & ->). rewrite !String.eqb_refl. by apply goes_ret.
Qed.

Lemma code_client_grants w m :
  later m w0 w -> goes (code_client stored) w (fun r w' => r = resolved /\ later m w0 w' /\
    replayCache (peers w') = replayCache (peers w)).
Proof.
  intros Hl. unfold code_client. apply goes_bind, goes_call. unfold ends, on_peers. cbn [ResolveClient peers_policy].
  unfold on_outside. pose proof (ex_client _ _ _ _ _ _ Hex (outside (peers w))) as Hc.
  destruct (ResolveClient (Code.ClientID stored) true (outside (peers w))) as [r o]. cbn in Hc |- *. subst r.
  destruct Hex. cbn. rewrite ex_binding0, orb_false_r.
  assert (Client.RequirePAR (Resolved.Config resolved) && negb (Code.PushedAuthorization stored) = false) as ->.
  { destruct (Client.RequirePAR _); [by rewrite ex_pushed0|done]. }
  apply goes_ret. cbn. split_and!; [done|by destruct Hl; split|done].
Qed.

Lemma code_proof_grants w m :
  later m w0 w -> (S m < 8)%nat -> replayCache (peers w) = replayCache (peers w0) ->
  goes (code_proof cfg (Resolved.Config resolved) stored proofs) w (fun _ w' => later (S (S m)) w0 w').
Proof.
  intros Hl Hm Hreplay. unfold code_proof. pose proof (ex_proof _ _ _ _ _ _ Hex) as Hproof.
  destruct (is_empty (Code.DPoPJKT stored)).
  { rewrite Hproof. apply goes_return_if; [done|]. eapply later_weaken; [done|lia]. }
  destruct Hproof as (compact & proof & -> & Hjkt & Hproof). unfold bound_proof. apply goes_bind.
  eapply goes_Now; [done|lia|]. intros now w1 Hnow Hl1 Hp1.
  destruct (Hproof now Hnow) as [-> _]. unfold VerifyThumbprint. rewrite Hjkt, String.eqb_refl. cbn [negb].
  apply goes_bind. eapply goes_Now; [done|lia|]. intros now' w2 Hnow' Hl2 Hp2.
  apply goes_bind, goes_call. unfold ends, on_peers, set_replay. rewrite Hp2, Hp1, Hreplay.
  destruct (Hproof now' Hnow') as [_ Hnew]. destruct (Reserve _ now' _) as [err c]. cbn in Hnew |- *. subst err.
  apply goes_ret. destruct Hl2. by split.
Qed.

Lemma code_user_grants w m :
  later m w0 w -> goes (code_user resolved stored) w (fun r w' => r = Resolved.Groups user /\ later m w0 w').
Proof.
  intros Hl. unfold code_user. apply goes_bind, goes_call. unfold ends, on_peers. cbn [ResolveUser peers_policy].
  unfold on_outside. pose proof (ex_user _ _ _ _ _ _ Hex (outside (peers w))) as Hu.
  destruct (ResolveUser resolved (Code.Email stored) (outside (peers w))) as [r o]. cbn in Hu |- *. subst r.
  apply goes_ret. split; [done|by destruct Hl; split].
Qed.

Lemma code_issue_grants w m :
  later m w0 w -> (m < 8)%nat ->
  goes (code_issue cfg encryptionKey (Resolved.Config resolved) stored) w
    (fun r w' => exists now, reading w0 now /\ r = plain_issue now /\ later (S m) w0 w').
Proof.
  intros Hl Hm. unfold code_issue. apply goes_bind. eapply goes_Now; [done|lia|]. intros now w1 Hnow Hl1 _.
  rewrite (ex_no_refresh _ _ _ _ _ _ Hex). cbn [is_empty String.eqb negb andb].
  destruct (Config.UserLoginConnectors cfg !! Code.ConnectorID stored); apply goes_ret; eauto.
Qed.

Lemma signContext_grants (context : Ctx.TokenContext) (identity : bool) w m :
  later m w0 w -> (m < 8)%nat ->
  ends (signContext signer context identity) (store w) (fun r s' =>
    exists text, r = (text, None) /\ signed w0 context identity text /\ forall p, later (S m) w0 {| store := s'; peers := p |}).
Proof.
  intros Hl Hm. pose proof (reading_in _ _ _ Hl Hm) as Hr. destruct Hl as [Hdb Hs Ht].
  apply goes_run, goes_bind. unfold goes at 1. apply wp_now. apply goes_bind. unfold goes at 1, wp, rand_read.
  rewrite (proj2 (quiet _)). cbn. destruct (ex_signs _ _ _ _ _ _ Hex context identity
    (clock (ticks w) + w_slept (store w)) (Base64.encode (entropy_bytes (c_draw (w_cnt (store w))) 16))) as [text E].
  exists text. split; [done|]. split; [by do 2 eexists|]. intros p. split; cbn; [done|done|lia].
Qed.

Lemma SignTokenPair_grants context w m :
  later m w0 w -> (S m < 8)%nat ->
  ends (on_store (SignTokenPair signer context)) w (fun r w' => exists id access, r = (id, access, None) /\
    signed w0 context true id /\ signed w0 context false access /\ later (S (S m)) w0 w').
Proof.
  intros Hl Hm. apply ends_on_store. apply goes_run, goes_bind, goes_call.
  eapply ends_mono; [eapply signContext_grants; [done|lia]|]. intros ? s1 (id & -> & Hid & Hl1).
  apply goes_bind, goes_call. eapply ends_mono; [apply (signContext_grants _ _ _ _ (Hl1 (peers w)) Hm)|].
  intros ? s2 (access & -> & Haccess & Hl2). apply goes_ret. by exists id, access.
Qed.

(** The code is consumed in the first attempt, and nothing else changes. *)
Lemma consume_grants w m issued :
  later m w0 w -> (m < 8)%nat -> reading w0 issued ->
  goes (consume_attempts maxRefreshMaterialAttempts stored (code_binding form) (plain_issue issued)) w
    (fun r w' => r = (None, "") /\ w_db (store w') = drop_code (Get form "code") (w_db (store w0)) /\
       Services.later (store w0) (store w')).
Proof.
  intros Hl Hm Hissued. cbn [consume_attempts maxRefreshMaterialAttempts plain_issue i_access i_id i_refresh i_grant i_material].
  apply goes_bind. eapply goes_Now; [done|lia|]. intros now w1 Hnow [Hdb Hslept Hticks] _.
  pose proof (ex_lifetimes _ _ _ _ _ _ Hex) as Httl. destruct (Httl _ _ Hissued Hnow) as [Ha Hi]. unfold after, add.
  rewrite (proj2 (Z.ltb_lt now _)), (proj2 (Z.ltb_lt now _)) by lia. cbn [negb orb].
  apply goes_bind, goes_call, ends_on_store.
  pose proof (ConsumeAuthCode_atomic stored (code_binding form) None zero_material now (store w1)) as Hc.
  apply atomically_fault in Hc; [|apply quiet]. unfold ends.
  pose proof (ConsumeAuthCode_later stored (code_binding form) None zero_material now (store w1)) as [Ht Hsl].
  destruct (ConsumeAuthCode stored (code_binding form) None zero_material now (store w1)) as [r s].
  cbn [fst snd] in *. revert Hc. unfold consume_code_spec. destruct Hex, ex_presented0 as (Hcode & Hid & Huri & Hpkce).
  rewrite Hdb, ex_code0, Hcode, bool_decide_true by done. cbn [negb orb code_binding bind_ClientID bind_RedirectURI bind_CodeChallenge].
  rewrite Hid, Huri, !String.eqb_refl. unfold before.
  rewrite (proj2 (Z.ltb_lt now _)) by auto.
  unfold ValidatePKCE in Hpkce. destruct (pkceChallenge _) as [c [?|]]; [done|]. cbn [fst].
  destruct (is_empty _); [done|].
  destruct (c =? Code.CodeChallenge stored)%string eqn:E; [|done]. rewrite String.eqb_sym, E. cbn [negb orb]. intros [= <- Hs]. cbn.
  split_and!; [done|done|]. cbn in Ht, Hsl. split; [lia|congruence].
Qed.

(** The whole exchange. *)
Lemma exchangeCode_grants :
  ends (exchangeCode cfg signer encryptionKey form proofs) w0 (fun a w' =>
    Answer.Status a = 200 /\ (exists members, Answer.Content a = JSONBody members /\ pair_granted w0 w' stored user members) /\
    w_db (store w') = drop_code (Get form "code") (w_db (store w0))).
Proof.
  apply goes_run. unfold exchangeCode.
  apply goes_bind. eapply goes_mono; [apply (presented_code_grants w0 0); [apply later_refl|lia]|].
  intros ? w1 (-> & Hl1 & Hp1).
  apply goes_bind. eapply goes_mono; [by apply (code_client_grants w1)|]. intros ? w2 (-> & Hl2 & Hp2).
  apply goes_bind. eapply goes_mono; [apply (code_proof_grants w2); [done|lia|by rewrite Hp2, Hp1]|]. intros [] w3 Hl3.
  apply goes_bind, goes_return_if.
  { unfold refresh_refused. by rewrite (ex_no_refresh _ _ _ _ _ _ Hex). }
  apply goes_bind. eapply goes_mono; [by apply (code_user_grants w3)|]. intros ? w4 (-> & Hl4).
  apply goes_bind. eapply goes_mono; [apply (code_issue_grants w4); [done|lia]|]. intros ? w5 (issued & Hissued & -> & Hl5).
  apply goes_bind, goes_call. eapply ends_mono; [by apply (SignTokenPair_grants _ w5); [done|lia]|].
  intros ? w6 (id & access & -> & Hid & Haccess & Hl6). cbn [is_some is_nil negb].
  apply goes_bind. eapply goes_mono; [by apply (consume_grants w6 _ issued Hl6); [lia|]|]. intros ? w7 (-> & Hdb & Hlater).
  apply goes_bind. unfold goes at 1, expires_in. apply wp_bind, wp_Now_read. intros answered s Hstill Hread.
  apply wp_ret, goes_ret. split; [done|]. split; [|destruct Hstill as [_ Hs]; cbn; by rewrite Hs].
  eexists. split; [done|]. exists issued, answered, id, access. split; [done|]. split; [|by split].
  eapply read_between_wider; [exact Hlater| |exact Hread]. done.
Qed.
End Granted.

End Exchange.

(** ** A witness: the code of an application that proves its key *)

Import Sample Site.

Definition key_form : Values := Eval vm_compute in match token_form key_request with inl form => form | inr _ => ∅ end.

Definition key_proof : Dpop.Proof_ :=
  {| Dpop.Algorithm := "ES256"; Dpop.Thumbprint := jkt; Dpop.JTI := "id-1"; Dpop.Method := "POST";
     Dpop.Target := "https://id.example/token"; Dpop.ATH := "" |}.

Ltac by_readings tac := refine (reading_all _ _ _); cbn [seq]; repeat (apply Forall_cons_2; [tac|]); apply Forall_nil_2.

