(* ===== verification/OidcProperties.v ===== *)
(** * The promises of the OIDC endpoints

    What it takes to be given a code, an access token or access to a protected resource,
    and what every sequence of requests leaves true of the database. *)

From S2P Require Import Prelude Runtime Base64 Sha256 ReplayCache Schema RefreshToken RefreshStore FlowStore OtpStore GrantStore RefreshSpec FamilySafety StoreSafety FlowSafety FlowProperties Json Config Upstream Credentials Tokens Services RefreshService TrustPolicy TrustConfig Dpop DpopProperties Trust TrustServiceProperties ExchangeProperties Http Oidc OidcToken OidcResource OidcFlow OidcAuthorize Server ServerHistory OidcAnswers OidcSafety OidcSample.

(** ** The token endpoint *)

Section Promises.
Context `{Env} {P : Type} `{!PolicyResolver P} `{!TrustResolver P} `{!Connectors P} `{!Contexts P} `{!HTTPClient P}.
Context `{!Mailer P} `{!Challenge P} `{!Limiter P} `{!Readiness P} `{!PublicPages}.
Context `{!AEAD} `{!JWT} `{!CredentialJSON} `{!ExternalJWT} `{!FlowJSON} `{!EmailsJSON} `{!URLs} `{!ProofJSON} `{!JOSE}.
Context `{!MetadataJSON} `{!JSONLib} `{!NetText} `{!MailText} `{!Templates} `{!PageTemplates} `{!Sprint}.
Context (cfg : Config.Config) (signer : Signer) (encryptionKey : string).

Abbreviation proc := (Process (Peers P)).
Implicit Types w : proc.

(** C4: An access token is handed out for an authorization code only when everything is
    in order: the code is stored for the client and redirect URI of the form and its
    challenge is that of the verifier; the policy, asked during the request and with
    nothing else asked of it, admits the client, the way the request was made and its
    binding, and then the user, whose groups the token carries; for a flow bound to a key
    one proof of that key for this endpoint came with the request, valid at a reading of
    the clock made during it, and the replay cache of before, which did not hold it, took
    it at such a reading, and for an unbound flow none came; a refresh grant is permitted,
    an offline one by consent; and one transaction on the database the request found
    consumed the code, unchanged and unexpired at a reading of the clock made during the
    request, so that it is gone. *)
Theorem code_exchange_justified form proofs w a w' access :
  exchangeCode cfg signer encryptionKey form proofs w = (a, w') -> issues a access ->
  exists stored resolved groups,
    code_justified cfg signer form proofs w w' access stored resolved groups /\
    auth_codes (w_db (store w')) !! Code.Code stored = None.
Proof.
  intros Hrun Hi. pose proof (exchangeCode_justified cfg signer encryptionKey form proofs w) as Hj.
  unfold ends in Hj. rewrite Hrun in Hj. destruct (Hj _ Hi) as (stored & resolved & groups & Hjust).
  exists stored, resolved, groups. split; [done|].
  destruct (just_consumed _ _ _ _ _ _ _ _ _ _ Hjust) as (grant & material & completion & _ & Hc).
  by eapply consumed_code_gone.
Qed.

(** C8: A refresh token is exchanged at the endpoint only after the endpoint found its
    family, in the database of the request, for the client of the form, the policy, asked
    during the request, admitted the client and the binding of the family, and, for a
    family bound to a key, one proof of that key came with the request, valid at a reading
    of the clock made during it and taken at such a reading by the replay cache of before,
    which did not hold it; the refresh service was then called on that database, and the
    access token handed out is the one it returned, on the database it left. *)
Theorem refresh_exchange_justified form proofs w a w' access :
  exchangeRefresh cfg signer form proofs w = (a, w') -> issues a access ->
  exists material grant resolved w2,
    refresh_justified cfg signer form proofs w w2 access material grant resolved /\
    w_db (store w') = w_db (store w2).
Proof.
  intros Hrun. pose proof (exchangeRefresh_justified cfg signer form proofs w) as Hj.
  unfold ends in Hj. rewrite Hrun in Hj. apply Hj.
Qed.

(** C6: A protected resource accepts an access token only as it was issued: exactly one
    [Authorization] header with two words of which the second verifies as an access
    token at the moment of the request; when the token is bound to a key the scheme is
    DPoP and exactly one proof of that key, for this method, this resource and this very
    token, came with the request, valid at a reading of the clock made during it and taken
    at such a reading by the replay cache of before, which did not hold it; when it is not
    bound the scheme is Bearer and no proof came. *)
Theorem accepted_access_is_justified r endpoint w token w' :
  authenticateAccessToken cfg signer r endpoint w = (inl token, w') ->
  access_justified cfg signer r endpoint token w w'.
Proof.
  intros Hrun. pose proof (authenticateAccessToken_ok cfg signer r endpoint w) as Hj.
  unfold ends in Hj. rewrite Hrun in Hj. by apply Hj.
Qed.

(** C7: A browser flow ends with an authorization code only when the policy in force
    admits the client, the redirect URI of the flow, its refresh mode, its binding and
    the user, and an offline flow carries the consent of the user; the code goes to that
    redirect URI and to no other, and is stored with exactly the client, redirect URI,
    challenge, scopes, key and subject of the flow. *)
Theorem completed_flow_is_admitted state subject email verified w a w' code :
  complete cfg encryptionKey state subject email verified w = (a, w') -> carries a code ->
  completion_justified (P := P) state subject email verified a code w'.
Proof.
  intros Hrun. pose proof (complete_ok cfg encryptionKey state subject email verified w) as Hj.
  unfold ends in Hj. rewrite Hrun in Hj. apply Hj.
Qed.

(** C9: A revocation that is answered as done had exactly the effect of its contract, in one
    transaction on the database the request found: the family that the presented token
    identifies for the client of the form, when it is in force and its key is the one
    proved, is revoked, and nothing else changes; the policy knows the client, and the
    key is that of a proof for this endpoint, valid at the moment of the request and taken
    at it by the replay cache of before, which did not hold it, or none. *)
Theorem revocation_endpoint_implements_contract form proofs w a w' :
  revoke_token cfg signer form proofs w = (a, w') -> Answer.Status a = 200 ->
  exists resolved proofJKT, revocation_justified cfg signer form proofs w w' resolved proofJKT.
Proof.
  intros Hrun. pose proof (revoke_token_ok cfg signer form proofs w) as Hj.
  unfold ends in Hj. rewrite Hrun in Hj. apply Hj.
Qed.

(** Whatever requests the server answers, in whatever order, and whatever its peers
    and the database statements do, the database keeps its invariants: the families of
    refresh tokens stay well formed, and every stored code that asks for offline access
    carries the consent of the user. *)
Theorem requests_keep_the_database (s : Server) requests w :
  refresh_ok (w_db (store w)) -> codes_consented (store w) ->
  refresh_ok (w_db (store (serve_all s requests w))) /\ codes_consented (store (serve_all s requests w)).
Proof.
  intros Hok Hc. pose proof (serve_all_history s requests w) as Hh. split.
  - eapply history_ok; [by apply history_store_calls | done].
  - by eapply history_codes_consented.
Qed.
End Promises.

(** ** PKCE *)

Lemma pkceChallenge_ok verifier :
  (pkceChallenge verifier).2 = None <->
  43 <= len verifier <= 128 /\ string_forallb is_verifier_byte verifier = true.
Proof.
  unfold pkceChallenge. destruct (Z.ltb_spec (len verifier) 43), (Z.ltb_spec 128 (len verifier)); cbn [orb];
    destruct (string_forallb _ _); cbn; split; try done; try lia; intros [? ?]; try lia; done.
Qed.

(** A verifier is accepted for a challenge exactly when it is one RFC 7636 allows, 43
    to 128 unreserved characters, and the challenge is the URL-safe base64 of its SHA-256
    digest. *)
Theorem pkce_accepts_exactly_the_verifier verifier challenge :
  ValidatePKCE verifier challenge = None <->
  43 <= len verifier <= 128 /\ string_forallb is_verifier_byte verifier = true /\
  challenge = Base64.encode (sha256 verifier).
Proof.
  unfold ValidatePKCE. pose proof (pkceChallenge_ok verifier) as Hok.
  assert ((pkceChallenge verifier).2 = None -> (pkceChallenge verifier).1 = Base64.encode (sha256 verifier)) as Hc
    by (unfold pkceChallenge; destruct (_ || _); [done|]; destruct (negb _); done).
  destruct (pkceChallenge verifier) as [computed [e|]]; cbn in Hok, Hc.
  - split; [done|]. intros (H1 & H2 & _). destruct Hok as [_ Hok]. by specialize (Hok (conj H1 H2)).
  - destruct Hok as [Hok _]. destruct (Hok eq_refl) as [H1 H2]. rewrite (Hc eq_refl).
    destruct (is_empty challenge) eqn:He.
    + split; [done|]. intros (_ & _ & ->). apply String.eqb_eq in He.
      pose proof (encode_length_32 _ (length_sha256 verifier)) as Hl. by rewrite He in Hl.
    + destruct (String.eqb_spec (Base64.encode (sha256 verifier)) challenge) as [<-|Hn]; cbn; [done|].
      split; [done|]. by intros (_ & _ & ->).
Qed.

(** ** Witnesses *)

Import Sample Site.

(** A login from the authorization request to the tokens. *)
Example a_login_ends_with_tokens :
  map Answer.Status (answers login_requests start) = [200; 302; 302; 200] /\
  member_names (List.last (answers login_requests start) panicked)
    = ["access_token"; "id_token"; "token_type"; "expires_in"; "refresh_token"].
Proof. vm_compute. done. Qed.

Lemma code_exchange_justified_witness :
  exists a w', exchangeCode config demo_signer thumbprint code_form [token_proof] with_code = (a, w') /\
  exists stored resolved groups,
    code_justified config demo_signer code_form [token_proof] with_code w' "access" stored resolved groups /\
    auth_codes (w_db (store w')) !! Code.Code stored = None.
Proof.
  destruct (exchangeCode config demo_signer thumbprint code_form [token_proof] with_code) as [a w'] eqn:Hrun.
  exists a, w'. split; [done|]. apply (code_exchange_justified config demo_signer thumbprint _ _ _ _ _ _ Hrun).
  assert (a = (exchangeCode config demo_signer thumbprint code_form [token_proof] with_code).1) as -> by by rewrite Hrun.
  eexists. split; [vm_compute; reflexivity | left].
Defined.

(** The database after a login, and the form that presents its refresh token. *)
Definition logged_in : Process (Peers nat) := serve_all server login_requests start.
Definition refresh_of (a : Answer.Response) : string :=
  match Answer.Content a with
  | JSONBody members => match member "refresh_token" members with Some (JString t) => t | _ => "" end
  | _ => ""
  end.
Definition first_refresh : string := Eval vm_compute in refresh_of (List.last (answers login_requests start) panicked).
Definition refresh_form : Values :=
  list_to_map [("refresh_token", [first_refresh]); ("client_id", ["app"])].

Lemma refresh_exchange_justified_witness :
  exists a w', exchangeRefresh config demo_signer refresh_form [] logged_in = (a, w') /\
  exists material grant resolved w2,
    refresh_justified config demo_signer refresh_form [] logged_in w2 "access" material grant resolved /\
    w_db (store w') = w_db (store w2).
Proof.
  destruct (exchangeRefresh config demo_signer refresh_form [] logged_in) as [a w'] eqn:Hrun.
  exists a, w'. split; [done|]. apply (refresh_exchange_justified config demo_signer _ _ _ _ _ _ Hrun).
  assert (a = (exchangeRefresh config demo_signer refresh_form [] logged_in).1) as -> by by rewrite Hrun.
  eexists. split; [vm_compute; reflexivity | left].
Defined.

(** A request for the user information with the token of the key. *)
Definition userinfo_request : Http.Request :=
  request "GET" "/userinfo" "" "" (fun name =>
    if (name =? "Authorization")%string then ["DPoP access"]
    else if (name =? "DPoP")%string then [userinfo_proof] else []).

Lemma accepted_access_is_justified_witness :
  exists token w', authenticateAccessToken config demo_signer userinfo_request "userinfo" start = (inl token, w') /\
    tok_subject token = "42" /\ access_justified config demo_signer userinfo_request "userinfo" token start w'.
Proof.
  destruct (authenticateAccessToken config demo_signer userinfo_request "userinfo" start) as [x w'] eqn:Hrun.
  assert (x = inl access_token) as ->
    by (transitivity (authenticateAccessToken config demo_signer userinfo_request "userinfo" start).1;
        [by rewrite Hrun | vm_compute; reflexivity]).
  exists access_token, w'. split_and!; [done | done |].
  exact (accepted_access_is_justified config demo_signer userinfo_request "userinfo" start access_token w' Hrun).
Defined.

(** The state of a flow that asks for offline access with consent. *)
Definition offline_state : Auth.OAuthState :=
  {| Auth.FlowID := ""; Auth.ConnectorID := "mail"; Auth.ClientID := "app"; Auth.RedirectURI := "https://app.example/cb";
     Auth.CodeChallenge := code_challenge; Auth.Nonce := ""; Auth.OIDCState := "s1"; Auth.Scopes := "openid";
     Auth.RefreshMode := "offline"; Auth.AuthTime := 1700000000 * second; Auth.OfflineConsent := true;
     Auth.Purpose := "authorize"; Auth.DPoPJKT := ""; Auth.PushedAuthorization := false |}.
Definition mail_config : Config.Config :=
  config <| Config.UserLoginConnectors := {["mail" := demo_connector_config "email"]} |>.

Lemma completed_flow_is_admitted_witness :
  exists a w' code, complete mail_config thumbprint offline_state "a@example.com" "a@example.com" true start = (a, w') /\
    completion_justified (P := nat) offline_state "a@example.com" "a@example.com" true a code w'.
Proof.
  destruct (complete mail_config thumbprint offline_state "a@example.com" "a@example.com" true start) as [a w'] eqn:Hrun.
  assert (a = (complete mail_config thumbprint offline_state "a@example.com" "a@example.com" true start).1) as Ha
    by by rewrite Hrun.
  exists a, w', (code_of a). split; [done|].
  apply (completed_flow_is_admitted mail_config thumbprint _ _ _ _ _ _ _ _ Hrun).
  rewrite Ha. eexists _, _. split; [vm_compute; reflexivity | left].
Defined.

Lemma requests_keep_the_database_witness :
  size (refresh_tokens (w_db (store logged_in))) = 1%nat /\ refresh_ok (w_db (store logged_in)) /\
  codes_consented (store logged_in).
Proof.
  split; [vm_compute; reflexivity|]. apply (requests_keep_the_database server login_requests start).
  - split; set_solver.
  - done.
Defined.

(** The refresh token of the login is revoked at its client's request. *)
Definition revocation_form : Values := list_to_map [("token", [first_refresh]); ("client_id", ["app"])].

Lemma revocation_endpoint_implements_contract_witness :
  exists a w', revoke_token config demo_signer revocation_form [] logged_in = (a, w') /\
  (exists sid g, refresh_grants (w_db (store w')) !! sid = Some g /\ is_Some (g_revoked_at g)) /\
  exists resolved proofJKT, revocation_justified config demo_signer revocation_form [] logged_in w' resolved proofJKT.
Proof.
  destruct (revoke_token config demo_signer revocation_form [] logged_in) as [a w'] eqn:Hrun.
  exists a, w'. split; [done|].
  assert (a = (revoke_token config demo_signer revocation_form [] logged_in).1) as Ha by by rewrite Hrun.
  assert (w' = (revoke_token config demo_signer revocation_form [] logged_in).2) as Hw by by rewrite Hrun.
  split.
  - rewrite Hw. exists (default "" (head (map fst (map_to_list (refresh_grants (w_db (store logged_in))))))).
    eexists. split; [vm_compute; reflexivity | by eexists].
  - apply (revocation_endpoint_implements_contract config demo_signer _ _ _ _ _ Hrun). rewrite Ha. vm_compute. reflexivity.
Defined.
