(* ===== verification/Replicas.v ===== *)
(** * Replicas over one database

    Several processes of the server share a PostgreSQL database, and each has peers of its
    own: its replay cache, its caches of policy and issuers, its connections
    (docs/state-database.md, docs/dpop.md).  A request is served by one replica;
    src/scripts/test-rr-proxy/main.go is the proxy that sends each to the next one.  What
    the database promises holds across replicas, whichever of them serves a request. *)

From S2P Require Import Prelude Runtime Base64 ReplayCache Schema RefreshToken RefreshStore FlowStore OtpStore GrantStore RefreshSpec FamilySafety StoreSafety FlowSafety FlowProperties Json Config Upstream Credentials Tokens Services RefreshService ExchangeSafety TrustPolicy TrustConfig Dpop Trust TrustServiceProperties ExchangeProperties Http Oidc OidcToken OidcResource OidcFlow OidcAuthorize Server ServerHistory OidcAnswers OidcSafety OidcSample.

(** The request for another host. *)
Definition for_host (host : string) (r : Http.Request) : Http.Request :=
  {| Http.Method := Http.Method r; Http.Host := host; Http.Path := Http.Path r; Http.RawQuery := Http.RawQuery r;
     Http.RemoteAddr := Http.RemoteAddr r; Http.header := Http.header r; Http.connector := Http.connector r;
     Http.Body := Http.Body r; Http.body_failed := Http.body_failed r |}.

(** ** A cluster *)

Record Cluster (P : Type) := { shared : World; replicas : list (Peers P) }.
#[global] Arguments shared {P} _.
#[global] Arguments replicas {P} _.
#[global] Arguments Build_Cluster {P} _ _.

Section Cluster.
Context `{Env} {P : Type} `{!PolicyResolver P} `{!TrustResolver P} `{!Connectors P} `{!Contexts P} `{!HTTPClient P}.
Context `{!Mailer P} `{!Challenge P} `{!Limiter P} `{!Readiness P} `{!PublicPages}.
Context `{!AEAD} `{!JWT} `{!CredentialJSON} `{!ExternalJWT} `{!FlowJSON} `{!EmailsJSON} `{!URLs} `{!ProofJSON} `{!JOSE}.
Context `{!MetadataJSON} `{!JSONLib} `{!NetText} `{!MailText} `{!PageTemplates} `{!Sprint}.
Context (s : Server).

Abbreviation cluster := (Cluster P).

(** The replica [i] serves a request; there is no answer when there is no such replica. *)
Definition serve_at (i : nat) (r : Http.Request) (c : cluster) : option Answer.Response * cluster :=
  match replicas c !! i with
  | None => (None, c)
  | Some own =>
      let (a, w) := serve s r {| store := shared c; peers := own |} in
      (Some a, {| shared := store w; replicas := <[i := peers w]> (replicas c) |})
  end.

Fixpoint cluster_run (requests : list (nat * Http.Request)) (c : cluster) : list (option Answer.Response) * cluster :=
  match requests with
  | [] => ([], c)
  | (i, r) :: requests =>
      let (a, c) := serve_at i r c in
      let (answers, c) := cluster_run requests c in
      (a :: answers, c)
  end.

(** ** The proxy *)

(** [main] of test-rr-proxy: the targets it is started with. *)
Definition proxy_targets (listenAddress : string) (args : list string) : list URL + error :=
  if is_empty listenAddress || (length args <? 2)%nat then inr (Errorf "usage: test-rr-proxy -listen address target1 target2 [target...]")
  else match mapM (fun value => target ← parse_url value;
                     if is_empty (Scheme target) || is_empty (Host target) then None else Some target) args with
       | Some targets => inl targets
       | None => inr (Errorf "invalid target")
       end.

(** [Director]: a request goes to the target of its turn, by an atomic uint64 counter,
    and is for the target's host. *)
Definition director (targets : list URL) (next : Z) (r : Http.Request) : option (nat * Http.Request) * Z :=
  let i := Z.to_nat (next `mod` Z.of_nat (length targets)) in
  ((fun target => (i, for_host (Host target) r)) <$> targets !! i, (next + 1) `mod` 2 ^ 64).

Fixpoint proxy_run (targets : list URL) (next : Z) (requests : list Http.Request) (c : cluster)
  : list (option Answer.Response) * cluster :=
  match requests with
  | [] => ([], c)
  | r :: requests =>
      let (turn, next) := director targets next r in
      let (a, c) := match turn with Some (i, r) => serve_at i r c | None => (None, c) end in
      let (answers, c) := proxy_run targets next requests c in
      (a :: answers, c)
  end.

(** ** What every replica keeps *)

Lemma serve_at_history i r c : history (shared c) (shared (serve_at i r c).2).
Proof.
  unfold serve_at. destruct (replicas c !! i) as [own|]; [|done].
  pose proof (serve_calls s r {| store := shared c; peers := own |}) as Hh.
  by destruct (serve s r _) as [a w].
Qed.

Lemma cluster_run_history requests c : history (shared c) (shared (cluster_run requests c).2).
Proof.
  revert c. induction requests as [|[i r] requests IH]; intros c; [done|]. cbn [cluster_run].
  pose proof (serve_at_history i r c) as Hh. destruct (serve_at i r c) as [a c1]. specialize (IH c1).
  destruct (cluster_run requests c1) as [answers c2]. by etrans.
Qed.

Lemma serve_at_replicas i r c : length (replicas (serve_at i r c).2) = length (replicas c).
Proof.
  unfold serve_at. destruct (replicas c !! i) as [own|]; [|done]. destruct (serve s r _) as [a w].
  apply length_insert.
Qed.

(** The requests through the proxy are a run of the cluster: each in its order to a replica,
    but for the host it is for, when every target is a replica. *)
Lemma proxy_run_cluster targets next requests c :
  targets <> [] -> length targets = length (replicas c) ->
  exists routed, proxy_run targets next requests c = cluster_run routed c /\
    Forall2 (fun x r => (x.1 < length targets)%nat /\ exists host, x.2 = for_host host r) routed requests.
Proof.
  intros Hne. revert next c. induction requests as [|r requests IH]; intros next c Hl; [by exists []|].
  cbn [proxy_run]. unfold director. set (i := Z.to_nat (next `mod` Z.of_nat (length targets))).
  assert (i < length targets)%nat as Hi.
  { unfold i. destruct targets; [done|]. cbn [length]. pose proof (Z.mod_pos_bound next (Z.of_nat (S (length targets))) ltac:(lia)). lia. }
  destruct (lookup_lt_is_Some_2 targets i Hi) as [target Ht]. rewrite Ht. cbn [fmap option_fmap option_map].
  pose proof (serve_at_replicas i (for_host (Host target) r) c) as Hr.
  destruct (serve_at i (for_host (Host target) r) c) as [a c1] eqn:E. cbn [snd] in Hr.
  destruct (IH ((next + 1) `mod` 2 ^ 64) c1) as (routed & Erun & Hin); [congruence|].
  exists ((i, for_host (Host target) r) :: routed). cbn [cluster_run]. rewrite E, Erun. split; [done|].
  constructor; [|done]. split; [done|]. by exists (Host target).
Qed.

(** The invariants of the shared database. *)
Record sound (w : World) : Prop := {
  sound_refresh : refresh_ok (w_db w);
  sound_consent : codes_consented w;
  sound_keys : codes_keyed w
}.

Lemma history_sound w w' : history w w' -> sound w -> sound w'.
Proof.
  intros Hh []. split.
  - eapply history_ok; [by apply history_store_calls | done].
  - by eapply history_codes_consented.
  - by eapply history_codes_keyed.
Qed.

(** ** One exchange of a code *)

(** A request to the token endpoint that presents the code [k]. *)
Definition presents (k : string) (r : Http.Request) : Prop :=
  Http.Path r = "/token" /\ exists form, token_form r = inl form /\
    Get form "grant_type" = "authorization_code" /\ Get form "code" = k.

Lemma with_headers_issues headers a access : issues (with_headers headers a) access <-> issues a access.
Proof. done. Qed.

Lemma route_token r : Http.Path r = "/token" -> route s r = HandleToken (config s) (signer s) (encryptionKey s) r.
Proof.
  intros Hp. unfold route. rewrite Hp.
  repeat match goal with |- context [("/token" =? ?p)%string] =>
    let b := eval vm_compute in ("/token" =? p)%string in change ("/token" =? p)%string with b end.
  by rewrite !andb_false_r.
Qed.

(** The exchange of a code, as the endpoint answers it. *)
Lemma HandleToken_code r form w :
  token_form r = inl form -> Get form "grant_type" = "authorization_code" ->
  HandleToken (config s) (signer s) (encryptionKey s) r w =
    if is_empty (Get form "refresh_token")
    then let (b, w2) := exchangeCode (config s) (signer s) (encryptionKey s) form (Http.header r "DPoP") w in
         (with_headers oauth_no_store b, w2)
    else (with_headers oauth_no_store (oauthError 400 "invalid_request" "refresh_token is not valid for this grant type"), w).
Proof.
  intros Hform Hgrant. unfold HandleToken, run. rewrite Hform. unfold token_grant, run. rewrite Hgrant.
  change (is_empty "authorization_code") with false. change ("authorization_code" =? "authorization_code")%string with true.
  cbn iota. unfold mbind, go_bind, call, return_if, mret, go_ret, return_.
  destruct (is_empty (Get form "refresh_token")); cbn [negb]; [|done].
  by destruct (exchangeCode _ _ _ form (Http.header r "DPoP") w).
Qed.

(** A request to the token endpoint, as far as the database and the tokens issued go. *)
Lemma serve_token k r w :
  presents k r ->
  ends (serve s r) w (fun a w' => forall access, issues a access ->
    exists form own, Get form "code" = k /\
      ends (exchangeCode (config s) (signer s) (encryptionKey s) form (Http.header r "DPoP"))
        {| store := store w; peers := own |} (fun b w2 => issues b access /\ store w' = store w2)).
Proof.
  intros (Hpath & form & Hform & Hgrant & Hcode).
  unfold ends, serve, LimitPublicEndpoints, run, mbind, go_bind, call, mret, go_ret. rewrite Hpath.
  change (mem "/token" limited_endpoints) with true. cbn beta iota.
  match goal with |- context [on_peers ?f w] => destruct (on_peers f w) as [allowed w1] eqn:Ew end.
  assert (w1 = {| store := store w; peers := peers w1 |}) as Es
    by (unfold on_peers in Ew; destruct (on_outside _ _); by injection Ew as _ <-).
  destruct allowed; [|intros access (members & E & Hin); cbn in E; injection E as <-; set_solver].
  rewrite (route_token r Hpath), (HandleToken_code r form w1 Hform Hgrant).
  destruct (is_empty _); [|intros access (members & E & Hin); cbn in E; injection E as <-; set_solver].
  rewrite Es. destruct (exchangeCode _ _ _ form _ _) as [b w2] eqn:Eb. cbn [fst snd]. intros access Hi.
  exists form, (peers w1). split; [done|]. by rewrite Eb.
Qed.

(** A request that is given tokens for a code found it, and leaves it gone. *)
Lemma serve_at_consumes k i r c a c' access :
  codes_keyed (shared c) -> presents k r -> serve_at i r c = (Some a, c') -> issues a access ->
  is_Some (auth_codes (w_db (shared c)) !! k) /\ auth_codes (w_db (shared c')) !! k = None.
Proof.
  intros Hkeyed Hr. unfold serve_at. destruct (replicas c !! i) as [own|]; [|done].
  pose proof (serve_token k r {| store := shared c; peers := own |} Hr) as Ht. unfold ends at 1 in Ht.
  destruct (serve s r _) as [b w']. cbn [fst snd store] in Ht. intros [= -> <-] Hi. cbn [shared].
  destruct (Ht _ Hi) as (form & own' & <- & He). clear Ht.
  pose proof (exchangeCode_justified (config s) (signer s) (encryptionKey s) form (Http.header r "DPoP")
    {| store := shared c; peers := own' |}) as Hj. unfold ends in Hj, He. destruct He as [Hb ->].
  destruct (Hj _ Hb) as (stored & resolved & groups & Hjust). clear Hj.
  destruct (just_presented _ _ _ _ _ _ _ _ _ _ Hjust) as [Hcode _]. cbn [store] in Hcode.
  split; [by eexists|]. destruct (just_consumed _ _ _ _ _ _ _ _ _ _ Hjust) as (grant & material & completion & _ & Hc).
  pose proof (consumed_code_gone _ _ _ _ _ _ _ Hc) as Hgone.
  by rewrite (Hkeyed _ _ Hcode) in Hgone.
Qed.

(** ** Promises *)

(** C11: Whatever requests a cluster of replicas answers, in whatever order, whichever
    replica serves each, and whatever their peers and the statements of the shared database
    do, the database keeps its invariants: the families of refresh tokens stay well formed,
    every stored code that asks for offline access carries the consent of the user, and
    every code is stored under its own text. *)
Theorem replicas_keep_the_database requests c :
  sound (shared c) -> sound (shared (cluster_run requests c).2).
Proof. apply history_sound, cluster_run_history. Qed.

(** C20: An authorization code is exchanged at most once in a cluster: when a request to the
    token endpoint of any replica has been given an access token for a code, then after any
    requests to any replicas no request that presents the code to any replica is given
    anything, unless the same 32 random bytes are drawn as a code again. *)
Theorem code_exchanged_once k i1 r1 c a1 c1 access requests i2 r2 a2 c3 :
  codes_keyed (shared c) -> presents k r1 -> serve_at i1 r1 c = (Some a1, c1) -> issues a1 access ->
  not_drawn_again k (shared c1) ->
  presents k r2 -> serve_at i2 r2 (cluster_run requests c1).2 = (Some a2, c3) ->
  issues_nothing a2.
Proof.
  intros Hkeyed Hr1 Hserve1 Hi1 Hdrawn Hr2 Hserve2 access2 Hi2.
  destruct (serve_at_consumes _ _ _ _ _ _ _ Hkeyed Hr1 Hserve1 Hi1) as [_ Hgone].
  pose proof (serve_at_history i1 r1 c) as Hh1. rewrite Hserve1 in Hh1. cbn [snd] in Hh1.
  pose proof (cluster_run_history requests c1) as Hh2.
  destruct (serve_at_consumes k i2 r2 (cluster_run requests c1).2 a2 c3 access2) as [[stored Hfound] _]; try done.
  - by eapply history_codes_keyed, history_codes_keyed.
  - by rewrite (history_code_gone _ _ _ Hh2 Hdrawn Hgone) in Hfound.
Qed.

(** C3: An upstream credential whose refresh did not complete is never used again: when an
    exchange that asked the provider to refresh the credential fails, for any reason but the
    provider's refusal of its configuration, then whatever requests the replicas of a cluster
    answer over the database it left, with further exchanges of the family among them, an
    exchange of a token of that family fails, whatever the peers then answer. *)
Theorem indeterminate_credential_never_reused (asked : Peers P -> nat) req1 w r1 f1 w1 t g requests c req2
    (p2 : Peers P) t2 g2 :
  counts_refreshes asked ->
  Exchange (config s) (signer s) req1 w = ((r1, Some f1), w1) ->
  asked (peers w1) <> asked (peers w) -> ~ is_configuration_failure (Some f1) ->
  token_and_grant (Material.HandleHash (ParseRefreshToken (Request.Token req1)).1) (w_db (store w)) = Some (t, g) ->
  is_email_connector (config s) (g_connector_id g) = false ->
  shared c = store w1 ->
  token_and_grant (Material.HandleHash (ParseRefreshToken (Request.Token req2)).1)
    (w_db (shared (cluster_run requests c).2)) = Some (t2, g2) ->
  t_sid t2 = t_sid t ->
  (Exchange (config s) (signer s) req2 {| store := shared (cluster_run requests c).2; peers := p2 |}).1.2 <> None.
Proof.
  intros Hcount Hrun Hasked Hconf Htok Hemail Hc Htok2 Hsid.
  destruct (failed_refresh_fences _ _ _ _ _ _ _ _ _ _ Hcount Hrun Hasked Hconf Htok) as (g1 & Hg1 & Hf1 & E1).
  pose proof (history_fences _ _ (cluster_run_history requests c)) as Hkept. rewrite Hc in Hkept.
  destruct (Hkept _ _ Hg1 Hf1) as (g3 & Hg3 & Hf3 & E3). rewrite <- Hsid in Hg3.
  apply token_and_grant_Some in Htok2 as Hrow. destruct Hrow as [_ Hrow]. simplify_eq.
  eapply fenced_family_refused; [exact Htok2|done|congruence].
Qed.
End Cluster.

(** ** Witnesses *)

Import Sample Site.

(** Two replicas over a database with a code. *)
Definition two_replicas : Cluster nat := {| shared := store with_code; replicas := [peers with_code; peers with_code] |}.

Lemma key_request_presents : presents "code" key_request.
Proof. split; [done|]. eexists. split; [vm_compute; reflexivity|]. by vm_compute. Qed.

(** A login whose requests alternate between two replicas ends with a family. *)
Definition alternating : list (nat * Http.Request) := combine [0; 1; 0; 1]%nat login_requests.
Lemma replicas_keep_the_database_witness :
  let c := (cluster_run Site.server alternating {| shared := store start; replicas := [peers start; peers start] |}).2 in
  size (refresh_tokens (w_db (shared c))) = 1%nat /\ sound (shared c).
Proof.
  split; [vm_compute; reflexivity|]. apply (replicas_keep_the_database Site.server).
  split; [split; set_solver|done|done].
Defined.

(** The code is exchanged by the first replica, and then by none. *)
Lemma code_exchanged_once_witness :
  exists a1 c1 a2 c3, serve_at Site.server 0 key_request two_replicas = (Some a1, c1) /\ issues a1 "access" /\
    serve_at Site.server 1 key_request c1 = (Some a2, c3) /\ issues_nothing a2.
Proof.
  destruct (serve_at Site.server 0 key_request two_replicas) as [[a1|] c1] eqn:E1;
    [|apply (f_equal (fun x => is_some x.1)) in E1; vm_compute in E1; discriminate].
  destruct (serve_at Site.server 1 key_request c1) as [[a2|] c3] eqn:E2;
    [|apply (f_equal (fun x => is_some x.1)) in E2; replace c1 with (serve_at Site.server 0 key_request two_replicas).2 in E2
        by (by rewrite E1); vm_compute in E2; discriminate].
  assert (issues a1 "access") as Hi.
  { assert (Some a1 = (serve_at Site.server 0 key_request two_replicas).1) as Ha by (by rewrite E1).
    revert Ha. clear. intros Ha. vm_compute in Ha. injection Ha as ->. eexists. split; [reflexivity|left]. }
  exists a1, c1, a2, c3. split; [done|]. split; [done|]. split; [done|].
  apply (code_exchanged_once Site.server "code" 0 key_request two_replicas a1 c1 "access" [] 1 key_request a2 c3).
  - intros k c Hk. apply (lookup_singleton_Some "code" k key_code c) in Hk as [<- <-]. reflexivity.
  - apply key_request_presents.
  - exact E1.
  - exact Hi.
  - intros pos _ E. apply (f_equal String.length) in E. unfold code_at in E.
    rewrite (encode_length_32 _ (length_entropy_bytes 32 pos)) in E. discriminate.
  - apply key_request_presents.
  - exact E2.
Defined.

(** A family over a provider that fails to refresh its credential; a replica then answers a
    request that presents the token of the family again. *)
Section Indeterminate.
#[local] Instance failing_env : Env := demo_quiet.
#[local] Instance failing_resolver : PolicyResolver nat := demo_resolver.
#[local] Instance failing_connectors : Connectors nat := demo_connectors.
#[local] Instance failing_contexts : Contexts nat := demo_contexts.
#[local] Instance failing_aead : AEAD := plain_aead.
#[local] Instance failing_jwt : JWT := demo_jwt.
#[local] Instance failing_credentials : CredentialJSON := demo_credential_json.

Definition failing_server : Server :=
  {| Server.config := demo_config; signer := demo_signer; jwksData := "{}"; otpSecret := "";
     encryptionKey := thumbprint; has_mailer := false |}.
Definition failing_start : Process (Peers nat) := {| store := store (demo_process "google"); peers := peers start |}.
Definition failed : outcome * Process (Peers nat) :=
  RefreshService.Exchange demo_config demo_signer (demo_request "") failing_start.
Definition presented_again : Http.Request :=
  request "POST" "/token" "" ("grant_type=refresh_token&client_id=client&refresh_token=" +:+ demo_token) no_headers.
Definition failing_cluster : Cluster nat := {| shared := store failed.2; replicas := [peers start; peers start] |}.
Definition failing_run := cluster_run failing_server [(1%nat, presented_again)] failing_cluster.

Lemma refused_outcome {A B C} (o : A * option B * C) : is_some o.1.2 = true -> exists r f w, o = ((r, Some f), w).
Proof. destruct o as [[r [f|]] w]; [eauto|discriminate]. Qed.
Lemma found {A} (o : option A) : is_some o = true -> exists a, o = Some a.
Proof. destruct o; [eauto|discriminate]. Qed.

Lemma indeterminate_credential_never_reused_witness :
  outside (peers failed.2) = 1%nat /\
  map (option_map Answer.Status) failing_run.1 = [Some 400] /\
  (RefreshService.Exchange demo_config demo_signer (demo_request "")
     {| store := shared failing_run.2; peers := peers start |}).1.2 <> None.
Proof.
  split; [vm_compute; reflexivity|]. split; [vm_compute; reflexivity|].
  destruct (refused_outcome failed ltac:(vm_compute; reflexivity)) as (r1 & f1 & w1 & E1).
  destruct (found (token_and_grant (Material.HandleHash demo_parsed) (w_db (store failing_start)))
    ltac:(vm_compute; reflexivity)) as [[t g] Ht].
  destruct (found (token_and_grant (Material.HandleHash demo_parsed) (w_db (shared failing_run.2)))
    ltac:(vm_compute; reflexivity)) as [[t2 g2] Ht2].
  assert (asked_of : outside (peers w1) = 1%nat) by (change w1 with ((r1, Some f1), w1).2; rewrite <- E1; vm_compute; reflexivity).
  apply (indeterminate_credential_never_reused failing_server (fun p => outside p) (demo_request "") failing_start r1 f1 w1
    t g [(1%nat, presented_again)] failing_cluster (demo_request "") (peers start) t2 g2).
  - by split.
  - exact E1.
  - rewrite asked_of. discriminate.
  - assert (Some f1 = failed.1.2) as Hf by (by rewrite E1).
    intros [retry Er]. rewrite Hf in Er. apply (f_equal (option_map Failure.Description)) in Er. vm_compute in Er. discriminate.
  - exact Ht.
  - assert (option_map (fun x => g_connector_id x.2)
      (token_and_grant (Material.HandleHash demo_parsed) (w_db (store failing_start))) = Some "google") as Hg
      by (vm_compute; reflexivity).
    rewrite Ht in Hg. injection Hg as Hg. rewrite Hg. vm_compute. reflexivity.
  - unfold failing_cluster. cbn [shared]. by rewrite E1.
  - exact Ht2.
  - assert (option_map (fun x => t_sid x.1)
      (token_and_grant (Material.HandleHash demo_parsed) (w_db (store failing_start))) =
      option_map (fun x => t_sid x.1)
      (token_and_grant (Material.HandleHash demo_parsed) (w_db (shared failing_run.2)))) as Hs
      by (vm_compute; reflexivity).
    rewrite Ht, Ht2 in Hs. injection Hs as Hs. by symmetry.
Defined.
End Indeterminate.
