(* ===== verification/DpopClient.v ===== *)
(** * The DPoP client of the end-to-end tests

    src/scripts/e2e/dpop-client/main.go: a program that makes proofs of possession with
    libraries of its own and exercises a deployed server with them: protected resource,
    replay, downgrade and revocation.  go-dpop, go-jose, golang-jwt, encoding/json and the
    HTTP transport are classes. *)

From stdpp Require Import pretty.
From S2P Require Import Prelude Runtime Base64 Sha256 ReplayCache Schema RefreshToken RefreshStore FlowStore OtpStore GrantStore Json Config Upstream Credentials Tokens Services TrustPolicy TrustConfig Durations Rounding Dpop DpopProperties Trust TrustServiceProperties ExchangeProperties Http Oidc OidcToken OidcResource OidcFlow OidcAuthorize Server OidcSample Replicas.

(** ** Libraries and surroundings *)

(** [dpop.ProofTokenClaims] with the registered claims the client sets. *)
Module Claims.
Record ProofTokenClaims := { ID : string; IssuedAt : time; Method : string; URL : string; AccessTokenHash : string }.
End Claims.

Module TokenResponse.
Record tokenResponse := { AccessToken : string; RefreshToken : string; TokenType : string }.
End TokenResponse.

(** ecdsa keys and their JWKs, [dpop.Create] with ES256, and encoding/json and golang-jwt
    on the values the client reads: a token response, the code of an OAuth error and the
    [cnf.jkt] claim of an unverified token. *)
Class ClientLibs := {
  private_key : Type;
  client_jwk : Type;
  signing_jwk : private_key -> client_jwk;
  ecdsa_private : client_jwk -> option private_key;
  IsPublic : client_jwk -> bool;
  Valid : client_jwk -> bool;
  jwk_sha256 : client_jwk -> option string;
  marshal_jwks : list client_jwk -> option string;
  unmarshal_jwks : string -> option (list client_jwk);
  dpop_create : Claims.ProofTokenClaims -> private_key -> option string;
  unmarshal_tokens : string -> option TokenResponse.tokenResponse;
  unmarshal_oauth_error : string -> option string;
  parse_unverified : string -> option string
}.

(** [http.Request] and [http.Response] of a client; a body may fail to be read. *)
Record ClientRequest := { cr_Method : string; cr_URL : string; cr_Headers : list (string * string); cr_Body : string }.
Record ClientResponse := { rs_Status : Z; rs_Body : string; rs_Broken : bool }.

(** The clock, crypto/rand, the files and the transport of the client's process. *)
Class ClientHost `{ClientLibs} (W : Type) := {
  client_now : W -> time * W;
  client_random : nat -> W -> string * W;
  generate_key : W -> option private_key * W;
  read_file : string -> W -> (string + error) * W;
  write_file : string -> string -> W -> option error * W;
  client_do : ClientRequest -> W -> (ClientResponse + error) * W
}.

(** ** Operations *)

Definition clientID : string := "static-dpop-par-e2e".

(** [rand.Text]: 26 letters of the base32 alphabet. *)
Definition base32_letter (c : ascii) : ascii :=
  let z := Z.land (byte_z c) 31 in z_byte (if z <? 26 then 65 + z else 24 + z).
Definition text_of_random (bytes : string) : string := string_map base32_letter bytes.

(** [jwt.NewNumericDate] at its precision of a second. *)
Definition truncate_second (t : time) : time := t - (t - zero_time) mod second.

(** [url.Values.Encode] *)
#[local] Instance text_order_dec : RelDecision (fun a b : string => (a <=? b)%string = true) :=
  fun a b => decide ((a <=? b)%string = true).
Definition Encode (form : Values) : string :=
  let keys := merge_sort (fun a b : string => (a <=? b)%string = true) (map fst (map_to_list form)) in
  join "&" (flat_map (fun key => map (fun value => QueryEscape key +:+ "=" +:+ QueryEscape value) (values_of form key)) keys).

Section Client.
Context `{!ClientLibs} {W : Type} `{!ClientHost W} `{!URLs}.

Abbreviation client R A := (go W R A).

(** An error of a library, wrapped. *)
Definition library_error (op : string) : error := Wrapped op (Errorf "library").

Definition writeKey (path : string) : W -> (string + error) * W := run (
  private ← call generate_key;
  match private with
  | None => mret (inr (library_error "generate key"))
  | Some private =>
      let jwk := signing_jwk private in
      match jwk_sha256 jwk with
      | None => mret (inr (library_error "thumbprint key"))
      | Some thumbprint =>
          match marshal_jwks [jwk] with
          | None => mret (inr (library_error "marshal key"))
          | Some data =>
              err ← call (write_file path (data +:+ String "010" ""));
              mret (match (err : option error) with
                    | Some err => inr (Wrapped "write key" err)
                    | None => inl (Base64.encode thumbprint)
                    end)
          end
      end
  end).

Definition readKey (path : string) : W -> (private_key * string + error) * W := run (
  data ← call (read_file path);
  mret (match data with
        | inr err => inr (Wrapped "read key" err)
        | inl data =>
            match unmarshal_jwks data with
            | None => inr (library_error "parse key")
            | Some [jwk] =>
                match ecdsa_private jwk with
                | Some private =>
                    if IsPublic jwk || negb (Valid jwk) then inr (Errorf "invalid private key")
                    else match jwk_sha256 jwk with
                         | None => inr (library_error "thumbprint key")
                         | Some thumbprint => inl (private, Base64.encode thumbprint)
                         end
                | None => inr (Errorf "invalid private key")
                end
            | Some _ => inr (Errorf "key file must contain one key")
            end
        end)).

Definition readTokens (path : string) : W -> (TokenResponse.tokenResponse + error) * W := run (
  data ← call (read_file path);
  mret (match data with
        | inr err => inr (Wrapped "read tokens" err)
        | inl data =>
            match unmarshal_tokens data with
            | None => inr (library_error "parse tokens")
            | Some tokens =>
                if is_empty (TokenResponse.AccessToken tokens) || is_empty (TokenResponse.RefreshToken tokens)
                   || negb (TokenResponse.TokenType tokens =? "DPoP")%string
                then inr (Errorf "token response did not contain DPoP access and refresh tokens")
                else inl tokens
            end
        end)).

(** The claims of a proof made now, with an identifier of these random bytes. *)
Definition proof_claims (random : string) (now : time) (method target accessToken : string) : Claims.ProofTokenClaims :=
  {| Claims.ID := text_of_random random; Claims.IssuedAt := truncate_second now;
     Claims.Method := method; Claims.URL := target;
     Claims.AccessTokenHash := if is_empty accessToken then "" else Base64.encode (sha256 accessToken) |}.

Definition createProof (key : private_key) (method target accessToken : string) : W -> (string + error) * W := run (
  random ← call (client_random 26);
  now ← call client_now;
  mret (match dpop_create (proof_claims random now method target accessToken) key with
        | Some proof => inl proof
        | None => inr (library_error "create DPoP proof")
        end)).

Definition tokenThumbprint (token : string) : string + error :=
  if Z.shiftl 16 10 <? len token then inr (Errorf "token exceeds 16 KiB")
  else match parse_unverified token with
       | None => inr (library_error "parse access token")
       | Some jkt => inl jkt
       end.

(** The headers a request carries. *)
Definition request_headers (form : option Values) (proof accessToken : string) (bearer : bool) : list (string * string) :=
  (if is_some form then [("Content-Type", form_type)] else [])
  ++ (if is_empty proof then [] else [("DPoP", proof)])
  ++ (if is_empty accessToken then []
      else [("Authorization", (if bearer then "Bearer" else "DPoP") +:+ " " +:+ accessToken)]).

(** The body, the status and the error. *)
Definition request (method target : string) (form : option Values) (proof accessToken : string) (bearer : bool)
  : W -> (string * Z * option error) * W := run (
  return_if (is_nil (parse_url target)) ("", 0, Some (library_error "create request")) ;;
  resp ← call (client_do {| cr_Method := method; cr_URL := target;
                            cr_Headers := request_headers form proof accessToken bearer;
                            cr_Body := from_option Encode "" form |});
  mret (match resp with
        | inr err => ("", 0, Some (Wrapped "send request" err))
        | inl resp =>
            if rs_Broken resp then ("", rs_Status resp, Some (library_error "read response"))
            else (take_bytes (Z.to_nat (Z.shiftl 1 20)) (rs_Body resp), rs_Status resp, None)
        end)).

(** An operation whose error, under a name, is the answer of the whole. *)
Definition must_do {A} (f : W -> (A + error) * W) (wrap : error -> error) : client (option error) A :=
  x ← call f;
  match x with inl a => mret a | inr err => return_ (Some (wrap err)) end.

(** A request whose status must be the one given. *)
Definition expect (name : string) (send : W -> (string * Z * option error) * W) (status : Z) (refused : string)
  : client (option error) string :=
  '(body, got, err) ← call send;
  match (err : option error) with
  | Some err => return_ (Some (Wrapped name err))
  | None =>
      if negb (got =? status) then return_ (Some (Errorf (refused +:+ ": HTTP " +:+ pretty got))) else mret body
  end.

(** The access tokens of both responses are bound to the key; the code visits them in the
    order of a map, of which this is one. *)
Fixpoint check_thumbprints (thumbprint : string) (tokens : list (string * string)) : option error :=
  match tokens with
  | [] => None
  | (name, accessToken) :: tokens =>
      match tokenThumbprint accessToken with
      | inl got =>
          if (got =? thumbprint)%string then check_thumbprints thumbprint tokens
          else Some (Errorf (name +:+ " access token cnf.jkt does not match oauth2c key"))
      | inr _ => Some (Errorf (name +:+ " access token cnf.jkt does not match oauth2c key"))
      end
  end.

Definition revocation_form (token : string) : Values :=
  list_to_map [("token", [token]); ("token_type_hint", ["refresh_token"]); ("client_id", [clientID])].
Definition refresh_form (token : string) : Values :=
  list_to_map [("grant_type", ["refresh_token"]); ("refresh_token", [token]); ("client_id", [clientID])].

(** The answer to a refresh with a revoked token. *)
Definition revoked_answer (body : string) (status : Z) : option error :=
  match unmarshal_oauth_error body with
  | Some code =>
      if negb (status =? 400) || negb (code =? "invalid_grant")%string
      then Some (Errorf ("revoked refresh token accepted: HTTP " +:+ pretty status)) else None
  | None => Some (Errorf ("revoked refresh token accepted: HTTP " +:+ pretty status))
  end.

(** The requests to the protected resource: a proof is accepted once by each of two
    replicas, and a bound token is no bearer token. *)
Definition exercise_resource (issuer access : string) (key : private_key) : client (option error) unit :=
  let userinfo := issuer +:+ "/userinfo" in
  proof ← must_do (createProof key "GET" userinfo access) id;
  let send proof bearer := request "GET" userinfo None proof access bearer in
  _ ← expect "userinfo" (send proof false) 200 "userinfo";
  _ ← expect "cross-replica replay" (send proof false) 200 "cross-replica request";
  _ ← expect "same-replica replay" (send proof false) 401 "same-replica replay accepted";
  _ ← expect "bearer downgrade" (send "" true) 401 "bearer downgrade accepted";
  mret tt.

(** A refresh token is revoked, and refused from then on. *)
Definition exercise_revocation (issuer refresh : string) (key : private_key) : client (option error) (option error) :=
  let revoke := issuer +:+ "/revoke" in
  proof ← must_do (createProof key "POST" revoke "") id;
  _ ← expect "revoke" (request "POST" revoke (Some (revocation_form refresh)) proof "" false) 200 "revoke";
  let token := issuer +:+ "/token" in
  proof ← must_do (createProof key "POST" token "") id;
  '(body, status, err) ← call (request "POST" token (Some (refresh_form refresh)) proof "" false);
  match (err : option error) with
  | Some err => mret (Some (Wrapped "post-revocation refresh" err))
  | None => mret (revoked_answer body status)
  end.

Definition exercise (issuer keyPath tokensPath refreshedPath : string) : W -> option error * W := run (
  '(key, thumbprint) ← must_do (readKey keyPath) id;
  tokens ← must_do (readTokens tokensPath) (Wrapped "authorization-code response");
  refreshed ← must_do (readTokens refreshedPath) (Wrapped "refresh response");
  return_if (TokenResponse.RefreshToken refreshed =? TokenResponse.RefreshToken tokens)%string
    (Some (Errorf "refresh token was not rotated")) ;;
  match check_thumbprints thumbprint [("authorization-code", TokenResponse.AccessToken tokens);
                                      ("refreshed", TokenResponse.AccessToken refreshed)] with
  | Some err => mret (Some err)
  | None =>
      exercise_resource issuer (TokenResponse.AccessToken tokens) key ;;
      exercise_revocation issuer (TokenResponse.RefreshToken refreshed) key
  end).

(** [main]: what is printed on the standard output, and the exit status; [args] has the
    program's name first. *)
Definition trim_slash (s : string) : string :=
  let n := String.length s in
  if (drop_bytes (n - 1) s =? "/")%string then take_bytes (n - 1) s else s.
Definition client_main (args : list string) : W -> (list string * Z) * W := run (
  match args with
  | [_; "key"; path] =>
      thumbprint ← call (writeKey path);
      mret (match thumbprint with inl thumbprint => ([thumbprint], 0) | inr _ => ([], 1) end)
  | [_; "exercise"; issuer; keyPath; tokensPath; refreshedPath] =>
      err ← call (exercise (trim_slash issuer) keyPath tokensPath refreshedPath);
      mret (if is_some (err : option error) then ([], 1)
            else (["DPoP resource, replay, downgrade, and revocation checks passed"], 0))
  | _ => mret ([], 2)
  end).
End Client.

(** ** A proof that is made is accepted *)

(** What [dpop.Create] promises: a compact JWS of type [dpop+jwt] that carries the public
    key of the private one, verifies under it, and whose payload is an object with the
    claims, a time as the integer of its seconds and an empty hash left out. *)
Section Proofs.
Context `{!URLs} `{!ProofJSON} `{!JOSE} `{!ClientLibs}.

Definition claims_object (claims : Claims.ProofTokenClaims) (members : list (string * json)) : Prop :=
  member "jti" members = Some (JString (Claims.ID claims)) /\
  member "htm" members = Some (JString (Claims.Method claims)) /\
  member "htu" members = Some (JString (Claims.URL claims)) /\
  member "iat" members = Some (JNumber (pretty (Claims.IssuedAt claims / second))) /\
  member "ath" members = (if is_empty (Claims.AccessTokenHash claims) then None
                          else Some (JString (Claims.AccessTokenHash claims))).

Definition signs (claims : Claims.ProofTokenClaims) (thumbprint compact : string) : Prop :=
  exists p0 p1 p2 data header keyJSON pk payload members rest,
    split_on "." compact = [p0; p1; p2] /\ p0 <> "" /\ p1 <> "" /\ p2 <> "" /\
    Base64.decode false p0 = Some data /\ unmarshal_members data = Some header /\
    stringValue header "typ" = "dpop+jwt" /\ stringValue header "alg" = "ES256" /\
    Forall (fun name => header !! name = None) forbidden_headers /\ header !! "jwk" = Some keyJSON /\
    embedded_key keyJSON "ES256" pk thumbprint /\ jws_verify compact "ES256" pk = Some payload /\
    utf8_valid payload = true /\ decode_members payload = Some (members, rest) /\ at_eof rest = true /\
    claims_object claims members.

Class LawfulCreate := dpop_create_signs : forall claims key compact thumb,
  dpop_create claims key = Some compact -> jwk_sha256 (signing_jwk key) = Some thumb ->
  signs claims (Base64.encode thumb) compact.

Lemma text_of_random_length s : String.length (text_of_random s) = String.length s.
Proof. unfold text_of_random. induction s as [|c s IH]; [done|]. cbn. by rewrite IH. Qed.

Lemma truncate_second_seconds t : 
  truncate_second t = (t / second) * second /\ (t / second) * second <= t < (t / second) * second + second.
Proof.
  unfold truncate_second, zero_time, second. pose proof (Z.div_mod t 1000000000 ltac:(lia)).
  pose proof (Z.mod_pos_bound t 1000000000 ltac:(lia)).
  replace (t - -62135596800 * 1000000000) with (t + 62135596800 * 1000000000) by lia. rewrite Z.mod_add by lia. lia.
Qed.

(** The proof the server finds in the text the client makes. *)
Definition proof_of (claims : Claims.ProofTokenClaims) (thumbprint : string) : Dpop.Proof_ :=
  {| Dpop.Algorithm := "ES256"; Dpop.Thumbprint := thumbprint; Dpop.JTI := Claims.ID claims;
     Dpop.Method := Claims.Method claims; Dpop.Target := Claims.URL claims; Dpop.ATH := Claims.AccessTokenHash claims |}.

Lemma signed_claims_for random made method target accessToken members now thumbprint :
  String.length random = 26%nat -> method <> "" -> target <> "" -> validateExpectedURL target = true ->
  ordinary_clock made -> ordinary_clock now -> made - 5 * second <= now <= made + 9 * second ->
  claims_object (proof_claims random made method target accessToken) members ->
  claims_for members method target now (proof_of (proof_claims random made method target accessToken) thumbprint).
Proof.
  intros Hr Hm Ht Hurl Hmade Hnow Hw (Hjti & Hhtm & Hhtu & Hiat & Hath). unfold claims_for.
  cbn [proof_of proof_claims Claims.ID Claims.Method Claims.URL Claims.IssuedAt Claims.AccessTokenHash Dpop.JTI Dpop.Method Dpop.Target Dpop.ATH] in *.
  split; [done|]. split; [unfold len; rewrite text_of_random_length, Hr; lia|].
  destruct (truncate_second_seconds made) as [Et Hs]. rewrite Et, Z.div_mul in Hiat by (unfold second; lia).
  set (n := made / second) in *. unfold ordinary_clock, second in *. split_and!; try done.
  - exists (pretty n), (of_int n). split; [done|]. split; [apply ParseFloat_pretty; lia|].
    apply acceptance_window; unfold ordinary_clock, second; lia.
  - rewrite Hath. destruct (is_empty accessToken); [done|]. pose proof (encode_length_32 _ (length_sha256 accessToken)) as Hl.
    by destruct (Base64.encode (sha256 accessToken)).
Qed.
End Proofs.

Section Accepted.
Context `{!URLs} `{!ProofJSON} `{!JOSE} `{!ClientLibs} {W : Type} `{!ClientHost W} `{!LawfulCreate}.

(** C39: A proof of possession that the client makes is accepted by the server: whenever
    [createProof] made a text of at most 8 KiB for a method and a URL at some instant, the
    server's verifier accepts it for that method and URL at every instant from five
    seconds before to nine seconds after, with the thumbprint of the client's key, and for
    the access token the proof was made for, if any. *)
Theorem created_proof_is_accepted (key : private_key) method target accessToken (w w' : W) compact thumb now :
  createProof key method target accessToken w = (inl compact, w') -> jwk_sha256 (signing_jwk key) = Some thumb ->
  (forall n w, String.length (client_random n w).1 = n) ->
  len compact <= maxProofSize -> method <> "" -> target <> "" -> validateExpectedURL target = true ->
  let made := (client_now (client_random 26 w).2).1 in
  ordinary_clock made -> ordinary_clock now -> made - 5 * second <= now <= made + 9 * second ->
  exists proof, ParseAndVerify compact "ES256" method target now = inl proof /\
    Dpop.Thumbprint proof = Base64.encode thumb /\ Dpop.Method proof = method /\ Dpop.Target proof = target /\
    (accessToken <> "" -> is_ascii accessToken = true -> VerifyAccessTokenHash proof accessToken = None).
Proof.
  intros Hmake Hthumb Hlen Hsize Hm Ht Hurl made Hmade Hnow Hw. unfold createProof, run, mbind, go_bind, call, mret, go_ret in Hmake.
  specialize (Hlen 26%nat w). subst made. destruct (client_random 26 w) as [random w1]. cbn [fst snd] in *.
  destruct (client_now w1) as [made w2]. cbn [fst] in *.
  destruct (dpop_create (proof_claims random made method target accessToken) key) as [text|] eqn:Hc; [|done].
  injection Hmake as <- _. destruct (dpop_create_signs _ _ _ _ Hc Hthumb) as
    (p0 & p1 & p2 & data & header & keyJSON & pk & payload & members & rest & Hsplit & Hp0 & Hp1 & Hp2 & Hdata & Hheader & Htyp &
     Halg & Hforb & Hjwk & Hkey & Hjws & Hutf & Hdec & Heof & Hclaims).
  exists (proof_of (proof_claims random made method target accessToken) (Base64.encode thumb)). split.
  - apply (verifier_accepts _ _ _ _ _ _ _ curve_ES256). split; [done|].
    exists p0, p1, p2, data, header, keyJSON, pk, payload, members, rest. split_and!; try done; [by right|].
    by apply signed_claims_for.
  - split_and!; try done. intros Ha Hascii. unfold VerifyAccessTokenHash, proof_of. cbn [Dpop.ATH proof_claims Claims.AccessTokenHash].
    rewrite Hascii. apply is_empty_false in Ha. rewrite Ha, String.eqb_refl. cbn [negb orb].
    pose proof (encode_length_32 _ (length_sha256 accessToken)) as Hl. by destruct (Base64.encode (sha256 accessToken)).
Qed.
End Accepted.

(** ** What a passed exercise has observed *)

Section Observed.
Context `{!ClientLibs} {W : Type} `{!ClientHost W} `{!URLs}.

(** The host with a record of the statuses received. *)
Definition lifted {B} (f : W -> B * W) (x : W * list Z) : B * (W * list Z) :=
  let (b, w) := f x.1 in (b, (w, x.2)).
#[local] Instance observed : ClientHost (W * list Z) := {|
  client_now := lifted client_now; client_random n := lifted (client_random n); generate_key := lifted generate_key;
  read_file path := lifted (read_file path); write_file path text := lifted (write_file path text);
  client_do r x :=
    let (resp, w) := client_do r x.1 in
    (resp, (w, match resp with inl resp => x.2 ++ [rs_Status resp] | inr _ => x.2 end))
|}.

Abbreviation client R A := (go (W * list Z) R A).
Abbreviation wp_obs := (wp (W := W * list Z)).

Lemma lifted_ends {B} (f : W -> B * W) x (Q : B -> W * list Z -> Prop) :
  (forall b w, Q b (w, x.2)) -> ends (lifted f) x Q.
Proof. intros HQ. unfold ends, lifted. destruct (f x.1) as [b w]. apply HQ. Qed.

(** Files and keys send nothing. *)
Lemma readKey_silent path x : ends (readKey path) x (fun _ x' => x'.2 = x.2).
Proof. unfold readKey. apply ends_run, wp_bind, wp_call, lifted_ends. intros. by apply wp_ret. Qed.
Lemma readTokens_silent path x : ends (readTokens path) x (fun _ x' => x'.2 = x.2).
Proof. unfold readTokens. apply ends_run, wp_bind, wp_call, lifted_ends. intros. by apply wp_ret. Qed.
Lemma createProof_silent key method target access x : ends (createProof key method target access) x (fun _ x' => x'.2 = x.2).
Proof.
  unfold createProof. apply ends_run, wp_bind, wp_call, lifted_ends. intros. apply wp_bind, wp_call, lifted_ends. intros.
  by apply wp_ret.
Qed.

(** A request without an error received one status. *)
Lemma request_observed method target form proof access bearer x :
  ends (request method target form proof access bearer) x (fun r x' => r.2 = None -> x'.2 = x.2 ++ [r.1.2]).
Proof.
  unfold request. apply ends_run, wp_bind, wp_return_if; [by intros _|]. intros _. apply wp_bind, wp_call. unfold ends. cbn [client_do observed].
  destruct (client_do _ x.1) as [[resp|err] w]; apply wp_ret; cbn [merge fst snd]; [|done]. by destruct (rs_Broken resp).
Qed.

(** Statements whose refusals end with an error. *)
Lemma must_do_observed {A} (f : W * list Z -> (A + error) * (W * list Z)) wrap x :
  ends f x (fun _ x' => x'.2 = x.2) ->
  wp_obs (must_do f wrap) x (fun r x' => match r with inl e => e <> None | inr _ => x'.2 = x.2 end).
Proof.
  intros Hf. unfold must_do. apply wp_bind, wp_call. eapply ends_mono; [exact Hf|]. intros [a|err] x' Hx; cbn beta iota.
  - by apply wp_ret.
  - by apply wp_return.
Qed.
Lemma expect_observed name method target form proof access bearer status refused x :
  wp_obs (expect name (request method target form proof access bearer) status refused) x
    (fun r x' => match r with inl e => e <> None | inr _ => x'.2 = x.2 ++ [status] end).
Proof.
  unfold expect. apply wp_bind, wp_call. eapply ends_mono; [apply request_observed|]. intros [[body got] err] x' Hx. cbn [fst snd] in Hx.
  destruct err as [err|]; [by apply wp_return|]. destruct (Z.eqb_spec got status) as [->|]; [|by apply wp_return].
  apply wp_ret. by apply Hx.
Qed.

(** The statement of a sequence, when the one before it has a postcondition of its values. *)
Lemma observed_bind {A B} (m : client (option error) A) (k : A -> client (option error) B) x (Q : A -> list Z -> Prop) R :
  wp_obs m x (fun r x' => match r with inl e => e <> None | inr a => Q a x'.2 end) ->
  (forall a x', Q a x'.2 -> wp_obs (k a) x' (fun r x'' => match r with inl e => e <> None | inr b => R b x''.2 end)) ->
  wp_obs (m ≫= k) x (fun r x' => match r with inl e => e <> None | inr b => R b x'.2 end).
Proof. intros Hm Hk. apply wp_bind. eapply wp_mono; [exact Hm|]. intros [e|a] x' Hx; [done|]. by apply Hk. Qed.
Lemma exercise_resource_observed issuer access key x :
  wp_obs (exercise_resource issuer access key) x
    (fun r x' => match r with inl e => e <> None | inr _ => x'.2 = x.2 ++ [200; 200; 401; 401] end).
Proof.
  unfold exercise_resource. cbv zeta.
  apply (observed_bind _ _ _ (fun _ l => l = x.2) (fun _ l => l = x.2 ++ [200; 200; 401; 401])); [apply must_do_observed, createProof_silent|]. intros proof x1 E1.
  apply (observed_bind _ _ _ (fun _ l => l = x.2 ++ [200]) (fun _ l => l = x.2 ++ [200; 200; 401; 401])); [rewrite <- E1; apply expect_observed|]. intros _ x2 E2.
  apply (observed_bind _ _ _ (fun _ l => l = x.2 ++ [200; 200]) (fun _ l => l = x.2 ++ [200; 200; 401; 401]));
    [rewrite (app_assoc _ [200] [200]), <- E2; apply expect_observed|]. intros _ x3 E3.
  apply (observed_bind _ _ _ (fun _ l => l = x.2 ++ [200; 200; 401]) (fun _ l => l = x.2 ++ [200; 200; 401; 401]));
    [rewrite (app_assoc _ [200; 200] [401]), <- E3; apply expect_observed|]. intros _ x4 E4.
  apply (observed_bind _ _ _ (fun _ l => l = x.2 ++ [200; 200; 401; 401]) (fun _ l => l = x.2 ++ [200; 200; 401; 401]));
    [rewrite (app_assoc _ [200; 200; 401] [401]), <- E4; apply expect_observed|]. intros _ x5 E5. by apply wp_ret.
Qed.

(** The statement that ends the exercise answers with no error only after these statuses. *)
Lemma exercise_revocation_observed issuer refresh key x :
  wp_obs (exercise_revocation issuer refresh key) x
    (fun r x' => match r with inl e => e <> None | inr e => e = None -> x'.2 = x.2 ++ [200; 400] end).
Proof.
  unfold exercise_revocation. cbv zeta.
  apply (observed_bind _ _ _ (fun _ l => l = x.2)
           (fun (e : option error) l => e = None -> l = x.2 ++ [200; 400])); [apply must_do_observed, createProof_silent|].
  intros proof x1 E1.
  apply (observed_bind _ _ _ (fun _ l => l = x.2 ++ [200]) (fun e l => e = None -> l = x.2 ++ [200; 400])); [rewrite <- E1; apply expect_observed|]. intros _ x2 E2.
  apply (observed_bind _ _ _ (fun _ l => l = x.2 ++ [200]) (fun e l => e = None -> l = x.2 ++ [200; 400])); [rewrite <- E2; apply must_do_observed, createProof_silent|].
  intros proof' x3 E3. apply wp_bind, wp_call. eapply ends_mono; [apply request_observed|]. intros [[body status] err] x4 Hx. cbn [fst snd] in Hx.
  destruct err as [err|]; [by apply wp_ret|]. apply wp_ret. unfold revoked_answer. destruct (unmarshal_oauth_error body) as [code|]; [|done].
  destruct (Z.eqb_spec status 400) as [->|]; [|done]. intros _. rewrite (Hx eq_refl), E3, <- app_assoc. done.
Qed.

(** An exercise that passes has seen exactly these answers: the proof accepted by two
    replicas, refused by the first when it came again, the token refused as a bearer token,
    the revocation done and the revoked token refused. *)
Theorem passed_exercise_observed issuer keyPath tokensPath refreshedPath (w : W) :
  ends (exercise issuer keyPath tokensPath refreshedPath) (w, []) (fun err x =>
    err = None -> x.2 = [200; 200; 401; 401; 200; 400]).
Proof.
  unfold exercise. apply ends_run.
  apply (wp_mono _ _ (fun r x => match r with inl e => e <> None | inr e => e = None -> x.2 = [200; 200; 401; 401; 200; 400] end));
    [|intros [e|e] x Hx E; cbn in E; [by destruct Hx|by apply Hx]].
  apply (observed_bind _ _ _ (fun _ l => l = []) (fun (e : option error) l => e = None -> l = [200; 200; 401; 401; 200; 400]));
    [apply must_do_observed, readKey_silent|]. intros [key thumbprint] x1 E1.
  apply (observed_bind _ _ _ (fun _ l => l = []) (fun e l => e = None -> l = [200; 200; 401; 401; 200; 400])); [rewrite <- E1; apply must_do_observed, readTokens_silent|]. intros tokens x2 E2.
  apply (observed_bind _ _ _ (fun _ l => l = []) (fun e l => e = None -> l = [200; 200; 401; 401; 200; 400])); [rewrite <- E2; apply must_do_observed, readTokens_silent|]. intros refreshed x3 E3.
  apply wp_bind, wp_return_if; [done|]. intros _. destruct (check_thumbprints _ _); [by apply wp_ret|].
  apply (observed_bind _ _ _ (fun _ l => l = [200; 200; 401; 401]) (fun e l => e = None -> l = [200; 200; 401; 401; 200; 400])).
  { eapply wp_mono; [apply exercise_resource_observed|]. intros [e|u] x4 Hx; [done|]. by rewrite Hx, E3. }
  intros _ x4 E4. eapply wp_mono; [apply exercise_revocation_observed|]. intros [e|e] x5 Hx; [done|]. intros He. by rewrite (Hx He), E4.
Qed.
End Observed.

(** ** A laboratory

    Concrete libraries under which the client signs and the server verifies: a payload is
    the fields of a proof between bars, in base64.  Two replicas share a database with a
    family of the client's key, behind the proxy. *)

Module Lab.
Import TrustServiceProperties.Sample Site.

Definition bar : ascii := "|".
Definition plain_field (s : string) : bool := string_forallb (fun c => negb (Ascii.eqb c bar) && (byte_z c <? 128)) s.
Definition payload_fields (claims : Claims.ProofTokenClaims) : list string :=
  [Claims.ID claims; Claims.Method claims; Claims.URL claims; pretty (Claims.IssuedAt claims / second); Claims.AccessTokenHash claims].
Definition payload_text (claims : Claims.ProofTokenClaims) : string := join (String bar "") (payload_fields claims).

#[export] Instance lab_proofs : ProofJSON := {|
  unmarshal_members s :=
    if (s =? "head")%string
    then Some (list_to_map [("typ", "dpop+jwt"); ("alg", "ES256"); ("jwk", "key")])
    else if (s =? "key")%string then Some (list_to_map [("kty", "EC"); ("crv", "P-256")]) else None;
  unmarshal_string s := s;
  decode_members payload :=
    match split_on bar payload with
    | [jti; htm; htu; iat; ath] =>
        Some ([("jti", JString jti); ("htm", JString htm); ("htu", JString htu); ("iat", JNumber iat)]
              ++ (if is_empty ath then [] else [("ath", JString ath)]), "")
    | _ => None
    end
|}.
#[export] Instance lab_jose : JOSE := {|
  jwk_key := string; public_key := string;
  ParseKey := Some; Raw := Some; PointBytes := Some;
  ParseUncompressedPublicKey _ point := Some point;
  jwk_thumbprint _ := Some thumbprint;
  jws_verify compact _ _ := match split_on "." compact with [_; p1; "cw"] => Base64.decode false p1 | _ => None end
|}.
#[export] Instance lab_libs : ClientLibs := {|
  private_key := unit; client_jwk := unit; signing_jwk := id; ecdsa_private := Some;
  IsPublic _ := false; Valid _ := true; jwk_sha256 _ := Some thumbprint;
  marshal_jwks _ := Some "keys"; unmarshal_jwks _ := Some [tt];
  dpop_create claims _ :=
    if forallb plain_field (payload_fields claims)
    then Some ("aGVhZA" +:+ String "." (Base64.encode (payload_text claims) +:+ String "." "cw")) else None;
  unmarshal_tokens text :=
    Some {| TokenResponse.AccessToken := "access"; TokenResponse.RefreshToken := text; TokenResponse.TokenType := "DPoP" |};
  unmarshal_oauth_error := Some;
  parse_unverified _ := Some jkt
|}.

Definition lab_key : private_key := tt.

Lemma plain_no_bar s : plain_field s = true -> string_forallb (fun c => negb (Ascii.eqb c bar)) s = true.
Proof.
  unfold plain_field. induction s as [|c s IH]; [done|]. cbn. rewrite !andb_true_iff. intros [[? _] ?]. auto.
Qed.
Lemma plain_utf8 s : string_forallb (fun c => byte_z c <? 128) s = true -> utf8_valid s = true.
Proof. induction s as [|c s IH]; [done|]. cbn. intros [-> ?]%andb_true_iff. auto. Qed.

Lemma split_payload claims :
  forallb plain_field (payload_fields claims) = true -> split_on bar (payload_text claims) = payload_fields claims.
Proof.
  unfold payload_text, payload_fields. cbn [forallb]. rewrite !andb_true_iff.
  intros (H1 & H2 & H3 & H4 & H5 & _). apply plain_no_bar in H1, H2, H3, H4, H5.
  repeat match goal with |- context [join _ (?a :: ?b :: ?l)] =>
    change (join (String bar "") (a :: b :: l)) with (a +:+ String bar (join (String bar "") (b :: l))) end.
  rewrite !split_on_app by done. by rewrite split_on_nodot.
Qed.
Lemma payload_ascii claims :
  forallb plain_field (payload_fields claims) = true -> utf8_valid (payload_text claims) = true.
Proof.
  intros Hf. apply plain_utf8. unfold payload_text. revert Hf. generalize (payload_fields claims). intros l.
  assert (forall s, plain_field s = true -> string_forallb (fun c => byte_z c <? 128) s = true) as Hs.
  { unfold plain_field. induction s as [|c s IH]; [done|]. cbn. rewrite !andb_true_iff. intros [[_ ?] ?]. auto. }
  induction l as [|a [|b l] IH]; [done|..]; cbn [forallb]; intros [Ha Hl]%andb_true_iff.
  - auto.
  - change (join (String bar "") (a :: b :: l)) with (a +:+ String bar (join (String bar "") (b :: l))).
    rewrite string_forallb_app. cbn [string_forallb]. rewrite (Hs a Ha). by apply IH.
Qed.

Lemma url_char_no_dot s : string_forallb Base64.is_url_char s = true -> string_forallb (fun c => negb (Ascii.eqb c ".")) s = true.
Proof.
  induction s as [|c s IH]; [done|]. cbn [string_forallb]. rewrite !andb_true_iff. intros [Hc Hs]. split; [|auto].
  destruct (Ascii.eqb_spec c "."); [|done]. by subst.
Qed.

#[export] Instance lab_lawful : LawfulCreate.
Proof.
  intros claims key compact thumb. cbn [dpop_create lab_libs jwk_sha256]. destruct (forallb _ _) eqn:Hf; [|done]. intros [= <-] [= <-].
  exists "aGVhZA", (Base64.encode (payload_text claims)), "cw", "head".
  eexists _, "key", "key", (payload_text claims), _, "".
  assert (split_on "." ("aGVhZA" +:+ String "." (Base64.encode (payload_text claims) +:+ String "." "cw"))
          = ["aGVhZA"; Base64.encode (payload_text claims); "cw"]) as Hsplit.
  { rewrite split_on_app by done. rewrite split_on_app by apply url_char_no_dot, Base64.encode_alphabet. done. }
  split; [exact Hsplit|]. split; [done|]. split.
  { intros E. apply (f_equal (Base64.decode false)) in E. rewrite Base64.decode_encode in E.
    change (Base64.decode false "") with (Some "") in E. apply (inj Some) in E.
    apply (f_equal (split_on bar)) in E. by rewrite split_payload in E. }
  split; [done|]. split; [reflexivity|]. split; [reflexivity|]. split; [reflexivity|]. split; [reflexivity|].
  split; [by repeat constructor|]. split; [reflexivity|]. split.
  { eexists _, "P-256", "key", "key", "key", thumbprint. split; [reflexivity|]. split; [by repeat constructor|]. split; [exact curve_ES256|]. split; [reflexivity|].
    split; [reflexivity|]. split; [by left|]. by split_and!. }
  split. { cbn [jws_verify lab_jose]. rewrite Hsplit. apply Base64.decode_encode. }
  split; [by apply payload_ascii|]. split; [cbn [decode_members lab_proofs]; rewrite split_payload by done; reflexivity|].
  split; [done|]. unfold claims_object. split; [done|]. split; [done|]. split; [done|]. split; [done|].
  cbn. by destruct (is_empty (Claims.AccessTokenHash claims)).
Qed.

(** The client of the tests, bound to its key. *)
#[export] Instance lab_policy : PolicyResolver nat := {|
  ResolveClient id _ n :=
    if (id =? clientID)%string
    then (({| Resolved.Config := app true; Resolved.id := id; Resolved.source := clientSourceStatic; Resolved.owner := 1 |}, None), n)
    else ((zero_resolved_client, Some ErrDenied), n);
  ResolveUser _ _ n := (({| Resolved.Groups := ["staff"] |}, None), n)
|}.

(** A family of the key, made from the start of the sample. *)
Definition family_grant : Grant.RefreshGrant :=
  zero_grant <| Grant.SID := "sid" |> <| Grant.ClientID := clientID |> <| Grant.Email := "a@example.com" |>
    <| Grant.Scopes := "openid" |> <| Grant.ConnectorID := "corp" |> <| Grant.UpstreamSubject := "42" |>
    <| Grant.Mode := "session" |> <| Grant.AuthTime := 1700000000 * second |> <| Grant.IdleTTL := hour |>
    <| Grant.AbsoluteExpiry := 1700003600 * second |> <| Grant.DPoPJKT := jkt |>.
Definition family : Material.RefreshMaterial := (GenerateRefreshMaterial (store start)).1.1.
Definition with_family : World :=
  (CreateRefreshGrant family_grant family "" "" (1700000000 * second) (store start)).2.

(** The client's process: the deployment, the proxy's counter and the requests' statuses. *)
Record Bench := { deployment : Cluster nat; turn : Z; statuses : list Z }.
Definition bench : Bench :=
  {| deployment := {| shared := with_family; replicas := [peers start; peers start] |}; turn := 0; statuses := [] |}.
Definition replica_url (host : string) : URL :=
  {| Scheme := "http"; Host := host; Hostname := "127.0.0.1"; HasUser := false; RawQuery := ""; ForceQuery := false; Fragment := "" |}.
Definition targets : list URL := [replica_url "127.0.0.1:8081"; replica_url "127.0.0.1:8082"].

(** The transport: a request of the client as the server reads it, and the answer's error
    code as the body. *)
Definition to_server (r : ClientRequest) : Http.Request :=
  {| Http.Method := cr_Method r; Http.Host := "id.example"; Http.Path := trim_prefix "https://id.example" (cr_URL r);
     Http.RawQuery := ""; Http.RemoteAddr := "127.0.0.1:1";
     Http.header name := map snd (filter (fun h => h.1 = name) (cr_Headers r)); Http.connector := "";
     Http.Body := cr_Body r; Http.body_failed := false |}.
Definition body_of (a : Answer.Response) : string :=
  match Answer.Content a with
  | JSONBody members => match member "error" members with Some (JString code) => code | _ => "" end
  | _ => ""
  end.
Definition lab_do (r : ClientRequest) (b : Bench) : (ClientResponse + error) * Bench :=
  let (answers, c) := proxy_run Site.server targets (turn b) [to_server r] (deployment b) in
  match answers with
  | [Some a] =>
      (inl {| rs_Status := Answer.Status a; rs_Body := body_of a; rs_Broken := false |},
       {| deployment := c; turn := (turn b + 1) `mod` 2 ^ 64; statuses := statuses b ++ [Answer.Status a] |})
  | _ => (inr (Errorf "no answer"), b)
  end.
#[export] Instance lab_host : ClientHost Bench := {|
  client_now b := (1700000000 * second, b);
  client_random n b := (bytes_string (replicate n (turn b)), b);
  generate_key b := (Some tt, b);
  read_file path b := (inl (if (path =? "refreshed")%string then Material.Token family else "consumed"), b);
  write_file _ _ b := (None, b);
  client_do := lab_do
|}.
End Lab.

Import TrustServiceProperties.Sample Site Lab.

(** The tests pass on the sample deployment: the proof is accepted by each replica once,
    then refused, the token is no bearer token, and the revoked token is refused. *)
Example the_exercise_passes :
  let (answer, b) := client_main ["dpop-client"; "exercise"; "https://id.example/"; "key"; "tokens"; "refreshed"] bench in
  answer = (["DPoP resource, replay, downgrade, and revocation checks passed"], 0) /\
  statuses b = [200; 200; 401; 401; 200; 400].
Proof. vm_compute. done. Qed.

Lemma created_proof_is_accepted_witness :
  exists compact b proof, createProof lab_key "GET" "https://id.example/userinfo" "access" bench = (inl compact, b) /\
    ParseAndVerify compact "ES256" "GET" "https://id.example/userinfo" (1700000009 * second) = inl proof /\
    Dpop.Thumbprint proof = jkt /\ VerifyAccessTokenHash proof "access" = None.
Proof.
  destruct (createProof lab_key "GET" "https://id.example/userinfo" "access" bench) as [[compact|err] b] eqn:E;
    [|apply (f_equal (fun x => match x.1 with inl _ => true | inr _ => false end)) in E; vm_compute in E; discriminate].
  destruct (created_proof_is_accepted lab_key "GET" "https://id.example/userinfo" "access" bench b compact thumbprint
              (1700000009 * second) E) as (proof & Hp & Ht & _ & _ & Ha).
  - reflexivity.
  - intros n w. cbn [client_random lab_host fst]. by rewrite length_bytes_string, length_replicate.
  - apply (f_equal (fun x => match x.1 with inl c => len c <=? maxProofSize | inr _ => false end)) in E.
    cbn in E. apply Z.leb_le. rewrite <- E. vm_compute. reflexivity.
  - done.
  - done.
  - reflexivity.
  - cbn [client_now client_random lab_host fst snd]. unfold ordinary_clock, second. lia.
  - unfold ordinary_clock, second. lia.
  - cbn [client_now client_random lab_host fst snd]. unfold second. lia.
  - exists compact, b, proof. split; [done|]. split; [done|]. split; [exact Ht|]. by apply Ha.
Defined.
