(* ===== verification/ServerAnswers.v ===== *)
(** * The answers of the server

    Every handler of internal/oidc answers every request with a status of HTTP, whatever
    the state of the server, its peers and its database: none returns without writing an
    answer, and none dereferences nil.  The handlers rely on what the resolver, the login
    providers, the configuration and the public pages promise; the promises are stated
    here as classes. *)

From S2P Require Import Prelude Runtime ReplayCache Schema RefreshToken RefreshStore FlowStore OtpStore GrantStore Json Config Upstream Credentials Tokens Services TrustPolicy TrustConfig Dpop Trust Http Oidc OidcToken OidcAnswers OidcResource OidcFlow OidcAuthorize Server ProviderProperties.

(** ** Live answers *)

(** The statuses the handlers write. *)
Definition http_statuses : list Z := [200; 201; 302; 303; 400; 401; 403; 404; 405; 413; 429; 500; 503].

(** The types of an answer that is neither a page nor a public file. *)
Definition text_types : list string := ["text/plain; charset=utf-8"; "application/json"].

(** A page rendered from a template, that of a path that names nothing included, is HTML
    that no cache keeps; what is neither a page nor a public file is plain text or JSON. *)
Definition page_kept_private (a : Answer.Response) : Prop :=
  match Answer.Content a with
  | PageBody _ _ | ErrorPage _ _ _ _ | MissingPage _ _ _ =>
      ("Content-Type", "text/html; charset=utf-8") ∈ Answer.Headers a /\ ("Cache-Control", "no-store") ∈ Answer.Headers a
  | RawBody _ | JSONBody _ => exists t, t ∈ text_types /\ ("Content-Type", t) ∈ Answer.Headers a
  | NoBody | AssetBody _ => True
  end.
Definition live (a : Answer.Response) : Prop := Answer.Status a ∈ http_statuses /\ page_kept_private a.

Lemma panicked_not_live : ~ live panicked.
Proof. intros [Hs _]. revert Hs. by vm_compute; set_solver. Qed.

(** Contents that may have any type. *)
Definition untyped (content : Body) : bool :=
  match content with NoBody | AssetBody _ => true | _ => false end.

(** A status of a number, and those of the answers made of it. *)
Ltac by_status := unfold http_statuses; repeat (first [left | right]); reflexivity.

Lemma live_reply status headers content : status ∈ http_statuses -> untyped content = true -> live (reply status headers content).
Proof. intros Hs Hc. split; [done|]. by destruct content. Qed.
Lemma live_rendered status content :
  status ∈ http_statuses -> (match content with PageBody _ _ | ErrorPage _ _ _ _ | MissingPage _ _ _ => True | _ => False end) ->
  live (reply status page_headers content).
Proof. intros Hs Hc. split; [done|]. destruct content; try done; split; cbn; set_solver. Qed.
Lemma live_http_error status headers text : status ∈ http_statuses -> live (http_error status headers text).
Proof. intros Hs. split; [done|]. exists "text/plain; charset=utf-8". split; cbn; set_solver. Qed.
Lemma live_headers headers a : live a -> live (with_headers headers a).
Proof. intros [Hs Hp]. split; [done|]. revert Hp. unfold page_kept_private. cbn. destruct (Answer.Content a); set_solver. Qed.
Lemma live_redirect status target query : status ∈ http_statuses -> live (redirect_to status target query).
Proof. done. Qed.
Lemma live_error_page `{Templates} status reason title message : status ∈ http_statuses -> live (renderErrorPage status reason title message).
Proof.
  intros Hs. unfold renderErrorPage. case_match; [by apply live_rendered|by apply live_http_error].
Qed.
Lemma live_browser_error `{Templates} status reason : status ∈ http_statuses -> live (renderBrowserError status reason).
Proof. intros Hs. unfold renderBrowserError. repeat case_match; by apply live_error_page. Qed.
Lemma live_json status headers members :
  status ∈ http_statuses -> json_type ∈ headers -> live (reply status headers (JSONBody members)).
Proof. intros Hs Hh. split; [done|]. exists "application/json". split; [unfold text_types; set_solver|done]. Qed.
Lemma live_oauth_json status value : status ∈ http_statuses -> live (oauthJSON status value).
Proof. intros Hs. apply live_json; [done|set_solver]. Qed.
Lemma live_oauth_error status code description : status ∈ http_statuses -> live (oauthError status code description).
Proof. apply live_oauth_json. Qed.
Lemma live_write_oauth status code : status ∈ http_statuses -> live (writeOAuthJSON status code).
Proof. intros Hs. apply live_json; [done|set_solver]. Qed.
Lemma live_token_answer a : token_answer a -> live a.
Proof.
  intros [headers status code description Hs|]; [|by apply live_oauth_json; unfold http_statuses; set_solver].
  apply live_headers, live_oauth_error. revert Hs. unfold refusal_statuses, http_statuses. set_solver.
Qed.
Create HintDb live.
#[export] Hint Resolve live_reply live_rendered live_http_error live_headers live_redirect live_error_page live_browser_error live_oauth_error
  live_oauth_json live_write_oauth live_token_answer : live.
#[export] Hint Extern 1 (_ ∈ http_statuses) => (unfold http_statuses; set_solver) : live.

(** ** What the handlers rely on *)

Section Promises.
Context (P : Type) `{!PolicyResolver P} `{!URLs} `{!PublicPages}.

(** The redirect URIs of a client the resolver resolves parse. *)
Definition redirects_parse (answer : Resolved.ResolvedClient * option error) : Prop :=
  answer.2 = None -> Forall (fun uri => is_Some (parse_url uri)) (Client.RedirectURIs (Resolved.Config answer.1)).
Class SoundResolver := ResolveClient_redirects : forall clientID fresh, produces redirects_parse (ResolveClient clientID fresh).

(** The public pages answer. *)
Class LivePages := HandlePublic_live : forall r data, live (HandlePublic r data).
End Promises.

(** A login by mail finds its settings and a transport. *)
Definition mail_served (cfg : Config.Config) (has_mailer : bool) : Prop :=
  forall id, email_connector_of cfg id = true -> is_Some (Config.Email_ cfg) /\ has_mailer = true.

(** ** The pages of a login *)

#[local] Hint Extern 2 (live _) => (eauto with live) : yields.

(** A call of a handler answers when the handler does. *)
Lemma call_lives {W} (f : W -> Answer.Response * W) : produces live f -> yields live live (call f).
Proof. apply yields_call. Qed.
#[local] Hint Resolve call_lives : yields.

Section Flow.
Context `{Env} {P : Type} `{!PolicyResolver P} `{!Connectors P} `{!Mailer P} `{!Challenge P}.
Context `{!AEAD} `{!CredentialJSON} `{!FlowJSON} `{!EmailsJSON} `{!URLs} `{!NetText} `{!MailText} `{!Templates}.
Context `{!SoundResolver P} `{!LawfulConnectors P}.
Context (cfg : Config.Config) (otpSecret encryptionKey : string) (has_mailer : bool).

Abbreviation proc := (Process (Peers P)).
Abbreviation lives := (yields (W := proc) live).
Abbreviation answers f := (produces (W := proc) live f).

Lemma live_page status page reason : status ∈ http_statuses -> live (renderBrowserPage status page reason).
Proof.
  intros. unfold renderBrowserPage. destruct (executes page); auto with live.
Qed.
Lemma live_redirect_error redirect state code reason : live (redirectAuthorizationError redirect state code reason).
Proof. unfold redirectAuthorizationError. destruct (parse_url redirect); auto with live. Qed.
Lemma live_form r fields refused : parseBrowserForm r fields = inr refused -> live refused.
Proof. unfold parseBrowserForm. repeat case_match; intros [= <-]; auto with live. Qed.
#[local] Hint Resolve live_page live_redirect_error live_form : live.

Lemma browser_error_lives {A} (Q : A -> Prop) status reason :
  status ∈ http_statuses -> lives Q (browser_error (P := P) status reason).
Proof. intros. apply yields_return. auto with live. Qed.
Lemma error_page_lives {A} (Q : A -> Prop) status reason title message :
  status ∈ http_statuses -> lives Q (error_page (P := P) status reason title message).
Proof. intros. apply yields_return. auto with live. Qed.
Lemma page_lives {A} (Q : A -> Prop) status p reason : status ∈ http_statuses -> lives Q (page (P := P) status p reason).
Proof. intros. apply yields_return. auto with live. Qed.
Lemma flow_error_lives {A} (Q : A -> Prop) state code reason : lives Q (flow_error (P := P) state code reason).
Proof. apply yields_return. auto with live. Qed.
#[local] Hint Resolve browser_error_lives error_page_lives page_lives flow_error_lives : yields.
#[local] Hint Extern 1 (_ ∈ http_statuses) => (unfold http_statuses; set_solver) : yields.

Lemma grant_actions_lives grants : lives (fun _ => True) (grant_actions (P := P) grants).
Proof. induction grants; cbn [grant_actions]; by_answers. Qed.
#[local] Hint Resolve grant_actions_lives : yields.
Lemma renderGrants_answers email : answers (renderGrants email).
Proof. unfold renderGrants. by_answers. Qed.
Lemma HandleGrantRevoke_answers r : answers (HandleGrantRevoke r).
Proof. unfold HandleGrantRevoke. by_answers. Qed.
#[local] Hint Resolve renderGrants_answers : yields.

Lemma resolve_lives clientID fresh : lives redirects_parse (call (on_peers (ResolveClient clientID fresh))).
Proof.
  apply yields_call, produces_on_peers. intros p. cbn [ResolveClient peers_policy]. unfold on_outside.
  pose proof (ResolveClient_redirects P clientID fresh (outside p)) as Hr. by destruct (ResolveClient clientID fresh (outside p)).
Qed.

(** The client of a flow redirects to where the answer can be sent. *)
Lemma flow_client_lives state : lives (fun _ => is_Some (parse_url (Auth.RedirectURI state))) (flow_client state).
Proof.
  unfold flow_client. eapply yields_bind; [apply resolve_lives|]. intros [resolved err] Hr. by_answers.
  match goal with V : negb (isValidRedirectURI _ _) = false |- _ => apply negb_false_iff, mem_true in V; rename V into Hin end.
  destruct err; [done|]. specialize (Hr eq_refl). rewrite Forall_forall in Hr. auto.
Qed.
Lemma flow_user_lives resolved email : lives (fun _ => True) (flow_user resolved email).
Proof. unfold flow_user. by_answers. Qed.
Lemma completed_credential_lives state : lives (fun _ => True) (completed_credential encryptionKey state).
Proof. unfold completed_credential. by_answers. Qed.
Lemma move_credential_lives state code credential : lives (fun _ => True) (move_credential encryptionKey state code credential).
Proof. unfold move_credential. by_answers. Qed.
#[local] Hint Resolve flow_client_lives flow_user_lives completed_credential_lives move_credential_lives : yields.

Lemma complete_answers state subject email verified : answers (complete cfg encryptionKey state subject email verified).
Proof.
  unfold complete. by_answers.
Qed.
#[local] Hint Resolve complete_answers : yields.

(** A code is begun only where a mail can be sent. *)
Definition mail_possible : Prop := is_Some (Config.Email_ cfg) /\ has_mailer = true.

Lemma no_return_lives r : lives (fun _ => True) (return_if false r).
Proof. by apply yields_ret. Qed.
#[local] Hint Resolve no_return_lives : yields.
Lemma beginOTP_answers state id subject email : mail_possible -> answers (beginOTP cfg otpSecret has_mailer state id subject email).
Proof. intros [[settings Hs] Hm]. unfold beginOTP. rewrite Hs, Hm. cbn [is_nil negb]. by_answers. Qed.

Lemma HandleEmailStart_answers r : mail_served cfg has_mailer -> answers (HandleEmailStart cfg otpSecret has_mailer r).
Proof.
  intros Hm. unfold HandleEmailStart. by_answers.
  match goal with V : negb (email_connector_of _ _) = false |- _ => apply negb_false_iff in V; exact (beginOTP_answers _ _ _ _ (Hm _ V)) end.
Qed.

Lemma otp_failure_lives {A} (Q : A -> Prop) e reason : lives Q (otp_failure (P := P) e reason).
Proof. unfold otp_failure. by_answers. Qed.
Lemma email_unavailable_lives {A} (Q : A -> Prop) : lives Q (email_unavailable (P := P)).
Proof. unfold email_unavailable. by_answers. Qed.
#[local] Hint Resolve otp_failure_lives email_unavailable_lives : yields.

Lemma HandleEmailVerify_answers r : answers (HandleEmailVerify cfg otpSecret encryptionKey has_mailer r).
Proof. unfold HandleEmailVerify. by_answers. Qed.

Lemma live_resend id email e : live (resend_failed cfg id email e).
Proof. unfold resend_failed. repeat case_match; auto with live. Qed.
#[local] Hint Resolve live_resend : live.

Lemma HandleEmailResend_answers r : answers (HandleEmailResend cfg otpSecret has_mailer r).
Proof. unfold HandleEmailResend. by_answers. Qed.

Lemma acceptOrChallenge_answers state id subject assertion :
  answers (acceptOrChallenge cfg otpSecret encryptionKey has_mailer state id subject assertion).
Proof.
  unfold acceptOrChallenge. by_answers. apply beginOTP_answers. unfold mail_possible.
  destruct (Config.Email_ cfg), has_mailer; try discriminate. by split.
Qed.
#[local] Hint Resolve acceptOrChallenge_answers : yields.

Lemma renderIdentitySelection_answers token id identity : answers (renderIdentitySelection token id identity).
Proof. unfold renderIdentitySelection. by_answers. Qed.
#[local] Hint Resolve renderIdentitySelection_answers : yields.
Lemma HandleIdentitySelect_answers r : answers (HandleIdentitySelect cfg otpSecret encryptionKey has_mailer r).
Proof. unfold HandleIdentitySelect. by_answers. Qed.

Lemma keep_credential_lives state token id credential :
  lives (fun _ => True) (keep_credential encryptionKey state token id credential).
Proof. unfold keep_credential. by_answers. Qed.
#[local] Hint Resolve keep_credential_lives : yields.

Lemma exchange_lives id code : lives either_or (call (on_peers (Exchange id code))).
Proof.
  apply yields_call, produces_on_peers. intros p. cbn [Exchange peers_connectors]. unfold on_outside.
  pose proof (Exchange_either id code (outside p)) as He. by destruct (Exchange id code (outside p)).
Qed.
Lemma login_lives state token id code : lives (fun _ => True) (login encryptionKey state token id code).
Proof.
  unfold login. eapply yields_bind; [apply exchange_lives|]. intros [credential err] He. unfold either_or in He. by_answers; discriminate.
Qed.
#[local] Hint Resolve login_lives : yields.
Lemma HandleCallback_answers r : answers (HandleCallback cfg otpSecret encryptionKey has_mailer r).
Proof. unfold HandleCallback. by_answers. Qed.

Lemma live_selector state ids token : live (renderSelectorWithState cfg state ids token).
Proof. unfold renderSelectorWithState. case_match. auto with live. Qed.
#[local] Hint Resolve live_selector : live.
Lemma renderSelector_answers state ids : answers (renderSelector cfg state ids).
Proof. unfold renderSelector. by_answers. Qed.
Lemma selectConnector_answers id state : answers (selectConnector cfg id state).
Proof. unfold selectConnector. by_answers. Qed.
#[local] Hint Resolve renderSelector_answers selectConnector_answers : yields.
Lemma HandleSelect_answers r : answers (HandleSelect cfg r).
Proof. unfold HandleSelect. by_answers. Qed.
Lemma continueAuthorization_answers state : answers (continueAuthorization cfg state).
Proof. unfold continueAuthorization. by_answers. Qed.
#[local] Hint Resolve continueAuthorization_answers : yields.
Lemma HandleGrants_answers r : answers (HandleGrants cfg r).
Proof. unfold HandleGrants. by_answers. Qed.

(** ** The authorization endpoints *)

Context `{!ProofJSON} `{!JOSE}.

Lemma par_error_lives {A} (Q : A -> Prop) status code : status ∈ http_statuses -> lives Q (par_error (P := P) status code).
Proof. intros. apply yields_return. auto with live. Qed.
Lemma request_error_lives {A} (Q : A -> Prop) redirect state code reason :
  lives Q (request_error (P := P) redirect state code reason).
Proof. apply yields_return. auto with live. Qed.
#[local] Hint Resolve par_error_lives request_error_lives : yields.

Lemma live_par_form r refused : par_form r = inr refused -> live refused.
Proof. unfold par_form. repeat case_match; intros [= <-]; auto with live. Qed.
#[local] Hint Resolve live_par_form : live.
Lemma par_scopes_lives client form : lives (fun _ => True) (par_scopes (P := P) client form).
Proof. unfold par_scopes. by_answers. Qed.
Lemma par_proof_lives client form proofs : lives (fun _ => True) (par_proof (P := P) cfg client form proofs).
Proof. unfold par_proof. by_answers. Qed.
Lemma store_pushed_lives pushed proof now : lives (fun _ => True) (store_pushed (P := P) pushed proof now).
Proof. unfold store_pushed, reserveDPoP. by_answers. Qed.
#[local] Hint Resolve par_scopes_lives par_proof_lives store_pushed_lives : yields.
Lemma push_answers form proofs : answers (push cfg form proofs).
Proof. unfold push. by_answers. Qed.
#[local] Hint Resolve push_answers : yields.
Lemma HandlePAR_answers r : answers (HandlePAR cfg r).
Proof. unfold HandlePAR. by_answers. Qed.

Lemma request_purpose_lives redirect state prompt offline :
  lives (fun _ => True) (request_purpose (P := P) redirect state prompt offline).
Proof. unfold request_purpose. by_answers. Qed.
#[local] Hint Resolve request_purpose_lives : yields.
Lemma authorize_parameters_lives client q proofs : lives (fun _ => True) (authorize_parameters (P := P) client q proofs).
Proof. unfold authorize_parameters. by_answers. Qed.
#[local] Hint Resolve authorize_parameters_lives : yields.
Lemma authorize_answers q proofs : answers (authorize cfg q proofs).
Proof. unfold authorize. by_answers. Qed.
Lemma pushed_parameters_lives client pushed : lives (fun _ => True) (pushed_parameters (P := P) client pushed).
Proof. unfold pushed_parameters. by_answers. Qed.
#[local] Hint Resolve authorize_answers pushed_parameters_lives : yields.

Lemma consume_pushed_lives uri clientID now : lives value_or_error (call (on_store (ConsumePushedRequest uri clientID now))).
Proof.
  apply yields_call, produces_on_store. unfold ConsumePushedRequest. apply produces_run.
  eapply (yields_bind _ (fun _ => True)).
  - intros w. apply wp_sql_db; [|done]. intros. left. by eexists.
  - intros row _. by_answers; unfold value_or_error; cbn; eauto.
Qed.
#[local] Hint Resolve consume_pushed_lives : yields.
Lemma handlePushedAuthorize_answers clientID uri : answers (handlePushedAuthorize clientID uri).
Proof.
  unfold handlePushedAuthorize. by_answers.
  match goal with V : value_or_error _ |- _ => by destruct V as [[? [=]]|[? [=]]] end.
Qed.
#[local] Hint Resolve handlePushedAuthorize_answers : yields.
Lemma HandleAuthorize_answers r : answers (HandleAuthorize cfg r).
Proof. unfold HandleAuthorize. by_answers. Qed.
Lemma HandleAuthorizeContinue_answers r : answers (HandleAuthorizeContinue cfg r).
Proof. unfold HandleAuthorizeContinue. by_answers. Qed.
Lemma HandleConsent_answers r : answers (HandleConsent cfg r).
Proof. unfold HandleConsent. by_answers. Qed.
End Flow.

(** ** Revocation and the protected resources *)

Section Resource.
Context `{Env} {P : Type} `{!PolicyResolver P} `{!JWT} `{!URLs} `{!ProofJSON} `{!JOSE} `{!NetText} `{!Sprint}.
Context (cfg : Config.Config) (signer : Signer).

Abbreviation proc := (Process (Peers P)).
Abbreviation lives := (yields (W := proc) live).
Abbreviation answers f := (produces (W := proc) live f).

Lemma refused_live headers status code description :
  status ∈ refusal_statuses -> live (with_headers headers (oauthError status code description)).
Proof. intros. by apply live_token_answer, answer_refused. Qed.
Lemma refuse_lives {A} (Q : A -> Prop) status code description :
  status ∈ refusal_statuses -> lives Q (refuse_with (P := P) status code description).
Proof. apply (refuse_with_passes live refused_live). Qed.
#[local] Hint Extern 1 (_ ∈ refusal_statuses) => (unfold refusal_statuses; set_solver) : yields.
Lemma proof_refused_lives {A} (Q : A -> Prop) : lives Q (invalid_proof (P := P)).
Proof. apply (invalid_proof_passes live refused_live). Qed.
#[local] Hint Resolve refuse_lives proof_refused_lives : yields.

Lemma live_revoke_form r refused : revoke_form r = inr refused -> live refused.
Proof. unfold revoke_form. repeat case_match; intros [= <-]; auto with live. Qed.
#[local] Hint Resolve live_revoke_form : live.
Lemma revoke_proof_lives client proofs now : lives (fun _ => True) (revoke_proof (P := P) cfg client proofs now).
Proof. unfold revoke_proof, reserveDPoP. by_answers. Qed.
#[local] Hint Resolve revoke_proof_lives : yields.
Lemma revoke_token_answers form proofs : answers (revoke_token cfg signer form proofs).
Proof. unfold revoke_token, storage_down. by_answers. Qed.
#[local] Hint Resolve revoke_token_answers : yields.
Lemma HandleRevoke_answers r : answers (HandleRevoke cfg signer r).
Proof. unfold HandleRevoke. by_answers. Qed.

(** A refusal of an access token has a status. *)
Definition live_refusal (answer : Token + Access.accessAuthError) : Prop :=
  match answer with inl _ => True | inr failure => Access.status failure ∈ http_statuses end.
Lemma live_refused status scheme code alg : status ∈ http_statuses -> live_refusal (refused status scheme code alg).
Proof. done. Qed.
Lemma live_accepted token : live_refusal (inl token).
Proof. done. Qed.
#[local] Hint Resolve live_refused live_accepted : yields.
#[local] Hint Extern 1 (_ ∈ http_statuses) => (unfold http_statuses; set_solver) : yields.
Lemma authenticateAccessToken_refusal r endpoint : produces (W := proc) live_refusal (authenticateAccessToken cfg signer r endpoint).
Proof. unfold authenticateAccessToken, resource_proof, reserveDPoP. by_answers. Qed.
Lemma HandleUserInfo_answers r : answers (HandleUserInfo cfg signer r).
Proof.
  unfold HandleUserInfo. apply produces_run.
  eapply yields_bind; [apply yields_call, authenticateAccessToken_refusal|]. intros [token|failure] Hl; cbn in Hl.
  - by_answers.
  - apply yields_ret. by apply live_reply.
Qed.
End Resource.

(** ** The server *)

Section Server.
Context `{Env} {P : Type} `{!PolicyResolver P} `{!TrustResolver P} `{!Connectors P} `{!Contexts P} `{!HTTPClient P}.
Context `{!Mailer P} `{!Challenge P} `{!Limiter P} `{!Readiness P} `{!PublicPages}.
Context `{!AEAD} `{!JWT} `{!CredentialJSON} `{!ExternalJWT} `{!FlowJSON} `{!EmailsJSON} `{!URLs} `{!ProofJSON} `{!JOSE}.
Context `{!MetadataJSON} `{!JSONLib} `{!NetText} `{!MailText} `{!PageTemplates} `{!Sprint}.
Context `{!SoundResolver P} `{!LawfulConnectors P} `{!LivePages}.
Context (s : Server) (mail_ok : mail_served (config s) (has_mailer s)).

Abbreviation proc := (Process (Peers P)).
Abbreviation answers f := (produces (W := proc) live f).

Lemma HandleToken_answers signer key r : answers (HandleToken (config s) signer key r).
Proof.
  intros w. destruct (token_endpoint_answers (config s) signer key r w) as (a & -> & Ha). by apply live_headers, live_token_answer.
Qed.
Lemma HandleHealth_answers : answers HandleHealth.
Proof. unfold HandleHealth. by_answers. apply live_reply; [|done]. destruct a; auto with live. Qed.
Lemma HandleFallback_live r : live (HandleFallback s r).
Proof. unfold HandleFallback. case_match; [apply live_redirect; auto with live|apply HandlePublic_live]. Qed.
Lemma pure_answers a : live a -> answers (pure a).
Proof. by intros Ha w. Qed.
Lemma discovery_live : live (HandleDiscovery s).
Proof. apply live_oauth_json. auto with live. Qed.
Lemma jwks_live : live (HandleJWKS s).
Proof. split; [unfold http_statuses; set_solver|]. exists "application/json". split; cbn; set_solver. Qed.

#[local] Hint Resolve pure_answers discovery_live jwks_live HandleFallback_live HandleToken_answers HandleHealth_answers : yields.
(** The handlers whose lemmas have promises that their statements do not mention. *)
#[local] Hint Extern 1 (produces live _) => first
  [ apply HandleAuthorize_answers | apply HandleAuthorizeContinue_answers | apply HandlePAR_answers | apply HandleRevoke_answers
  | apply HandleGrants_answers | apply HandleGrantRevoke_answers | apply HandleConsent_answers | apply HandleUserInfo_answers
  | apply HandleCallback_answers | apply HandleIdentitySelect_answers | apply HandleEmailStart_answers, mail_ok
  | apply HandleEmailVerify_answers | apply HandleEmailResend_answers | apply HandleSelect_answers ] : yields.

Lemma route_answers r : answers (route s r).
Proof. unfold route. repeat case_match; auto with yields. Qed.
#[local] Hint Resolve route_answers : yields.
Lemma LimitPublicEndpoints_answers r : answers (LimitPublicEndpoints s r).
Proof. unfold LimitPublicEndpoints. by_answers. Qed.
#[local] Hint Resolve LimitPublicEndpoints_answers : yields.

(** Every request is answered. *)
Lemma serve_answers r : answers (serve s r).
Proof. unfold serve. by_answers. Qed.
End Server.
