(* ===== verification/Secrets.v ===== *)
(** * internal/secrets and the signing key

    provider.go, env.go, file.go and the cloud providers; keys.go and jwks.go of
    internal/tokens.  The environment, the files and the clients of the clouds are a
    class, PEM, PKCS8 and the JWK library another; a key of the process is the text its
    library knows it by. *)

From S2P Require Import Prelude Runtime Json Config Services ConfigDecode Tokens.

(** encoding/json's syntax of a whole text. *)
Class DocumentJSON := parse_document : string -> option json.

(** ** The stores *)

(** [secrets.Provider]: the four clouds, the environment, the files of a directory. *)
Inductive provider :=
  | AWSSecretsManagerProvider
  | AWSParameterStoreProvider
  | GoogleSecretManagerProvider
  | AzureProvider
  | EnvProvider
  | FileProvider.
#[export] Instance provider_eq_dec : EqDecision provider.
Proof. solve_decision. Defined.

(** An open file: whether it is regular, when that is known, and its contents, when they
    are readable. *)
Record OpenFile := { file_regular : option bool; file_contents : option string }.

(** The client of a provider is made from the region or URL of the vault; a secret of AWS
    and Azure may have no value, one of Google has a payload. *)
Class SecretStores (P : Type) := {
  open_client : provider -> string -> P -> option error * P;
  client_secret : provider -> string -> P -> (option string + error) * P;
  google_payload : string -> P -> (string + error) * P;
  getenv : string -> P -> string * P;
  open_file : string -> P -> (OpenFile + error) * P
}.

Definition maxFileSecretBytes : Z := Z.shiftl 1 20.

(** [filepath.IsLocal]: a relative path that stays inside. *)
Fixpoint stays_inside (depth : nat) (parts : list string) : bool :=
  match parts with
  | [] => true
  | part :: parts =>
      if (part =? "")%string || (part =? ".")%string then stays_inside depth parts
      else if (part =? "..")%string
           then match depth with O => false | S depth => stays_inside depth parts end
           else stays_inside (S depth) parts
  end.
Definition is_local (path : string) : bool :=
  negb (is_empty path) && negb (has_prefix path "/") && stays_inside 0 (split_on "/" path).

Section Secrets.
Context {P : Type} `{!SecretStores P} `{!Contexts P}.

(** A provider whose client needs no more than a region. *)
Definition new_client (p : provider) (argument msg : string) : P -> (provider + error) * P := run (
  err ← call (open_client p argument);
  mret (match err with Some err => inr (Wrapped msg err) | None => inl p end)).

Definition NewAzureProvider (vaultURL : string) : P -> (provider + error) * P := run (
  return_if (is_empty vaultURL) (inr (Errorf "vault URL is required for Azure Key Vault")) ;;
  call (new_client AzureProvider vaultURL "failed to create Azure client")).

Definition NewProvider (cfg : Secretsc.SecretsConfig) : P -> (provider + error) * P := run (
  let kind name := (Secretsc.Provider cfg =? name)%string in
  if kind "aws-secrets-manager"
  then call (new_client AWSSecretsManagerProvider (Secretsc.AWSRegion cfg) "failed to load AWS config")
  else if kind "aws-parameter-store"
  then call (new_client AWSParameterStoreProvider (Secretsc.AWSRegion cfg) "failed to load AWS config")
  else if kind "google-secret-manager"
  then call (new_client GoogleSecretManagerProvider "" "failed to create Google Secret Manager client")
  else if kind "azure" then call (NewAzureProvider (Secretsc.AzureKeyVaultURL cfg))
  else if kind "env" then mret (inl EnvProvider)
  else if kind "file"
  then call (new_client FileProvider (Secretsc.FileDirectory cfg) "open file secrets directory")
  else mret (inr (Errorf "unsupported secrets provider"))).

(** A secret of a cloud: the value must be there. *)
Definition cloud_secret (p : provider) (name : string) : P -> (string + error) * P := run (
  answer ← call (client_secret p name);
  mret (match answer with
        | inr err => inr (Wrapped "failed to get secret" err)
        | inl None => inr (Errorf "secret has no value")
        | inl (Some value) => inl value
        end)).

Definition google_secret (name : string) : P -> (string + error) * P := run (
  answer ← call (google_payload name);
  mret (match answer with inr err => inr (Wrapped "failed to access secret" err) | inl data => inl data end)).

Definition env_secret (name : string) : P -> (string + error) * P := run (
  value ← call (getenv name);
  mret (if is_empty value then inr (Errorf "environment variable is not set or empty") else inl value)).

Definition file_secret (name : string) : P -> (string + error) * P := run (
  done ← call ctx_done;
  return_if (done : bool) (inr (Wrapped "read file secret" (Errorf "context"))) ;;
  return_if (negb (is_local name)) (inr (Errorf "file secret name must be a local relative path")) ;;
  opened ← call (open_file name);
  match opened with
  | inr err => mret (inr (Wrapped "open file secret" err))
  | inl file =>
      mret (match file_regular file, file_contents file with
            | None, _ => inr (Wrapped "stat file secret" (Errorf "stat"))
            | Some false, _ => inr (Errorf "file secret is not a regular file")
            | Some true, None => inr (Wrapped "read file secret" (Errorf "read"))
            | Some true, Some contents =>
                let value := take_bytes (Z.to_nat (maxFileSecretBytes + 1)) contents in
                if maxFileSecretBytes <? len value then inr (Errorf "file secret exceeds the limit")
                else if len value =? 0 then inr (Errorf "file secret is empty")
                else inl value
            end)
  end).

Definition GetSecret (p : provider) (name : string) : P -> (string + error) * P :=
  match p with
  | EnvProvider => env_secret name
  | FileProvider => file_secret name
  | GoogleSecretManagerProvider => google_secret name
  | _ => cloud_secret p name
  end.
End Secrets.

(** ** OAuth credentials *)

Module OAuthCredentials.

(** [secrets.OAuthCredentials] *)
Record OAuthCredentials := { ClientID : string; ClientSecret : string }.
#[global] Instance eta_OAuthCredentials : Eta OAuthCredentials := fun x =>
  {| ClientID := ClientID x; ClientSecret := ClientSecret x |}.

End OAuthCredentials.

Definition dec_oauth_credentials `{Env} : decoder OAuthCredentials.OAuthCredentials := dec_lenient [
  field OAuthCredentials.ClientID "client_id" dec_string; field OAuthCredentials.ClientSecret "client_secret" dec_string].

Definition ParseOAuthCredentials `{Env} `{DocumentJSON} (secretValue : string) : OAuthCredentials.OAuthCredentials + error :=
  match document ← parse_document secretValue;
        dec_oauth_credentials document {| OAuthCredentials.ClientID := ""; OAuthCredentials.ClientSecret := "" |} with
  | None => inr (Wrapped "failed to parse OAuth credentials JSON" (Errorf "json"))
  | Some creds =>
      if is_empty (OAuthCredentials.ClientID creds) then inr (Errorf "client_id is required in OAuth credentials")
      else if is_empty (OAuthCredentials.ClientSecret creds) then inr (Errorf "client_secret is required in OAuth credentials")
      else inl creds
  end.

(** ** The signing key *)

(** [pem.Block] *)
Record PEMBlock := { block_type : string; block_headers : Z; block_bytes : string }.

(** What [x509.ParsePKCS8PrivateKey] answers: an RSA key with its bits and whether it is
    consistent, an ECDSA key with its curve, an Ed25519 key, another. *)
Inductive private_key :=
  | RSAKey (bits : Z) (valid : bool)
  | ECDSAKey (curve : string)
  | Ed25519Key
  | OtherKey.

Class KeyLib := {
  pem_decode : string -> option PEMBlock * string;
  parse_pkcs8 : string -> option private_key;
  public_of : string -> string
}.

Definition signingAlgorithms : list string :=
  ["RS256"; "RS384"; "RS512"; "ES256"; "ES384"; "ES512"; "PS256"; "PS384"; "PS512"; "EdDSA"].
Definition expectedCurve (algorithm : string) : string :=
  if (algorithm =? "ES256")%string then "P-256" else if (algorithm =? "ES384")%string then "P-384" else "P-521".

Section Keys.
Context `{Env} `{KeyLib}.

(** Whether a private key serves the algorithm. *)
Definition check_key (algorithm : string) (key : private_key) : option error :=
  if has_prefix algorithm "RS" || has_prefix algorithm "PS" then
    match key with
    | RSAKey bits valid =>
        if bits <? 2048 then Some (Errorf "RSA signing key must be at least 2048 bits")
        else guard_err (negb valid) "invalid RSA private key"
    | _ => Some (Errorf "signing algorithm requires an RSA private key")
    end
  else if has_prefix algorithm "ES" then
    match key with
    | ECDSAKey curve => guard_err (negb (curve =? expectedCurve algorithm)%string) "signing algorithm requires another curve"
    | _ => Some (Errorf "signing algorithm requires an ECDSA private key")
    end
  else if (algorithm =? "EdDSA")%string then
    match key with
    | Ed25519Key => None
    | _ => Some (Errorf "signing algorithm EdDSA requires an Ed25519 private key")
    end
  else Some (Errorf "unsupported signing algorithm").

Definition ParsePrivateKey (pemData algorithm : string) : SigningKey + error :=
  match pem_decode pemData with
  | (None, _) => inr (Errorf "failed to decode PEM block")
  | (Some block, rest) =>
      if negb (block_type block =? "PRIVATE KEY")%string
      then inr (Errorf "signing key must be a PKCS8 PRIVATE KEY PEM block")
      else if negb (block_headers block =? 0) || negb (is_empty (trim_space rest))
      then inr (Errorf "signing key PEM must contain exactly one unencrypted private key")
      else match parse_pkcs8 (block_bytes block) with
      | None => inr (Wrapped "failed to parse PKCS8 private key" (Errorf "x509"))
      | Some key =>
          if negb (mem algorithm signingAlgorithms) then inr (Errorf "unsupported signing algorithm")
          else match check_key algorithm key with
          | Some err => inr err
          | None => inl {| Algorithm := algorithm; PrivateKey := block_bytes block; PublicKey := public_of (block_bytes block) |}
          end
      end
  end.
End Keys.

(** ** The key set *)

(** The JWK library: the members of a public key, a member set on it, and the text of a
    set of keys. *)
Class KeySets := {
  jwk_from_raw : string -> option (gmap string json);
  jwk_set : string -> json -> gmap string json -> option (gmap string json);
  jwks_marshal : list (gmap string json) -> option string
}.

Definition GenerateJWKS `{KeySets} (signingKey : SigningKey) (kid : string) : string + error :=
  let failed := Errorf "jwk" in
  match key ← jwk_from_raw (PublicKey signingKey);
        key ← jwk_set "kid" (JString kid) key;
        key ← jwk_set "alg" (JString (Algorithm signingKey)) key;
        key ← jwk_set "use" (JString "sig") key;
        jwks_marshal [key] with
  | Some data => inl data
  | None => inr failed
  end.
