(* ===== verification/Mail.v ===== *)
(** * internal/email and internal/challenge

    mailer.go and otp.go: the message of a one-time code and the SMTP session that
    delivers it; RenderEmailSubject and RenderEmail of internal/templates; turnstile.go:
    the bot challenge.  Executing a template, net/mail and mime are a class; so is the
    server at the other end of the connection: a command of a session is answered by an
    error or not, and what was sent and answered is recorded. *)

From stdpp Require Import pretty.
From S2P Require Import Prelude Runtime Services Base64 Json Config ConfigDecode OidcFlow Secrets.

Definition crlf : string := String "013" (String "010" "").
Definition quote_char : string := String "034" "".

(** ** Credentials *)

Module SMTPCredentials.

(** [email.Credentials] *)
Record Credentials := { Username : string; Password : string }.
#[global] Instance eta_Credentials : Eta Credentials := fun x => {| Username := Username x; Password := Password x |}.

End SMTPCredentials.

Definition no_smtp_credentials : SMTPCredentials.Credentials :=
  {| SMTPCredentials.Username := ""; SMTPCredentials.Password := "" |}.

Definition dec_smtp_credentials `{Env} : decoder SMTPCredentials.Credentials := dec_lenient [
  field SMTPCredentials.Username "username" dec_string; field SMTPCredentials.Password "password" dec_string].

Definition ParseCredentials `{Env} `{DocumentJSON} (raw : string) : SMTPCredentials.Credentials + error :=
  let failed := inr (Errorf "invalid SMTP credentials") in
  match document ← parse_document raw; dec_smtp_credentials document no_smtp_credentials with
  | None => failed
  | Some credentials =>
      if is_empty (SMTPCredentials.Username credentials) || is_empty (SMTPCredentials.Password credentials) then failed
      else inl credentials
  end.

(** ** The session *)

(** What a session does, over TLS from the start or not. *)
Inductive command :=
  | Dial (implicit : bool) (address : string)
  | Greeting
  | Extension (name : string)
  | StartTLS
  | Auth (username password : string)
  | MailFrom (address : string)
  | Rcpt (address : string)
  | Data
  | Write (message : string)
  | CloseData
  | Quit.

Class SMTPServer (P : Type) := smtp : command -> P -> option error * P.

(** mail.Address.String and mime.QEncoding.Encode, and the random bytes of a boundary. *)
Class MailFormat := { address_string : string -> string -> string; q_encode : string -> string }.
Class Boundaries (P : Type) := boundary_bytes : P -> option string * P.

(** The other end, and what was sent to it with its answers. *)
Record Session (P : Type) := { sent : list (command * option error); far : P }.
#[global] Arguments sent {P} _.
#[global] Arguments far {P} _.
#[global] Arguments Build_Session {P} _ _.

Section Mail.
Context `{Env} {P : Type} `{!SMTPServer P} `{!Boundaries P} `{!MailFormat} `{!MailText}.

Definition issue {R} (c : command) : go (Session P) R (option error) := fun w =>
  let (err, p) := smtp c (far w) in (inr err, {| sent := sent w ++ [(c, err)]; far := p |}).

(** A command whose failure ends the session. *)
Definition must (c : command) (fail : error -> error) : go (Session P) (option error) unit :=
  err ← issue c;
  match err with Some err => return_ (Some (fail err)) | None => mret tt end.

Definition has_break (s : string) : bool := contains_byte s "013" || contains_byte s "010".

(** The message: its headers and the two forms of its text. *)
Definition message_text (from to subject boundary textBody htmlBody : string) : string :=
  "From: " +:+ from +:+ crlf +:+ "To: " +:+ to +:+ crlf +:+ "Subject: " +:+ q_encode subject +:+ crlf
  +:+ "MIME-Version: 1.0" +:+ crlf +:+ "Content-Type: multipart/alternative; boundary="
  +:+ quote_char +:+ boundary +:+ quote_char +:+ crlf +:+ crlf
  +:+ "--" +:+ boundary +:+ crlf +:+ "Content-Type: text/plain; charset=utf-8" +:+ crlf +:+ crlf +:+ textBody +:+ crlf
  +:+ "--" +:+ boundary +:+ crlf +:+ "Content-Type: text/html; charset=utf-8" +:+ crlf +:+ crlf +:+ htmlBody +:+ crlf
  +:+ "--" +:+ boundary +:+ "--" +:+ crlf.

(** [net.JoinHostPort] *)
Definition join_host_port (host : string) (port : Z) : string :=
  (if contains host ":" then "[" +:+ host +:+ "]" else host) +:+ ":" +:+ pretty port.

(** The dial and the start of TLS. *)
Definition connect (config : SMTPc.SMTPConfig) : go (Session P) (option error) unit :=
  must (Dial (SMTPc.TLSMode config =? "implicit")%string (join_host_port (SMTPc.Host config) (SMTPc.Port config)))
    (Wrapped "connect SMTP") ;;
  must Greeting (Wrapped "SMTP greeting") ;;
  if (SMTPc.TLSMode config =? "starttls")%string
  then must (Extension "STARTTLS") (fun _ => Errorf "SMTP server does not advertise STARTTLS") ;;
       must StartTLS (Wrapped "STARTTLS")
  else mret tt.

(** The message over a connection. *)
Definition deliver (config : SMTPc.SMTPConfig) (credentials : SMTPCredentials.Credentials) (to message : string)
  : go (Session P) (option error) (option error) :=
  (if is_empty (SMTPCredentials.Username credentials) then mret tt
   else must (Auth (SMTPCredentials.Username credentials) (SMTPCredentials.Password credentials)) (Wrapped "SMTP auth")) ;;
  must (MailFrom (SMTPc.FromAddress config)) id ;;
  must (Rcpt to) id ;;
  must Data id ;;
  must (Write message) id ;;
  must CloseData id ;;
  issue Quit.

Definition send (config : SMTPc.SMTPConfig) (credentials : SMTPCredentials.Credentials)
    (to subject textBody htmlBody : string) : Session P -> option error * Session P := run (
  return_if (has_break (to +:+ SMTPc.FromAddress config +:+ SMTPc.FromName config +:+ subject))
    (Some (Errorf "invalid mail header")) ;;
  return_if (is_nil (parse_address to)) (Some (Wrapped "invalid recipient" (Errorf "mail"))) ;;
  bytes ← call (fun w => let (b, p) := boundary_bytes (far w) in (b, {| sent := sent w; far := p |}));
  match bytes with
  | None => mret (Some (Wrapped "generate MIME boundary" (Errorf "rand")))
  | Some bytes =>
      let from := address_string (SMTPc.FromName config) (SMTPc.FromAddress config) in
      let message := message_text from to subject ("truster-" +:+ Base64.encode bytes) textBody htmlBody in
      connect config ;;
      deliver config credentials to message
  end).
End Mail.

(** ** The mail of a one-time code *)

(** Executing the templates of the mail: subject, text and HTML of a code, the instant it
    expires and how long it lives; what a failure leaves is not sent. *)
Class MailTemplates := execute_mail : string -> string -> time -> duration -> option string.

(** The check of a rendered subject. *)
Definition checked_subject (rendered : option string) : string + error :=
  match rendered with
  | None => inr (Errorf "template")
  | Some subject =>
      if is_empty subject || has_break subject then inr (Errorf "email subject must be non-empty and single-line")
      else inl subject
  end.

Section OTP.
Context `{Env} {P : Type} `{!SMTPServer P} `{!Boundaries P} `{!MailFormat} `{!MailText} `{!MailTemplates}.

Definition RenderEmailSubject (code : string) (expiresAt : time) (ttl : duration) : string + error :=
  checked_subject (execute_mail "subject" code expiresAt ttl).

Definition RenderEmail (format code : string) (expiresAt : time) (ttl : duration) : string + error :=
  if (format =? "html")%string || (format =? "text")%string
  then match execute_mail format code expiresAt ttl with Some body => inl body | None => inr (Errorf "template") end
  else inr (Errorf "unknown email format").

(** [OTPMailer.SendOTP] *)
Definition send_otp (config : SMTPc.SMTPConfig) (credentials : SMTPCredentials.Credentials) (ttl : duration)
    (to code : string) (expiresAt : time) : Session P -> option error * Session P := run (
  match RenderEmailSubject code expiresAt ttl with
  | inr err => mret (Some err)
  | inl subject =>
      match RenderEmail "text" code expiresAt ttl with
      | inr err => mret (Some err)
      | inl textBody =>
          match RenderEmail "html" code expiresAt ttl with
          | inr err => mret (Some err)
          | inl htmlBody => call (send config credentials to subject textBody htmlBody)
          end
      end
  end).

(** The mailer of the server: each mail is a session of its own. *)
Definition otp_mailer (config : SMTPc.SMTPConfig) (credentials : SMTPCredentials.Credentials) (ttl : duration) : Mailer P :=
  fun to code expiresAt p =>
    let (err, w) := send_otp config credentials ttl to code expiresAt {| sent := []; far := p |} in (err, far w).
End OTP.

(** ** The bot challenge *)

(** The answer of Cloudflare to the fields of a verification: the first JSON value of the
    body, absent when there is none. *)
Class SiteVerify (P : Type) := siteverify : list (string * string) -> P -> (option json + error) * P.

Module Verdict.

Record Verdict := { Success : bool; ErrorCodes : list string }.
#[global] Instance eta_Verdict : Eta Verdict := fun x => {| Success := Success x; ErrorCodes := ErrorCodes x |}.

End Verdict.

Definition dec_verdict `{Env} : decoder Verdict.Verdict := dec_lenient [
  field Verdict.Success "success" dec_bool; field Verdict.ErrorCodes "error-codes" dec_strings].

Section Challenge.
Context `{Env} {P : Type} `{!SiteVerify P}.

Definition turnstile_verify (Secret response remoteIP : string) : P -> option error * P := run (
  return_if (is_empty response) (Some (Errorf "challenge required")) ;;
  answer ← call (siteverify ([("secret", Secret); ("response", response)]
                             ++ if is_empty remoteIP then [] else [("remoteip", remoteIP)]));
  match answer with
  | inr err => mret (Some (Wrapped "verify challenge" err))
  | inl body =>
      mret (match document ← body; dec_verdict document {| Verdict.Success := false; Verdict.ErrorCodes := [] |} with
            | None => Some (Wrapped "decode challenge response" (Errorf "json"))
            | Some out =>
                if Verdict.Success out then None
                else Some (Errorf (if (length (Verdict.ErrorCodes out) =? 0)%nat then "challenge rejected"
                                   else "challenge rejected: " +:+ join "," (Verdict.ErrorCodes out)))
            end)
  end).

(** [challenge.Verifier]: none, or Turnstile with its secret. *)
Inductive verifier := Noop | Turnstile (Secret : string).
Definition challenge_of (v : verifier) : Challenge P :=
  match v with
  | Noop => fun _ _ p => (None, p)
  | Turnstile secret => turnstile_verify secret
  end.
End Challenge.
