(* ===== verification/MailProperties.v ===== *)
(** * Mail: what a session does

    A session follows a script of commands until the first that fails; with TLS
    configured nothing but the dial and the start of TLS comes before it. *)

From S2P Require Import Prelude Runtime Services Schema Base64 Json Config ConfigDecode Loader LoaderSafety OidcFlow Secrets Mail.

(** ** Scripts *)

Section Scripts.
Context `{Env} {P : Type} `{!SMTPServer P} `{!Boundaries P} `{!MailFormat} `{!MailText}.

Definition answered (cs : list command) : list (command * option error) := map (fun c => (c, None)) cs.

(** The log of a script that stopped: every command but the last succeeded. *)
Definition stopped (cs : list command) (log : list (command * option error)) : Prop :=
  exists done c rest e, cs = done ++ c :: rest /\ log = answered done ++ [(c, Some e)].

(** A statement plays a script, or returns with an error where it stopped. *)
Definition plays (cs : list command) (m : go (Session P) (option error) unit) : Prop := forall w,
  wp m w (fun x w' => match x with
  | inr _ => sent w' = sent w ++ answered cs
  | inl err => err <> None /\ exists log, stopped cs log /\ sent w' = sent w ++ log
  end).

Lemma stopped_app_l cs ds log : stopped cs log -> stopped (cs ++ ds) log.
Proof.
  intros (done & c & rest & e & -> & ->). exists done, c, (rest ++ ds), e. split; [|done].
  by rewrite <- app_assoc.
Qed.
Lemma stopped_app_r cs ds log : stopped ds log -> stopped (cs ++ ds) (answered cs ++ log).
Proof.
  intros (done & c & rest & e & -> & ->). exists (cs ++ done), c, rest, e. unfold answered.
  by rewrite map_app, <- !app_assoc.
Qed.

Lemma plays_nil : plays [] (mret tt).
Proof. intros w. apply wp_ret. by rewrite app_nil_r. Qed.

Lemma plays_must c fail : plays [c] (must c fail).
Proof.
  intros w. unfold must. apply wp_bind. unfold issue, wp. destruct (smtp c (far w)) as [[e|] p]; cbn.
  - split; [done|]. exists [(c, Some e)]. split; [|done]. by exists [], c, [], e.
  - done.
Qed.

Lemma plays_bind cs ds (m n : go (Session P) (option error) unit) :
  plays cs m -> plays ds n -> plays (cs ++ ds) (m ;; n).
Proof.
  intros Hm Hn w. apply wp_bind. specialize (Hm w). unfold wp in *. destruct (m w) as [[err|u] w1]; cbn in *.
  - destruct Hm as (He & log & Hl & Hs). split; [done|]. exists log. split; [by apply stopped_app_l|done].
  - specialize (Hn w1). unfold wp in Hn. destruct (n w1) as [[err|u2] w2]; cbn in *.
    + destruct Hn as (He & log & Hl & Hs). split; [done|]. exists (answered cs ++ log).
      split; [by apply stopped_app_r|]. by rewrite Hs, Hm, <- app_assoc.
    + unfold answered in *. by rewrite Hn, Hm, map_app, <- app_assoc.
Qed.

(** How a script ended: all of it was answered, or an error was reported where it stopped. *)
Definition session_ended (cs : list command) (log : list (command * option error)) (err : option error) : Prop :=
  (err = None /\ log = answered cs) \/ (err <> None /\ stopped cs log).

Definition closes (cs : list command) (m : go (Session P) (option error) (option error)) : Prop := forall w,
  wp m w (fun x w' => exists log, sent w' = sent w ++ log /\ session_ended cs log (merge x)).

Lemma closes_bind cs ds (m : go (Session P) (option error) unit) n :
  plays cs m -> closes ds n -> closes (cs ++ ds) (m ;; n).
Proof.
  intros Hm Hn w. apply wp_bind. specialize (Hm w). unfold wp in *. destruct (m w) as [[err|u] w1]; cbn in *.
  - destruct Hm as (He & log & Hl & Hs). exists log. split; [done|]. right. split; [done|by apply stopped_app_l].
  - specialize (Hn w1). unfold wp in Hn. destruct Hn as (log & Hs & Hl). exists (answered cs ++ log).
    split; [by rewrite Hs, Hm, <- app_assoc|]. unfold session_ended, answered in *. rewrite map_app.
    destruct Hl as [[? ->]|[? ?]]; [by left|]. right. split; [done|by apply stopped_app_r].
Qed.

Lemma closes_issue c : closes [c] (issue c).
Proof.
  intros w. unfold issue, wp. destruct (smtp c (far w)) as [err p]; cbn. exists [(c, err)]. split; [done|].
  destruct err as [e|]; [|by left]. right. split; [done|]. by exists [], c, [], e.
Qed.

(** ** The session of a mail *)

Definition connect_script (config : SMTPc.SMTPConfig) : list command :=
  [Dial (SMTPc.TLSMode config =? "implicit")%string (join_host_port (SMTPc.Host config) (SMTPc.Port config)); Greeting]
  ++ if (SMTPc.TLSMode config =? "starttls")%string then [Extension "STARTTLS"; StartTLS] else [].
Definition deliver_script (config : SMTPc.SMTPConfig) (credentials : SMTPCredentials.Credentials) (to message : string)
  : list command :=
  (if is_empty (SMTPCredentials.Username credentials) then []
   else [Auth (SMTPCredentials.Username credentials) (SMTPCredentials.Password credentials)])
  ++ [MailFrom (SMTPc.FromAddress config); Rcpt to; Data; Write message; CloseData; Quit].
Definition script config credentials to message : list command :=
  connect_script config ++ deliver_script config credentials to message.

Lemma connect_plays config : plays (connect_script config) (connect config).
Proof.
  unfold connect, connect_script. apply (plays_bind [_]); [apply plays_must|].
  apply (plays_bind [_]); [apply plays_must|].
  destruct (_ =? _)%string; [|apply plays_nil]. apply (plays_bind [_]); apply plays_must.
Qed.

Lemma deliver_closes config credentials to message :
  closes (deliver_script config credentials to message) (deliver config credentials to message).
Proof.
  unfold deliver, deliver_script. apply closes_bind; [by destruct (is_empty _); [apply plays_nil|apply plays_must]|].
  do 5 (apply (closes_bind [_]); [apply plays_must|]). apply closes_issue.
Qed.

(** What a mail is: single-line headers, an address of its own, and its two texts between
    boundaries. *)
Definition mail_message (config : SMTPc.SMTPConfig) (to subject textBody htmlBody message : string) : Prop :=
  has_break to = false /\ has_break (SMTPc.FromAddress config) = false /\ has_break (SMTPc.FromName config) = false /\
  has_break subject = false /\ is_Some (parse_address to) /\
  exists boundary, message =
    message_text (address_string (SMTPc.FromName config) (SMTPc.FromAddress config)) to subject boundary textBody htmlBody.

Lemma has_break_app s t : has_break (s +:+ t) = has_break s || has_break t.
Proof.
  unfold has_break, contains_byte. rewrite !string_forallb_app, !negb_andb.
  rewrite <- !orb_assoc. f_equal. rewrite !orb_assoc. f_equal. apply orb_comm.
Qed.

Lemma send_ends config credentials to subject textBody htmlBody p err w' :
  send config credentials to subject textBody htmlBody {| sent := []; far := p |} = (err, w') ->
  (sent w' = [] /\ err <> None) \/
  exists message, mail_message config to subject textBody htmlBody message /\
    session_ended (script config credentials to message) (sent w') err.
Proof.
  unfold send. intros Hs. revert err w' Hs. apply ends_eq, ends_run.
  apply wp_bind, wp_return_if; intros Hb; [by left|]. rewrite !has_break_app, !orb_false_iff in Hb.
  apply wp_bind, wp_return_if; intros Ha; [by left|].
  apply wp_bind, wp_call. unfold ends. cbn [far sent]. destruct (boundary_bytes p) as [[bytes|] p']; cbn; [|by left].
  set (message := message_text _ _ _ _ _ _).
  assert (closes (script config credentials to message) (connect config ;; deliver config credentials to message)) as Hc
    by (apply closes_bind; [apply connect_plays|apply deliver_closes]).
  eapply wp_mono; [apply Hc|]. cbn. intros x w' (log & -> & He). right. exists message. split; [|done].
  unfold mail_message. destruct (parse_address to); [|done]. split_and!; naive_solver.
Qed.
End Scripts.

(** ** What goes before what *)

(** The commands that carry the credentials, an address or the code. *)
Definition carries (c : command) : bool :=
  match c with Auth _ _ | MailFrom _ | Rcpt _ | Write _ => true | _ => false end.

(** The connection is over TLS: dialled so, or started on it. *)
Definition over_tls (log : list (command * option error)) : Prop :=
  (exists address, (Dial true address, None) ∈ log) \/ (StartTLS, None) ∈ log.

Lemma session_prefix cs log err pre c e post :
  session_ended cs log err -> log = pre ++ (c, e) :: post ->
  exists earlier rest, pre = answered earlier /\ cs = earlier ++ c :: rest.
Proof.
  assert (forall done tail, answered done ++ tail = pre ++ (c, e) :: post -> Forall (fun x => x.2 <> None) tail ->
    (exists earlier rest, pre = answered earlier /\ done = earlier ++ c :: rest) \/
    (exists k, pre = answered done ++ k /\ tail = k ++ (c, e) :: post)) as Hsplit.
  { intros done tail He _. apply app_eq_inv in He as [(k & Hd & Ht)|(k & -> & ->)]; [|right; by exists k].
    destruct k as [|[c' e'] k]; [right; exists []; by rewrite app_nil_r in *|]. cbn in Ht. injection Ht as <- <- Hp.
    left. unfold answered in Hd. apply map_eq_app in Hd as (a & b & -> & <- & Hb).
    destruct b as [|c2 b]; [done|]. injection Hb as -> _ _. by exists a, b. }
  intros [[_ Hl]|[_ (done & c0 & rest & e0 & -> & Hl)]] ->.
  - rewrite <- (app_nil_r (answered cs)) in Hl. destruct (Hsplit cs [] (eq_sym Hl)) as [?|(k & ? & Hk)]; [constructor|done|].
    by destruct k.
  - destruct (Hsplit done [(c0, Some e0)] (eq_sym Hl)) as [(a & b & -> & ->)|(k & -> & Hk)]; [by repeat constructor| |].
    + exists a, (b ++ c0 :: rest). by rewrite <- app_assoc.
    + destruct k as [|? [|? ?]]; [|done..]. injection Hk as <- _ _. exists done, rest. by rewrite app_nil_r.
Qed.

Lemma connect_carries_nothing config : Forall (fun c => carries c = false) (connect_script config).
Proof. unfold connect_script. by destruct (SMTPc.TLSMode config =? "starttls")%string; repeat constructor. Qed.

Lemma script_over_tls config credentials to message earlier c rest :
  SMTPc.TLSMode config ∈ ["starttls"; "implicit"] ->
  script config credentials to message = earlier ++ c :: rest -> carries c = true -> over_tls (answered earlier).
Proof.
  unfold script. intros Hm Hs Hc.
  assert (exists more, earlier = connect_script config ++ more) as [more ->].
  { apply app_eq_inv in Hs as [(k & He & Hk)|(k & -> & _)]; [|by exists k].
    destruct k as [|c' k]; [exists []; by rewrite app_nil_r in *|]. injection Hk as <- _.
    pose proof (connect_carries_nothing config) as Hn. rewrite He, Forall_app, Forall_cons in Hn.
    destruct Hn as (_ & Hn & _). congruence. }
  assert (SMTPc.TLSMode config = "starttls" \/ SMTPc.TLSMode config = "implicit") as Ht by set_solver.
  unfold over_tls, connect_script.
  destruct Ht as [Ht|Ht]; rewrite Ht; [right; cbn; set_solver|left; eexists; left].
Qed.

(** ** The mail of a code *)

Section OTPMail.
Context `{Env} {P : Type} `{!SMTPServer P} `{!Boundaries P} `{!MailFormat} `{!MailText} `{!MailTemplates}.

(** Sending the mail of a one-time code sends nothing, or follows the script of one
    SMTP session with one message until the first command that is refused; it reports
    success exactly when every command was accepted, and no header of the message can be
    injected: recipient, sender and subject are single lines. *)
Theorem mail_follows_script (config : SMTPc.SMTPConfig) (credentials : SMTPCredentials.Credentials) (ttl : duration)
    (to code : string) (expiresAt : time) (p : P) (err : option error) (w' : Session P)
    (Hs : send_otp config credentials ttl to code expiresAt {| sent := []; far := p |} = (err, w')) :
  (sent w' = [] /\ err <> None) \/
  exists subject textBody htmlBody message,
    execute_mail "subject" code expiresAt ttl = Some subject /\ subject <> "" /\
    execute_mail "text" code expiresAt ttl = Some textBody /\ execute_mail "html" code expiresAt ttl = Some htmlBody /\
    mail_message config to subject textBody htmlBody message /\
    session_ended (script config credentials to message) (sent w') err.
Proof.
  revert Hs. unfold send_otp, RenderEmailSubject, checked_subject, RenderEmail. cbn [String.eqb orb Ascii.eqb Bool.eqb].
  destruct (execute_mail "subject" code expiresAt ttl) as [subject|] eqn:He; [|intros [= <- <-]; by left].
  destruct (is_empty subject) eqn:Hn; [intros [= <- <-]; by left|].
  destruct (has_break subject); [intros [= <- <-]; by left|].
  destruct (execute_mail "text" code expiresAt ttl) as [textBody|] eqn:Ht; [|intros [= <- <-]; by left].
  destruct (execute_mail "html" code expiresAt ttl) as [htmlBody|] eqn:Hh; [|intros [= <- <-]; by left].
  intros Hs. change (run (call (send config credentials to subject textBody htmlBody)) {| sent := []; far := p |} = (err, w')) in Hs.
  rewrite run_call in Hs.
  apply send_ends in Hs as [?|(message & Hm & Hl)]; [by left|]. right.
  apply empty_false in Hn. by exists subject, textBody, htmlBody, message.
Qed.

(** C28: With the mail settings of a configuration the program starts with, and a server
    that is not the local host, no credential, address or code leaves before the
    connection is over TLS, whatever the server answers. *)
Theorem codes_only_over_tls `{!ConfigText} (config : SMTPc.SMTPConfig) (credentials : SMTPCredentials.Credentials)
    (ttl : duration) (to code : string) (expiresAt : time) (p : P) (err : option error) (w' : Session P)
    (before after : list (command * option error)) (c : command) (answer : option error)
    (Hconfig : smtp_sound config) (Hremote : SMTPc.Host config <> "localhost")
    (Hs : send_otp config credentials ttl to code expiresAt {| sent := []; far := p |} = (err, w'))
    (Hl : sent w' = before ++ (c, answer) :: after) (Hc : carries c = true) :
  over_tls before.
Proof.
  apply mail_follows_script in Hs as [[He _]|(subject & textBody & htmlBody & message & _ & _ & _ & _ & _ & He)].
  { rewrite He in Hl. by destruct before. }
  apply (session_prefix _ _ _ _ _ _ _ He) in Hl as (earlier & rest & -> & Hs).
  eapply script_over_tls; [|exact Hs|exact Hc]. by destruct (sm_tls _ Hconfig) as [?|[_ ?]].
Qed.
End OTPMail.

(** ** A server that accepts everything *)

Module PostOffice.

#[local] Instance office : SMTPServer nat := fun _ n => (None, S n).
#[local] Instance drawn : Boundaries nat := fun n => (Some "0123456789abcdefgh", n).
#[local] Instance formats : MailFormat := {| address_string name address := "<" +:+ address +:+ ">"; q_encode s := s |}.
#[local] Instance addresses : MailText := Some.
#[local] Instance mails : MailTemplates := fun what code _ _ => Some (what +:+ " " +:+ code).
#[local] Instance texts : ConfigText := {| standardize _ := None; mail_address := Some |}.
#[local] Instance office_env : Env := quiet_env 0.

Definition settings : SMTPc.SMTPConfig :=
  {| SMTPc.Host := "mail.example"; SMTPc.Port := 587; SMTPc.FromName := "Truster"; SMTPc.FromAddress := "id@example.org";
     SMTPc.CredentialsSecret := "smtp"; SMTPc.TLSMode := "starttls" |}.
Definition account : SMTPCredentials.Credentials :=
  {| SMTPCredentials.Username := "user"; SMTPCredentials.Password := "password" |}.
Definition answer : option error * Session nat :=
  send_otp settings account (5 * minute) "ada@example.org" "12345678" 0 {| sent := []; far := O |}.

Example session_of_a_code :
  map (fun x => match x.1 with Write _ => Write "" | c => c end) (sent answer.2) =
  [Dial false "mail.example:587"; Greeting; Extension "STARTTLS"; StartTLS; Auth "user" "password";
   MailFrom "id@example.org"; Rcpt "ada@example.org"; Data; Write ""; CloseData; Quit].
Proof. vm_compute. reflexivity. Qed.

Lemma settings_sound : smtp_sound settings.
Proof. split; [done|cbn; lia|done|left; left]. Qed.

End PostOffice.

Import PostOffice.
#[local] Existing Instances PostOffice.office PostOffice.drawn PostOffice.formats PostOffice.addresses PostOffice.mails
  PostOffice.texts PostOffice.office_env.

Lemma mail_follows_script_witness :
  exists subject textBody htmlBody message,
    execute_mail "subject" "12345678" 0 (5 * minute) = Some subject /\
    mail_message settings "ada@example.org" subject textBody htmlBody message /\
    session_ended (script settings account "ada@example.org" message) (sent answer.2) None.
Proof.
  destruct (mail_follows_script settings account (5 * minute) "ada@example.org" "12345678" 0 O None answer.2) as
    [[Hs _]|(subject & textBody & htmlBody & message & He & _ & _ & _ & Hm & Hl)].
  - vm_compute. reflexivity.
  - exfalso. vm_compute in Hs. discriminate.
  - exists subject, textBody, htmlBody, message. split_and!; assumption.
Defined.

Lemma codes_only_over_tls_witness : over_tls (take 4 (sent answer.2)).
Proof.
  apply (codes_only_over_tls settings account (5 * minute) "ada@example.org" "12345678" 0 O None answer.2
           _ (drop 5 (sent answer.2)) (Auth "user" "password") None settings_sound).
  - discriminate.
  - vm_compute. reflexivity.
  - vm_compute. reflexivity.
  - reflexivity.
Defined.
