(* ===== verification/Databases.v ===== *)
(** * Opening the databases

    NewSQLite and its file (sqlite.go), NewPostgreSQL, its checks and its migrations
    (postgresql.go, postgresql_migrate.go) of internal/statedb, and the pool of
    internal/authpolicy (NewPostgreSQL, requireTLS, validatePool).  The operating system
    and the drivers are classes; the goroutine that an opened store starts calls the
    cleanup of FlowStore.v. *)

From S2P Require Import Prelude Runtime Json Config Services TrustConfig AuthPolicy Http.

(** ** Files *)

(** What [os.Stat] and [os.Lstat] tell of a path; the permissions are nine bits. *)
Record FileInfo := { info_dir : bool; info_regular : bool; info_perm : Z }.

(** [os.OpenFile] with [O_CREATE] and [O_EXCL]: a new file, closed or not; a path that
    exists; or another failure. *)
Inductive creation := Created (close : option error) | AlreadyExists | NotCreated (err : error).

Class Files (P : Type) := {
  dir_of : string -> string;
  mkdir_all : string -> Z -> P -> option error * P;
  stat : string -> P -> (FileInfo + error) * P;
  lstat : string -> P -> (FileInfo + error) * P;
  create_exclusive : string -> Z -> P -> creation * P
}.

Definition perm_0700 : Z := 448.
Definition perm_0755 : Z := 493.
Definition perm_0600 : Z := 384.

(** [info.Mode().Perm()&0077 != 0] *)
Definition shared_perm (info : FileInfo) : bool := negb (Z.land (info_perm info) 63 =? 0).

Section Paths.
Context {P : Type} `{!Files P}.

Definition prepareSQLitePath (dbPath : string) : P -> option error * P := run (
  let directory := dir_of dbPath in
  err ← call (mkdir_all directory perm_0700);
  match (err : option error) with
  | Some err => mret (Some (Wrapped "create state database directory" err))
  | None =>
      info ← call (stat directory);
      match info with
      | inr err => mret (Some (Wrapped "inspect state database directory" err))
      | inl info =>
          return_if (negb (info_dir info)) (Some (Errorf "state database directory is not a directory")) ;;
          created ← call (create_exclusive dbPath perm_0600);
          match created with
          | Created (Some err) => mret (Some (Wrapped "close new state database" err))
          | Created None => mret None
          | NotCreated err => mret (Some (Wrapped "create state database" err))
          | AlreadyExists =>
              info ← call (lstat dbPath);
              match info with
              | inr err => mret (Some (Wrapped "inspect state database" err))
              | inl info =>
                  mret (guard_err (negb (info_regular info) || shared_perm info)
                          "state database must be a regular file with permissions 0600 or stricter")
              end
          end
      end
  end).

(** The directory of the state database, as the server checks it. *)
Definition private_directory (path : string) : P -> option error * P := run (
  let directory := dir_of path in
  err ← call (mkdir_all directory perm_0700);
  match (err : option error) with
  | Some err => mret (Some (Wrapped "create state database directory" err))
  | None =>
      info ← call (stat directory);
      mret (match info with
            | inr err => Some (Wrapped "inspect state database directory" err)
            | inl info => guard_err (negb (info_dir info) || shared_perm info)
                            "state database directory must be a directory with permissions 0700 or stricter"
            end)
  end).
End Paths.

(** ** The drivers *)

(** [database/sql] with the sqlite3 and pgx drivers, golang-migrate: opening, executing a
    statement, the two questions of the startup checks, and the migrations. *)
Class SQLDrivers (P : Type) := {
  path_escape : string -> string;
  open_sqlite : string -> P -> option error * P;
  exec_sqlite : string -> P -> option error * P;
  exec_schema : P -> option error * P;
  close_store : P -> option error * P;
  parse_connection : string -> option error;
  ping_postgresql : string -> P -> option error * P;
  schema_row : P -> (Z * bool + error) * P;
  privileges_row : P -> (bool + error) * P;
  probe_row : P -> option error * P;
  encode_query : Values -> string;
  url_string : URL -> string;
  migrate_open : string -> P -> option error * P;
  migrate_up : P -> (option error) * P
}.

(** [net.ParseIP] and [IP.IsLoopback]. *)
Class IPText := loopback_ip : string -> bool.

(** [statedb.Store], as far as its opening decides it: the database and its bound. *)
Record Store := { store_postgresql : bool; store_timeout : duration }.

Definition schemaVersion : Z := 2.
Definition sqlite_options : string := "_foreign_keys=on&_busy_timeout=5000&_journal_mode=WAL&_synchronous=FULL&_txlock=immediate".
Definition sqlite_pragmas : list string := ["PRAGMA synchronous=FULL"; "PRAGMA foreign_keys=ON"; "PRAGMA busy_timeout=5000"].

Definition isLocalPostgreSQLHost `{IPText} (host : string) : bool := (host =? "localhost")%string || loopback_ip host.

(** [validatePostgreSQLTLS] *)
Definition validatePostgreSQLTLS `{URLs} `{IPText} (connectionString : string) : option error :=
  match parse_url connectionString with
  | None => Some (Wrapped "parse state database connection string" (Errorf "url"))
  | Some u =>
      let loopback := isLocalPostgreSQLHost (Hostname u) in
      let sslmode := Get (ParseQuery (RawQuery u)).1 "sslmode" in
      guard_err (negb loopback && mem sslmode [""; "disable"; "allow"; "prefer"])
        "state database TLS is required except for loopback hosts"
  end.

Section Stores.
Context {P : Type} `{!Files P} `{!SQLDrivers P} `{URLs} `{IPText}.

Fixpoint exec_all (statements : list string) : P -> option error * P :=
  match statements with
  | [] => fun p => (None, p)
  | statement :: statements => fun p =>
      let (err, p) := exec_sqlite statement p in
      match err with Some err => (Some err, p) | None => exec_all statements p end
  end.

Definition sqlite_dsn (dbPath : string) : string :=
  let dsn := if (dbPath =? ":memory:")%string then dbPath else "file:" +:+ path_escape dbPath in
  dsn +:+ (if contains dsn "?" then "&" else "?") +:+ sqlite_options.

Definition NewSQLite (dbPath : string) : P -> (Store + error) * P := run (
  prepared ← (if (dbPath =? ":memory:")%string then mret None else call (prepareSQLitePath dbPath)
              : go P (Store + error) (option error));
  match (prepared : option error) with
  | Some err => mret (inr err)
  | None =>
      err ← call (open_sqlite (sqlite_dsn dbPath));
      match (err : option error) with
      | Some err => mret (inr (Wrapped "failed to open database" err))
      | None =>
          err ← call (exec_sqlite "PRAGMA journal_mode=WAL");
          match (err : option error) with
          | Some err => mret (inr (Wrapped "failed to enable WAL mode" err))
          | None =>
              err ← call (exec_all sqlite_pragmas);
              match (err : option error) with
              | Some err => mret (inr (Wrapped "failed to configure SQLite durability" err))
              | None =>
                  err ← call exec_schema;
                  match (err : option error) with
                  | Some err => mret (inr (Wrapped "failed to initialize schema" err))
                  | None => mret (inl {| store_postgresql := false; store_timeout := 0 |})
                  end
              end
          end
      end
  end).

Definition CheckSchema : P -> option error * P := run (
  row ← call schema_row;
  mret (match row with
        | inr err => Some (Wrapped "check state database schema" err)
        | inl (version, dirty) =>
            and_then (guard_err dirty "state database schema version is dirty")
              (guard_err (negb (version =? schemaVersion)) "state database schema version is incompatible")
        end)).

Definition CheckRuntime : P -> option error * P := run (
  err ← call CheckSchema;
  match (err : option error) with
  | Some err => mret (Some err)
  | None =>
      allowed ← call privileges_row;
      match allowed with
      | inr err => mret (Some (Wrapped "check state database runtime privileges" err))
      | inl allowed =>
          return_if (negb (allowed : bool)) (Some (Errorf "state database runtime privileges are incomplete")) ;;
          err ← call probe_row;
          mret (Wrapped "check state database runtime schema" <$> (err : option error))
      end
  end).

(** [statedb.NewPostgreSQL] *)
Definition NewPostgreSQL (connectionString : string) (maxConnections : Z) (queryTimeout : duration)
  : P -> (Store + error) * P := run (
  return_if (queryTimeout <=? 0) (inr (Errorf "PostgreSQL state database query timeout must be positive")) ;;
  match validatePostgreSQLTLS connectionString with
  | Some err => mret (inr err)
  | None =>
      match parse_connection connectionString with
      | Some err => mret (inr (Wrapped "parse PostgreSQL state database connection string" err))
      | None =>
          err ← call (ping_postgresql connectionString);
          match (err : option error) with
          | Some err => mret (inr (Wrapped "connect PostgreSQL state database" err))
          | None =>
              err ← call CheckRuntime;
              mret (match (err : option error) with
                    | Some err => inr err
                    | None => inl {| store_postgresql := true; store_timeout := queryTimeout |}
                    end)
          end
      end
  end).

(** ** Migrations *)

Definition ErrNoChange : error := Errorf "no change".
Definition migrationStatementTimeout : string := "300000".

Definition migrationConnectionString (connectionString : string) : string + error :=
  match parse_url connectionString with
  | None => inr (Wrapped "parse PostgreSQL migration connection string" (Errorf "url"))
  | Some u =>
      let set key value (vs : Values) := <[key := [value]]> vs in
      let parameters :=
        set "x-migrations-table-quoted" "true"
          (set "x-migrations-table" (String "034" "public" +:+ String "034" "." +:+ String "034" "schema_migrations" +:+ String "034" "")
            (set "x-statement-timeout" migrationStatementTimeout
              (set "statement_timeout" migrationStatementTimeout
                (set "connect_timeout" "10" (ParseQuery (RawQuery u)).1)))) in
      inl (url_string {| Scheme := Scheme u; Host := Host u; Hostname := Hostname u; HasUser := HasUser u;
                         RawQuery := encode_query parameters; ForceQuery := ForceQuery u; Fragment := Fragment u |})
  end.

Definition MigratePostgreSQL (connectionString : string) : P -> option error * P := run (
  match validatePostgreSQLTLS connectionString with
  | Some err => mret (Some err)
  | None =>
      match migrationConnectionString connectionString with
      | inr err => mret (Some err)
      | inl connectionString =>
          err ← call (migrate_open connectionString);
          match (err : option error) with
          | Some err => mret (Some (Wrapped "open state migrations" err))
          | None =>
              err ← call migrate_up;
              mret (match (err : option error) with
                    | Some err => if errors_is err ErrNoChange then None else Some (Wrapped "apply state migrations" err)
                    | None => None
                    end)
          end
      end
  end).
End Stores.

(** ** The policy database *)

(** [pgx.ConnConfig]: the host, whether TLS is configured, and the same of the fallbacks. *)
Record ConnConfig := { conn_host : string; conn_tls : bool; conn_fallbacks : list (string * bool) }.

Class PolicyPool (P : Type) := {
  pool_parse : string -> option ConnConfig;
  pool_open : string -> P -> option error * P;
  pool_ping : P -> option error * P;
  pool_acquire : P -> option error * P;
  pool_prepare : string -> P -> option error * P
}.

Definition requireTLS `{IPText} (cfg : ConnConfig) : option error :=
  let plain host tls := negb (isLocalPostgreSQLHost host) && negb tls in
  guard_err (plain (conn_host cfg) (conn_tls cfg) || existsb (fun f => plain f.1 f.2) (conn_fallbacks cfg))
    "policy database requires TLS for remote connections".

Section Policy.
Context {P : Type} `{!PolicyPool P} `{IPText}.

Fixpoint prepare_all (statements : list string) : P -> option error * P :=
  match statements with
  | [] => fun p => (None, p)
  | statement :: statements => fun p =>
      if is_empty statement then prepare_all statements p
      else let (err, p) := pool_prepare statement p in
           match err with Some _ => (Some (Errorf "prepare policy database query"), p) | None => prepare_all statements p end
  end.

Definition validatePool (cfg : PolicyDB.PolicyDatabaseConfig) : P -> option error * P := run (
  err ← call pool_ping;
  return_if (is_some (err : option error)) (Some (Errorf "connect to policy database")) ;;
  err ← call pool_acquire;
  return_if (is_some (err : option error)) (Some (Errorf "acquire policy database validation connection")) ;;
  let queries := PolicyDB.Queries_ cfg in
  call (prepare_all [Queries.ClientExists queries; Queries.UserAccess queries; Queries.TrustIssuer queries; Queries.TrustBindings queries])).

(** [authpolicy.NewPostgreSQL]; the resolver's caches start empty ([newPostgreSQL]). *)
Definition open_policy_database (connectionString : string) (cfg : PolicyDB.PolicyDatabaseConfig)
  : P -> (unit + error) * P := run (
  match pool_parse connectionString with
  | None => mret (inr (Errorf "parse policy database connection"))
  | Some poolCfg =>
      match requireTLS poolCfg with
      | Some err => mret (inr err)
      | None =>
          err ← call (pool_open connectionString);
          return_if (is_some (err : option error)) (inr (Errorf "create policy database pool")) ;;
          err ← call (validatePool cfg);
          mret (match (err : option error) with Some err => inr err | None => inl tt end)
      end
  end).
End Policy.

(** * Opening the databases: what has been checked

    A SQLite store that opens is private; the connection string of a PostgreSQL store names
    a local host or a mode of TLS, and the schema is the one the code is written for. *)

(** What a call has answered, at some point. *)
Definition observed {P A} (f : P -> A * P) (a : A) : Prop := exists p p', f p = (a, p').

Lemma yields_observed {P X B} (G : X -> Prop) (f : P -> B * P) : yields G (observed f) (call f).
Proof. intros w. apply wp_call. unfold ends. exists w, (f w).2. by destruct (f w). Qed.

Definition succeeds {A} (Q : A -> Prop) (r : A + error) : Prop := match r with inl a => Q a | inr _ => True end.
Definition no_error (Q : Prop) (err : option error) : Prop := err = None -> Q.

Ltac observe := eapply yields_bind; [apply yields_observed|].

Section Files.
Context {P : Type} `{!Files P}.

(** The directory of a path is one. *)
Definition in_directory (path : string) : Prop := exists info, observed (stat (dir_of path)) (inl info) /\ info_dir info = true.

(** The file is a new one that nobody else can read, or a regular file that only its
    owner can access. *)
Definition private_file (path : string) : Prop :=
  observed (create_exclusive path perm_0600) (Created None) \/
  exists info, observed (lstat path) (inl info) /\ info_regular info = true /\ shared_perm info = false.

Lemma guard_or_false a b msg : guard_err (a || b) msg = None <-> a = false /\ b = false.
Proof. rewrite guard_err_none. apply orb_false_iff. Qed.

Lemma prepareSQLitePath_private path :
  produces (no_error (in_directory path /\ private_file path)) (prepareSQLitePath path).
Proof.
  unfold prepareSQLitePath. apply produces_run. observe. intros [err|] _; [by apply yields_ret|].
  observe. intros [info|err] Hi; [|by apply yields_ret]. eapply yields_bind; [by apply yields_return_if|].
  intros _ Hd%negb_false_iff. observe. intros [[err|]| |err] Hc; [by apply yields_ret| | |by apply yields_ret].
  - apply yields_ret. intros _. split; [by exists info|by left].
  - observe. intros [file|err] Hf; [|by apply yields_ret]. apply yields_ret. intros [Hr Hs]%guard_or_false.
    apply negb_false_iff in Hr. split; [by exists info|]. right. by exists file.
Qed.

(** Nobody else can enter the directory of a path. *)
Definition private_dir (path : string) : Prop :=
  exists info, observed (stat (dir_of path)) (inl info) /\ info_dir info = true /\ shared_perm info = false.

Lemma private_directory_private path : produces (no_error (private_dir path)) (private_directory path).
Proof.
  unfold private_directory. apply produces_run. observe. intros [err|] _; [by apply yields_ret|].
  observe. intros [info|err] Hi; [|by apply yields_ret]. apply yields_ret. intros [Hd Hs]%guard_or_false.
  apply negb_false_iff in Hd. by exists info.
Qed.
End Files.

Section Stores.
Context {P : Type} `{!Files P} `{!SQLDrivers P} `{URLs} `{IPText}.

Lemma NewSQLite_private path :
  produces (succeeds (fun store => store_postgresql store = false /\
    (path = ":memory:" \/ (in_directory path /\ private_file path)))) (NewSQLite path).
Proof.
  unfold NewSQLite. apply produces_run.
  apply yields_bind with (Q' := no_error (path = ":memory:" \/ (in_directory path /\ private_file path))).
  { destruct (String.eqb_spec path ":memory:") as [Hp|_]; [apply yields_ret; by left|].
    apply yields_call. intros w Hn. right. exact (prepareSQLitePath_private path w Hn). }
  intros [err|] Hp; [by apply yields_ret|].
  do 4 (observe; intros [err|] _; [by apply yields_ret|]). apply yields_ret. split; [done|by apply Hp].
Qed.

(** What the check of a connection string establishes: the host written in its URL is this
    machine, or the [sslmode] of its query is none of those that allow plain text.  The
    driver may take its host from elsewhere in the URL. *)
Definition guarded_connection (connectionString : string) : Prop :=
  exists u, parse_url connectionString = Some u /\
    (isLocalPostgreSQLHost (Hostname u) = true \/
     Get (ParseQuery (RawQuery u)).1 "sslmode" ∉ [""; "disable"; "allow"; "prefer"]).

Lemma not_in_mem x l : mem x l = false -> x ∉ l.
Proof.
  unfold mem. intros Hm Hin%list_elem_of_In.
  assert (existsb (String.eqb x) l = true) as Ht by (apply existsb_exists; exists x; by rewrite String.eqb_refl). congruence.
Qed.

Lemma validatePostgreSQLTLS_guarded connectionString :
  validatePostgreSQLTLS connectionString = None -> guarded_connection connectionString.
Proof.
  unfold validatePostgreSQLTLS. destruct (parse_url connectionString) as [u|] eqn:Hu; [|done].
  intros Hg%guard_err_none. exists u. split; [done|]. apply andb_false_iff in Hg as [Hl|Hm].
  - left. by apply negb_false_iff.
  - right. by apply not_in_mem.
Qed.

(** The schema is of the version the code is written for, clean, and its tables are the
    role's to use. *)
Definition schema_usable : Prop :=
  observed schema_row (inl (schemaVersion, false)) /\ observed privileges_row (inl true) /\ observed probe_row None.

Lemma CheckSchema_current : produces (no_error (observed schema_row (inl (schemaVersion, false)))) CheckSchema.
Proof.
  unfold CheckSchema. apply produces_run. observe. intros [[version dirty]|err] Hs; apply yields_ret; [|done].
  intros [Hd%guard_err_none Hv%guard_err_none]%and_then_none. apply negb_false_iff, Z.eqb_eq in Hv. by subst.
Qed.

Lemma CheckRuntime_usable : produces (no_error schema_usable) CheckRuntime.
Proof.
  unfold CheckRuntime. apply produces_run. eapply yields_bind; [by apply yields_call, CheckSchema_current|].
  intros [err|] Hs; [by apply yields_ret|]. observe. intros [allowed|err] Ha; [|by apply yields_ret].
  eapply yields_bind; [by apply yields_return_if|]. intros _ Hb%negb_false_iff. subst.
  observe. intros [err|] Hp; apply yields_ret; [done|]. intros _. split_and!; [by apply Hs|done|done].
Qed.

Lemma NewPostgreSQL_guarded connectionString maxConnections queryTimeout :
  produces (succeeds (fun store => store_postgresql store = true /\ 0 < store_timeout store /\
    guarded_connection connectionString /\ schema_usable)) (NewPostgreSQL connectionString maxConnections queryTimeout).
Proof.
  unfold NewPostgreSQL. apply produces_run. eapply yields_bind; [by apply yields_return_if|]. intros _ Ht%Z.leb_gt.
  destruct (validatePostgreSQLTLS connectionString) as [err|] eqn:Hv; [by apply yields_ret|].
  destruct (parse_connection connectionString); [by apply yields_ret|].
  observe. intros [err|] _; [by apply yields_ret|].
  eapply yields_bind; [by apply yields_call, CheckRuntime_usable|]. intros [err|] Hs; apply yields_ret; [done|].
  split_and!; [done|done|by apply validatePostgreSQLTLS_guarded|by apply Hs].
Qed.

Lemma MigratePostgreSQL_guarded connectionString :
  produces (no_error (guarded_connection connectionString)) (MigratePostgreSQL connectionString).
Proof.
  unfold MigratePostgreSQL. apply produces_run.
  destruct (validatePostgreSQLTLS connectionString) as [err|] eqn:Hv; [by apply yields_ret|].
  apply validatePostgreSQLTLS_guarded in Hv. destruct (migrationConnectionString _); [|by apply yields_ret].
  observe. intros [err|] _; [by apply yields_ret|]. observe. intros err _. apply yields_ret. by intros _.
Qed.
End Stores.

(** Every address of the policy database's pool is encrypted or on this machine. *)
Definition addresses_guarded `{IPText} (cfg : ConnConfig) : Prop :=
  Forall (fun f => isLocalPostgreSQLHost f.1 = true \/ f.2 = true) ((conn_host cfg, conn_tls cfg) :: conn_fallbacks cfg).
Lemma requireTLS_guarded `{IPText} cfg : requireTLS cfg = None <-> addresses_guarded cfg.
Proof.
  unfold requireTLS, addresses_guarded. rewrite guard_err_none, orb_false_iff, Forall_cons. cbn.
  assert (forall host tls, negb (isLocalPostgreSQLHost host) && negb tls = false <-> isLocalPostgreSQLHost host = true \/ tls = true)
    as Hp by (intros host tls; destruct (isLocalPostgreSQLHost host), tls; naive_solver).
  rewrite Hp. apply and_iff_compat_l. induction (conn_fallbacks cfg) as [|f l IH]; [done|].
  cbn. rewrite orb_false_iff, Hp, Forall_cons, IH. done.
Qed.

Section Pool.
Context {P : Type} `{!PolicyPool P} `{IPText}.

Lemma open_policy_database_guarded connectionString cfg :
  produces (succeeds (fun _ => exists pool, pool_parse connectionString = Some pool /\ addresses_guarded pool))
    (open_policy_database connectionString cfg).
Proof.
  unfold open_policy_database. apply produces_run. destruct (pool_parse connectionString) as [pool|]; [|by apply yields_ret].
  destruct (requireTLS pool) eqn:Hr; [by apply yields_ret|]. observe. intros err _.
  eapply yields_bind; [by apply yields_return_if_any|]. intros _ _. observe. intros [e|] _; apply yields_ret; [done|].
  exists pool. by rewrite <- requireTLS_guarded.
Qed.
End Pool.
