(* ===== verification/Pages.v ===== *)
(** * internal/templates: pages, mails and public files

    templates.go and public.go: the templates of a directory over the embedded ones, the
    public files, and the answers made of them.  The template engine, mime and net/http's
    content sniffing are a class, the file system another. *)

From stdpp Require Import pretty.
From S2P Require Import Prelude Runtime Json Http Mail.

(** ** Files and templates *)

(** [os.ReadFile] *)
Inductive file_read := FileText (text : string) | NoFile | FileError (err : error).

(** What [os.Lstat] tells of the root of the public files. *)
Inductive root_info := NoRoot | RootError (err : error) | Root (symlink dir : bool).

(** An entry of [filepath.WalkDir] below the root, in its order: the path relative to the
    root, the error of the walk, its kind, whether it is a regular file when that is known,
    and its content when it is readable. *)
Record WalkEntry := {
  we_relative : string;
  we_error : option error;
  we_symlink : bool;
  we_dir : bool;
  we_regular : option bool;
  we_content : option string
}.

Class TemplateFiles (P : Type) := {
  read_overlay : string -> string -> P -> file_read * P;
  embedded : string -> file_read;
  lstat_public : string -> P -> root_info * P;
  walk_public : string -> P -> list WalkEntry * P
}.

(** The data a template is executed on. *)
Inductive TemplateData :=
  | PageTemplate (data : PageData) (page : Page)
  | ErrorTemplate (data : PageData) (title message : string)
  | MailTemplate (code : string) (expiresAt : time) (expiresIn : duration).

(** html/template and text/template: the sources parsed together, and the execution of
    the compiled template; [mime.TypeByExtension] and [http.DetectContentType]. *)
Class TemplateEngine := {
  template : Type;
  parse_templates : bool -> list string -> option template;
  execute : template -> TemplateData -> option string;
  type_by_extension : string -> string;
  detect_content_type : string -> string
}.

(** [templates.publicAsset] *)
Record publicAsset := { asset_content : string; asset_type : string }.

(** [templates.Manager] *)
Record Manager `{TemplateEngine} := {
  pages : gmap string template;
  emailHTML : template;
  emailText : template;
  emailSubject : template;
  public : gmap string publicAsset
}.

(** [filepath.Ext] *)
Fixpoint last_dot (s : string) (found : string) : string :=
  match s with
  | EmptyString => found
  | String c rest =>
      if Ascii.eqb c "/" then last_dot rest ""
      else if Ascii.eqb c "." then last_dot rest s else last_dot rest found
  end.
Definition ext (path : string) : string := last_dot path "".

Example ext_examples : ext "a/b.tar.gz" = ".gz" /\ ext "a.d/b" = "" /\ ext "x." = "." /\ ext ".ico" = ".ico".
Proof. by vm_compute. Qed.

Section Load.
Context `{Env} `{TemplateEngine} {P : Type} `{!TemplateFiles P}.

(** ** Public files *)

Definition content_type (path content : string) : string :=
  let extension := to_lower (ext path) in
  let by_extension :=
    if (extension =? ".ico")%string then "image/x-icon"
    else if (extension =? ".svg")%string then "image/svg+xml"
    else if (extension =? ".webmanifest")%string then "application/manifest+json"
    else type_by_extension extension in
  if is_empty by_extension then detect_content_type content else by_extension.

(** The function of the walk. *)
Definition add_asset (entry : WalkEntry) (assets : gmap string publicAsset) : gmap string publicAsset + error :=
  match we_error entry with
  | Some err => inr err
  | None =>
      if we_symlink entry then inr (Errorf "public template must not be a symlink")
      else if we_dir entry then inl assets
      else match we_regular entry with
      | None => inr (Errorf "info")
      | Some false => inr (Errorf "public template must be a regular file")
      | Some true =>
          match we_content entry with
          | None => inr (Errorf "read")
          | Some content =>
              inl (<["/" +:+ we_relative entry :=
                      {| asset_content := content; asset_type := content_type (we_relative entry) content |}]> assets)
          end
      end
  end.

Fixpoint add_assets (entries : list WalkEntry) (assets : gmap string publicAsset) : gmap string publicAsset + error :=
  match entries with
  | [] => inl assets
  | entry :: entries =>
      match add_asset entry assets with inl assets => add_assets entries assets | inr err => inr err end
  end.

Definition loadPublic (dir : string) : P -> (gmap string publicAsset + error) * P := run (
  return_if (is_empty dir) (inl ∅) ;;
  root ← call (lstat_public dir);
  match root with
  | NoRoot => mret (inl ∅)
  | RootError err => mret (inr (Wrapped "inspect public templates" err))
  | Root symlink dir' =>
      return_if (symlink || negb dir') (inr (Errorf "public templates path must be a directory, not a symlink")) ;;
      entries ← call (walk_public dir);
      mret (match add_assets entries ∅ with
            | inl assets => inl assets
            | inr err => inr (Wrapped "load public templates" err)
            end)
  end).

(** ** The templates *)

Definition effective (dir path : string) : P -> (string + error) * P := run (
  overlay ← (if is_empty dir then mret NoFile else call (read_overlay dir path) : go P (string + error) file_read);
  match overlay with
  | FileText text => mret (inl text)
  | FileError err => mret (inr (Wrapped "read template" err))
  | NoFile =>
      mret (match embedded path with
            | FileText text => inl text
            | NoFile => inr (Errorf "file does not exist")
            | FileError err => inr err
            end)
  end).

Definition zero_page_data : PageData :=
  {| pd_Request := {| rd_Method := ""; rd_Host := ""; rd_Path := "" |}; pd_IssuerURL := ""; pd_HomepageURL := "" |}.

(** The pages and the data each is rendered with when it is loaded. *)
Definition sample_pages (now : time) : list (string * TemplateData) :=
  let PageTemplate := PageTemplate zero_page_data in
  [("selector", PageTemplate (SelectorPage "Sign in" "login" "opaque" "site-key"
      [{| conn_ID := "google"; conn_DisplayName := "Google"; conn_URL := "/select/google?state=opaque"; conn_Email := false |};
       {| conn_ID := "email"; conn_DisplayName := "Email"; conn_URL := ""; conn_Email := true |}]));
   ("otp", PageTemplate (OTPPage "Verify email" "opaque" "A code was sent." "" "user@example.com" (5 * minute) 0
      (add now (5 * minute)) 0));
   ("error", ErrorTemplate zero_page_data "Login failed" "Unable to sign in.");
   ("identity", PageTemplate (IdentityPage "Choose an email" "opaque"
      [{| mail_Address := "primary@example.com"; mail_Verified := true; mail_Primary := true |};
       {| mail_Address := "other@example.com"; mail_Verified := false; mail_Primary := false |}]));
   ("consent", PageTemplate (ConsentPage "Allow offline access" "opaque" "client"));
   ("grants", PageTemplate (GrantsPage "Active grants" "user@example.com" ""
      [{| gd_SID := "sid"; gd_ClientID := "client"; gd_Mode := "session"; gd_ActionToken := "opaque";
          gd_Email := "user@example.com";
          gd_CreatedAt := now; gd_LastUsedAt := now; gd_ExpiresAt := now |}]))].

(** The code's instant for the mail: 2026-07-27 12:34 UTC. *)
Definition sample_mail : TemplateData := MailTemplate "12345678" (1785155640 * second) (5 * minute).

Definition load_page (dir layout name : string) (data : TemplateData) : P -> (template + error) * P := run (
  page ← call (effective dir ("pages/" +:+ name +:+ ".html"));
  mret (match page with
        | inr err => inr err
        | inl page =>
            match parse_templates true [layout; page] with
            | None => inr (Errorf ("parse page " +:+ name))
            | Some t => if is_nil (execute t data) then inr (Errorf ("render page " +:+ name)) else inl t
            end
        end)).

Fixpoint load_pages (dir layout : string) (samples : list (string * TemplateData)) (loaded : gmap string template)
  : P -> (gmap string template + error) * P :=
  match samples with
  | [] => fun p => (inl loaded, p)
  | (name, data) :: samples => fun p =>
      let (t, p) := load_page dir layout name data p in
      match t with inl t => load_pages dir layout samples (<[name := t]> loaded) p | inr err => (inr err, p) end
  end.

(** The mail templates: layout and body of the two forms, and the subject. *)
Definition load_mail (htmlLayout htmlBody textLayout textBody subject : string)
  : template * template * template + error :=
  match parse_templates true [htmlLayout; htmlBody] with
  | None => inr (Errorf "parse HTML email templates")
  | Some html =>
      match parse_templates false [textLayout; textBody] with
      | None => inr (Errorf "parse text email templates")
      | Some text =>
          match parse_templates false [subject] with
          | None => inr (Errorf "parse email subject template")
          | Some subject =>
              if is_nil (execute html sample_mail) then inr (Errorf "render email/otp.html")
              else if is_nil (execute text sample_mail) then inr (Errorf "render email/otp.txt")
              else match checked_subject (execute subject sample_mail) with
                   | inr err => inr (Wrapped "render email/otp.subject.txt" err)
                   | inl _ => inl (html, text, subject)
                   end
          end
      end
  end.

(** A file that must be there. *)
Definition need {R} (dir path : string) : go P (R + error) string :=
  text ← call (effective dir path);
  match text with inl text => mret text | inr err => return_ (inr err) end.

(** [Load]; the map of the pages is visited in some order, of which the code's is one. *)
Definition Load (dir : string) (now : time) (samples : list (string * TemplateData)) : P -> (Manager + error) * P := run (
  layout ← need dir "pages/layout.html";
  assets ← call (loadPublic dir);
  match assets with
  | inr err => mret (inr err)
  | inl assets =>
      loaded ← call (load_pages dir layout samples ∅);
      match loaded with
      | inr err => mret (inr err)
      | inl loaded =>
          htmlLayout ← need dir "email/layout.html";
          htmlBody ← need dir "email/otp.html";
          textLayout ← need dir "email/layout.txt";
          textBody ← need dir "email/otp.txt";
          subject ← need dir "email/otp.subject.txt";
          mret (match load_mail htmlLayout htmlBody textLayout textBody subject with
                | inr err => inr err
                | inl (html, text, subject) =>
                    inl {| pages := loaded; emailHTML := html; emailText := text; emailSubject := subject; public := assets |}
                end)
      end
  end).
End Load.

(** ** Rendering *)

Section Render.
Context `{TemplateEngine} (m : Manager).

Definition page_name (page : Page) : string :=
  match page with
  | ConsentPage _ _ _ => "consent"
  | SelectorPage _ _ _ _ _ => "selector"
  | OTPPage _ _ _ _ _ _ _ _ _ => "otp"
  | IdentityPage _ _ _ => "identity"
  | GrantsPage _ _ _ _ => "grants"
  end.

Definition RenderPage (name : string) (data : TemplateData) : string + error :=
  match pages m !! name with
  | None => inr (Errorf "unknown page")
  | Some t => match execute t data with Some text => inl text | None => inr (Errorf "template") end
  end.

(** The pages of the server for a request with this page data. *)
Definition manager_templates (data : PageData) : Templates :=
  let text (rendered : string + error) := match rendered with inl text => Some text | inr _ => None end in
  {| executes page := text (RenderPage (page_name page) (PageTemplate data page));
     executes_error title message := text (RenderPage "error" (ErrorTemplate data title message)) |}.

Definition manager_mails : MailTemplates := fun format code expiresAt ttl =>
  let data := MailTemplate code expiresAt ttl in
  if (format =? "html")%string then execute (emailHTML m) data
  else if (format =? "text")%string then execute (emailText m) data
  else execute (emailSubject m) data.

(** [HandlePublic] sets the data of its request in the page data it is given. *)
Definition HandlePublic (r : Http.Request) (data : PageData) : Answer.Response :=
  match public m !! Http.Path r with
  | None =>
      let data := {| pd_Request := request_data r; pd_IssuerURL := pd_IssuerURL data; pd_HomepageURL := pd_HomepageURL data |} in
      let title := "Page Not Found" in
      let message := "The page you requested does not exist." in
      match RenderPage "error" (ErrorTemplate data title message) with
      | inr _ => http_error 404 [] "page not found"
      | inl body =>
          reply 404 [("Content-Type", "text/html; charset=utf-8"); ("Cache-Control", "no-store")]
            (MissingPage title message body)
      end
  | Some asset =>
      if negb (mem (Http.Method r) ["GET"; "HEAD"]) then http_error 405 [("Allow", "GET, HEAD")] "method not allowed"
      else reply 200 [("Cache-Control", "no-cache"); ("Content-Length", pretty (len (asset_content asset)));
                      ("Content-Type", asset_type asset); ("X-Content-Type-Options", "nosniff")]
             (if (Http.Method r =? "GET")%string then AssetBody (asset_content asset) else NoBody)
  end.
End Render.
