(* ===== verification/Startup.v ===== *)
(** * The start of the server

    cmd/serve.go up to the server it runs, and the end of the run; cmd/demo.go, the
    runtime of a demo; internal/servertls: the serving certificate and its reload.  The
    secrets, databases and templates are opened as Secrets.v, Databases.v and Pages.v
    describe; what start-up has built is a record. *)

From S2P Require Import Prelude Runtime Base64 Sha256 Json Config Loader Services Tokens TrustPolicy TrustConfig Http Upstream Providers OidcFlow Server Secrets Mail Databases Pages.

(** ** The serving certificate *)

(** [tls.LoadX509KeyPair]: the chain of the certificate. *)
Class KeyPairs (P : Type) := load_key_pair : string -> string -> P -> (list string + error) * P.

Section Certificates.
Context {P : Type} `{!KeyPairs P} (certificateFile privateKeyFile : string).

Definition load_certificate : P -> (list string + error) * P := run (
  answer ← call (load_key_pair certificateFile privateKeyFile);
  mret (match answer with inr err => inr (Wrapped "load serving certificate" err) | inl chain => inl chain end)).

(** One tick of [reload]: a certificate that does not load leaves the current one. *)
Definition reload_tick (current : list string) : P -> list string * P := run (
  replacement ← call (load_key_pair certificateFile privateKeyFile);
  mret (match replacement with
        | inr _ => current
        | inl chain => if bool_decide (current = chain) then current else chain
        end)).

Fixpoint reload (ticks : nat) (current : list string) (p : P) : list string * P :=
  match ticks with
  | O => (current, p)
  | S ticks => let (current, p) := reload_tick current p in reload ticks current p
  end.
End Certificates.

(** ** Secrets of a run *)

(** The configured provider, or the generated secrets of a demo. *)
Inductive secret_source := Configured (p : provider) | DemoSecrets (values : gmap string string).

Definition get_secret {P} `{!SecretStores P} `{!Contexts P} (source : secret_source) (name : string)
  : P -> (string + error) * P :=
  match source with
  | Configured p => GetSecret p name
  | DemoSecrets values => fun p =>
      (match values !! name with Some value => inl value | None => inr (Errorf "demo secret is not configured") end, p)
  end.

(** [hex.DecodeString] *)
Definition hex_value (c : ascii) : option Z :=
  let z := byte_z c in
  if (48 <=? z) && (z <=? 57) then Some (z - 48)
  else if (97 <=? z) && (z <=? 102) then Some (z - 87)
  else if (65 <=? z) && (z <=? 70) then Some (z - 55) else None.
Fixpoint unhex (s : string) : option string :=
  match s with
  | EmptyString => Some ""
  | String a (String b s) =>
      high ← hex_value a; low ← hex_value b; rest ← unhex s; Some (String (z_byte (16 * high + low)) rest)
  | String _ EmptyString => None
  end.

(** ** Start-up *)

(** A start that fails, with its error or by a nil pointer. *)
Inductive failure := Fails (err : error) | Panics.

(** What a run has: the server, the connectors, the mail transport, the challenge, the
    keys, the databases, the templates and the certificate. *)
Record Started `{TemplateEngine} := {
  server : Server;
  connectors : gmap string connector;
  mailer : option (SMTPc.SMTPConfig * SMTPCredentials.Credentials * duration);
  challenge : verifier;
  selectionKey : string;
  policy_database : option PolicyDB.PolicyDatabaseConfig;
  state_store : Store;
  manager : Manager;
  certificate : option (list string)
}.

Section Startup.
Context `{Env} {P : Type} `{!SecretStores P} `{!Contexts P} `{!Files P} `{!SQLDrivers P} `{!PolicyPool P} `{!TemplateFiles P}.
Context `{!KeyPairs P} `{!TemplateEngine} `{!URLs} `{!IPText} `{!DocumentJSON} `{!KeyLib} `{!KeySets} `{!PKIX} `{!Endpoints}.

(** A call whose error ends the start. *)
Definition attempt {R A} (f : P -> (A + error) * P) (fail : error -> error) : go P (R + failure) A :=
  answer ← call f;
  match answer with inl a => mret a | inr err => return_ (inr (Fails (fail err))) end.
Definition ensure {R A} (answer : A + error) : go P (R + failure) A :=
  match answer with inl a => mret a | inr err => return_ (inr (Fails err)) end.

Section Run.
Context (cfg : Config.Config) (source : secret_source).

Definition secret {R} (name : string) : go P (R + failure) string := attempt (get_secret source name) id.

Definition is_email_connector (cc : Connectorc.ConnectorConfig) : bool := (Connectorc.Type_ cc =? "email")%string.

(** One round of the loop over the connectors. *)
Definition start_connector (id : string) (cc : Connectorc.ConnectorConfig) (built : gmap string connector)
  : P -> (gmap string connector + failure) * P := run (
  return_if (is_email_connector cc) (inl built) ;;
  raw ← secret (Connectorc.CredentialsSecret cc);
  credentials ← ensure (ParseOAuthCredentials raw);
  match NewConnector cc (Config.IssuerURL cfg +:+ "/callback/" +:+ id)
          (OAuthCredentials.ClientID credentials) (OAuthCredentials.ClientSecret credentials) with
  | None => mret (inr Panics)
  | Some (inr err) => mret (inr (Fails err))
  | Some (inl c) => mret (inl (<[id := c]> built))
  end).

Fixpoint start_connectors (visit : list (string * Connectorc.ConnectorConfig)) (built : gmap string connector)
  : P -> (gmap string connector + failure) * P :=
  match visit with
  | [] => fun p => (inl built, p)
  | (id, cc) :: visit => fun p =>
      let (answer, p) := start_connector id cc built p in
      match answer with inl built => start_connectors visit built p | inr err => (inr err, p) end
  end.

(** The encryption key and the key of identity selections. *)
Definition start_keys : P -> (string * string + failure) * P := run (
  let name := Secretsc.EncryptionKeyName (Config.Secrets_ cfg) in
  if is_empty name then mret (inl ("", ""))
  else
  raw ← attempt (get_secret source name) (Wrapped "get encryption key");
  match unhex raw with
  | Some key =>
      if len key =? 32 then mret (inl (key, hkdf_sha256_32 key "truster/identity-selection/v1"))
      else mret (inr (Fails (Errorf "encryption key must be a 64-character hex-encoded 32-byte key")))
  | None => mret (inr (Fails (Errorf "encryption key must be a 64-character hex-encoded 32-byte key")))
  end).

Definition has_email : bool := existsb (fun kv => is_email_connector kv.2) (map_to_list (Config.UserLoginConnectors cfg)).
Definition needs_email_delivery (email : Email.EmailConfig) : bool :=
  has_email || mem (Email.VerificationMode email) ["provider"; "strict"].

(** The secret of one-time codes, the transport and the challenge of [cfg.Email]. *)
Definition start_email (email : Email.EmailConfig)
  : P -> (string * option (SMTPc.SMTPConfig * SMTPCredentials.Credentials * duration) * verifier + failure) * P := run (
  otpSecret ← (if needs_email_delivery email then
                 rawOTP ← secret (Email.OTPSecretName email);
                 return_if (len rawOTP <? 32) (inr (Fails (Errorf "OTP HMAC secret must be at least 32 bytes"))) ;;
                 mret rawOTP
               else mret "");
  transport ← match Email.SMTP email with
              | None => mret None
              | Some smtp =>
                  credentials ← (if is_empty (SMTPc.CredentialsSecret smtp) then mret no_smtp_credentials
                                 else raw ← secret (SMTPc.CredentialsSecret smtp); ensure (ParseCredentials raw));
                  mret (if needs_email_delivery email then Some (smtp, credentials, Email.OTPTTL email) else None)
              end;
  challenge ← match Email.Turnstile email with
              | Some turnstile =>
                  if is_empty (Turnstilec.SecretName turnstile) then mret Noop
                  else raw ← secret (Turnstilec.SecretName turnstile); mret (Turnstile raw)
              | None => mret Noop
              end;
  mret (inl (otpSecret, transport, challenge))).

Definition start_store (database : StateDB.StateDatabaseConfig) : P -> (Store + failure) * P := run (
  if (StateDB.Driver database =? "postgresql")%string then
    connectionString ← attempt (get_secret source (StateDB.ConnectionStringSecret database))
                         (Wrapped "load state database connection string");
    store ← attempt (NewPostgreSQL connectionString (StateDB.MaxConnections database) (StateDB.QueryTimeout database)) id;
    mret (inl store)
  else
    err ← call (private_directory (StateDB.Path database));
    match (err : option error) with
    | Some err => mret (inr (Fails err))
    | None => store ← attempt (NewSQLite (StateDB.Path database)) id; mret (inl store)
    end).

(** The policy database, when one is configured. *)
Definition start_policy : P -> (unit + failure) * P := run (
  match Config.PolicyDatabase cfg with
  | None => mret (inl tt)
  | Some database =>
      connectionString ← attempt (get_secret source (PolicyDB.ConnectionStringSecret database))
                           (fun _ => Errorf "load policy database connection string");
      _ ← attempt (open_policy_database connectionString database) (Wrapped "initialize policy database");
      mret (inl tt)
  end).

(** The signing key with its identifier, generated when none is configured. *)
Definition start_signer : P -> (Signer * string + failure) * P := run (
  pem ← secret (Secretsc.SigningKeyName (Config.Secrets_ cfg));
  key ← ensure (ParsePrivateKey pem (Config.SigningAlgorithm cfg));
  kid ← (if is_empty (Config.JWKSKID cfg) then
           let (kid, err) := GenerateKeyID key in ensure (match err with Some err => inr err | None => inl kid end)
         else mret (Config.JWKSKID cfg));
  mret (inl ({| signingKey := key; Tokens.kid := kid; issuerURL := Config.IssuerURL cfg; tokenTTL := Config.IDTokenTTL cfg |}, kid))).

(** A part of the start that has its own failures. *)
Definition part {R A} (f : P -> (A + failure) * P) : go P (R + failure) A :=
  answer ← call f;
  match answer with inl a => mret a | inr err => return_ (inr err) end.

(** The parts after the templates and the secrets, in their order; [visit] is the order
    in which the map of connectors is visited. *)
Definition start_parts (visit : list (string * Connectorc.ConnectorConfig)) (templates : Manager)
    (chain : option (list string)) : P -> (Started + failure) * P := run (
  part start_policy ;;
  '(signer, kid) ← part start_signer;
  connectors ← part (start_connectors visit ∅);
  '(encryptionKey, selectionKey) ← part start_keys;
  '(otpSecret, mailer, challenge) ← match Config.Email_ cfg with
                                    | None => mret ("", None, Noop)
                                    | Some email => part (start_email email)
                                    end;
  jwks ← ensure (GenerateJWKS (signingKey signer) kid);
  match Config.StateDatabase cfg with
  | None => mret (inr Panics)
  | Some database =>
      store ← part (start_store database);
      mret (inl {|
        server := {| Server.config := cfg <| Config.JWKSKID := kid |>; Server.signer := signer; jwksData := jwks;
                     otpSecret := otpSecret; encryptionKey := encryptionKey; has_mailer := is_some mailer |};
        connectors := connectors; mailer := mailer; challenge := challenge; selectionKey := selectionKey;
        policy_database := Config.PolicyDatabase cfg; state_store := store; manager := templates; certificate := chain |})
  end).
End Run.

Definition start_certificate (cfg : Config.Config) : P -> (option (list string) + failure) * P := run (
  match Config.ServingCertificate cfg with
  | None => mret (inl None)
  | Some files =>
      chain ← attempt (load_certificate (Serving.CertificateFile files) (Serving.PrivateKeyFile files)) id;
      mret (inl (Some chain))
  end).

(** The start of a run: [demo] is the runtime of a demo, [now] the instant of the samples
    of the pages. *)
Definition start (loaded : Config.Config + error) (demo : option (gmap string string)) (now : time)
    (visit : list (string * Connectorc.ConnectorConfig)) : P -> (Started + failure) * P := run (
  match loaded with
  | inr err => mret (inr (Fails (Wrapped "configuration error" err)))
  | inl cfg =>
      chain ← part (start_certificate cfg);
      templates ← attempt (Load (Config.TemplatesDir cfg) now (sample_pages now)) (Wrapped "load templates");
      source ← match demo with
               | Some values => mret (DemoSecrets values)
               | None => p ← attempt (NewProvider (Config.Secrets_ cfg)) id; mret (Configured p)
               end;
      part (start_parts cfg source visit templates chain) ≫= fun started => mret (inl started)
  end).
End Startup.

(** ** The end of a run *)

(** The first that happens: the listener fails or is closed, or the context is done and
    the shutdown ends. *)
Inductive run_end := ListenerEnded (err : option error) | ShutDown (err : option error).
Definition end_of_run (protocol : string) (e : run_end) : option error :=
  match e with
  | ListenerEnded None => None
  | ListenerEnded (Some err) => Some (Wrapped ("serve " +:+ protocol) err)
  | ShutDown err => err
  end.

(** ** A demo *)

(** What a demo generates: a signing key, a secret, a directory. *)
Class DemoLib (P : Type) := {
  generate_signing_key : P -> (string + error) * P;
  random_32 : P -> option string * P;
  temp_dir : P -> (string + error) * P
}.

Section Demo.
Context {P : Type} `{!DemoLib P}.

Definition with_state_path (cfg : Config.Config) (path : string) : option Config.Config :=
  match Config.StateDatabase cfg with
  | None => None
  | Some database => Some (cfg <| Config.StateDatabase := Some (database <| StateDB.Path := path |>) |>)
  end.

(** [newDemoRuntime]; [parsed] is the parse of the embedded document. *)
Definition newDemoRuntime (parsed : Config.Config + error) : P -> (Config.Config * gmap string string + failure) * P := run (
  match parsed with
  | inr err => mret (inr (Fails (Wrapped "parse embedded demo configuration" err)))
  | inl cfg =>
      key ← call generate_signing_key;
      match key with
      | inr err => mret (inr (Fails err))
      | inl signingKey =>
          otp ← call random_32;
          match otp with
          | None => mret (inr (Fails (Wrapped "generate demo OTP secret" (Errorf "rand"))))
          | Some otp =>
              dir ← call temp_dir;
              match dir with
              | inr err => mret (inr (Fails (Wrapped "create demo state directory" err)))
              | inl dir =>
                  mret (match with_state_path cfg (dir +:+ "/truster-state.db"), Config.Email_ cfg with
                        | Some cfg, Some email =>
                            inl (cfg, <[Email.OTPSecretName email := Base64.encode otp]>
                                        {[ Secretsc.SigningKeyName (Config.Secrets_ cfg) := signingKey ]})
                        | _, _ => inr Panics
                        end)
              end
          end
      end
  end).
End Demo.
