(* ===== verification/StartupProperties.v ===== *)
(** * What a started server has

    Under a configuration the loader accepts, a start never dereferences nil, and a server
    that starts has everything its configuration asks for: a connector for each login
    provider, a transport and a strong secret for its mails, keys of the right size, a
    signing key that serves its algorithm. *)

From S2P Require Import Prelude Runtime Services Base64 Sha256 Credentials Json Config Loader LoaderSafety TrustPolicy TrustConfig TrustProperties AuthProperties LoaderProperties Tokens Http Upstream Providers OidcFlow Server Secrets Mail Databases Pages Startup.

(** ** Parts of the start *)

Definition outcome_of {A} (Q : A -> Prop) (r : A + failure) : Prop :=
  match r with inl a => Q a | inr (Fails _) => True | inr Panics => False end.

Section Parts.
Context {P : Type}.

Lemma yields_attempt {R A} (Q : R -> Prop) (f : P -> (A + error) * P) fail :
  yields (outcome_of Q) (fun _ => True) (attempt f fail : go P (R + failure) A).
Proof. unfold attempt. repeat yields_step; done. Qed.

Lemma yields_attempt_with {R A} (Q : R -> Prop) (Q' : A -> Prop) (f : P -> (A + error) * P) fail :
  produces (succeeds Q') f -> yields (outcome_of Q) Q' (attempt f fail : go P (R + failure) A).
Proof.
  intros Hf. unfold attempt. eapply yields_bind; [by apply yields_call|]. intros [a|err] Ha;
    [by apply yields_ret|by apply yields_return].
Qed.

Lemma yields_ensure {R A} (Q : R -> Prop) (answer : A + error) :
  yields (outcome_of Q) (fun a => answer = inl a) (ensure answer : go P (R + failure) A).
Proof. unfold ensure. destruct answer; [by apply yields_ret|by apply yields_return]. Qed.

Lemma yields_part {R A} (Q : R -> Prop) (Q' : A -> Prop) (f : P -> (A + failure) * P) :
  produces (outcome_of Q') f -> yields (outcome_of Q) Q' (part f : go P (R + failure) A).
Proof.
  intros Hf. unfold part. eapply yields_bind; [by apply yields_call|]. intros [a|[err|]] Ha;
    [by apply yields_ret|by apply yields_return|done].
Qed.
End Parts.
#[export] Hint Resolve yields_attempt yields_ensure yields_part : yields.

(** ** What each part builds *)

Section Sound.
Context `{Env} {P : Type} `{!SecretStores P} `{!Contexts P} `{!Files P} `{!SQLDrivers P} `{!PolicyPool P} `{!TemplateFiles P}.
Context `{!KeyPairs P} `{!TemplateEngine} `{!URLs} `{!IPText} `{!DocumentJSON} `{!KeyLib} `{!KeySets} `{!PKIX} `{!Endpoints}.
Context `{!JSONLib} `{!ConfigText}.
Context (cfg : Config.Config) (source : secret_source).

(** A connector of the configuration with complete credentials and its own callback. *)
Definition connector_built (id : string) (cc : Connectorc.ConnectorConfig) (c : connector) : Prop :=
  exists clientID clientSecret, clientID <> "" /\ clientSecret <> "" /\
    NewConnector cc (Config.IssuerURL cfg +:+ "/callback/" +:+ id) clientID clientSecret = Some (inl c).

(** The connectors built are those of the visited ones that are not for mail. *)
Definition built_from (visited : list (string * Connectorc.ConnectorConfig)) (built : gmap string connector) : Prop :=
  (forall id cc, (id, cc) ∈ visited -> is_email_connector cc = false ->
     exists c, built !! id = Some c /\ connector_built id cc c) /\
  (forall id, is_Some (built !! id) -> exists cc, (id, cc) ∈ visited /\ is_email_connector cc = false).

Lemma ParseOAuthCredentials_ok raw credentials :
  ParseOAuthCredentials raw = inl credentials ->
  OAuthCredentials.ClientID credentials <> "" /\ OAuthCredentials.ClientSecret credentials <> "".
Proof.
  unfold ParseOAuthCredentials. destruct (_ ≫= _) as [creds|]; [|done].
  destruct (is_empty (OAuthCredentials.ClientID creds)) eqn:Hi; [done|].
  destruct (is_empty (OAuthCredentials.ClientSecret creds)) eqn:Hs; [done|].
  intros [= <-]. by rewrite empty_false in Hi, Hs.
Qed.

Lemma NewConnector_total id cc redirectURL clientID clientSecret :
  connector_sound cfg id cc -> NewConnector cc redirectURL clientID clientSecret <> None.
Proof.
  intros Hcc. unfold NewConnector. repeat case_match; try done. subst.
  destruct (cn_generic _ _ _ Hcc) as (generic & Hg & _); [by apply String.eqb_eq|].
  unfold NewGenericConnector. by rewrite Hg.
Qed.

Lemma start_connector_sound id cc visited built :
  connector_sound cfg id cc -> built_from visited built -> id ∉ visited.*1 ->
  produces (outcome_of (built_from (visited ++ [(id, cc)]))) (start_connector cfg source id cc built).
Proof.
  intros Hcc [Hb Hd] Hid. unfold start_connector, secret. apply produces_run.
  destruct (is_email_connector cc) eqn:He.
  - apply yields_bind with (Q' := fun _ => False); [|done]. apply yields_return. split.
    + intros id' cc' [Hin|[= -> ->]%list_elem_of_singleton]%elem_of_app Hn; [by apply Hb|congruence].
    + intros id' Hs. destruct (Hd id' Hs) as (cc' & Hin & Hn). exists cc'. set_solver.
  - cbn [return_if]. apply yields_bind with (Q' := fun _ => True); [by apply yields_ret|]. intros _ _.
    eapply yields_bind; [apply yields_attempt|]. intros raw _.
    eapply yields_bind; [apply yields_ensure|]. intros credentials [Hi Hs]%ParseOAuthCredentials_ok.
    pose proof (NewConnector_total id cc (Config.IssuerURL cfg +:+ "/callback/" +:+ id)
      (OAuthCredentials.ClientID credentials) (OAuthCredentials.ClientSecret credentials) Hcc) as Ht.
    destruct (NewConnector _ _ _ _) as [[c|err]|] eqn:Hc; [|by apply yields_ret|done]. apply yields_ret. split.
    + intros id' cc' [Hin|[= -> ->]%list_elem_of_singleton]%elem_of_app Hn.
      * assert (id <> id') as Hne by (intros ->; apply Hid, list_elem_of_fmap; by exists (id', cc')).
        rewrite lookup_insert_ne by done. by apply Hb.
      * rewrite lookup_insert_eq. exists c. split; [done|]. by exists (OAuthCredentials.ClientID credentials), (OAuthCredentials.ClientSecret credentials).
    + intros id' Hl. destruct (decide (id = id')) as [<-|Hne]; [exists cc; set_solver|].
      rewrite lookup_insert_ne in Hl by done. destruct (Hd id' Hl) as (cc' & Hin & Hn). exists cc'. set_solver.
Qed.

Lemma start_connectors_sound visit visited built :
  Forall (fun kv => connector_sound cfg kv.1 kv.2) visit -> NoDup ((visited ++ visit).*1) -> built_from visited built ->
  produces (outcome_of (built_from (visited ++ visit))) (start_connectors cfg source visit built).
Proof.
  revert visited built. induction visit as [|[id cc] visit IH]; intros visited built Hf Hn Hb p; cbn.
  { by rewrite app_nil_r. }
  apply Forall_cons in Hf as [Hcc Hf].
  pose proof (start_connector_sound id cc visited built Hcc Hb) as Hs.
  assert (id ∉ visited.*1) as Hid.
  { rewrite fmap_app, NoDup_app in Hn. destruct Hn as (_ & Hn & _). intros Hin. apply (Hn id Hin). set_solver. }
  specialize (Hs Hid p). destruct (start_connector cfg source id cc built p) as [[built'|err] p']; cbn in Hs.
  - assert (visited ++ (id, cc) :: visit = (visited ++ [(id, cc)]) ++ visit) as Happ by (by rewrite <- app_assoc).
    rewrite Happ in *. by apply IH.
  - cbn. by destruct err.
Qed.

Definition keys_sound (keys : string * string) : Prop :=
  Secretsc.EncryptionKeyName (Config.Secrets_ cfg) <> "" -> len keys.1 = 32 /\ len keys.2 = 32.

Lemma start_keys_sound : produces (outcome_of keys_sound) (start_keys cfg source).
Proof.
  unfold start_keys. apply produces_run. destruct (is_empty _) eqn:Hn.
  - apply yields_ret. apply empty_true in Hn. by intros ?.
  - eapply yields_bind; [apply yields_attempt|]. intros raw _.
    destruct (unhex raw) as [key|]; [|by apply yields_ret].
    destruct (Z.eqb_spec (len key) 32) as [Hk|]; [|by apply yields_ret]. apply yields_ret. intros _. split; [done|].
    cbn [snd]. unfold len. by rewrite length_hkdf.
Qed.

(** A mail can be sent, its codes are keyed by a long secret, and the transport and the
    challenge are the configured ones. *)
Definition email_sound (email : Email.EmailConfig)
    (built : string * option (SMTPc.SMTPConfig * SMTPCredentials.Credentials * duration) * verifier) : Prop :=
  let '(otpSecret, mailer, challenge) := built in
  (needs_email_delivery cfg email = true -> 32 <= len otpSecret) /\
  (needs_email_delivery cfg email = true -> forall smtp, Email.SMTP email = Some smtp ->
     exists credentials, mailer = Some (smtp, credentials, Email.OTPTTL email)) /\
  (forall turnstile, Email.Turnstile email = Some turnstile -> Turnstilec.SecretName turnstile <> "" ->
     exists secret, challenge = Turnstile secret).

Lemma start_email_sound email : produces (outcome_of (email_sound email)) (start_email cfg source email).
Proof.
  unfold start_email, secret. apply produces_run.
  apply yields_bind with (Q' := fun otpSecret => needs_email_delivery cfg email = true -> 32 <= len otpSecret).
  { destruct (needs_email_delivery cfg email); [|by apply yields_ret].
    eapply yields_bind; [apply yields_attempt|]. intros raw _.
    eapply yields_bind; [by apply yields_return_if|]. intros _ Hl%Z.ltb_ge. by apply yields_ret. }
  intros otpSecret Ho.
  apply yields_bind with (Q' := fun mailer => needs_email_delivery cfg email = true -> forall smtp,
    Email.SMTP email = Some smtp -> exists credentials, mailer = Some (smtp, credentials, Email.OTPTTL email)).
  { destruct (Email.SMTP email) as [smtp|]; [|by apply yields_ret]. apply yields_bind with (Q' := fun _ => True).
    - destruct (is_empty (SMTPc.CredentialsSecret smtp)); [by apply yields_ret|].
      eapply yields_bind; [apply yields_attempt|]. intros raw _. eapply yields_mono; [apply yields_ensure|done].
    - intros credentials _. apply yields_ret. intros -> ? [= <-]. by exists credentials. }
  intros mailer Hm.
  apply yields_bind with (Q' := fun challenge => forall turnstile, Email.Turnstile email = Some turnstile ->
    Turnstilec.SecretName turnstile <> "" -> exists secret, challenge = Turnstile secret).
  { destruct (Email.Turnstile email) as [turnstile|]; [|by apply yields_ret].
    destruct (is_empty (Turnstilec.SecretName turnstile)) eqn:Hn.
    - apply yields_ret. apply empty_true in Hn. by intros ? [= <-].
    - eapply yields_bind; [apply yields_attempt|]. intros raw _. apply yields_ret. intros _ _ _. by exists raw. }
  intros challenge Hc. by apply yields_ret.
Qed.

(** The key serves its algorithm, and the tokens carry the issuer and live as configured. *)
Definition signer_sound (built : Signer * string) : Prop :=
  let signer := built.1 in
  Algorithm (signingKey signer) = Config.SigningAlgorithm cfg /\
  (exists pem block rest key, pem_decode pem = (Some block, rest) /\ block_type block = "PRIVATE KEY" /\
     block_bytes block = PrivateKey (signingKey signer) /\ parse_pkcs8 (PrivateKey (signingKey signer)) = Some key /\
     check_key (Config.SigningAlgorithm cfg) key = None) /\
  Tokens.kid signer = built.2 /\ issuerURL signer = Config.IssuerURL cfg /\ tokenTTL signer = Config.IDTokenTTL cfg /\
  (Config.JWKSKID cfg <> "" -> Tokens.kid signer = Config.JWKSKID cfg).

Lemma ParsePrivateKey_ok pem algorithm key :
  ParsePrivateKey pem algorithm = inl key ->
  Algorithm key = algorithm /\ algorithm ∈ signingAlgorithms /\
  exists block rest private, pem_decode pem = (Some block, rest) /\ block_type block = "PRIVATE KEY" /\
    block_headers block = 0 /\ trim_space rest = "" /\ block_bytes block = PrivateKey key /\
    PublicKey key = public_of (PrivateKey key) /\
    parse_pkcs8 (PrivateKey key) = Some private /\ check_key algorithm private = None.
Proof.
  unfold ParsePrivateKey. destruct (pem_decode pem) as [[block|] rest]; [|done].
  destruct (String.eqb_spec (block_type block) "PRIVATE KEY") as [Ht|]; [|done]. cbn [negb].
  destruct (Z.eqb_spec (block_headers block) 0) as [Hh|]; [|done]. cbn [negb orb].
  destruct (is_empty (trim_space rest)) eqn:Hr; [|done]. cbn [negb].
  destruct (parse_pkcs8 (block_bytes block)) as [private|] eqn:Hp; [|done].
  destruct (mem algorithm signingAlgorithms) eqn:Ha; [|done]. cbn [negb].
  destruct (check_key algorithm private) eqn:Hk; [done|]. intros [= <-]. cbn.
  apply mem_true in Ha. apply empty_true in Hr. split_and!; [done..|]. by exists block, rest, private.
Qed.

Lemma start_signer_sound : produces (outcome_of signer_sound) (start_signer cfg source).
Proof.
  unfold start_signer, secret. apply produces_run.
  eapply yields_bind; [apply yields_attempt|]. intros pem _.
  eapply yields_bind; [apply yields_ensure|].
  intros key (Ha & _ & block & rest & private & Hd & Ht & _ & _ & Hb & _ & Hp & Hk)%ParsePrivateKey_ok.
  apply yields_bind with (Q' := fun kid => Config.JWKSKID cfg <> "" -> kid = Config.JWKSKID cfg).
  { destruct (is_empty (Config.JWKSKID cfg)) eqn:He; [|by apply yields_ret].
    apply empty_true in He. destruct (GenerateKeyID key) as [kid [err|]]; [by apply yields_return|by apply yields_ret]. }
  intros kid Hkid. apply yields_ret. cbn. unfold signer_sound. cbn. split_and!; try done. by exists pem, block, rest, private.
Qed.

(** [a] was opened with the connection string that the secret of this name held just
    before. *)
Definition opened_from {A} (name : string) (open : string -> P -> (A + error) * P) (a : A) (connectionString : string) : Prop :=
  exists p p1 p2, get_secret source name p = (inl connectionString, p1) /\ open connectionString p1 = (inl a, p2).

(** An opening with the string of a secret. *)
Lemma attempt_opened {A B} (name : string) (open : string -> P -> (A + error) * P) (done_ : A -> B) fail fail' (Q : B -> Prop) :
  (forall a connectionString, opened_from name open a connectionString -> Q (done_ a)) ->
  produces (outcome_of Q) (run (
    connectionString ← attempt (get_secret source name) fail;
    a ← attempt (open connectionString) fail';
    mret (inl (done_ a)))).
Proof.
  intros HQ w. unfold run, attempt, mbind, go_bind, call, return_, mret, go_ret.
  destruct (get_secret source name w) as [[cs|err] w1] eqn:Hs; [|done].
  destruct (open cs w1) as [[a|err] w2] eqn:Ho; [|done]. apply (HQ a cs). by exists w, w1, w2.
Qed.

(** The state database of SQLite is private to the server's user; that of PostgreSQL was
    opened with the configured connection string, in which the host written in the URL is
    local or the mode is one of TLS, and has the schema the code is written for. *)
Definition store_guarded (database : StateDB.StateDatabaseConfig) (store : Store) : Prop :=
  if (StateDB.Driver database =? "postgresql")%string
  then store_postgresql store = true /\ schema_usable /\ exists connectionString,
    opened_from (StateDB.ConnectionStringSecret database)
      (fun text => NewPostgreSQL text (StateDB.MaxConnections database) (StateDB.QueryTimeout database)) store connectionString /\
    guarded_connection connectionString
  else store_postgresql store = false /\ private_dir (StateDB.Path database) /\
       (StateDB.Path database = ":memory:" \/ private_file (StateDB.Path database)).

Lemma start_store_guarded database : produces (outcome_of (store_guarded database)) (start_store source database).
Proof.
  unfold start_store, store_guarded. destruct (_ =? _)%string.
  - apply (attempt_opened _ (fun text => NewPostgreSQL text _ _) id). intros store cs Hcs.
    pose proof Hcs as (p & p1 & p2 & _ & Ho).
    pose proof (NewPostgreSQL_guarded cs (StateDB.MaxConnections database) (StateDB.QueryTimeout database) p1) as Hg.
    rewrite Ho in Hg. destruct Hg as (? & _ & ? & ?). split_and!; [done..|by exists cs].
  - apply produces_run. eapply yields_bind; [by apply yields_call, private_directory_private|]. intros [err|] Hd; [by apply yields_ret|].
    eapply yields_bind; [apply yields_attempt_with, NewSQLite_private|]. intros store (? & Hp). apply yields_ret.
    split_and!; [done|by apply Hd|naive_solver].
Qed.

(** The policy database was opened with the configured connection string, and every address
    the driver reads in it is local or encrypted. *)
Definition policy_guarded : Prop := forall database, Config.PolicyDatabase cfg = Some database ->
  exists connectionString pool,
    opened_from (PolicyDB.ConnectionStringSecret database) (fun text => open_policy_database text database) tt connectionString /\
    pool_parse connectionString = Some pool /\ addresses_guarded pool.

Lemma start_policy_guarded : produces (outcome_of (fun _ => policy_guarded)) (start_policy cfg source).
Proof.
  unfold start_policy, policy_guarded.
  destruct (Config.PolicyDatabase cfg) as [database|]; [|by apply produces_run, yields_ret].
  apply (attempt_opened _ (fun text => open_policy_database text database) (fun _ => tt)). intros [] cs Hcs.
  pose proof Hcs as (p & p1 & p2 & _ & Ho). pose proof (open_policy_database_guarded cs database p1) as Hg.
  rewrite Ho in Hg. destruct Hg as (pool & ? & ?). intros ? [= <-]. by exists cs, pool.
Qed.

(** ** The whole *)

(** A server that has what its configuration asks for. *)
Record started_sound (s : Started) : Prop := {
  st_config : Server.config (server s) = cfg <| Config.JWKSKID := Tokens.kid (Server.signer (server s)) |>;
  st_connectors : built_from (map_to_list (Config.UserLoginConnectors cfg)) (connectors s);
  st_signer : signer_sound (Server.signer (server s), Tokens.kid (Server.signer (server s)));
  st_keys : keys_sound (Server.encryptionKey (server s), selectionKey s);
  st_email : forall email, Config.Email_ cfg = Some email -> email_sound email (Server.otpSecret (server s), mailer s, challenge s);
  st_mailer : Server.has_mailer (server s) = is_some (mailer s);
  st_store : exists database, Config.StateDatabase cfg = Some database /\ store_guarded database (state_store s);
  st_policy : policy_guarded
}.

Lemma start_parts_sound visit templates chain :
  config_sound cfg -> visit ≡ₚ map_to_list (Config.UserLoginConnectors cfg) ->
  produces (outcome_of started_sound) (start_parts cfg source visit templates chain).
Proof.
  intros Hcfg Hv. unfold start_parts. apply produces_run.
  eapply yields_bind; [apply yields_part, start_policy_guarded|]. intros u Hpolicy.
  eapply yields_bind; [apply yields_part, start_signer_sound|]. intros [signer kid] Hsigner.
  eapply yields_bind.
  { apply yields_part, (start_connectors_sound visit []).
    - rewrite Hv. apply Forall_forall. intros [id cc] Hin%elem_of_map_to_list. by apply (cf_connectors _ Hcfg).
    - cbn. rewrite Hv. apply NoDup_fst_map_to_list.
    - split; [by intros ? ? ?%not_elem_of_nil|]. intros id [? Hl]. by rewrite lookup_empty in Hl. }
  intros built Hbuilt. eapply yields_bind; [apply yields_part, start_keys_sound|]. intros [key selection] Hkeys.
  apply yields_bind with (Q' := fun built => forall email, Config.Email_ cfg = Some email -> email_sound email built).
  { destruct (Config.Email_ cfg) as [email|]; [|by apply yields_ret].
    eapply yields_mono; [apply yields_part, start_email_sound|]. by intros built' Hb ? [= <-]. }
  intros [[otp transport] verifier] Hemail. eapply yields_bind; [apply yields_ensure|]. intros jwks _.
  destruct (cf_state _ Hcfg) as (database & Hdb & _). rewrite Hdb.
  eapply yields_bind; [apply yields_part, start_store_guarded|]. intros store Hstore. apply yields_ret.
  pose proof Hsigner as (_ & _ & Hkid & _). cbn in Hkid. subst kid.
  split; cbn; try done; [|by exists database].
  destruct Hbuilt as [Hb Hd]. split; [intros id cc Hin; apply Hb; by rewrite Hv|].
  intros id Hs. destruct (Hd id Hs) as (cc & Hin & ?). exists cc. by rewrite <- Hv.
Qed.
End Sound.

Section Whole.
Context `{Env} {P : Type} `{!SecretStores P} `{!Contexts P} `{!Files P} `{!SQLDrivers P} `{!PolicyPool P} `{!TemplateFiles P}.
Context `{!KeyPairs P} `{!TemplateEngine} `{!URLs} `{!IPText} `{!DocumentJSON} `{!KeyLib} `{!KeySets} `{!PKIX} `{!Endpoints}.
Context `{!JSONLib} `{!ConfigText}.

Lemma has_email_visited cfg id cc :
  Config.UserLoginConnectors cfg !! id = Some cc -> is_email_connector cc = true -> has_email cfg = true.
Proof.
  intros Hl He. apply existsb_exists. exists (id, cc). split; [|done]. by apply list_elem_of_In, elem_of_map_to_list.
Qed.

(** A login by mail is possible: there is a transport, and a secret for the codes. *)
Definition mail_ready (cfg : Config.Config) (s : Started) : Prop :=
  is_Some (Config.Email_ cfg) /\ Server.has_mailer (server s) = true /\ 32 <= len (Server.otpSecret (server s)).

Lemma started_mail_ready cfg source s email :
  config_sound cfg -> started_sound cfg source s -> Config.Email_ cfg = Some email ->
  needs_email_delivery cfg email = true -> mail_sound email -> mail_ready cfg s.
Proof.
  intros Hcfg Hs He Hn Hm. pose proof (st_email _ _ _ Hs _ He) as (Ho & Ht & _).
  destruct (ml_smtp _ Hm) as (smtp & Hsmtp & _). destruct (Ht Hn smtp Hsmtp) as (credentials & Hc).
  split_and!; [by eexists| |by apply Ho]. by rewrite (st_mailer _ _ _ Hs), Hc.
Qed.

Lemma succeeds_observed {A} (f : P -> (A + error) * P) : produces (succeeds (fun a => observed f (inl a))) f.
Proof. intros w. destruct (f w) as [[a|err] w'] eqn:Hf; [by exists w, w'|done]. Qed.

(** Where the secrets of a run come from: the demo, or the provider of the configuration. *)
Definition source_of (cfg : Config.Config) (demo : option (gmap string string)) (source : secret_source) : Prop :=
  match demo with
  | Some values => source = DemoSecrets values
  | None => exists p, observed (NewProvider (Config.Secrets_ cfg)) (inl p) /\ source = Configured p
  end.

Lemma start_sound loaded demo now visit cfg :
  loaded = inl cfg -> config_sound cfg -> visit ≡ₚ map_to_list (Config.UserLoginConnectors cfg) ->
  produces (outcome_of (fun s => exists source, source_of cfg demo source /\ started_sound cfg source s)) (start loaded demo now visit).
Proof.
  intros -> Hcfg Hv. unfold start. apply produces_run.
  eapply yields_bind with (Q' := fun _ => True).
  { apply yields_part. unfold start_certificate. apply produces_run.
    destruct (Config.ServingCertificate cfg); [|by apply yields_ret].
    eapply yields_bind; [apply yields_attempt|]. intros chain _. by apply yields_ret. }
  intros chain _. eapply yields_bind; [apply yields_attempt|]. intros templates _.
  eapply yields_bind with (Q' := source_of cfg demo).
  { unfold source_of. destruct demo; [by apply yields_ret|].
    eapply yields_bind; [apply yields_attempt_with, succeeds_observed|]. intros p Hp. apply yields_ret. by exists p. }
  intros source Hsource. eapply yields_bind; [by apply yields_part, start_parts_sound|]. intros s Hs. apply yields_ret.
  by exists source.
Qed.

(** C15: Under a configuration the loader accepts, a start never dereferences nil, and a
    server that starts has a connector with its own callback and complete credentials for
    exactly the providers of the configuration, a signing key that serves its algorithm,
    an encryption key of 32 bytes when one is named, a mail transport with a secret of 32
    bytes as soon as a login or a verification needs it, and the configured bot challenge.
    A SQLite state database is private to its owner; a PostgreSQL one was opened with the
    string of the configured secret, in which the host written in the URL is local or the
    mode is one of TLS; every address of the policy database's pool is local or encrypted. *)
Theorem started_server_is_complete (document override : string) (cfg : Config.Config) (demo : option (gmap string string))
    (now : time) (visit : list (string * Connectorc.ConnectorConfig)) (p p' : P) (answer : Started + failure)
    (Hload : Parse document override = inl cfg)
    (Hvisit : visit ≡ₚ map_to_list (Config.UserLoginConnectors cfg))
    (Hstart : start (inl cfg) demo now visit p = (answer, p')) :
  outcome_of (fun s => (exists source, source_of cfg demo source /\ started_sound cfg source s) /\
    (forall id cc, Config.UserLoginConnectors cfg !! id = Some cc ->
       (is_email_connector cc = true -> mail_ready cfg s) /\
       (is_email_connector cc = false -> is_Some (connectors s !! id)) /\
       (Connectorc.Type_ cc = "github" -> len (Server.encryptionKey (server s)) = 32)) /\
    (forall email, Config.Email_ cfg = Some email -> Email.VerificationMode email <> "disabled" -> mail_ready cfg s)) answer.
Proof.
  destruct (Parse_sound _ _ _ Hload) as [Hcfg _].
  pose proof (start_sound (inl cfg) demo now visit cfg eq_refl Hcfg Hvisit p) as Hs. rewrite Hstart in Hs. cbn in Hs.
  destruct answer as [s|[err|]]; cbn in *; [|done..]. split; [done|]. destruct Hs as (source & _ & Hs). split.
  - intros id cc Hl. pose proof (proj2 (cf_connectors _ Hcfg) id cc Hl) as Hcc. split_and!.
    + intros He. destruct (cn_mail _ _ _ Hcc) as (email & Hemail & Hm); [by apply String.eqb_eq|].
      apply (started_mail_ready cfg source s email); [done..| |done].
      unfold needs_email_delivery. by rewrite (has_email_visited _ _ _ Hl He).
    + intros He. destruct (st_connectors _ _ _ Hs) as [Hb _].
      destruct (Hb id cc) as (c & Hc & _); [by apply elem_of_map_to_list|done|by eexists].
    + intros Hg. apply (st_keys _ _ _ Hs), (cn_encryption _ _ _ Hcc). by left.
  - intros email Hemail Hmode. destruct (cf_mail _ Hcfg _ Hemail) as [Hin Hm].
    apply (started_mail_ready cfg source s email); [done..| |by apply Hm].
    unfold needs_email_delivery. apply orb_true_iff. right. apply mem_true. set_solver.
Qed.
End Whole.

(** ** A machine on which the sample configuration starts *)

Module Machine.

#[local] Instance no_contexts : Contexts unit := fun p => (false, p).
#[local] Instance secrets : SecretStores unit := {|
  open_client _ _ p := (None, p);
  client_secret _ _ p := (inl None, p);
  google_payload _ p := (inr (Errorf "none"), p);
  getenv name p :=
    (if (name =? "encryption")%string then "000102030405060708090a0b0c0d0e0f101112131415161718191A1B1C1D1E1F"
     else if (name =? "otp")%string then "a secret of more than thirty-two bytes"
     else name, p);
  open_file _ p := (inr (Errorf "none"), p)
|}.
#[local] Instance documents : DocumentJSON := fun text =>
  if (text =? "hub")%string then Some (JObject [("client_id", JString "client"); ("client_secret", JString "secret")]) else None.
#[local] Instance keys : KeyLib := {|
  pem_decode text := (Some {| block_type := "PRIVATE KEY"; block_headers := 0; block_bytes := text |}, "");
  parse_pkcs8 _ := Some (RSAKey 2048 true);
  public_of text := text
|}.
#[local] Instance pkix : PKIX := Some.
#[local] Instance key_sets : KeySets := {|
  jwk_from_raw _ := Some ∅; jwk_set name v key := Some (<[name := v]> key); jwks_marshal _ := Some "{}"
|}.
#[local] Instance endpoints : Endpoints :=
  {| google_auth_url := "g"; google_token_url := "g"; github_auth_url := "h"; github_token_url := "h" |}.
#[local] Instance files : Files unit := {|
  dir_of _ := "data";
  mkdir_all _ _ p := (None, p);
  stat _ p := (inl {| info_dir := true; info_regular := false; info_perm := perm_0700 |}, p);
  lstat _ p := (inr (Errorf "none"), p);
  create_exclusive _ _ p := (Created None, p)
|}.
#[local] Instance drivers : SQLDrivers unit := {|
  path_escape s := s; open_sqlite _ p := (None, p); exec_sqlite _ p := (None, p); exec_schema p := (None, p); close_store p := (None, p);
  parse_connection _ := None; ping_postgresql _ p := (None, p); schema_row p := (inl (2, false), p);
  privileges_row p := (inl true, p); probe_row p := (None, p); encode_query _ := ""; url_string _ := "";
  migrate_open _ p := (None, p); migrate_up p := (None, p)
|}.
#[local] Instance pool : PolicyPool unit := {|
  pool_parse _ := Some {| conn_host := "db.example"; conn_tls := true; conn_fallbacks := [] |};
  pool_open _ p := (None, p); pool_ping p := (None, p); pool_acquire p := (None, p); pool_prepare _ p := (None, p)
|}.
#[local] Instance ips : IPText := fun _ => false.
#[local] Instance template_files : TemplateFiles unit := {|
  read_overlay _ _ p := (NoFile, p); embedded := FileText; lstat_public _ p := (NoRoot, p); walk_public _ p := ([], p)
|}.
#[local] Instance engine : TemplateEngine := {|
  template := string; parse_templates _ sources := Some (join "" sources); execute t _ := Some t;
  type_by_extension _ := ""; detect_content_type _ := "text/plain"
|}.
#[local] Instance pairs : KeyPairs unit := fun _ _ p => (inl ["chain"], p).

Import Demo SampleDB LoaderProperties.Site.
Definition visit : list (string * Connectorc.ConnectorConfig) := map_to_list (Config.UserLoginConnectors loaded).
Definition answer : Started + failure := (start (inl loaded) None 0 visit tt).1.

Example started_site :
  match answer with
  | inl s => (map fst (map_to_list (connectors s)), Server.has_mailer (server s), len (Server.encryptionKey (server s)),
              store_postgresql (state_store s), challenge s)
  | inr _ => ([], false, 0, true, Noop)
  end = (["hub"], true, 32, false, Noop).
Proof. vm_compute. reflexivity. Qed.

End Machine.

Import Demo SampleDB LoaderProperties.Site Machine.
#[local] Existing Instances no_contexts secrets documents keys pkix key_sets endpoints files drivers pool ips template_files
  engine pairs.

Lemma started_server_is_complete_witness :
  exists s source, answer = inl s /\ source_of loaded None source /\ started_sound loaded source s /\ mail_ready loaded s /\ is_Some (connectors s !! "hub").
Proof.
  assert (Parse "document" "" = inl loaded) as Hp by (vm_compute; reflexivity).
  assert (visit ≡ₚ map_to_list (Config.UserLoginConnectors loaded)) as Hv by (unfold visit; apply Permutation_refl).
  pose proof (started_server_is_complete "document" "" loaded None 0 visit tt _ answer Hp Hv (surjective_pairing _)) as Hs.
  assert (exists s, answer = inl s) as [s Ha] by (vm_compute; by eexists). rewrite Ha in Hs. cbn [outcome_of] in Hs.
  destruct Hs as ((source & Hsource & Hs) & Hc & _). exists s, source.
  split; [exact Ha|]. split; [exact Hsource|]. split; [exact Hs|].
  destruct (Config.UserLoginConnectors loaded !! "mail") as [mail|] eqn:Hm; [|exfalso; vm_compute in Hm; discriminate].
  destruct (Config.UserLoginConnectors loaded !! "hub") as [hub|] eqn:Hh; [|exfalso; vm_compute in Hh; discriminate].
  split; [apply (Hc "mail" mail Hm)|apply (Hc "hub" hub Hh)].
  - vm_compute in Hm. injection Hm as <-. reflexivity.
  - vm_compute in Hh. injection Hh as <-. reflexivity.
Defined.
