(* ===== verification/Commands.v ===== *)
(** * internal/cmd: the commands beside the server

    migrate.go, check_config.go, check_templates.go and check_trust.go: what each command
    does with a loaded configuration and what it prints. *)

From S2P Require Import Prelude Runtime Json Config Services TrustPolicy TrustConfig LoaderSafety Trust Http Secrets Databases Pages Startup.

Section Commands.
Context `{Env} {P : Type} `{!SecretStores P} `{!Contexts P} `{!Files P} `{!SQLDrivers P} `{!PolicyPool P} `{!TemplateFiles P}.
Context `{!TemplateEngine} `{!URLs} `{!IPText}.

(** ** migrate *)

(** The secret of the connection string of the migrations. *)
Definition migration_secret (database : StateDB.StateDatabaseConfig) : string :=
  let name := default "" (StateDB.Migrations database) in
  if is_empty name then StateDB.ConnectionStringSecret database else name.

(** The SQLite database is made where it is missing. *)
Definition migrate_sqlite (path : string) : P -> (unit + failure) * P := run (
  err ← call (mkdir_all (dir_of path) perm_0755);
  match (err : option error) with
  | Some err => mret (inr (Fails (Wrapped "create state database directory" err)))
  | None =>
      _ ← attempt (NewSQLite path) id;
      err ← call close_store;
      mret (match (err : option error) with Some err => inr (Fails err) | None => inl tt end)
  end).

Definition migrate (loaded : Config.Config + error) : P -> (unit + failure) * P := run (
  match loaded with
  | inr err => mret (inr (Fails (Wrapped "configuration error" err)))
  | inl cfg =>
      match Config.StateDatabase cfg with
      | None => mret (inr Panics)
      | Some database =>
          if (StateDB.Driver database =? "sqlite")%string then call (migrate_sqlite (StateDB.Path database))
          else
            p ← attempt (NewProvider (Config.Secrets_ cfg)) (Wrapped "create secrets provider");
            connectionString ← attempt (GetSecret p (migration_secret database))
                                 (Wrapped "load state database migration connection string");
            err ← call (MigratePostgreSQL connectionString);
            mret (match (err : option error) with Some err => inr (Fails err) | None => inl tt end)
      end
  end).

(** ** check *)

Definition check_config (loaded : Config.Config + error) : string + error :=
  match loaded with
  | inr err => inr (Wrapped "configuration error" err)
  | inl _ => inl "configuration is valid"
  end.

Definition check_templates (loaded : Config.Config + error) (now : time) : P -> (string + error) * P := run (
  match loaded with
  | inr err => mret (inr (Wrapped "configuration error" err))
  | inl cfg =>
      manager ← call (Load (Config.TemplatesDir cfg) now (sample_pages now));
      mret (match manager with
            | inr err => inr (Wrapped "template validation failed" err)
            | inl _ => inl "templates are valid"
            end)
  end).

(** [newTrustPolicyResolver]: whether the policy database could be opened. *)
Definition newTrustPolicyResolver (cfg : Config.Config) : P -> (unit + error) * P := run (
  match Config.PolicyDatabase cfg with
  | None => mret (inl tt)
  | Some database =>
      p ← call (NewProvider (Config.Secrets_ cfg));
      match p with
      | inr _ => mret (inr (Errorf "initialize policy secrets provider"))
      | inl p =>
          connectionString ← call (GetSecret p (PolicyDB.ConnectionStringSecret database));
          match connectionString with
          | inr _ => mret (inr (Errorf "load policy database connection string"))
          | inl connectionString =>
              opened ← call (open_policy_database connectionString database);
              mret (match opened with inl _ => inl tt | inr err => inr (Wrapped "initialize policy database" err) end)
          end
      end
  end).
End Commands.

(** ** check trust *)

Definition newline : string := String "010" "".

(** The token of a file or of the standard input: a file that does not open, or what is
    read of it, if it can be. *)
Definition read_token (input : option (option string)) : string + error :=
  match input with
  | None => inr (Errorf "open token file: unavailable")
  | Some None => inr (Errorf "read token: input exceeds safe limit")
  | Some (Some content) =>
      let data := take_bytes (Z.to_nat (MaxJWTBytes + 1)) content in
      if MaxJWTBytes <? len data then inr (Errorf "read token: input exceeds safe limit") else inl data
  end.

Definition diagnostic_line (d : Diagnostic) : string :=
  "binding " +:+ BindingID d +:+ ": " +:+ (if Match_ d then "match" else "no match")
  +:+ (if is_empty (Reason d) then "" else " (" +:+ Reason d +:+ ")") +:+ newline.

(** What the command prints of a result. *)
Definition trust_report (result : Verified.Result) (verifyErr : option error) : string :=
  "issuer: " +:+ Verified.Issuer result +:+ newline +:+ "standard claims: verified" +:+ newline
  +:+ join "" (map diagnostic_line (Verified.Diagnostics result))
  +:+ match verifyErr, Verified.Binding result with
      | None, Some binding => "subject: " +:+ Effective.Subject binding +:+ newline
                              +:+ "groups: " +:+ join ", " (Effective.Groups binding) +:+ newline
      | _, _ => ""
      end.

(** The command on a configuration: what it prints and how it ends; [verify] is
    [VerifyAndEvaluate] of the trust service, [opened] the outcome of
    [newTrustPolicyResolver] and [input] what the reader yields. *)
Definition check_trust {W} `{Env} (verify : string -> string -> W -> (option Verified.Result * option error) * W)
    (loaded : Config.Config + error) (opened : unit + error) (clientID tokenFile : string) (input : option (option string)) (w : W)
  : (string * option error) * W :=
  let fail err := (("", Some err), w) in
  if is_empty clientID || is_empty tokenFile then fail (Errorf "--client-id and --token-file are required")
  else match loaded with
  | inr err => fail err
  | inl _ =>
      match opened with
      | inr err => fail err
      | inl _ =>
          match read_token input with
          | inr err => fail err
          | inl data =>
              let '((result, verifyErr), w) := verify (trim_space data) clientID w in
              ((match result with Some result => trust_report result verifyErr | None => "" end,
                Wrapped "trust check denied" <$> verifyErr), w)
          end
      end
  end.

(** ** The command line *)

(** The values of the build, those of [buildvars] where the linker sets none. *)
Record BuildVars := {
  BuildVersion : string;
  BuildDate : string;
  CommitHash : string;
  CommitDate : string;
  CommitBranch : string
}.
Definition development_build : BuildVars :=
  {| BuildVersion := "dev"; BuildDate := "unknown"; CommitHash := "unknown"; CommitDate := "unknown";
     CommitBranch := "unknown" |}.

(** The writer of the command and cobra's help text. *)
Class Terminal (P : Type) := {
  write_output : string -> P -> option error * P;
  print_help : P -> option error * P
}.

Definition build_details (b : BuildVars) : string :=
  "  Build date:   " +:+ BuildDate b +:+ newline +:+ "  Commit:       " +:+ CommitHash b +:+ newline
  +:+ "  Commit date:  " +:+ CommitDate b +:+ newline +:+ "  Branch:       " +:+ CommitBranch b +:+ newline.

(** [NewRootCmd]: the flags [--version] and [--verbose]. *)
Definition root_command {P} `{!Terminal P} (b : BuildVars) (showVersion verboseVersion : bool) : P -> option error * P := run (
  return_if (verboseVersion && negb showVersion) (Some (Errorf "--verbose requires --version")) ;;
  if negb showVersion then call print_help
  else
    err ← call (write_output ("truster version " +:+ BuildVersion b +:+ newline));
    match (err : option error) with
    | Some err => mret (Some (Wrapped "write version" err))
    | None =>
        if negb verboseVersion then mret None
        else
          err ← call (write_output (build_details b));
          mret (Wrapped "write build details" <$> (err : option error))
    end).

(** The default of a path: the environment's, or the program's. *)
Definition default_path (fromEnv otherwise : string) : string := if is_empty fromEnv then otherwise else fromEnv.
Definition default_config_path (fromEnv : string) : string := default_path fromEnv "./config.jsonc".
Definition default_templates_dir (fromEnv : string) : string := default_path fromEnv "./templates".

(** [newServeCmd]: a demo has no configuration file. *)
Definition serve_command {P X} (demo configGiven : bool) (serve : bool -> P -> (X + error) * P) : P -> (X + error) * P := run (
  return_if (demo && configGiven) (inr (Errorf "--demo and --config cannot be used together")) ;;
  call (serve demo)).

(** * The commands: what they leave behind

    A database made by [migrate] in a directory that was missing is one the server refuses;
    [check trust] ends without an error exactly for a token the service accepts. *)

(** ** Modes of directories *)

(** A file system in which a directory keeps the mode it was made with: the one asked for,
    less the umask of the process. *)
Class FileModes (P : Type) `{!Files P} `{!SQLDrivers P} := {
  mode_of : string -> P -> option Z;
  umask : Z;
  mkdir_mode : forall d m p, (mkdir_all d m p).1 = None ->
    mode_of d (mkdir_all d m p).2 = Some (default (Z.land m (Z.lnot umask)) (mode_of d p));
  stat_mode : forall d p info m, (stat d p).1 = inl info -> mode_of d p = Some m -> info_perm info = m;
  mkdir_keeps : forall d d' m p mode, mode_of d p = Some mode -> mode_of d (mkdir_all d' m p).2 = Some mode;
  stat_keeps : forall d d', calls eq (mode_of d) (stat d');
  lstat_keeps : forall d f, calls eq (mode_of d) (lstat f);
  create_keeps : forall d f m, calls eq (mode_of d) (create_exclusive f m);
  open_keeps : forall d dsn, calls eq (mode_of d) (open_sqlite dsn);
  exec_keeps : forall d sql, calls eq (mode_of d) (exec_sqlite sql);
  schema_keeps : forall d, calls eq (mode_of d) exec_schema;
  close_keeps : forall d, calls eq (mode_of d) close_store
}.
#[export] Hint Resolve stat_keeps lstat_keeps create_keeps open_keeps exec_keeps schema_keeps : walk.

Section Migrated.
Context `{Env} {P : Type} `{!SecretStores P} `{!Contexts P} `{!Files P} `{!SQLDrivers P} `{!PolicyPool P} `{!TemplateFiles P}.
Context `{!TemplateEngine} `{!URLs} `{!IPText} `{!FileModes P}.

(** What has a mode keeps it. *)
Definition mode_kept (a b : option Z) : Prop := forall mode, a = Some mode -> b = Some mode.
#[local] Instance mode_kept_preorder : PreOrder mode_kept.
Proof. split; [by intros ? ?|]. intros a b c Hab Hbc mode Ha. by apply Hbc, Hab. Qed.

Lemma calls_kept {B} d (f : P -> B * P) : calls eq (mode_of d) f -> calls mode_kept (mode_of d) f.
Proof. intros Hf p mode Hm. by rewrite <- (Hf p). Qed.
Lemma mkdir_kept d d' m : calls mode_kept (mode_of d) (mkdir_all d' m).
Proof. intros p mode Hm. by apply mkdir_keeps. Qed.
#[local] Hint Resolve calls_kept mkdir_kept : walk.

Lemma exec_all_keeps d statements : calls mode_kept (mode_of d) (exec_all statements).
Proof.
  induction statements as [|sql statements IH]; intros p mode Hm; [done|]. cbn.
  pose proof (calls_kept d _ (exec_keeps d sql) p mode Hm) as Hk.
  destruct (exec_sqlite sql p) as [[err|] p']; [done|by apply IH].
Qed.
#[local] Hint Resolve exec_all_keeps : walk.

Lemma NewSQLite_keeps d path : calls mode_kept (mode_of d) (NewSQLite path).
Proof. unfold NewSQLite, prepareSQLitePath. by_walk. Qed.

(** The server does not start on a directory that others may enter. *)
Lemma shared_directory_refused source database p mode :
  StateDB.Driver database <> "postgresql" ->
  mode_of (dir_of (StateDB.Path database)) p = Some mode -> Z.land mode 63 <> 0 ->
  exists err, (start_store source database p).1 = inr (Fails err).
Proof.
  intros Hd Hm Hs. unfold start_store. apply String.eqb_neq in Hd. rewrite Hd.
  assert (exists err p', private_directory (StateDB.Path database) p = (Some err, p')) as (err & p' & He).
  { unfold private_directory, run, mbind, go_bind, call. cbn.
    pose proof (mkdir_keeps _ (dir_of (StateDB.Path database)) perm_0700 p mode Hm) as Hm'.
    destruct (mkdir_all _ _ p) as [[e|] p1]; cbn in *; [by eexists _, _|].
    pose proof (stat_mode (dir_of (StateDB.Path database)) p1) as Hi.
    destruct (stat _ p1) as [[info|e] p2]; cbn in *; [|by eexists _, _].
    specialize (Hi info mode eq_refl Hm'). unfold guard_err, shared_perm. rewrite Hi.
    apply Z.eqb_neq in Hs. rewrite Hs. rewrite orb_true_r. by eexists _, _. }
  exists err. unfold run, mbind, go_bind, call. cbn. by rewrite He.
Qed.

(** C29: [truster migrate] makes the missing directory of a SQLite database with mode 0755:
    unless the umask takes the access of others away, the server then refuses to start on
    the database the command has made. *)
Theorem migrated_sqlite_is_refused (cfg : Config.Config) (database : StateDB.StateDatabaseConfig) (source : secret_source)
    (p p' : P)
    (Hdatabase : Config.StateDatabase cfg = Some database) (Hdriver : StateDB.Driver database = "sqlite")
    (Hmissing : mode_of (dir_of (StateDB.Path database)) p = None)
    (Humask : Z.land (Z.land perm_0755 (Z.lnot umask)) 63 <> 0)
    (Hmigrate : migrate (inl cfg) p = (inl tt, p')) :
  exists err, (start_store source database p').1 = inr (Fails err).
Proof.
  apply shared_directory_refused with (mode := Z.land perm_0755 (Z.lnot umask)); [by rewrite Hdriver| |done].
  revert Hmigrate. unfold migrate. rewrite Hdatabase, Hdriver. cbn [String.eqb Ascii.eqb Bool.eqb].
  rewrite run_call. unfold migrate_sqlite, run at 1, mbind, go_bind, call at 1. cbn.
  pose proof (mkdir_mode (dir_of (StateDB.Path database)) perm_0755 p) as Hm.
  destruct (mkdir_all _ _ p) as [[e|] p1]; [done|]. specialize (Hm eq_refl). rewrite Hmissing in Hm. cbn in Hm.
  pose proof (NewSQLite_keeps (dir_of (StateDB.Path database)) (StateDB.Path database) p1 _ Hm) as Hk.
  unfold attempt, mbind, go_bind, call. destruct (NewSQLite _ p1) as [[store|e] p2]; cbn in *; [|done].
  pose proof (calls_kept _ _ (close_keeps (dir_of (StateDB.Path database))) p2 _ Hk) as Hc.
  destruct (close_store p2) as [[e|] p3]; cbn in *; [done|]. by intros [= <-].
Qed.
End Migrated.

(** [check trust] ends without an error exactly when the service accepts the trimmed token
    for the client, its result being what is printed. *)
Lemma check_trust_accepts {W} `{Env} (verify : string -> string -> W -> (option Verified.Result * option error) * W)
    loaded opened clientID tokenFile input w :
  (check_trust verify loaded opened clientID tokenFile input w).1.2 = None <->
  clientID <> "" /\ tokenFile <> "" /\ (exists cfg, loaded = inl cfg) /\ opened = inl tt /\
  exists data, input = Some (Some data) /\ len data <= MaxJWTBytes /\ (verify (trim_space data) clientID w).1.2 = None.
Proof.
  unfold check_trust. destruct (is_empty clientID) eqn:Hc, (is_empty tokenFile) eqn:Ht; cbn [orb];
    try (split; [done|]; intros (? & ? & _); (apply empty_true in Hc || apply empty_true in Ht); done).
  rewrite empty_false in Hc, Ht.
  destruct loaded as [cfg|err]; [|split; [done|by intros (_ & _ & [? ?] & _)]].
  destruct opened as [[]|err]; [|split; [done|by intros (_ & _ & _ & ? & _)]].
  destruct input as [[data|]|]; cbn; [|split; [done|by intros (_ & _ & _ & _ & ? & ? & _)]|];
    [|split; [done|by intros (_ & _ & _ & _ & ? & ? & _)]].
  assert (len data <= MaxJWTBytes -> take_bytes (Z.to_nat (MaxJWTBytes + 1)) data = data) as Htake.
  { intros Hl. apply take_bytes_all. unfold len in *. lia. }
  destruct (Z.leb_spec (len data) MaxJWTBytes) as [Hl|Hl].
  - rewrite (Htake Hl). destruct (Z.ltb_spec MaxJWTBytes (len data)); [lia|].
    destruct (verify (trim_space data) clientID w) as [[result [e|]] w'] eqn:Hv; cbn.
    + split; [done|]. intros (_ & _ & _ & _ & d & [= <-] & _ & Hd). by rewrite Hv in Hd.
    + split; [|done]. intros _. split_and!; [done..|by exists cfg|done|]. exists data. by rewrite Hv.
  - assert ((MaxJWTBytes <? len (take_bytes (Z.to_nat (MaxJWTBytes + 1)) data)) = true) as ->.
    { apply Z.ltb_lt. unfold len in *. rewrite length_take_bytes. lia. }
    split; [done|]. intros (_ & _ & _ & _ & d & [= <-] & ? & _). lia.
Qed.

(** ** A file system *)

Module Disk.

(** The modes of the directories; the umask is 022. *)
#[local] Instance disk : Files (gmap string Z) := {|
  dir_of _ := "data";
  mkdir_all d m p := (None, match p !! d with Some _ => p | None => <[d := Z.land m (Z.lnot 18)]> p end);
  stat d p := (match p !! d with
               | Some mode => inl {| info_dir := true; info_regular := false; info_perm := mode |}
               | None => inr (Errorf "none")
               end, p);
  lstat _ p := (inr (Errorf "none"), p);
  create_exclusive _ _ p := (Created None, p)
|}.
#[local] Instance sqlite : SQLDrivers (gmap string Z) := {|
  path_escape s := s; open_sqlite _ p := (None, p); exec_sqlite _ p := (None, p); exec_schema p := (None, p); close_store p := (None, p);
  parse_connection _ := None; ping_postgresql _ p := (None, p); schema_row p := (inl (2, false), p);
  privileges_row p := (inl true, p); probe_row p := (None, p); encode_query _ := ""; url_string _ := "";
  migrate_open _ p := (None, p); migrate_up p := (None, p)
|}.
#[local] Program Instance modes : FileModes (gmap string Z) := {| mode_of d p := p !! d; umask := 18 |}.
Solve All Obligations with try done.
Next Obligation.
  intros d m p _. cbn. destruct (p !! d) eqn:Hd; cbn; [by rewrite Hd|by rewrite lookup_insert_eq].
Qed.
Next Obligation. intros d p info m Hs Hm. cbn in *. rewrite Hm in Hs. by injection Hs as <-. Qed.
Next Obligation.
  intros d d' m p mode Hm. cbn in *. destruct (p !! d') eqn:Hd'; [done|].
  rewrite lookup_insert_ne; [done|]. intros ->. congruence.
Qed.
End Disk.

Import Disk.
#[local] Existing Instances disk sqlite modes.

Section Witness.
#[local] Instance no_secrets : SecretStores (gmap string Z) := {|
  open_client _ _ p := (None, p); client_secret _ _ p := (inl None, p); google_payload _ p := (inr (Errorf "none"), p);
  getenv name p := ("", p); open_file _ p := (inr (Errorf "none"), p)
|}.
#[local] Instance no_contexts : Contexts (gmap string Z) := fun p => (false, p).
#[local] Instance no_urls : URLs := fun _ => None.
#[local] Instance no_ips : IPText := fun _ => false.

Definition sqlite_database : StateDB.StateDatabaseConfig :=
  {| StateDB.Driver := "sqlite"; StateDB.Path := "data/state.db"; StateDB.ConnectionStringSecret := "";
     StateDB.MaxConnections := 0; StateDB.QueryTimeout := 0; StateDB.Migrations := None |}.
Definition sqlite_config : Config.Config := zero_config <| Config.StateDatabase := Some sqlite_database |>.

Lemma migrated_sqlite_is_refused_witness :
  exists p', migrate (inl sqlite_config) ∅ = (inl tt, p') /\
  exists err, (start_store (Configured EnvProvider) sqlite_database p').1 = inr (Fails err).
Proof.
  exists {[ "data" := 493 ]}. split; [vm_compute; reflexivity|].
  apply (migrated_sqlite_is_refused sqlite_config sqlite_database (Configured EnvProvider) ∅).
  - reflexivity.
  - reflexivity.
  - reflexivity.
  - vm_compute. discriminate.
  - vm_compute. reflexivity.
Defined.
End Witness.

(** ** The command line *)

(** Flags that do not go together are refused before anything is done. *)
Lemma verbose_needs_version {P} `{!Terminal P} b (p : P) :
  root_command b false true p = (Some (Errorf "--verbose requires --version"), p).
Proof. done. Qed.
Lemma demo_refuses_config {P X} (serve : bool -> P -> (X + error) * P) p :
  serve_command true true serve p = (inr (Errorf "--demo and --config cannot be used together"), p).
Proof. done. Qed.

(** The version is printed before the details of the build, and no detail is printed when it
    cannot be. *)
Lemma version_is_printed_first {P} `{!Terminal P} b (verbose : bool) (p : P) :
  let (err, p') := write_output ("truster version " +:+ BuildVersion b +:+ newline) p in
  root_command b true verbose p =
    match err with
    | Some err => (Some (Wrapped "write version" err), p')
    | None => if verbose then let (err, q) := write_output (build_details b) p' in (Wrapped "write build details" <$> err, q)
              else (None, p')
    end.
Proof.
  unfold root_command, run, return_if. rewrite andb_false_r. unfold mbind, go_bind, call, mret, go_ret.
  cbn [negb]. destruct (write_output _ p) as [[err|] p']; [done|]. destruct verbose; cbn [negb]; [|done].
  by destruct (write_output (build_details b) p').
Qed.
