(* ===== verification/DevServer.v ===== *)
(** * internal/dev/server.go: previews of the templates

    [truster dev]: the templates of a directory, loaded again when their signature changes,
    and rendered with fixed data; each page polls the revision and reloads itself.  The
    file system, the clock and the texts of errors are a class; the ticker and the requests
    are a sequence of events. *)

From stdpp Require Import pretty.
From S2P Require Import Prelude Runtime Sha256 Services Http Pages.

Definition devReloadInterval : duration := 500 * (1000000 * nanosecond).

(** ** The directory of the templates *)

(** A call of the function of [filepath.WalkDir]: the error it is given, a directory, or a
    file with its path relative to the root and its content. *)
Inductive DevEntry :=
  | WalkFailed (err : error)
  | Directory
  | File (relative content : string + error).

Class DevFiles (P : Type) := {
  dev_walk : string -> P -> list DevEntry * P;
  dev_now : P -> time * P;
  error_text : error -> string;
  not_exist : error -> bool;
  path_to_slash : string -> string
}.

Section Signature.
Context {P : Type} `{!DevFiles P}.

(** The text the walk writes to the hash, until the function returns an error. *)
Fixpoint walk_text (entries : list DevEntry) : string * option error :=
  match entries with
  | [] => ("", None)
  | WalkFailed err :: entries => let (text, e) := walk_text entries in (error_text err +:+ text, e)
  | Directory :: entries => walk_text entries
  | File (inr err) _ :: _ => ("", Some err)
  | File _ (inr err) :: _ => ("", Some err)
  | File (inl relative) (inl content) :: entries =>
      let (text, e) := walk_text entries in (path_to_slash relative +:+ content +:+ text, e)
  end.

Definition templateDirSignature (dir : string) : P -> string * P := run (
  entries ← call (dev_walk dir);
  let (text, err) := walk_text entries in
  mret (sha256 (text +:+ match err with
                         | Some err => if not_exist err then "" else error_text err
                         | None => ""
                         end))).
End Signature.

(** ** Responses *)

(** The header a handler starts from; what is set later replaces it. *)
Definition set_before (header : string * string) (r : Answer.Response) : Answer.Response :=
  if existsb (fun h => (h.1 =? header.1)%string) (Answer.Headers r) then r else with_headers [header] r.

(** [html.EscapeString] *)
Definition escape_byte (c : ascii) : string :=
  if Ascii.eqb c "&" then "&amp;"
  else if Ascii.eqb c "'" then "&#39;"
  else if Ascii.eqb c "<" then "&lt;"
  else if Ascii.eqb c ">" then "&gt;"
  else if Ascii.eqb c "034" then "&#34;"
  else String c "".
Fixpoint EscapeString (s : string) : string :=
  match s with EmptyString => "" | String c s => escape_byte c +:+ EscapeString s end.

(** [bytes.Replace(s, old, new, 1)], [old] not being empty. *)
Fixpoint replace_first (s old new : string) : string :=
  if has_prefix s old then new +:+ drop_bytes (String.length old) s
  else match s with EmptyString => "" | String c s => String c (replace_first s old new) end.

Definition quote : string := String "034" "".
Definition reload_script (revision : Z) : string :=
  "<script>(()=>{const r=" +:+ quote +:+ pretty revision +:+ quote
  +:+ ";setInterval(async()=>{try{if(await(await fetch(" +:+ quote +:+ "/__truster_dev/revision" +:+ quote
  +:+ ",{cache:" +:+ quote +:+ "no-store" +:+ quote
  +:+ "})).text()!=r)location.reload()}catch{}},500)})()</script>".

Definition injectReload (body : string) (revision : Z) : string :=
  let script := reload_script revision in
  if contains body "</body>" then replace_first body "</body>" (script +:+ "</body>") else body +:+ script.

Definition html_type : string := "text/html; charset=utf-8".
Definition plain_type : string := "text/plain; charset=utf-8".

(** ** The server *)

Section Server.
Context `{Env} `{TemplateEngine} {P : Type} `{!TemplateFiles P} `{!DevFiles P}.

(** [dev.templateServer] *)
Record templateServer := {
  dir : string;
  manager : option Manager;
  loadErr : option error;
  revision : Z;
  signature : string
}.

(** [s.revision++] on a uint64. *)
Definition next_revision (r : Z) : Z := (r + 1) `mod` 2 ^ 64.

Definition reload (force : bool) (s : templateServer) : P -> templateServer * P := run (
  sign ← call (templateDirSignature (dir s));
  return_if (negb force && (sign =? signature s)%string) s ;;
  now ← call dev_now;
  loaded ← call (Load (dir s) now (sample_pages now));
  mret {| dir := dir s;
          manager := match loaded with inl m => Some m | inr _ => manager s end;
          loadErr := match loaded with inl _ => None | inr err => Some err end;
          revision := next_revision (revision s);
          signature := sign |}).

Definition newTemplateServer (d : string) : P -> templateServer * P :=
  reload true {| dir := d; manager := None; loadErr := None; revision := 0;
                 signature := bytes_string (replicate 32 0) |}.

Definition handleMockPost (r : Http.Request) : Answer.Response :=
  if mem (Http.Path r) ["/email/start"; "/email/resend"] then redirect_to 303 "/pages/otp.html" []
  else if (Http.Path r =? "/email/verify")%string then redirect_to 303 "/pages/selector.html" []
  else if (Http.Path r =? "/identity/select")%string then redirect_to 303 "/pages/selector.html" []
  else http_error 404 [] "404 page not found".

Definition mock_index : string :=
  let link url name := "<li><a target=" +:+ quote +:+ "_blank" +:+ quote +:+ " href=" +:+ quote +:+ url +:+ quote
                       +:+ ">" +:+ name +:+ "</a></li>" in
  "<!doctype html><html><head><meta charset=" +:+ quote +:+ "utf-8" +:+ quote
  +:+ "><title>Truster template previews</title></head><body><main><h1>Truster template previews</h1><ul>"
  +:+ link "/pages/selector.html" "Connector selector" +:+ link "/pages/identity.html" "Identity selector"
  +:+ link "/pages/otp.html" "OTP entry" +:+ link "/pages/error.html" "Error page"
  +:+ link "/email/otp.html" "HTML email" +:+ link "/email/otp.txt" "Plain-text email"
  +:+ "</ul></main></body></html>".

(** What is rendered at a path, with its content type; [None] is left to the public files. *)
Definition preview (m : Manager) (data : PageData) (path : string) (now : time) : option ((string + error) * string) :=
  let mail := MailTemplate "12345678" (add now (5 * minute)) (5 * minute) in
  let PageTemplate := PageTemplate data in
  let render t data := match execute t data with Some text => inl text | None => inr (Errorf "template") end in
  if (path =? "/")%string then Some (inl mock_index, html_type)
  else if (path =? "/pages/selector.html")%string then
    Some (RenderPage m "selector" (PageTemplate (SelectorPage "Sign in" "" "mock-state" ""
      [{| conn_ID := "google"; conn_DisplayName := "Google"; conn_URL := "#google"; conn_Email := false |};
       {| conn_ID := "github"; conn_DisplayName := "GitHub"; conn_URL := "#github"; conn_Email := false |};
       {| conn_ID := "email"; conn_DisplayName := "Email"; conn_URL := ""; conn_Email := true |}])), html_type)
  else if (path =? "/pages/otp.html")%string then
    Some (RenderPage m "otp" (PageTemplate (OTPPage "Verify email" "mock-challenge" "A code was sent." "" "user@example.com"
      (5 * minute) 0 (add now (5 * minute)) 0)), html_type)
  else if (path =? "/pages/identity.html")%string then
    Some (RenderPage m "identity" (PageTemplate (IdentityPage "Choose an email" "mock-token"
      [{| mail_Address := "primary@example.com"; mail_Verified := true; mail_Primary := true |};
       {| mail_Address := "other@example.com"; mail_Verified := false; mail_Primary := false |}])), html_type)
  else if (path =? "/pages/error.html")%string then
    Some (RenderPage m "error" (ErrorTemplate data "Login failed" "This is a mock error message."), html_type)
  else if (path =? "/email/otp.html")%string then Some (render (emailHTML m) mail, html_type)
  else if (path =? "/email/otp.txt")%string then Some (render (emailText m) mail, plain_type)
  else None.

Definition preview_data (r : Http.Request) : PageData :=
  {| pd_Request := request_data r; pd_IssuerURL := "https://auth.example.com"; pd_HomepageURL := "https://app.example.com" |}.

Definition error_page (err : error) : string :=
  "<!doctype html><title>Template error</title><h1>Template error</h1><pre>" +:+ EscapeString (error_text err)
  +:+ "</pre></body>".

Definition ServeHTTP (s : templateServer) (r : Http.Request) (now : time) : Answer.Response :=
  set_before ("Cache-Control", "no-store") (
    if (Http.Path r =? "/__truster_dev/revision")%string
    then reply 200 [("Content-Type", plain_type)] (RawBody (pretty (revision s)))
    else match loadErr s with
    | Some err => reply 500 [("Content-Type", html_type)] (RawBody (injectReload (error_page err) (revision s)))
    | None =>
    match manager s with
    | None => http_error 500 [] "templates unavailable"
    | Some m =>
        if (Http.Method r =? "POST")%string then handleMockPost r
        else if (Http.Method r =? "HEAD")%string then HandlePublic m r (preview_data r)
        else if negb (Http.Method r =? "GET")%string then http_error 405 [] "method not allowed"
        else match preview m (preview_data r) (Http.Path r) now with
        | None => HandlePublic m r (preview_data r)
        | Some (inr err, _) => http_error 500 [] (error_text err)
        | Some (inl output, contentType) =>
            reply 200 [("Content-Type", contentType)]
              (RawBody (if (contentType =? html_type)%string then injectReload output (revision s) else output))
        end
    end
    end).

(** The life of a server: its ticker and its requests, one after the other as the lock
    orders them. *)
Inductive event := Tick | Asked (r : Http.Request).

Definition dev_step (e : event) (s : templateServer) : P -> (templateServer * option Answer.Response) * P := run (
  match e with
  | Tick => s ← call (reload false s); mret (s, None)
  | Asked r => now ← call dev_now; mret (s, Some (ServeHTTP s r now))
  end).
Fixpoint dev_run (events : list event) (s : templateServer)
  : P -> (templateServer * list Answer.Response) * P := run (
  match events with
  | [] => mret (s, [])
  | e :: events =>
      '(s, answer) ← call (dev_step e s);
      '(s, answers) ← call (dev_run events s);
      mret (s, match answer with Some a => a :: answers | None => answers end)
  end).
End Server.

(** ** The terminal *)

(** What [handleInput] does: the browser is opened, with its failure printed, or the run
    is cancelled.  Each key comes with whether the context is done once it is handled. *)
Inductive terminal := Opened | Unable (err : error) | Cancelled.
Fixpoint handleInput (opener : option error) (keys : list (ascii * bool)) : list terminal :=
  match keys with
  | [] => []
  | (key, done) :: keys =>
      if Ascii.eqb key "003" then [Cancelled]
      else (if Ascii.eqb key "o" || Ascii.eqb key "O"
            then [match opener with None => Opened | Some err => Unable err end] else [])
           ++ (if done : bool then [] else handleInput opener keys)
  end.

Definition browser_command (goos url : string) : list string :=
  if (goos =? "darwin")%string then ["open"; url]
  else if (goos =? "windows")%string then ["rundll32"; "url.dll,FileProtocolHandler"; url]
  else ["xdg-open"; url].
Definition openBrowser (goos url : string) (start release : list string -> option error) : option error :=
  match start (browser_command goos url) with
  | Some err => Some (Wrapped "start browser command" err)
  | None => release (browser_command goos url)
  end.

(** ** The run *)

(** The first that happens: the listener's server ends, or the context is done and the
    server is shut down. *)
Inductive dev_end := Served (closed : bool) (err : error) | Stopped (err : option error).

Definition dev_banner (url : string) : list string :=
  ["Template development server: " +:+ url; "Previews:";
   "  /                       Preview index";
   "  /pages/selector.html    Connector selector";
   "  /pages/identity.html    Identity selector";
   "  /pages/otp.html         OTP entry";
   "  /pages/error.html       Error page";
   "  /email/otp.html         HTML email";
   "  /email/otp.txt          Plain-text email";
   "Press O to open this in your browser."].

Definition Run (listening : string + error) (ended : dev_end) : list string * option error :=
  match listening with
  | inr err => ([], Some (Wrapped "listen for template development server" err))
  | inl addr =>
      (dev_banner ("http://" +:+ addr +:+ "/"),
       match ended with
       | Served closed err => if closed then None else Some err
       | Stopped err => err
       end)
  end.

(** * What the preview server guarantees (DevServer.v)

    The templates that loaded last stay in use while the directory is broken, the revision
    moves exactly when something was loaded again, previews are not cached, and the text of
    an error cannot leave its place in the page. *)

(** ** Reloading *)

Section Reloading.
Context `{Env} `{TemplateEngine} {P : Type} `{!TemplateFiles P} `{!DevFiles P}.
Implicit Types s t : templateServer.

(** A server with something to show: templates, or the error of the last load. *)
Definition ready s : Prop := loadErr s = None -> is_Some (manager s).

(** The state after one load. *)
Definition loaded_from s t : Prop :=
  dir t = dir s /\ revision t = next_revision (revision s) /\
  ((loadErr t = None /\ is_Some (manager t)) \/ (is_Some (loadErr t) /\ manager t = manager s)).

Lemma loaded_ready s t : loaded_from s t -> ready t.
Proof. by intros (_ & _ & [[_ Hm]|[[err E] _]]) He; [|rewrite E in He]. Qed.

(** A change, or force, loads once; otherwise nothing changes. *)
Lemma reload_spec force s p :
  ends (reload force s) p (fun t _ =>
    if negb force && ((templateDirSignature (dir s) p).1 =? signature s)%string
    then t = s
    else loaded_from s t /\ signature t = (templateDirSignature (dir s) p).1).
Proof.
  apply ends_run, wp_bind, wp_call. unfold ends. destruct (templateDirSignature (dir s) p) as [sign p'].
  cbn [fst snd]. unfold return_if. apply wp_bind.
  destruct (negb force && (sign =? signature s)%string); [done|].
  apply wp_ret. apply wp_bind, wp_call, ends_eq. intros now p1 _.
  apply wp_bind, wp_call, ends_eq. intros [m|err] p2 _; apply wp_ret; cbn; repeat split; eauto.
Qed.

Lemma newTemplateServer_ready d p : ends (newTemplateServer d) p (fun s _ => ready s /\ dir s = d).
Proof.
  eapply ends_mono; [apply reload_spec|]. cbn. intros s p' [Hl _].
  split; [by eapply loaded_ready|]. by destruct Hl as (-> & _).
Qed.

Lemma reload_ready force s p : ready s -> ends (reload force s) p (fun t _ => ready t /\ dir t = dir s).
Proof.
  intros Hs. eapply ends_mono; [apply reload_spec|]. intros t p'.
  destruct (_ && _); [by intros ->|]. intros [Hl _]. split; [by eapply loaded_ready|]. by destruct Hl as (-> & _).
Qed.

(** Whatever happens to the directory, the server keeps something to show. *)
Lemma dev_run_ready events s p : ready s -> ends (dev_run events s) p (fun r _ => ready r.1 /\ dir r.1 = dir s).
Proof.
  revert s p. induction events as [|e events IH]; intros s p Hs; apply ends_run.
  { by apply wp_ret. }
  assert (ends (dev_step e s) p (fun r _ => ready r.1 /\ dir r.1 = dir s)) as Hstep.
  { destruct e as [|r]; apply ends_run, wp_bind, wp_call.
    - eapply ends_mono; [by apply reload_ready|]. intros t p' Ht. by apply wp_ret.
    - apply ends_eq. intros now p' _. by apply wp_ret. }
  apply wp_bind, wp_call. eapply ends_mono; [exact Hstep|]. intros [t answer] p' [Ht Hd]. cbn [fst] in *.
  apply wp_bind, wp_call. eapply ends_mono; [by apply IH|]. intros [u answers] q [Hu Hud]. apply wp_ret.
  cbn in *. by rewrite <- Hd.
Qed.

(** The revision of a page differs from that of the next load. *)
Lemma next_revision_differs r : 0 <= r < 2 ^ 64 -> next_revision r <> r /\ 0 <= next_revision r < 2 ^ 64.
Proof.
  intros Hr. unfold next_revision. split; [|by apply Z.mod_pos_bound].
  destruct (decide (r + 1 = 2 ^ 64)) as [E|E]; [rewrite E, Z_mod_same_full; lia|].
  rewrite Z.mod_small by lia. lia.
Qed.
End Reloading.

(** ** Pages *)

Lemma replace_first_split s old new pre post :
  s = pre +:+ old +:+ post -> (forall a b, pre = a +:+ b -> b <> "" -> has_prefix (b +:+ old +:+ post) old = false) ->
  replace_first s old new = pre +:+ new +:+ post.
Proof.
  intros ->. induction pre as [|c pre IH]; intros Hfirst.
  - change ("" +:+ ?x) with x. destruct (old +:+ post) as [|c s] eqn:E;
      cbn [replace_first]; rewrite <- E, has_prefix_append, drop_bytes_append; done.
  - change (String c pre +:+ ?x) with (String c (pre +:+ x)). cbn [replace_first].
    pose proof (Hfirst "" (String c pre) eq_refl ltac:(done)) as Hc.
    change (String c pre +:+ ?x) with (String c (pre +:+ x)) in Hc. rewrite Hc. f_equal. apply IH.
    intros a b -> Hb. by apply (Hfirst (String c a) b).
Qed.

Lemma contains_middle pre old post : contains (pre +:+ old +:+ post) old = true.
Proof.
  induction pre as [|c pre IH].
  - change ("" +:+ ?x) with x. destruct (old +:+ post) as [|c s] eqn:E; cbn [contains];
      by rewrite <- E, has_prefix_append.
  - change (String c pre +:+ ?x) with (String c (pre +:+ x)). cbn [contains]. rewrite IH. apply orb_true_r.
Qed.

(** The script goes before the first end of the body, or at the end of the text. *)
Lemma injectReload_body revision pre post :
  (forall a b, pre = a +:+ b -> b <> "" -> has_prefix (b +:+ "</body>" +:+ post) "</body>" = false) ->
  injectReload (pre +:+ "</body>" +:+ post) revision = pre +:+ (reload_script revision +:+ "</body>") +:+ post.
Proof.
  intros Hfirst. unfold injectReload. rewrite contains_middle. by apply replace_first_split.
Qed.
Lemma injectReload_no_body body revision :
  contains body "</body>" = false -> injectReload body revision = body +:+ reload_script revision.
Proof. unfold injectReload. by intros ->. Qed.

(** Escaped text has no character of markup but the ampersands of its references. *)
Definition markup (c : ascii) : bool := Ascii.eqb c "<" || Ascii.eqb c ">" || Ascii.eqb c "'" || Ascii.eqb c "034".
Lemma EscapeString_plain s : string_forallb (fun c => negb (markup c)) (EscapeString s) = true.
Proof.
  induction s as [|c s IH]; [done|]. cbn [EscapeString]. rewrite string_forallb_app, IH, andb_true_r.
  unfold escape_byte. repeat (case_match; [done|]). cbn [string_forallb]. unfold markup.
  by repeat match goal with E : Ascii.eqb c _ = false |- _ => rewrite E; clear E end.
Qed.

(** ** Answers *)

Section Answers.
Context `{Env} `{TemplateEngine} {P : Type} `{!DevFiles P}.

(** Nothing is cached but the public files, which are revalidated. *)
Definition uncached (r : Answer.Response) : Prop :=
  forall value, ("Cache-Control", value) ∈ Answer.Headers r -> value = "no-store" \/ value = "no-cache".

Lemma set_before_cases name value r :
  (Answer.Headers (set_before (name, value) r) = (name, value) :: Answer.Headers r) \/
  (exists v, (name, v) ∈ Answer.Headers r) /\ set_before (name, value) r = r.
Proof.
  unfold set_before. destruct (existsb _ _) eqn:E; [right|by left]. split; [|done].
  apply existsb_exists in E as ([n v] & Hin & Hn). apply String.eqb_eq in Hn. cbn in Hn. subst.
  exists v. by apply list_elem_of_In.
Qed.

(** The responses the handler starts from. *)
Lemma ServeHTTP_cached s r now :
  (exists value, ("Cache-Control", value) ∈ Answer.Headers (ServeHTTP s r now)) /\ uncached (ServeHTTP s r now).
Proof.
  assert (forall m data, uncached (HandlePublic m r data)) as Hpublic.
  { intros m data value. unfold HandlePublic. repeat case_match; cbn; set_solver. }
  unfold ServeHTTP.
  match goal with |- context [set_before _ ?x] => set (answer := x) end.
  assert (uncached answer) as Ha.
  { unfold answer, handleMockPost. repeat case_match; try apply Hpublic; intros value; cbn; set_solver. }
  destruct (set_before_cases "Cache-Control" "no-store" answer) as [E|[Hv ->]]; [|done].
  split; [exists "no-store"; rewrite E; set_solver|]. intros value. rewrite E. specialize (Ha value). set_solver.
Qed.

(** A request for the revision is answered with it, templates or not. *)
Lemma ServeHTTP_revision s r now :
  Http.Path r = "/__truster_dev/revision" ->
  Answer.Status (ServeHTTP s r now) = 200 /\ Answer.Content (ServeHTTP s r now) = RawBody (pretty (revision s)).
Proof. intros E. unfold ServeHTTP. by rewrite E. Qed.

(** A server with something to show never says that it has no templates: it answers a
    request for a preview with the error of its load or from its templates. *)
Lemma ServeHTTP_ready s r now :
  ready s -> Http.Path r <> "/__truster_dev/revision" ->
  (exists err, loadErr s = Some err /\ Answer.Status (ServeHTTP s r now) = 500) \/
  (exists m, manager s = Some m /\ loadErr s = None).
Proof.
  intros Hs Hp. destruct (loadErr s) as [err|] eqn:E.
  - left. exists err. split; [done|]. unfold ServeHTTP. rewrite E. by rewrite (proj2 (String.eqb_neq _ _) Hp).
  - right. destruct (Hs E) as [m Em]. eauto.
Qed.
End Answers.

(** ** The terminal *)

(** An interrupt ends the reading of keys, and only the keys before it count. *)
Lemma handleInput_interrupt opener pre post done :
  Forall (fun k => k.1 <> "003"%char /\ k.2 = false) pre ->
  handleInput opener (pre ++ ("003"%char, done) :: post) = handleInput opener pre ++ [Cancelled].
Proof.
  induction 1 as [|[key done'] pre [Hk Hd] Hpre IH]; [done|]. cbn in Hk, Hd. subst.
  cbn [app handleInput]. destruct (Ascii.eqb_spec key "003"); [done|]. by rewrite IH, <- (assoc_L (++)).
Qed.
