(* ===== verification/Program.v ===== *)
(** * The program

    What truster serve runs: a server started from its configuration, whose policy
    resolver, login providers, mailer, bot challenge, templates and public files are those
    of the repository (Resolver.v, Providers.v, Mail.v, Pages.v), over a policy database,
    the providers' servers and the network.  A running program answers every request. *)

From S2P Require Import Prelude Runtime Services ReplayCache Schema OtpStore GrantStore Json Config Loader LoaderSafety LoaderProperties ConfigDecode Credentials Tokens TrustPolicy TrustConfig Lru AuthPolicy Resolver Upstream Providers ProviderProperties Dpop Trust Http Oidc OidcToken OidcResource OidcFlow Server ServerAnswers Secrets Mail Databases Pages Startup StartupProperties TrustProperties AuthProperties TrustServiceProperties MailProperties OidcSample.

(** ** What surrounds a running program *)

(** The connection to the policy database with its caches, the servers of the login
    providers, and the rest of the network. *)
Record Surroundings (D O N : Type) := { policy : option (PostgreSQL D); providers : O; network : N }.
#[global] Arguments policy {D O N} _.
#[global] Arguments providers {D O N} _.
#[global] Arguments network {D O N} _.
#[global] Arguments Build_Surroundings {D O N} _ _ _.

Section Lifting.
Context {D O N : Type}.

Definition on_database {B} (f : option (PostgreSQL D) -> B * option (PostgreSQL D)) (p : Surroundings D O N)
  : B * Surroundings D O N :=
  let (b, r) := f (policy p) in (b, {| policy := r; providers := providers p; network := network p |}).
Definition on_providers {B} (f : O -> B * O) (p : Surroundings D O N) : B * Surroundings D O N :=
  let (b, o) := f (providers p) in (b, {| policy := policy p; providers := o; network := network p |}).
Definition on_network {B} (f : N -> B * N) (p : Surroundings D O N) : B * Surroundings D O N :=
  let (b, n) := f (network p) in (b, {| policy := policy p; providers := providers p; network := n |}).

Lemma produces_on_database {B} (Q : B -> Prop) f : produces Q f -> produces Q (on_database (B := B) f).
Proof. intros Hf p. unfold on_database. specialize (Hf (policy p)). by destruct (f (policy p)). Qed.
Lemma produces_on_providers {B} (Q : B -> Prop) f : produces Q f -> produces Q (on_providers (B := B) f).
Proof. intros Hf p. unfold on_providers. specialize (Hf (providers p)). by destruct (f (providers p)). Qed.
End Lifting.

(** ** The running program *)

Section Program.
Context `{Env} {D O N : Type} `{!PolicyDB D} `{!OAuth2Lib O} `{!FloatConversion}.
Context `{!SMTPServer N} `{!Boundaries N} `{!SiteVerify N} `{!HTTPClient N} `{!Contexts N} `{!Limiter N} `{!Readiness N}.
Context `{!TemplateEngine} `{!MailFormat} `{!MailText}.
Context `{!AEAD} `{!JWT} `{!CredentialJSON} `{!ExternalJWT} `{!FlowJSON} `{!EmailsJSON} `{!URLs} `{!ProofJSON} `{!JOSE}.
Context `{!MetadataJSON} `{!JSONLib} `{!NetText} `{!Sprint}.
Context (s : Started).

Abbreviation surroundings := (Surroundings D O N).

(** [authpolicy.NewResolver] on the configuration the server was started with. *)
Definition running_config : Config.Config := Server.config (server s).
Definition resolver_id : nat := 1.
Definition policy_settings : PolicyDB.PolicyDatabaseConfig := default zero_policy_database (Config.PolicyDatabase running_config).
Definition known_issuers : gmap string Issuer.TrustIssuerConfig := Config.ServiceTokenIssuers running_config.

#[export] Instance running_policy : PolicyResolver surroundings :=
  let r := resolver_policy running_config resolver_id policy_settings in
  {| ResolveClient id fresh := on_database (ResolveClient (PolicyResolver := r) id fresh);
     ResolveUser client subject := on_database (ResolveUser (PolicyResolver := r) client subject) |}.
#[export] Instance running_trust : TrustResolver surroundings :=
  let r := resolver_trust running_config resolver_id policy_settings known_issuers in
  {| ResolveTrustIssuer client url := on_database (ResolveTrustIssuer (TrustResolver := r) client url);
     ResolveTrustBindings client issuer := on_database (ResolveTrustBindings (TrustResolver := r) client issuer) |}.
#[export] Instance running_connectors : Connectors surroundings :=
  let c := provider_connectors (connectors s) in
  {| has_connector := has_connector (Connectors := c); AuthCodeURL := AuthCodeURL (Connectors := c);
     Exchange id code := on_providers (Exchange (Connectors := c) id code);
     Refresh id credential := on_providers (Refresh (Connectors := c) id credential);
     GetIdentity id token := on_providers (GetIdentity (Connectors := c) id token) |}.

#[export] Instance running_mails : MailTemplates := manager_mails (manager s).
#[export] Instance running_pages : PageTemplates := manager_templates (manager s).
#[export] Instance running_public : PublicPages := Pages.HandlePublic (manager s).

(** Without a transport nothing calls the mailer: [has_mailer] guards it. *)
Definition no_transport : error := Errorf "no mail transport".
#[export] Instance running_mailer : Mailer surroundings := fun to code expires =>
  match mailer s with
  | Some (smtp, credentials, ttl) => on_network (otp_mailer smtp credentials ttl to code expires)
  | None => fun p => (Some no_transport, p)
  end.
#[export] Instance running_challenge : Challenge surroundings := fun response ip =>
  on_network (challenge_of (challenge s) response ip).
#[export] Instance running_http : HTTPClient surroundings := fun dynamic url => on_network (http_get dynamic url).
#[export] Instance running_contexts : Contexts surroundings := on_network ctx_done.
#[export] Instance running_limiter : Limiter surroundings := fun path => on_network (allow path).
#[export] Instance running_readiness : Readiness surroundings := on_network ready.

Abbreviation proc := (Process (Peers surroundings)).

(** The answers to requests one after the other. *)
Fixpoint answer_all (requests : list Http.Request) : proc -> list Answer.Response * proc :=
  match requests with
  | [] => fun w => ([], w)
  | r :: requests => fun w =>
      let (answer, w) := serve (server s) r w in
      let (answers, w) := answer_all requests w in (answer :: answers, w)
  end.

(** ** What the parts promise *)

Lemma HandlePublic_answers r data : live (Pages.HandlePublic (manager s) r data).
Proof. unfold Pages.HandlePublic. repeat case_match; auto with live; apply live_rendered; auto with live. Qed.
#[export] Instance running_pages_live : LivePages.
Proof. exact HandlePublic_answers. Qed.

#[export] Instance running_connectors_lawful : LawfulConnectors surroundings.
Proof.
  pose proof (provider_connectors_lawful (connectors s)) as [He Hr Hk Hi].
  split; intros; apply produces_on_providers; auto.
Qed.

(** The key id a start generates plays no part in policy or mail. *)
Lemma resolve_client_kid cfg kid self settings clientID fresh (r : option (PostgreSQL D)) :
  resolve_client (cfg <| Config.JWKSKID := kid |>) self settings clientID fresh r
  = resolve_client cfg self settings clientID fresh r.
Proof. reflexivity. Qed.

Lemma running_resolver_sound `{!ConfigText} cfg : running_config = cfg <| Config.JWKSKID := Tokens.kid (Server.signer (server s)) |> ->
  config_sound cfg -> clients_sound (Config.StaticPolicy cfg) -> SoundResolver surroundings.
Proof.
  intros Hr Hs Hc clientID fresh. apply produces_on_database. intros r. cbn [ResolveClient resolver_policy]. rewrite Hr, resolve_client_kid.
  destruct (resolve_client _ _ _ _ _ r) as [[resolved err] r'] eqn:He. intros Hn. cbn in Hn. subst err.
  apply resolve_client_sound in He; [|done..]. destruct (cl_redirects _ He) as [_ Hf].
  eapply Forall_impl; [exact Hf|]. intros uri (u & Hu & _). by exists u.
Qed.

Lemma answer_all_live `{!SoundResolver surroundings} requests w :
  mail_served running_config (Server.has_mailer (server s)) ->
  length (answer_all requests w).1 = length requests /\ Forall live (answer_all requests w).1.
Proof.
  intros Hmail. revert w. induction requests as [|r requests IH]; intros w; cbn; [done|].
  pose proof (serve_answers (server s) Hmail r w) as Ha.
  destruct (serve (server s) r w) as [answer w']. specialize (IH w'). destruct (answer_all requests w') as [answers w''].
  cbn in *. destruct IH as [Hl Hf]. split; [lia|by constructor].
Qed.
End Program.

(** ** Every request is answered *)

Section Answers.
Context `{Env} {P D O N : Type} `{!PolicyDB D} `{!OAuth2Lib O} `{!FloatConversion}.
Context `{!SecretStores P} `{!Contexts P} `{!Files P} `{!SQLDrivers P} `{!PolicyPool P} `{!TemplateFiles P} `{!KeyPairs P}.
Context `{!IPText} `{!DocumentJSON} `{!KeyLib} `{!KeySets} `{!PKIX} `{!Endpoints} `{!ConfigText}.
Context `{!SMTPServer N} `{!Boundaries N} `{!SiteVerify N} `{!HTTPClient N} `{!Contexts N} `{!Limiter N} `{!Readiness N}.
Context `{!TemplateEngine} `{!MailFormat} `{!MailText}.
Context `{!AEAD} `{!JWT} `{!CredentialJSON} `{!ExternalJWT} `{!FlowJSON} `{!EmailsJSON} `{!URLs} `{!ProofJSON} `{!JOSE}.
Context `{!MetadataJSON} `{!JSONLib} `{!NetText} `{!Sprint}.

Abbreviation surroundings := (Surroundings D O N).

Lemma start_mail_served cfg demo now visit (p : P) s :
  config_sound cfg -> visit ≡ₚ map_to_list (Config.UserLoginConnectors cfg) ->
  (start (inl cfg) demo now visit p).1 = inl s ->
  running_config s = cfg <| Config.JWKSKID := Tokens.kid (Server.signer (server s)) |> /\
  mail_served (running_config s) (Server.has_mailer (server s)).
Proof.
  intros Hcfg Hv Hs. pose proof (start_sound (inl cfg) demo now visit cfg eq_refl Hcfg Hv p) as Ho. rewrite Hs in Ho. cbn in Ho.
  destruct Ho as (source & _ & Ho).
  split; [exact (st_config _ _ _ Ho)|]. intros id. unfold running_config, email_connector_of. rewrite (st_config _ _ _ Ho). cbn.
  destruct (Config.UserLoginConnectors cfg !! id) as [cc|] eqn:Hl; [|done]. intros He.
  pose proof (proj2 (cf_connectors _ Hcfg) id cc Hl) as Hcc.
  destruct (cn_mail _ _ _ Hcc) as (email & Hemail & Hm); [by apply String.eqb_eq|].
  destruct (started_mail_ready cfg source s email) as (Hi & Ht & _); [done..| |done|by split].
  unfold needs_email_delivery. by rewrite (has_email_visited _ _ _ Hl He).
Qed.

End Answers.

(** ** The sample configuration, running *)

#[local] Existing Instances SampleDB.sample_env SampleDB.sample_database Demo.demo_json LoaderProperties.Site.site_urls
  LoaderProperties.Site.site_text Machine.no_contexts Machine.secrets Machine.documents Machine.keys Machine.pkix Machine.key_sets
  Machine.endpoints Machine.files Machine.drivers Machine.pool Machine.ips Machine.template_files Machine.engine Machine.pairs
  ProviderProperties.Site.site_oauth ProviderProperties.Site.site_floats
  PostOffice.office PostOffice.drawn PostOffice.formats
  OidcSample.Site.aead OidcSample.Site.contexts OidcSample.Site.credential_json OidcSample.Site.jwt OidcSample.Site.jose
  OidcSample.Site.proofs OidcSample.Site.net OidcSample.Site.mail OidcSample.Site.printing OidcSample.Site.limiter
  OidcSample.Site.readiness OidcSample.Site.flow_json OidcSample.Site.emails_json
  TrustServiceProperties.Sample.network TrustServiceProperties.Sample.metadata TrustServiceProperties.Sample.external.

Module Deployment.

#[local] Instance challenges : SiteVerify nat := fun _ n => (inr (Errorf "none"), S n).

Abbreviation site := (Surroundings time Z nat).
Definition first : Process (Peers site) :=
  {| store := World_at 0 empty_tables;
     peers := {| replayCache := {| maxEntries := 4; entries := ∅; expiries := [] |}; issuer_cache := ∅;
                 outside := {| policy := Some SampleDB.started; providers := 0; network := O |} |} |}.

(** The key set, a page that is not there, a login by mail with its first page. *)
Definition requests : list Http.Request :=
  [OidcSample.Site.request "GET" "/jwks" "" "" OidcSample.Site.no_headers;
   OidcSample.Site.request "GET" "/nowhere" "" "" OidcSample.Site.no_headers;
   OidcSample.Site.request "GET" "/grants" "" "" OidcSample.Site.no_headers;
   OidcSample.Site.request "POST" "/email/start" "" "state=unknown" OidcSample.Site.no_headers;
   OidcSample.Site.request "POST" "/token" "" "" OidcSample.Site.no_headers].

End Deployment.

#[local] Existing Instance Deployment.challenges.
Import LoaderProperties.Site Machine Deployment.

